(* ===== verification/_CoqProject ===== *)
-Q . S2P
Prelude.v
GoStrings.v
GoStrconv.v
GoCrypto.v
GoNetip.v
GoMime.v
GoJson.v
GoJsonEnc.v
GoHttp.v
Canonical.v
GoUrl.v
BaseEndpoint.v
Hmac.v
NonceStore.v
WebhookSign.v
WebhookMessage.v
WebhookHandler.v
WebhookContract.v
Transcript.v
WebhookLifecycle.v
Errors.v
Redaction.v
Retry.v
Execute.v
Stream.v
AuthEpoch.v
DialGuard.v
GuardRefresh.v
Client.v
GuardClock.v
Multipart.v
CopyPool.v
MultipartFrame.v
Path.v
Media.v
StrictJson.v
Send.v
Snapshot.v
Calls.v
ErrorText.v
Responses.v
Wire.v
Fetch.v
SendFile.v
Session.v
Concurrent.v
ConcurrentCalls.v
Operations.v
Deadlines.v
