(* ===== verification/Prelude.v ===== *)
(** * Verification of iris-client-go

    The repository is a Go SDK with two halves.  The client half sends signed requests to an Iris server (replies,
    queries, media chunks) over HTTP/3: a client is built from options, discovers the server's authentication epoch,
    signs each request with an HMAC bound to that epoch, replays a request once when the epoch changed, and retries
    replies without ever sending one twice by accident.  The webhook half receives events: an HTTP handler that checks
    a signature over the whole request, spends its nonce in a store shared by all instances, decodes the message and
    hands it to an admitter before it answers.  Both halves share the canonical request target and the HMAC core.

    Everything is a shallow embedding.  Go strings and byte slices are lists of bytes; integers are [Z] with their
    bounds and wrap-around written out where they matter; maps are [gmap]; an [error] result is [result] or an error
    tree with [errors.Is] and [errors.As] as functions; mutable state is passed explicitly; goroutines that share a
    mutex or a channel are step relations or step functions over any number of goroutines.

    ** Files

    This file: results with the [let?] notation, bytes, shared list and integer lemmas, tactics ([bool_props],
    [inv_ok], ...) and hint databases.

    The Go standard library, as far as the SDK uses it: [GoStrings] (utf8, unicode, strings), [GoStrconv], [GoCrypto]
    (hex, SHA-256, HMAC, executable), [GoNetip], [GoUrl] (net/url), [GoMime], [GoJson] and [GoJsonEnc]
    (encoding/json/v2, reading and writing), [GoHttp].

    Shared core
    - [Canonical]: internal/irishmac/canonical.go; the canonical target and message IDs.
    - [Hmac]: internal/irishmac/hmac.go, internal/client/signing; the pooled signer, the webhook transcript, the
      signing headers.

    Webhook half
    - [NonceStore]: valkeydedup and webhook/nonce.go; the set-once contract as a class [SetOnceStore] and the Valkey
      store as an instance.
    - [WebhookSign]: webhooksign/sign.go.
    - [WebhookMessage]: webhook/types.go, thread.go, context.go and the decoding part of handler_validation.go.
    - [WebhookHandler]: webhook/handler.go, handler_options.go, handler_validation.go; one request through
      [ServeHTTP] in a state monad, over any [SetOnceStore].
    - [WebhookContract]: the decision table [serve_spec] that the handler refines, and what follows from it.
    - [Transcript]: hmac.go, sign.go, handler_validation.go; the transcripts that the signer and the handler make, and what
      they are bound to.
    - [WebhookLifecycle]: admissions against [CloseContext] as a step relation.

    Client half (internal/client/transport unless said otherwise)
    - [BaseEndpoint]: internal/baseendpoint; accepted base URLs.
    - [Errors]: errors.go; error values, codes, redaction.
    - [Redaction]: errors.go; the result of a redaction pass specified, and what is left of an error body.
    - [Retry]: retry.go, retry_after.go; the retry loop over an arbitrary environment, delays, Retry-After.
    - [Execute]: execute.go, auth_epoch.go and the request building of client.go; one request with its replay, over
      the state [cstate] (the cached epoch and the requests sent, in order).
    - [Stream]: execute.go; a typed body as it is read, for any read-ahead of the decoder and any sizes of the reads.
    - [AuthEpoch]: auth_epoch.go; the epoch cache shared by goroutines, as a labelled step relation.
    - [DialGuard]: h3_dial_guard.go, http3_transport.go; the egress guard over interleaved dials and refreshes.
    - [GuardRefresh]: h3_dial_guard.go, background.go; one refresh with its deferred function and its panics, as the
      actions of [DialGuard].
    - [GuardClock]: h3_dial_guard.go; the guard's goroutines with a clock and the lookup's timeout.
    - [Client]: options.go, transport.go, sdk.go, http3_transport.go, h3_dial_guard.go and the constructor in
      client.go; building a client and its guard.
    - [Multipart], [MultipartFrame]: internal/client/multipart; body factories and readers, and a reference reader of
      multipart bodies.
    - [CopyPool]: internal/client/multipart/file.go; file copies through the buffer pool they share.
    - [Path]: path.go and the paths of rooms.go.
    - [Media], [StrictJson], [Fetch]: media.go, internal/client/common/media_types.go, strict_json.go; media chunks,
      their strict decoder and [FetchMediaChunk] over the network.
    - [Send]: options.go, normalize.go, client.go, internal/client/common/types.go, iris/reply_reissue.go,
      iris/reply_status.go; replies before they are sent.
    - [Snapshot]: webhook/context.go, context_fields.go, options.go, client.go; slices that callers keep, over a store of
      arrays.
    - [Calls]: the retry loop around [Execute.do] and the operations of client.go, rooms.go and ping.go, with the query
      requests of internal/client/query/types.go.
    - [Responses]: room_types.go, reply_types.go, internal/client/query/types.go and the types of rooms.go; the types a
      call decodes, and typed calls.
    - [Wire]: the JSON bodies of replies and image uploads as a server reads them.
    - [SendFile]: file.go.
    - [Session]: all operations as one step function on a client's state.
    - [ErrorText]: errors.go; the texts of errors and what is logged of them.
    - [Concurrent]: auth_epoch.go, execute.go and retry.go under any number of goroutines; a call as a goroutine with its
      own steps, and the client as its goroutines with the cache of [AuthEpoch], which synchronize on the cache's labels.
    - [ConcurrentCalls]: the sequential calls of [Calls] as runs of that client, and the theorems on concurrent calls.
    - [Operations]: client.go, file.go, rooms.go; each typed operation as such a goroutine.
    - [Deadlines]: auth_epoch.go, execute.go and retry.go; the goroutines of [Concurrent] with a clock and the deadlines
      of their contexts.

    ** What is proved

    Webhook: the handler refines a decision table; an admitted message is authentic, is the decoded body, and is
    admitted before 200 is written; a request that was authenticated is not admitted again within the replay window
    (with the one gap found, as a concrete run); nonces are spent only by signed requests; a request that
    [signRequest] signed and that arrives intact, in time and for the first time, is authenticated, and answered
    with 200 if its body and the admitter allow it; after close no admission starts, close ends, and a nil close
    means no admission runs.  Signing: a transcript that the signer or the handler makes fits one request only, the
    pooled signer is a pure HMAC, two targets have one canonical form exactly when their queries mean the same, and
    the server reads from an SDK path the parameters that were signed.  Client, one request: "not sent" is honest, a
    typed response is complete or an unknown outcome, a redaction pass over ASCII text masks exactly the values, and
    no value of a sensitive header or token is left in an ASCII error body (with the misalignment found on invalid
    UTF-8).  Client, whole calls: every request a client ever sends is well formed and verifies on the server; a
    POST without a key is repeated only after the server refused it; a failure reported as definite is one; the JSON
    body of every reply says exactly what the caller asked for, and a typed value is exactly what the server's last
    answer says.  The epoch cache: one discovery at a time.  Concurrent calls: in every interleaving each request of
    a call carries that call and verifies with an epoch the server gave; no POST is repeated blindly; a failure
    reported as definite is one; a change of epoch costs one discovery and no call is refused for it twice; calls
    return, within the bounds that timeouts and contexts set; every typed operation run alone is such a run.
    Construction: a client exists only with pinned trust and https, or for loopback probes; signed requests are
    never redirected; a request URL that parses stays on the configured origin, whatever the path; the guard admits
    only resolved addresses, for the base URL's host, and every dial returns; its lookups are spaced, no dial waits
    longer than one of them may take, and it admits a server that moved one lifetime of its set later.  Uploads: the
    metadata, read back from its JSON, describes the uploaded parts, for images and files, a file is streamed as
    signed, also among concurrent calls, and copies that share the buffer pool never mix.  Slices: a message context
    stays what it was whatever its callers write, and the mentions sent are the ones that were checked.  Media: a
    fetched chunk is what the server's last answer says and answers its request, and consecutive chunks are the
    whole medium.

    ** Fuel and bounds

    Loops that are not structural carry fuel, and a lemma shows the fuel given is enough: [parse_json] uses twice the
    length of the text plus one ([parse_json_fuel]), [decodeStrictJSONObject] twice its length ([strict_parse]),
    [redactPrefix] one more than the length ([redactPrefix_fuel]), [do] two rounds since a request is replayed at most
    once ([loop_fuel]), the image reader two rounds per chunk plus one ([read_loop_spec]), the copy loop one round per
    byte ([copy_loop_total]), the file reader four since it has three stages ([multi_read_spec]), [file_stream] one
    read per byte ([file_stream_body]).  The retry loops are structural in the attempts left.  The step relations have no
    fuel; their runs end by a measure ([run_terminates], [measure_step], and the like for the guard and the handler).

    ** Parameters

    The network is an arbitrary function from the number of requests sent and the request to an answer; the clock,
    randomness, contexts, waits and [ReadAt] are functions of the same kind; the resolver, the HTTP date parser, the
    file system and x509's PEM reader are arguments.  The theorems of [Calls] and [Session] hold for any account of
    what the streaming decoder met in a body; [Responses] instantiates it with [Stream].  Hypotheses on parameters are
    named at the theorems and state documented behaviour: a file that does not change ([stable]), a store that keeps a
    key once set ([SetOnceStore]), network errors that are not the package's own verdicts.  In [Concurrent]
    the network is a relation between requests and answers; that it answers or fails every request ([network_total]) and
    that the server moved on from an epoch ([moved_on]) are hypotheses on it.  Each such theorem has a witness with
    concrete functions.

    ** Not modelled

    Logging other than the guard's, the texts of wrapped errors beyond [ErrorText] (so that the panic found in redaction is
    not modelled where a message is built from an error's text), metrics, the trace headers that OpenTelemetry adds to a
    request, TLS and QUIC themselves, the constants of the webhook wire contract and the aliases of package iris, which
    only re-export what is modelled, and test support.  In [Deadlines] and [GuardClock] computation takes no time; in
    [Deadlines] a blocking operation ends when its context does.  [FetchMediaChunk] and [Ping] are modelled as sequential
    calls only.

    ** Plan

    The development covers every operation of the SDK.  What is left of the sources are imports, comments, aliases,
    constants and the re-exports of the public packages. *)

From Stdlib Require Export ZArith Lia.
From Stdlib Require Export Strings.Byte.
From stdpp Require Export base tactics option gmap strings sorting list.

#[global] Set Default Goal Selector "!".
Open Scope Z_scope.

(** ** Results: Go's [(T, error)] pairs *)

Inductive result (E A : Type) : Type :=
| Ok (a : A)
| Err (e : E).
Arguments Ok {E A} _.
Arguments Err {E A} _.

Definition result_bind {E A B} (m : result E A) (k : A → result E B) : result E B :=
  match m with
  | Ok a => k a
  | Err e => Err e
  end.

Definition result_map_err {E F A} (f : E → F) (m : result E A) : result F A :=
  match m with
  | Ok a => Ok a
  | Err e => Err (f e)
  end.

Definition is_ok {E A} (m : result E A) : bool :=
  match m with Ok _ => true | Err _ => false end.

Declare Scope go_scope.
Delimit Scope go_scope with go.

Notation "'let?' x ':=' m 'in' k" := (result_bind m (λ x, k))
  (at level 10, x pattern, m at level 100, k at level 200,
   format "'let?'  x  ':='  m  'in' '//' k") : go_scope.
Open Scope go_scope.

Lemma result_bind_ok {E A B} (m : result E A) (k : A → result E B) b :
  result_bind m k = Ok b → ∃ a, m = Ok a ∧ k a = Ok b.
Proof. destruct m; simpl; [eauto | discriminate]. Qed.

Lemma result_map_err_ok {E F A} (f : E → F) (m : result E A) a :
  result_map_err f m = Ok a ↔ m = Ok a.
Proof. destruct m; simpl; naive_solver. Qed.

(** ** Bytes and Go strings *)

(** A Go [byte] is [Init.Byte.byte], bounded by construction, and a Go [string] or [[]byte] is a
    list of bytes. *)
Abbreviation gostring := (list byte).

#[export] Instance byte_eq_decision : EqDecision byte := Byte.byte_eq_dec.

(** The unsigned value of a byte. *)
Definition bz (b : byte) : Z := Z.of_N (Byte.to_N b).

(** Conversion to [byte]: truncation modulo 256, as Go's [byte(x)]. *)
Definition zb (z : Z) : byte := default x00 (Byte.of_N (Z.to_N (z mod 256))).

Lemma bz_range b : 0 ≤ bz b < 256.
Proof. unfold bz. pose proof (Byte.to_N_bounded b). lia. Qed.

Lemma bz_inj b c : bz b = bz c → b = c.
Proof.
  unfold bz. intros H%N2Z.inj.
  pose proof (Byte.of_to_N b) as Hb. rewrite H, Byte.of_to_N in Hb. congruence.
Qed.

Lemma bz_inj_iff b c : bz b = bz c ↔ b = c.
Proof. split; [apply bz_inj | by intros ->]. Qed.

Lemma of_N_lt n : (n < 256)%N → ∃ b, Byte.of_N n = Some b.
Proof.
  intros H. destruct (Byte.of_N n) eqn:E; [eauto |].
  apply Byte.of_N_None_iff in E. lia.
Qed.

Lemma bz_zb z : bz (zb z) = z mod 256.
Proof.
  unfold bz, zb. pose proof (Z.mod_pos_bound z 256 ltac:(lia)).
  destruct (of_N_lt (Z.to_N (z mod 256))) as [b Hb]; [lia |].
  rewrite Hb. simpl. rewrite (Byte.to_of_N _ Hb). lia.
Qed.

Lemma zb_bz b : zb (bz b) = b.
Proof. apply bz_inj. rewrite bz_zb. apply Z.mod_small, bz_range. Qed.

#[export] Instance byte_countable : Countable byte.
Proof.
  apply (inj_countable' Byte.to_N (λ n, default x00 (Byte.of_N n))).
  intros x. by rewrite Byte.of_to_N.
Defined.

(** All 256 bytes: a boolean property of bytes is decided by evaluation. *)
Definition all_bytes : list byte := map (λ n, zb (Z.of_nat n)) (seq 0 256).

Lemma elem_of_all_bytes b : b ∈ all_bytes.
Proof.
  unfold all_bytes. apply list_elem_of_In, in_map_iff.
  exists (Z.to_nat (bz b)). pose proof (bz_range b). split.
  - rewrite Z2Nat.id by lia. apply zb_bz.
  - apply in_seq. lia.
Qed.

Lemma byte_forallb (P : byte → bool) : forallb P all_bytes = true → ∀ b, P b = true.
Proof.
  intros H b. rewrite forallb_forall in H. apply H, list_elem_of_In, elem_of_all_bytes.
Qed.

Lemma byte_forallb2 (P : byte → byte → bool) :
  forallb (λ b, forallb (P b) all_bytes) all_bytes = true → ∀ b c, P b c = true.
Proof. intros H b c. apply (byte_forallb (P b)). by apply (byte_forallb (λ b, forallb (P b) all_bytes)). Qed.

(** A Go string literal. *)
Definition go (s : String.string) : gostring := String.list_byte_of_string s.
Arguments go s%_string_scope : simpl never.

(** [lo <= b && b <= hi], the range tests of the source. *)
Definition in_range (lo hi : byte) (b : byte) : bool := (bz lo <=? bz b) && (bz b <=? bz hi).

Definition beq (b c : byte) : bool := bool_decide (b = c).

Definition seqb (s t : gostring) : bool := bool_decide (s = t).

Definition is_empty {A} (s : list A) : bool :=
  match s with [] => true | _ => false end.

Lemma seqb_true s t : seqb s t = true ↔ s = t.
Proof. unfold seqb. apply bool_decide_eq_true. Qed.

Lemma seqb_refl s : seqb s s = true.
Proof. by apply seqb_true. Qed.

Lemma seqb_false s t : seqb s t = false ↔ s ≠ t.
Proof. unfold seqb. apply bool_decide_eq_false. Qed.

Lemma beq_true b c : beq b c = true ↔ b = c.
Proof. apply bool_decide_eq_true. Qed.

Lemma is_empty_true {A} (s : list A) : is_empty s = true ↔ s = [].
Proof. destruct s; simpl; naive_solver. Qed.

Lemma is_empty_false {A} (s : list A) : is_empty s = false ↔ s ≠ [].
Proof. destruct s; simpl; naive_solver. Qed.

Lemma in_range_spec lo hi b : in_range lo hi b = true ↔ bz lo ≤ bz b ≤ bz hi.
Proof. unfold in_range. rewrite andb_true_iff, !Z.leb_le. done. Qed.

(** ** Automation *)

Create HintDb iris.
#[export] Hint Resolve bz_range : iris.

(** Split every [match] and [if] of the goal, discharging impossible branches. *)
Ltac split_cases :=
  repeat (case_match; simplify_eq/=; try done).

(** Turn boolean guards of the code into propositions. *)
Ltac bool_props :=
  repeat match goal with
  | H : andb _ _ = true |- _ => apply andb_true_iff in H as [??]
  | H : orb _ _ = false |- _ => apply orb_false_iff in H as [??]
  | H : negb _ = true |- _ => apply negb_true_iff in H
  | H : negb _ = false |- _ => apply negb_false_iff in H
  | H : seqb _ _ = true |- _ => apply seqb_true in H
  | H : seqb _ _ = false |- _ => apply seqb_false in H
  | H : is_empty _ = true |- _ => apply is_empty_true in H
  | H : is_empty _ = false |- _ => apply is_empty_false in H
  | H : (_ <=? _) = true |- _ => apply Z.leb_le in H
  | H : (_ <=? _) = false |- _ => apply Z.leb_gt in H
  | H : (_ <? _) = true |- _ => apply Z.ltb_lt in H
  | H : (_ <? _) = false |- _ => apply Z.ltb_ge in H
  | H : (_ =? _) = true |- _ => apply Z.eqb_eq in H
  | H : (_ =? _) = false |- _ => apply Z.eqb_neq in H
  end.

(** Walk a chain of [let?] that ended in [Ok]. *)
Ltac inv_ok :=
  repeat match goal with
  | H : result_bind _ _ = Ok _ |- _ =>
      let E := fresh "E" in apply result_bind_ok in H as (? & E & H)
  | H : result_map_err _ _ = Ok _ |- _ => apply result_map_err_ok in H
  | H : Ok _ = Ok _ |- _ => injection H as H
  | H : Err _ = Ok _ |- _ => discriminate H
  | H : Ok _ = Err _ |- _ => discriminate H
  end.

(** ** Generic list lemmas *)

Lemma Forall_forallb {A} (P : A → bool) (l : list A) :
  forallb P l = true ↔ Forall (λ x, P x = true) l.
Proof. rewrite forallb_forall, List.Forall_forall. done. Qed.

Lemma forallb_app_true {A} (P : A → bool) (l k : list A) :
  forallb P (l ++ k) = true ↔ forallb P l = true ∧ forallb P k = true.
Proof. rewrite forallb_app. apply andb_true_iff. Qed.

(** The weight of a list of goroutines when one of them moves. *)
Lemma sum_list_with_insert {A} (f : A → nat) (l : list A) i a b :
  l !! i = Some a → (sum_list_with f (<[i := b]> l) + f a = sum_list_with f l + f b)%nat.
Proof.
  revert i. induction l as [|x l IH]; intros [|i] Hi; simplify_eq/=; [lia |]. specialize (IH i Hi). lia.
Qed.
