(* ===== verification/GoStrings.v ===== *)
(** * GoStrings: the parts of Go's [unicode/utf8], [unicode] and [strings] the SDK uses

    Strings are byte lists; runes are integers.  [decodeRune] is [utf8.DecodeRuneInString], the
    [runes] of a string are what [for _, r := range s] yields, and [ToLower], [TrimSpace], [Cut],
    [Split], [Join], [Index] and the lexicographic [bcompare] follow the package documentation.
    Case mapping uses the simple lower-case mappings of Unicode 14. *)

From S2P Require Import Prelude.

(** ** UTF-8 *)

Definition RuneError : Z := 65533.

Definition is_cont (b : byte) : bool := in_range x80 xbf b.

(** The accepted range of the second byte of a three- and a four-byte sequence. *)
Definition second3 (b0 : byte) : byte * byte :=
  if beq b0 xe0 then (xa0, xbf) else if beq b0 xed then (x80, x9f) else (x80, xbf).

Definition second4 (b0 : byte) : byte * byte :=
  if beq b0 xf0 then (x90, xbf) else if beq b0 xf4 then (x80, x8f) else (x80, xbf).

(** [utf8.DecodeRuneInString]: the first rune and its width; width 1 with [RuneError] for an
    invalid encoding, width 0 for the empty string. *)
Definition decodeRune (s : gostring) : Z * nat :=
  match s with
  | [] => (RuneError, 0%nat)
  | b0 :: r =>
      if bz b0 <? 128 then (bz b0, 1%nat)
      else if in_range xc2 xdf b0 then
        match r with
        | b1 :: _ =>
            if is_cont b1 then ((bz b0 - 192) * 64 + (bz b1 - 128), 2%nat)
            else (RuneError, 1%nat)
        | _ => (RuneError, 1%nat)
        end
      else if in_range xe0 xef b0 then
        match r with
        | b1 :: b2 :: _ =>
            if in_range (second3 b0).1 (second3 b0).2 b1 && is_cont b2
            then ((bz b0 - 224) * 4096 + (bz b1 - 128) * 64 + (bz b2 - 128), 3%nat)
            else (RuneError, 1%nat)
        | _ => (RuneError, 1%nat)
        end
      else if in_range xf0 xf4 b0 then
        match r with
        | b1 :: b2 :: b3 :: _ =>
            if in_range (second4 b0).1 (second4 b0).2 b1 && is_cont b2 && is_cont b3
            then ((bz b0 - 240) * 262144 + (bz b1 - 128) * 4096 + (bz b2 - 128) * 64
                  + (bz b3 - 128), 4%nat)
            else (RuneError, 1%nat)
        | _ => (RuneError, 1%nat)
        end
      else (RuneError, 1%nat)
  end.

(** [utf8.AppendRune]: surrogates and out-of-range values are written as [RuneError]. *)
Definition encodeRune (r : Z) : gostring :=
  if (0 <=? r) && (r <? 128) then [zb r]
  else if (128 <=? r) && (r <? 2048) then [zb (192 + r / 64); zb (128 + r mod 64)]
  else if (2048 <=? r) && (r <? 65536) && negb ((55296 <=? r) && (r <=? 57343)) then
    [zb (224 + r / 4096); zb (128 + (r / 64) mod 64); zb (128 + r mod 64)]
  else if (65536 <=? r) && (r <=? 1114111) then
    [zb (240 + r / 262144); zb (128 + (r / 4096) mod 64); zb (128 + (r / 64) mod 64);
     zb (128 + r mod 64)]
  else [xef; xbf; xbd].

(** The decoded runes with their widths; the counter skips the bytes of the current rune. *)
Fixpoint decode_from (skip : nat) (s : gostring) : list (Z * nat) :=
  match s with
  | [] => []
  | _ :: r =>
      match skip with
      | S k => decode_from k r
      | O => let '(c, n) := decodeRune s in (c, n) :: decode_from (n - 1) r
      end
  end.

Definition decoded (s : gostring) : list (Z * nat) := decode_from 0 s.

(** [for _, r := range s]. *)
Definition runes (s : gostring) : list Z := map fst (decoded s).

(** [utf8.ValidString]. *)
Definition ValidString (s : gostring) : bool :=
  forallb (λ '(c, n), negb ((c =? RuneError) && (n =? 1)%nat)) (decoded s).

(** [utf8.RuneCountInString]. *)
Definition RuneCountInString (s : gostring) : Z := Z.of_nat (length (decoded s)).

(** ** unicode *)

(** The code points of the White_Space property, which [unicode.IsSpace] tests. *)
Definition space_runes : list Z :=
  [9; 10; 11; 12; 13; 32; 133; 160; 5760; 8192; 8193; 8194; 8195; 8196; 8197; 8198; 8199; 8200;
   8201; 8202; 8232; 8233; 8239; 8287; 12288].

Definition IsSpace (r : Z) : bool := bool_decide (r ∈ space_runes).

(** [unicode.IsControl]: category Cc. *)
Definition IsControl (r : Z) : bool :=
  ((0 <=? r) && (r <=? 31)) || ((127 <=? r) && (r <=? 159)).

(** Simple lower-case mappings outside ASCII: (first, last, stride, delta). *)
Definition lower_ranges : list (Z * Z * Z * Z) :=
  [(192, 214, 1, 32); (216, 222, 1, 32); (256, 302, 2, 1); (304, 304, 1, (-199)); (306, 310, 2, 1);
   (313, 327, 2, 1); (330, 374, 2, 1); (376, 376, 1, (-121)); (377, 381, 2, 1); (385, 385, 1, 210);
   (386, 388, 2, 1); (390, 390, 1, 206); (391, 391, 1, 1); (393, 394, 1, 205); (395, 395, 1, 1); (398,
   398, 1, 79); (399, 399, 1, 202); (400, 400, 1, 203); (401, 401, 1, 1); (403, 403, 1, 205); (404,
   404, 1, 207); (406, 406, 1, 211); (407, 407, 1, 209); (408, 408, 1, 1); (412, 412, 1, 211); (413,
   413, 1, 213); (415, 415, 1, 214); (416, 420, 2, 1); (422, 422, 1, 218); (423, 423, 1, 1); (425, 425,
   1, 218); (428, 428, 1, 1); (430, 430, 1, 218); (431, 431, 1, 1); (433, 434, 1, 217); (435, 437, 2,
   1); (439, 439, 1, 219); (440, 440, 1, 1); (444, 444, 1, 1); (452, 452, 1, 2); (453, 453, 1, 1);
   (455, 455, 1, 2); (456, 456, 1, 1); (458, 458, 1, 2); (459, 475, 2, 1); (478, 494, 2, 1); (497, 497,
   1, 2); (498, 500, 2, 1); (502, 502, 1, (-97)); (503, 503, 1, (-56)); (504, 542, 2, 1); (544, 544, 1,
   (-130)); (546, 562, 2, 1); (570, 570, 1, 10795); (571, 571, 1, 1); (573, 573, 1, (-163)); (574, 574,
   1, 10792); (577, 577, 1, 1); (579, 579, 1, (-195)); (580, 580, 1, 69); (581, 581, 1, 71); (582, 590,
   2, 1); (880, 882, 2, 1); (886, 886, 1, 1); (895, 895, 1, 116); (902, 902, 1, 38); (904, 906, 1, 37);
   (908, 908, 1, 64); (910, 911, 1, 63); (913, 929, 1, 32); (931, 939, 1, 32); (975, 975, 1, 8); (984,
   1006, 2, 1); (1012, 1012, 1, (-60)); (1015, 1015, 1, 1); (1017, 1017, 1, (-7)); (1018, 1018, 1, 1);
   (1021, 1023, 1, (-130)); (1024, 1039, 1, 80); (1040, 1071, 1, 32); (1120, 1152, 2, 1); (1162, 1214,
   2, 1); (1216, 1216, 1, 15); (1217, 1229, 2, 1); (1232, 1326, 2, 1); (1329, 1366, 1, 48); (4256,
   4293, 1, 7264); (4295, 4295, 1, 7264); (4301, 4301, 1, 7264); (5024, 5103, 1, 38864); (5104, 5109,
   1, 8); (7312, 7354, 1, (-3008)); (7357, 7359, 1, (-3008)); (7680, 7828, 2, 1); (7838, 7838, 1,
   (-7615)); (7840, 7934, 2, 1); (7944, 7951, 1, (-8)); (7960, 7965, 1, (-8)); (7976, 7983, 1, (-8));
   (7992, 7999, 1, (-8)); (8008, 8013, 1, (-8)); (8025, 8031, 2, (-8)); (8040, 8047, 1, (-8)); (8072,
   8079, 1, (-8)); (8088, 8095, 1, (-8)); (8104, 8111, 1, (-8)); (8120, 8121, 1, (-8)); (8122, 8123, 1,
   (-74)); (8124, 8124, 1, (-9)); (8136, 8139, 1, (-86)); (8140, 8140, 1, (-9)); (8152, 8153, 1, (-8));
   (8154, 8155, 1, (-100)); (8168, 8169, 1, (-8)); (8170, 8171, 1, (-112)); (8172, 8172, 1, (-7));
   (8184, 8185, 1, (-128)); (8186, 8187, 1, (-126)); (8188, 8188, 1, (-9)); (8486, 8486, 1, (-7517));
   (8490, 8490, 1, (-8383)); (8491, 8491, 1, (-8262)); (8498, 8498, 1, 28); (8544, 8559, 1, 16); (8579,
   8579, 1, 1); (9398, 9423, 1, 26); (11264, 11311, 1, 48); (11360, 11360, 1, 1); (11362, 11362, 1,
   (-10743)); (11363, 11363, 1, (-3814)); (11364, 11364, 1, (-10727)); (11367, 11371, 2, 1); (11373,
   11373, 1, (-10780)); (11374, 11374, 1, (-10749)); (11375, 11375, 1, (-10783)); (11376, 11376, 1,
   (-10782)); (11378, 11378, 1, 1); (11381, 11381, 1, 1); (11390, 11391, 1, (-10815)); (11392, 11490,
   2, 1); (11499, 11501, 2, 1); (11506, 11506, 1, 1); (42560, 42604, 2, 1); (42624, 42650, 2, 1);
   (42786, 42798, 2, 1); (42802, 42862, 2, 1); (42873, 42875, 2, 1); (42877, 42877, 1, (-35332));
   (42878, 42886, 2, 1); (42891, 42891, 1, 1); (42893, 42893, 1, (-42280)); (42896, 42898, 2, 1);
   (42902, 42920, 2, 1); (42922, 42922, 1, (-42308)); (42923, 42923, 1, (-42319)); (42924, 42924, 1,
   (-42315)); (42925, 42925, 1, (-42305)); (42926, 42926, 1, (-42308)); (42928, 42928, 1, (-42258));
   (42929, 42929, 1, (-42282)); (42930, 42930, 1, (-42261)); (42931, 42931, 1, 928); (42932, 42946, 2,
   1); (42948, 42948, 1, (-48)); (42949, 42949, 1, (-42307)); (42950, 42950, 1, (-35384)); (42951,
   42953, 2, 1); (42960, 42960, 1, 1); (42966, 42968, 2, 1); (42997, 42997, 1, 1); (65313, 65338, 1,
   32); (66560, 66599, 1, 40); (66736, 66771, 1, 40); (66928, 66938, 1, 39); (66940, 66954, 1, 39);
   (66956, 66962, 1, 39); (66964, 66965, 1, 39); (68736, 68786, 1, 64); (71840, 71871, 1, 32); (93760,
   93791, 1, 32); (125184, 125217, 1, 34)].

Definition in_lower_range (r : Z) (e : Z * Z * Z * Z) : bool :=
  let '(lo, hi, stride, _) := e in
  (lo <=? r) && (r <=? hi) && ((r - lo) mod stride =? 0).

(** [unicode.ToLower]. *)
Definition lowerRune (r : Z) : Z :=
  if (65 <=? r) && (r <=? 90) then r + 32
  else match List.find (in_lower_range r) lower_ranges with
       | Some (_, _, _, d) => r + d
       | None => r
       end.

(** [strings.ToLower]: every rune is mapped and written back, so an invalid byte becomes the three
    bytes of [RuneError]. *)
Definition ToLower (s : gostring) : gostring := flat_map (λ r, encodeRune (lowerRune r)) (runes s).

(** [strings.ToUpper] on ASCII, the only input the SDK gives it (HTTP method tokens). *)
Definition upper_byte (b : byte) : byte := if in_range "a" "z" b then zb (bz b - 32) else b.

Definition ToUpper (s : gostring) : gostring := map upper_byte s.

(** [strings.EqualFold] against an ASCII right-hand side: the simple folding orbits that meet
    ASCII add only U+017F (with s) and U+212A (with k) to the two cases of a letter. *)
Definition fold_rune (r : Z) : Z :=
  if (65 <=? r) && (r <=? 90) then r + 32
  else if r =? 383 then 115
  else if r =? 8490 then 107
  else r.

Definition EqualFold (s t : gostring) : bool :=
  bool_decide (map fold_rune (runes s) = map fold_rune (runes t)).

(** ** strings *)

(** Drop a given prefix. *)
Fixpoint cut_prefix (p s : gostring) : option gostring :=
  match p, s with
  | [], _ => Some s
  | a :: p', b :: s' => if beq a b then cut_prefix p' s' else None
  | _ :: _, [] => None
  end.

Definition HasPrefix (s p : gostring) : bool :=
  match cut_prefix p s with Some _ => true | None => false end.

Definition HasSuffix (s p : gostring) : bool := HasPrefix (rev s) (rev p).

(** Remove one prefix out of a table of strings. *)
Fixpoint match_prefix (tbl : list gostring) (s : gostring) : option gostring :=
  match tbl with
  | [] => None
  | e :: tbl' => match cut_prefix e s with Some r => Some r | None => match_prefix tbl' s end
  end.

Fixpoint strip (fuel : nat) (tbl : list gostring) (s : gostring) : gostring :=
  match fuel with
  | O => s
  | S n => match match_prefix tbl s with Some r => strip n tbl r | None => s end
  end.

Definition space_encodings : list gostring := Eval vm_compute in map encodeRune space_runes.

Definition TrimLeftSpace (s : gostring) : gostring := strip (length s) space_encodings s.

Definition TrimRightSpace (s : gostring) : gostring :=
  rev (strip (length s) (map (@rev byte) space_encodings) (rev s)).

(** [strings.TrimSpace] (and [bytes.TrimSpace]). *)
Definition TrimSpace (s : gostring) : gostring := TrimRightSpace (TrimLeftSpace s).

(** [strings.Cut] with a one-byte separator: before, after, found. *)
Fixpoint Cut (sep : byte) (s : gostring) : gostring * gostring * bool :=
  match s with
  | [] => ([], [], false)
  | b :: r =>
      if beq b sep then ([], r, true)
      else let '(x, y, f) := Cut sep r in (b :: x, y, f)
  end.

(** [strings.Split] with a one-byte separator. *)
Fixpoint Split (sep : byte) (s : gostring) : list gostring :=
  match s with
  | [] => [[]]
  | b :: r =>
      if beq b sep then [] :: Split sep r
      else match Split sep r with
           | w :: ws => (b :: w) :: ws
           | [] => [[b]]
           end
  end.

(** [strings.Join]. *)
Fixpoint Join (sep : gostring) (l : list gostring) : gostring :=
  match l with
  | [] => []
  | [w] => w
  | w :: ws => w ++ sep ++ Join sep ws
  end.

(** [strings.Count] with a one-byte separator, [strings.ContainsRune] with an ASCII rune. *)
Definition CountByte (c : byte) (s : gostring) : nat := length (List.filter (beq c) s).

Definition ContainsByte (c : byte) (s : gostring) : bool := existsb (beq c) s.

(** [strings.Index]: the offset of the first occurrence. *)
Fixpoint Index (s p : gostring) : option nat :=
  if HasPrefix s p then Some O
  else match s with
       | [] => None
       | _ :: r => option_map S (Index r p)
       end.

(** [strings.IndexFunc]: the byte offset of the first rune satisfying [f]. *)
Fixpoint index_runes (f : Z → bool) (off : nat) (l : list (Z * nat)) : option nat :=
  match l with
  | [] => None
  | (c, n) :: l' => if f c then Some off else index_runes f (off + n) l'
  end.

Definition IndexFunc (s : gostring) (f : Z → bool) : option nat := index_runes f 0 (decoded s).

(** Byte-wise lexicographic comparison: [<] on strings and [cmp.Compare]. *)
Fixpoint bcompare (s t : gostring) : comparison :=
  match s, t with
  | [], [] => Eq
  | [], _ :: _ => Lt
  | _ :: _, [] => Gt
  | a :: s', b :: t' =>
      match Z.compare (bz a) (bz b) with
      | Eq => bcompare s' t'
      | c => c
      end
  end.

(** ** Facts about prefixes and trimming *)

Lemma cut_prefix_spec p s r : cut_prefix p s = Some r ↔ s = p ++ r.
Proof.
  revert s. induction p as [|a p IH]; intros s; simpl; [naive_solver |].
  destruct s as [|b s]; [naive_solver |].
  unfold beq. case_bool_decide; [subst; rewrite IH |]; naive_solver.
Qed.

Lemma HasPrefix_spec s p : HasPrefix s p = true ↔ ∃ r, s = p ++ r.
Proof.
  unfold HasPrefix. destruct (cut_prefix p s) as [r|] eqn:E.
  - apply cut_prefix_spec in E. naive_solver.
  - split; [done |]. intros [r Hr]. apply cut_prefix_spec in Hr. congruence.
Qed.

Lemma match_prefix_Some tbl s r :
  match_prefix tbl s = Some r → ∃ e, e ∈ tbl ∧ s = e ++ r.
Proof.
  induction tbl as [|e tbl IH]; simpl; [done |].
  destruct (cut_prefix e s) eqn:E; intros H.
  - simplify_eq. apply cut_prefix_spec in E. exists e. split; [left | done].
  - destruct (IH H) as (e' & ? & ?). exists e'. split; [by right | done].
Qed.

Lemma match_prefix_None tbl s :
  match_prefix tbl s = None ↔ ∀ e r, e ∈ tbl → s ≠ e ++ r.
Proof.
  induction tbl as [|e tbl IH]; simpl.
  - split; [intros _ ?? Hin; by apply not_elem_of_nil in Hin | done].
  - destruct (cut_prefix e s) eqn:E.
    + apply cut_prefix_spec in E. split; [done |]. intros H. exfalso. eapply H; [left | done].
    + rewrite IH. split; intros H e' r.
      * intros [->|?]%elem_of_cons; [|by apply H].
        intros Hs. apply cut_prefix_spec in Hs. congruence.
      * intros ?. apply H. by right.
Qed.

Section strip.
Context (tbl : list gostring) (Hne : [] ∉ tbl).

Lemma strip_suffix n s : ∃ p, s = p ++ strip n tbl s.
Proof using.
  clear Hne. revert s. induction n as [|n IH]; intros s; simpl; [by exists [] |].
  destruct (match_prefix tbl s) as [r|] eqn:E; [|by exists []].
  apply match_prefix_Some in E as (e & _ & ->). destruct (IH r) as [p Hp].
  exists (e ++ p). rewrite <- (app_assoc e p). by rewrite <- Hp.
Qed.

Lemma strip_id n s : match_prefix tbl s = None → strip n tbl s = s.
Proof using. intros E. destruct n; simpl; [done |]. by rewrite E. Qed.

Lemma match_prefix_shorter s r : match_prefix tbl s = Some r → (length r < length s)%nat.
Proof using Hne.
  intros (e & He & ->)%match_prefix_Some. rewrite length_app.
  destruct e; [done | simpl; lia].
Qed.

Lemma strip_done n s : (length s ≤ n)%nat → match_prefix tbl (strip n tbl s) = None.
Proof using Hne.
  revert s. induction n as [|n IH]; intros s Hn; simpl.
  - destruct s; simpl in *; [|lia]. apply match_prefix_None. intros e r He Hs.
    symmetry in Hs. apply app_eq_nil in Hs as [-> _]. done.
  - destruct (match_prefix tbl s) as [r|] eqn:E; [|done].
    apply IH. apply match_prefix_shorter in E. lia.
Qed.
End strip.

Lemma space_encodings_nonempty : [] ∉ space_encodings.
Proof. intros H. repeat (apply elem_of_cons in H as [H|H]; [discriminate|]). by apply not_elem_of_nil in H. Qed.

Lemma space_encodings_rev_nonempty : [] ∉ map (@rev byte) space_encodings.
Proof.
  intros H. repeat (apply elem_of_cons in H as [H|H]; [discriminate|]).
  by apply not_elem_of_nil in H.
Qed.

(** A string that neither starts nor ends with white space. *)
Definition trimmed (s : gostring) : Prop :=
  match_prefix space_encodings s = None ∧
  match_prefix (map (@rev byte) space_encodings) (rev s) = None.

Lemma TrimRight_prefix s : ∃ q, s = TrimRightSpace s ++ q.
Proof.
  unfold TrimRightSpace.
  destruct (strip_suffix (map (@rev byte) space_encodings) (length s) (rev s)) as [p Hp].
  exists (rev p). rewrite <- rev_app_distr, <- Hp. by rewrite rev_involutive.
Qed.

Lemma TrimSpace_infix s : ∃ p q, s = p ++ TrimSpace s ++ q.
Proof.
  unfold TrimSpace. destruct (strip_suffix space_encodings (length s) s) as [p Hp].
  destruct (TrimRight_prefix (TrimLeftSpace s)) as [q Hq].
  exists p, q. rewrite <- Hq. exact Hp.
Qed.

(** [TrimSpace] produces a trimmed string, and leaves trimmed strings alone. *)
Lemma TrimSpace_trimmed s : trimmed (TrimSpace s).
Proof.
  unfold TrimSpace. split.
  - apply match_prefix_None. intros e r He Hs.
    destruct (TrimRight_prefix (TrimLeftSpace s)) as [q Hq].
    pose proof (strip_done _ space_encodings_nonempty (length s) s ltac:(lia)) as Hd.
    fold (TrimLeftSpace s) in Hd. rewrite match_prefix_None in Hd.
    apply (Hd e (r ++ q) He). rewrite Hq, Hs at 1. by rewrite <- app_assoc.
  - unfold TrimRightSpace. rewrite rev_involutive.
    apply strip_done; [apply space_encodings_rev_nonempty |]. by rewrite length_rev.
Qed.

Lemma TrimSpace_id s : trimmed s → TrimSpace s = s.
Proof.
  intros [Hl Hr]. unfold TrimSpace, TrimLeftSpace. rewrite (strip_id _ _ s Hl).
  unfold TrimRightSpace. rewrite strip_id by done. apply rev_involutive.
Qed.

Lemma TrimSpace_idem s : TrimSpace (TrimSpace s) = TrimSpace s.
Proof. apply TrimSpace_id, TrimSpace_trimmed. Qed.

Lemma TrimSpace_length s : (length (TrimSpace s) ≤ length s)%nat.
Proof.
  destruct (TrimSpace_infix s) as (p & q & Hs). rewrite Hs at 2. rewrite !length_app. lia.
Qed.

Lemma TrimSpace_Forall (P : byte → Prop) s : Forall P s → Forall P (TrimSpace s).
Proof.
  destruct (TrimSpace_infix s) as (p & q & Hs). rewrite Hs at 1.
  rewrite !Forall_app. tauto.
Qed.

(** Printable ASCII other than the space. *)
Definition is_graphic (b : byte) : bool := in_range x21 x7e b.

Lemma space_starts_nongraphic e :
  e ∈ space_encodings ∨ e ∈ map (@rev byte) space_encodings →
  ∃ b r, e = b :: r ∧ is_graphic b = false.
Proof.
  intros [H|H]; repeat (apply elem_of_cons in H as [->|H]; [by eexists _, _ |]);
    by apply not_elem_of_nil in H.
Qed.

Lemma graphic_no_space tbl s :
  (∀ e, e ∈ tbl → e ∈ space_encodings ∨ e ∈ map (@rev byte) space_encodings) →
  Forall (λ b, is_graphic b = true) s → match_prefix tbl s = None.
Proof.
  intros Htbl Hs. apply match_prefix_None. intros e r He ->.
  destruct (space_starts_nongraphic e (Htbl e He)) as (b & r' & -> & Hb).
  apply Forall_inv in Hs. congruence.
Qed.

Lemma TrimSpace_graphic s : Forall (λ b, is_graphic b = true) s → TrimSpace s = s.
Proof.
  intros H. apply TrimSpace_id. split; apply graphic_no_space; try done; try (by left).
  - by right.
  - by apply Forall_rev.
Qed.

(** ** Facts about [Cut], [Split] and [Join] *)

Lemma beq_refl b : beq b b = true.
Proof. by apply beq_true. Qed.

Lemma beq_false b c : beq b c = false ↔ b ≠ c.
Proof. unfold beq. apply bool_decide_eq_false. Qed.

Lemma Cut_found sep x y : sep ∉ x → Cut sep (x ++ sep :: y) = (x, y, true).
Proof.
  induction x as [|b x IH]; intros Hx; simpl; [by rewrite beq_refl |].
  apply not_elem_of_cons in Hx as [Hb Hx].
  rewrite (proj2 (beq_false b sep)) by congruence. by rewrite IH.
Qed.

Lemma Cut_not_found sep x : sep ∉ x → Cut sep x = (x, [], false).
Proof.
  induction x as [|b x IH]; intros Hx; simpl; [done |].
  apply not_elem_of_cons in Hx as [Hb Hx].
  rewrite (proj2 (beq_false b sep)) by congruence. by rewrite IH.
Qed.

Lemma Cut_spec sep s x y f :
  Cut sep s = (x, y, f) →
  (sep ∉ x) ∧ (if f then s = x ++ sep :: y else s = x ∧ y = []).
Proof.
  revert x y f. induction s as [|b s IH]; intros x y f; simpl.
  - intros [= <- <- <-]. split; [apply not_elem_of_nil | done].
  - destruct (beq b sep) eqn:Eb.
    + apply beq_true in Eb as ->. intros [= <- <- <-]. split; [apply not_elem_of_nil | done].
    + apply beq_false in Eb. destruct (Cut sep s) as [[x' y'] f'].
      intros [= <- <- <-]. destruct (IH _ _ _ eq_refl) as [Hx Hs]. split.
      * apply not_elem_of_cons. split; [congruence | done].
      * destruct f'; [by rewrite Hs at 1 | by destruct Hs as [-> ->]].
Qed.

Lemma Split_ne sep s : Split sep s ≠ [].
Proof. destruct s as [|b s]; simpl; [done |]. split_cases. Qed.

Lemma Split_app sep x s : sep ∉ x → Split sep (x ++ sep :: s) = x :: Split sep s.
Proof.
  induction x as [|b x IH]; intros Hx; simpl; [by rewrite beq_refl |].
  apply not_elem_of_cons in Hx as [Hb Hx].
  rewrite (proj2 (beq_false b sep)) by congruence. by rewrite IH.
Qed.

Lemma Split_none sep x : sep ∉ x → Split sep x = [x].
Proof.
  induction x as [|b x IH]; intros Hx; simpl; [done |].
  apply not_elem_of_cons in Hx as [Hb Hx].
  rewrite (proj2 (beq_false b sep)) by congruence. by rewrite IH.
Qed.

Lemma Join_cons2 sep w v ws : Join sep (w :: v :: ws) = w ++ sep ++ Join sep (v :: ws).
Proof. done. Qed.

Lemma Split_Join sep l :
  l ≠ [] → Forall (λ w, sep ∉ w) l → Split sep (Join [sep] l) = l.
Proof.
  intros Hl H. induction H as [|w l Hw H IH]; [done |].
  destruct l as [|v l]; [by apply Split_none |].
  rewrite Join_cons2. simpl app. rewrite Split_app by done. f_equal. by apply IH.
Qed.

Lemma Split_no_sep sep s : Forall (λ w, sep ∉ w) (Split sep s).
Proof.
  induction s as [|b s IH]; simpl; [repeat constructor; apply not_elem_of_nil |].
  destruct (beq b sep) eqn:Eb; [constructor; [apply not_elem_of_nil | done] |].
  apply beq_false in Eb.
  destruct (Split sep s) as [|w ws]; inversion IH; subst; constructor; try done.
  - apply not_elem_of_cons. split; [congruence | apply not_elem_of_nil].
  - apply not_elem_of_cons. by split; [congruence |].
Qed.

(** Joining with a separator is injective on lists of separator-free words. *)
Lemma Join_inj sep l k :
  l ≠ [] → k ≠ [] → Forall (λ w, sep ∉ w) l → Forall (λ w, sep ∉ w) k →
  Join [sep] l = Join [sep] k → l = k.
Proof.
  intros ?? Hl Hk E. rewrite <- (Split_Join sep l), <- (Split_Join sep k) by done. by rewrite E.
Qed.

(** The first word of a joined text is determined when both are separator-free. *)
Lemma sep_head_inj sep (x x' : gostring) y y' :
  sep ∉ x → sep ∉ x' → x ++ sep :: y = x' ++ sep :: y' → x = x' ∧ y = y'.
Proof.
  intros Hx Hx' E. pose proof (Cut_found sep x y Hx) as H.
  rewrite E, (Cut_found sep x' y' Hx') in H. by simplify_eq.
Qed.

(** The last word likewise. *)
Lemma sep_last_inj sep (x x' : gostring) y y' :
  sep ∉ y → sep ∉ y' → x ++ sep :: y = x' ++ sep :: y' → x = x' ∧ y = y'.
Proof.
  intros Hy Hy' E. apply (f_equal (@rev byte)) in E. rewrite !rev_app_distr in E. simpl in E.
  rewrite <- !app_assoc in E. simpl in E.
  apply sep_head_inj in E as [Ey Ex].
  - by apply (f_equal (@rev byte)) in Ey, Ex; rewrite !rev_involutive in Ey, Ex.
  - by rewrite list_elem_of_In, <- in_rev, <- list_elem_of_In.
  - by rewrite list_elem_of_In, <- in_rev, <- list_elem_of_In.
Qed.

(** ** Lexicographic order *)

Lemma bcompare_eq s t : bcompare s t = Eq ↔ s = t.
Proof.
  revert t. induction s as [|a s IH]; intros [|b t]; simpl; try naive_solver.
  destruct (Z.compare_spec (bz a) (bz b)) as [E|E|E].
  - apply bz_inj in E as ->. rewrite IH. naive_solver.
  - split; [done |]. intros [= -> ->]. lia.
  - split; [done |]. intros [= -> ->]. lia.
Qed.

Lemma bcompare_refl s : bcompare s s = Eq.
Proof. by apply bcompare_eq. Qed.

Lemma bcompare_antisym s t : bcompare t s = CompOpp (bcompare s t).
Proof.
  revert t. induction s as [|a s IH]; intros [|b t]; simpl; try done.
  rewrite (Z.compare_antisym (bz a) (bz b)). destruct (bz a ?= bz b); simpl; auto.
Qed.

Lemma bcompare_trans_lt s t u : bcompare s t = Lt → bcompare t u = Lt → bcompare s u = Lt.
Proof.
  revert t u. induction s as [|a s IH]; intros [|b t] [|c u]; simpl; try done.
  destruct (Z.compare_spec (bz a) (bz b)) as [E|E|E]; try done;
    destruct (Z.compare_spec (bz b) (bz c)) as [E'|E'|E']; try done; intros.
  - rewrite E, E', Z.compare_refl. eauto.
  - by rewrite E, (proj2 (Z.compare_lt_iff _ _) E').
  - by rewrite <- E', (proj2 (Z.compare_lt_iff _ _) E).
  - by rewrite (proj2 (Z.compare_lt_iff (bz a) (bz c))) by lia.
Qed.

(** ** ASCII strings *)

Definition is_ascii (b : byte) : bool := bz b <? 128.

Definition lower_byte (b : byte) : byte := if in_range "A" "Z" b then zb (bz b + 32) else b.

Lemma decoded_ascii s :
  Forall (λ b, is_ascii b = true) s → decoded s = map (λ b, (bz b, 1%nat)) s.
Proof.
  unfold decoded. induction 1 as [|b s Hb Hs IH]; [done |].
  unfold is_ascii in Hb. cbn [decode_from decodeRune]. rewrite Hb.
  cbn [map Nat.sub]. by rewrite IH.
Qed.

Lemma lower_rune_ascii b :
  is_ascii b = true → encodeRune (lowerRune (bz b)) = [lower_byte b].
Proof.
  intros H. pose proof (byte_forallb
    (λ b, implb (is_ascii b) (seqb (encodeRune (lowerRune (bz b))) [lower_byte b]))
    ltac:(vm_compute; reflexivity) b) as Hb. cbv beta in Hb.
  rewrite H in Hb. simpl in Hb. by apply seqb_true.
Qed.

Lemma ToLower_ascii s : Forall (λ b, is_ascii b = true) s → ToLower s = map lower_byte s.
Proof.
  intros H. unfold ToLower, runes. rewrite decoded_ascii by done.
  induction H as [|b s Hb Hs IH]; [done |].
  cbn [map fst flat_map]. rewrite lower_rune_ascii by done. simpl. by rewrite IH.
Qed.

Lemma graphic_ascii b : is_graphic b = true → is_ascii b = true.
Proof.
  intros H%in_range_spec. unfold is_ascii. apply Z.ltb_lt. change (bz x7e) with 126 in H. lia.
Qed.

Lemma graphic_not_newline b : is_graphic b = true → b ≠ x0a.
Proof. by intros H ->. Qed.

Lemma graphic_no_newline s : Forall (λ b, is_graphic b = true) s → x0a ∉ s.
Proof. rewrite Forall_forall. intros H Hin. by specialize (H _ Hin). Qed.

Lemma lower_byte_graphic b : is_graphic b = true → is_graphic (lower_byte b) = true.
Proof.
  intros H. pose proof (byte_forallb (λ b, implb (is_graphic b) (is_graphic (lower_byte b)))
    ltac:(vm_compute; reflexivity) b) as Hb. cbv beta in Hb. by rewrite H in Hb.
Qed.

Lemma ToLower_graphic s :
  Forall (λ b, is_graphic b = true) s → Forall (λ b, is_graphic b = true) (ToLower s).
Proof.
  intros H. rewrite ToLower_ascii.
  - apply Forall_map. eapply Forall_impl; [exact H | apply lower_byte_graphic].
  - eapply Forall_impl; [exact H | apply graphic_ascii].
Qed.

(** ** Decoding is compositional at rune boundaries *)

(** A text that does not begin with a continuation byte. *)
Definition rune_start (e : gostring) : Prop :=
  match e with [] => True | b :: _ => is_cont b = false end.

Lemma second3_cont b0 b : is_cont b = false → in_range (second3 b0).1 (second3 b0).2 b = false.
Proof.
  unfold is_cont, second3, in_range. rewrite !andb_false_iff, !Z.leb_gt. intros H.
  repeat case_match; simpl; change (bz x80) with 128 in *; change (bz xbf) with 191 in *;
    change (bz xa0) with 160 in *; change (bz x9f) with 159 in *; lia.
Qed.

Lemma second4_cont b0 b : is_cont b = false → in_range (second4 b0).1 (second4 b0).2 b = false.
Proof.
  unfold is_cont, second4, in_range. rewrite !andb_false_iff, !Z.leb_gt. intros H.
  repeat case_match; simpl; change (bz x80) with 128 in *; change (bz xbf) with 191 in *;
    change (bz x90) with 144 in *; change (bz x8f) with 143 in *; lia.
Qed.

Lemma decodeRune_app b s e :
  rune_start e → decodeRune ((b :: s) ++ e) = decodeRune (b :: s).
Proof.
  intros He. cbn [app decodeRune]. destruct (bz b <? 128); [done |].
  destruct (in_range xc2 xdf b).
  { destruct s as [|b1 s]; [|done]. destruct e as [|c e]; [done |]. simpl in *. by rewrite He. }
  destruct (in_range xe0 xef b).
  { destruct s as [|b1 [|b2 s]]; simpl; [| |done].
    - destruct e as [|c [|c' e]]; [done..|]. simpl in *. by rewrite second3_cont.
    - destruct e as [|c e]; [done |]. simpl in *. by rewrite He, andb_false_r. }
  destruct (in_range xf0 xf4 b); [|done].
  destruct s as [|b1 [|b2 [|b3 s]]]; simpl; [| | |done].
  - destruct e as [|c [|c' [|c'' e]]]; [done..|]. simpl in *. by rewrite second4_cont.
  - destruct e as [|c [|c' e]]; [done..|]. simpl in *. by rewrite He, andb_false_r.
  - destruct e as [|c e]; [done |]. simpl in *. by rewrite He, andb_false_r.
Qed.

Lemma decodeRune_width b s : (1 ≤ (decodeRune (b :: s)).2 ≤ length (b :: s))%nat.
Proof. unfold decodeRune. repeat case_match; simpl; lia. Qed.

Lemma decode_from_app s e k :
  rune_start e → (k ≤ length s)%nat → decode_from k (s ++ e) = decode_from k s ++ decode_from 0 e.
Proof.
  intros He. revert k. induction s as [|b s IH]; intros k Hk; simpl in Hk.
  { by replace k with 0%nat by lia. }
  destruct k as [|k]; [|by apply IH; lia].
  cbn [app decode_from]. rewrite app_comm_cons, decodeRune_app by done.
  pose proof (decodeRune_width b s) as Hw. destruct (decodeRune (b :: s)) as [c n].
  simpl in *. f_equal. apply IH. lia.
Qed.

Lemma decoded_app s e : rune_start e → decoded (s ++ e) = decoded s ++ decoded e.
Proof. intros He. apply decode_from_app; [done | lia]. Qed.

Lemma space_encoding_decoded e : e ∈ space_encodings → rune_start e ∧ length (decoded e) = 1%nat.
Proof.
  intros H. repeat (apply elem_of_cons in H as [->|H]; [by vm_compute|]).
  by apply not_elem_of_nil in H.
Qed.

(** A white-space rune at the front is decoded as one rune, whatever follows. *)
Lemma decode_space_prefix e s : e ∈ space_encodings → decoded (e ++ s) = decoded e ++ decoded s.
Proof.
  intros H. repeat (apply elem_of_cons in H as [->|H]; [reflexivity|]).
  by apply not_elem_of_nil in H.
Qed.

Lemma strip_runes n s : (length (decoded (strip n space_encodings s)) ≤ length (decoded s))%nat.
Proof.
  revert s. induction n as [|n IH]; intros s; cbn [strip]; [lia |].
  destruct (match_prefix space_encodings s) as [r|] eqn:E; [|lia].
  apply match_prefix_Some in E as (e & He & ->). rewrite decode_space_prefix, length_app by done.
  specialize (IH r). lia.
Qed.

Lemma strip_rev_runes n s :
  (length (decoded (rev (strip n (map (@rev byte) space_encodings) s))) ≤ length (decoded (rev s)))%nat.
Proof.
  revert s. induction n as [|n IH]; intros s; cbn [strip]; [lia |].
  destruct (match_prefix (map (@rev byte) space_encodings) s) as [r|] eqn:E; [|lia].
  apply match_prefix_Some in E as (e & He & ->).
  apply list_elem_of_In, in_map_iff in He as (e' & <- & He'%list_elem_of_In).
  rewrite rev_app_distr, rev_involutive, decoded_app, length_app
    by (by apply space_encoding_decoded). specialize (IH r). lia.
Qed.

Lemma TrimSpace_runes s : RuneCountInString (TrimSpace s) ≤ RuneCountInString s.
Proof.
  unfold RuneCountInString, TrimSpace, TrimRightSpace, TrimLeftSpace.
  pose proof (strip_runes (length s) s).
  pose proof (strip_rev_runes (length (strip (length s) space_encodings s))
    (rev (strip (length s) space_encodings s))) as H1. rewrite rev_involutive in H1. lia.
Qed.
