(* ===== verification/GoStrconv.v ===== *)
(** * GoStrconv: decimal parsing and formatting of Go's [strconv]

    [ParseUint], [ParseInt] and [FormatInt] in base 10.  [None] is any parse error (syntax or
    range); the callers only distinguish success from failure. *)

From S2P Require Import Prelude GoStrings.

Definition MaxInt64 : Z := 9223372036854775807.
Definition MinInt64 : Z := -9223372036854775808.

Definition is_digit (b : byte) : bool := in_range "0" "9" b.

Definition dec_value (s : gostring) : Z := fold_left (λ acc b, acc * 10 + (bz b - 48)) s 0.

(** [strconv.ParseUint(s, 10, bits)]. *)
Definition ParseUint (s : gostring) (bits : Z) : option Z :=
  if is_empty s then None
  else if forallb is_digit s then
    if dec_value s <=? 2 ^ bits - 1 then Some (dec_value s) else None
  else None.

Definition split_sign (s : gostring) : bool * gostring :=
  match s with
  | b :: rest => if beq b "+" then (false, rest) else if beq b "-" then (true, rest) else (false, s)
  | [] => (false, [])
  end.

(** [strconv.ParseInt(s, 10, 64)]: an optional sign, then digits. *)
Definition ParseInt (s : gostring) : option Z :=
  let '(neg, digits) := split_sign s in
  if is_empty digits || negb (forallb is_digit digits) then None
  else
    let n := dec_value digits in
    if neg then if n <=? 9223372036854775808 then Some (- n) else None
    else if n <=? MaxInt64 then Some n else None.

Fixpoint format_fuel (fuel : nat) (n : Z) : gostring :=
  match fuel with
  | O => []
  | S k =>
      if n <? 10 then [zb (48 + n)]
      else format_fuel k (n / 10) ++ [zb (48 + n mod 10)]
  end.

(** [strconv.FormatUint(n, 10)]; the fuel is the bit length, which bounds the digits. *)
Definition FormatUint (n : Z) : gostring := format_fuel (S (Z.to_nat (Z.log2 n))) n.

(** [strconv.FormatInt(n, 10)] and [strconv.Itoa]. *)
Definition FormatInt (n : Z) : gostring :=
  if n <? 0 then "-"%byte :: FormatUint (- n) else FormatUint n.

(** ** Facts *)

Lemma dec_value_snoc s b : dec_value (s ++ [b]) = dec_value s * 10 + (bz b - 48).
Proof. unfold dec_value. by rewrite fold_left_app. Qed.

Lemma bz_digit n : 0 ≤ n < 10 → bz (zb (48 + n)) = 48 + n.
Proof. intros H. rewrite bz_zb. apply Z.mod_small. lia. Qed.

Lemma is_digit_zb n : 0 ≤ n < 10 → is_digit (zb (48 + n)) = true.
Proof.
  intros H. apply in_range_spec. rewrite bz_digit by lia.
  change (bz "0") with 48. change (bz "9") with 57. lia.
Qed.

Lemma format_fuel_spec k n :
  0 ≤ n < 2 ^ Z.of_nat k →
  format_fuel k n ≠ [] ∨ k = O →
  (k ≠ O → format_fuel k n ≠ []) ∧
  forallb is_digit (format_fuel k n) = true ∧ dec_value (format_fuel k n) = n.
Proof.
  revert n. induction k as [|k IH]; intros n Hn _.
  - simpl in *. split; [done |]. split; [done |]. unfold dec_value. simpl. lia.
  - cbn [format_fuel]. destruct (Z.ltb_spec n 10) as [Hlt|Hge].
    + split; [done |]. simpl. rewrite is_digit_zb by lia.
      split; [done |]. unfold dec_value. simpl. rewrite bz_digit by lia. lia.
    + assert (0 ≤ n / 10 < 2 ^ Z.of_nat k) as Hq.
      { rewrite Nat2Z.inj_succ, Z.pow_succ_r in Hn by lia.
        split; [apply Z.div_pos; lia | apply Z.div_lt_upper_bound; lia]. }
      destruct (IH (n / 10) Hq) as (_ & Hd & Hv).
      { destruct k; [by right | left]. simpl. destruct (n / 10 <? 10); [done |].
        intros E. by apply app_eq_nil in E as [_ ?]. }
      pose proof (Z.mod_pos_bound n 10 ltac:(lia)).
      split_and!.
      * intros _ E. by apply app_eq_nil in E as [_ ?].
      * rewrite forallb_app, Hd. simpl. by rewrite is_digit_zb by lia.
      * rewrite dec_value_snoc, Hv, bz_digit by lia. pose proof (Z.div_mod n 10). lia.
Qed.

Lemma FormatUint_spec n :
  0 ≤ n →
  FormatUint n ≠ [] ∧ forallb is_digit (FormatUint n) = true ∧ dec_value (FormatUint n) = n.
Proof.
  intros Hn. unfold FormatUint.
  destruct (format_fuel_spec (S (Z.to_nat (Z.log2 n))) n) as (H1 & H2 & H3).
  - split; [done |]. rewrite Nat2Z.inj_succ, Z2Nat.id by apply Z.log2_nonneg.
    destruct (Z.eq_dec n 0) as [->|]; [done |]. apply Z.log2_spec. lia.
  - left. cbn [format_fuel]. destruct (n <? 10); [done |].
    intros E. by apply app_eq_nil in E as [_ ?].
  - split_and!; auto.
Qed.

(** Parsing what was formatted gives the number back. *)
Lemma ParseUint_FormatUint n bits :
  0 ≤ n ≤ 2 ^ bits - 1 → ParseUint (FormatUint n) bits = Some n.
Proof.
  intros Hn. destruct (FormatUint_spec n) as (H1 & H2 & H3); [lia |].
  unfold ParseUint. destruct (is_empty _) eqn:E; [by apply is_empty_true in E |].
  rewrite H2, H3. by rewrite (proj2 (Z.leb_le _ _)) by lia.
Qed.

Lemma digit_not_sign b : is_digit b = true → beq b "+" = false ∧ beq b "-" = false.
Proof.
  intros H. pose proof (byte_forallb (λ b, implb (is_digit b) (negb (beq b "+") && negb (beq b "-")))
    ltac:(vm_compute; reflexivity) b) as Hb. cbv beta in Hb. rewrite H in Hb. simpl in Hb.
  by bool_props.
Qed.

Lemma ParseInt_FormatUint n : 0 ≤ n ≤ MaxInt64 → ParseInt (FormatUint n) = Some n.
Proof.
  intros Hn. destruct (FormatUint_spec n) as (H1 & H2 & H3); [lia |].
  unfold ParseInt, split_sign. destruct (FormatUint n) as [|b s]; [done |].
  assert (is_digit b = true) as Hb by (simpl in H2; by bool_props).
  destruct (digit_not_sign b Hb) as [-> ->]. cbn [is_empty orb]. rewrite H2. cbn [negb].
  rewrite H3. by rewrite (proj2 (Z.leb_le _ _)) by lia.
Qed.

Lemma ParseInt_range s n : ParseInt s = Some n → MinInt64 ≤ n ≤ MaxInt64.
Proof.
  assert (∀ s, forallb is_digit s = true → 0 ≤ dec_value s) as Hpos.
  { intros t. induction t as [|b t IH] using rev_ind; [done |].
    rewrite forallb_app_true, dec_value_snoc. simpl. intros [Ht Hb]. bool_props.
    match goal with H : is_digit b = true |- _ => apply in_range_spec in H end.
    change (bz "0") with 48 in *. specialize (IH Ht). lia. }
  unfold ParseInt, MinInt64, MaxInt64. intros H.
  destruct (split_sign s) as [neg digits].
  destruct (is_empty digits); [done |]. cbn [orb] in H.
  destruct (forallb is_digit digits) eqn:Ed; [|done]. specialize (Hpos _ Ed). cbn [negb] in H.
  destruct neg; case_match; simplify_eq; bool_props; lia.
Qed.

Lemma digit_graphic b : is_digit b = true → is_graphic b = true.
Proof.
  intros H. pose proof (byte_forallb (λ b, implb (is_digit b) (is_graphic b))
    ltac:(vm_compute; reflexivity) b) as Hb. cbv beta in Hb. by rewrite H in Hb.
Qed.

Lemma FormatUint_graphic n : 0 ≤ n → Forall (λ b, is_graphic b = true) (FormatUint n).
Proof.
  intros Hn. destruct (FormatUint_spec n Hn) as (_ & H & _).
  apply Forall_forallb in H. eapply Forall_impl; [exact H | apply digit_graphic].
Qed.
