(* ===== verification/GoCrypto.v ===== *)
(** * GoCrypto: [encoding/hex], [crypto/sha256] and [crypto/hmac], executable

    SHA-256 (FIPS 180-4) and HMAC (RFC 2104) over byte lists with 32-bit words kept as integers
    modulo 2^32, so the repository's signature vectors are checked by evaluation. *)

From S2P Require Import Prelude GoStrings.

(** ** hex *)

Definition lower_hex_digit (n : Z) : byte := if n <? 10 then zb (48 + n) else zb (87 + n).

Definition hex_byte (b : byte) : gostring := [lower_hex_digit (bz b / 16); lower_hex_digit (bz b mod 16)].

(** [hex.EncodeToString]. *)
Definition hexEncode (s : gostring) : gostring := flat_map hex_byte s.

(** ** SHA-256 *)

Definition mask32 : Z := 4294967295.

Definition add32 (a b : Z) : Z := Z.land (a + b) mask32.

Definition rotr32 (x n : Z) : Z :=
  Z.lor (Z.shiftr x n) (Z.land (Z.shiftl x (32 - n)) mask32).

Definition lnot32 (x : Z) : Z := mask32 - x.

Definition ch (x y z : Z) : Z := Z.lxor (Z.land x y) (Z.land (lnot32 x) z).
Definition maj (x y z : Z) : Z := Z.lxor (Z.lxor (Z.land x y) (Z.land x z)) (Z.land y z).
Definition bsig0 (x : Z) : Z := Z.lxor (Z.lxor (rotr32 x 2) (rotr32 x 13)) (rotr32 x 22).
Definition bsig1 (x : Z) : Z := Z.lxor (Z.lxor (rotr32 x 6) (rotr32 x 11)) (rotr32 x 25).
Definition ssig0 (x : Z) : Z := Z.lxor (Z.lxor (rotr32 x 7) (rotr32 x 18)) (Z.shiftr x 3).
Definition ssig1 (x : Z) : Z := Z.lxor (Z.lxor (rotr32 x 17) (rotr32 x 19)) (Z.shiftr x 10).

(** The constants are 32 bits of the fractional parts of the roots of the first primes: square roots
    for the initial state, cube roots for the rounds (FIPS 180-4, 4.2.2 and 5.3.3). *)
Definition is_prime (n : nat) : bool := forallb (λ d, negb (Nat.eqb (Nat.modulo n d) 0)) (seq 2 (n - 2)).

Definition first_primes : list Z := Eval vm_compute in
  map Z.of_nat (filter (λ n, is_prime n = true) (seq 2 310)).

(** The integer cube root, one bit at a time from bit [k - 1] down. *)
Fixpoint cube_root (k : nat) (n acc : Z) : Z :=
  match k with
  | O => acc
  | S k =>
      let c := acc + 2 ^ Z.of_nat k in
      cube_root k n (if c * c * c <=? n then c else acc)
  end.

Definition K256 : list Z := Eval vm_compute in
  map (λ p, cube_root 36 (p * 2 ^ 96) 0 mod 2 ^ 32) first_primes.

Record sha_state := mkSha { sa : Z; sb : Z; sc : Z; sd : Z; se : Z; sf : Z; sg : Z; sh : Z }.

Definition sha_init : sha_state := Eval vm_compute in
  let h i := Z.sqrt (nth (Z.to_nat i) first_primes 0 * 2 ^ 64) mod 2 ^ 32 in
  mkSha (h 0) (h 1) (h 2) (h 3) (h 4) (h 5) (h 6) (h 7).

(** Message schedule: the words so far, newest first. *)
Fixpoint schedule (fuel : nat) (w : list Z) : list Z :=
  match fuel with
  | O => w
  | S k =>
      let t := add32 (add32 (ssig1 (nth 1 w 0)) (nth 6 w 0)) (add32 (ssig0 (nth 14 w 0)) (nth 15 w 0)) in
      schedule k (t :: w)
  end.

Definition sha_round (st : sha_state) (kw : Z * Z) : sha_state :=
  let '(k, w) := kw in
  let t1 := add32 (add32 (add32 (sh st) (bsig1 (se st))) (add32 (ch (se st) (sf st) (sg st)) k)) w in
  let t2 := add32 (bsig0 (sa st)) (maj (sa st) (sb st) (sc st)) in
  mkSha (add32 t1 t2) (sa st) (sb st) (sc st) (add32 (sd st) t1) (se st) (sf st) (sg st).

Definition be_word (l : list byte) : Z := fold_left (λ acc b, acc * 256 + bz b) l 0.

Fixpoint words (l : list byte) : list Z :=
  match l with
  | a :: b :: c :: d :: r => be_word [a; b; c; d] :: words r
  | _ => []
  end.

Definition sha_block (st : sha_state) (block : list byte) : sha_state :=
  let w := rev (schedule 48 (rev (words block))) in
  let r := fold_left sha_round (combine K256 w) st in
  mkSha (add32 (sa st) (sa r)) (add32 (sb st) (sb r)) (add32 (sc st) (sc r)) (add32 (sd st) (sd r))
        (add32 (se st) (se r)) (add32 (sf st) (sf r)) (add32 (sg st) (sg r)) (add32 (sh st) (sh r)).

Fixpoint chunks (fuel : nat) (n : nat) (l : list byte) : list (list byte) :=
  match fuel with
  | O => []
  | S k => match l with [] => [] | _ => firstn n l :: chunks k n (skipn n l) end
  end.

Definition be_bytes (n : nat) (x : Z) : list byte :=
  map (λ i, zb (Z.shiftr x (8 * Z.of_nat (n - 1 - i)))) (seq 0 n).

Definition sha_pad (m : list byte) : list byte :=
  let len := Z.of_nat (length m) in
  m ++ [x80] ++ repeat x00 (Z.to_nat ((55 - len) mod 64)) ++ be_bytes 8 (8 * len).

Definition sha256 (m : list byte) : list byte :=
  let p := sha_pad m in
  let st := fold_left sha_block (chunks (length p) 64 p) sha_init in
  flat_map (be_bytes 4) [sa st; sb st; sc st; sd st; se st; sf st; sg st; sh st].

(** ** HMAC-SHA256 *)

Definition xor_pad (c : Z) (k : list byte) : list byte := map (λ b, zb (Z.lxor (bz b) c)) k.

Definition hmac_key (key : list byte) : list byte :=
  let k := if (64 <? length key)%nat then sha256 key else key in
  k ++ repeat x00 (64 - length k).

(** [hmac.New(sha256.New, key)], [Write(msg)], [Sum]. *)
Definition hmac_sha256 (key msg : list byte) : list byte :=
  let k := hmac_key key in
  sha256 (xor_pad 0x5c k ++ sha256 (xor_pad 0x36 k ++ msg)).

(** ** Facts *)

Lemma sha256_length m : length (sha256 m) = 32%nat.
Proof. done. Qed.

Lemma hmac_sha256_length k m : length (hmac_sha256 k m) = 32%nat.
Proof. apply sha256_length. Qed.

Lemma hexEncode_length s : length (hexEncode s) = (2 * length s)%nat.
Proof. unfold hexEncode. induction s; simpl; lia. Qed.

Definition is_lower_hex (b : byte) : bool := in_range "0" "9" b || in_range "a" "f" b.

Lemma hexEncode_lower s : Forall (λ b, is_lower_hex b = true) (hexEncode s).
Proof.
  unfold hexEncode. induction s as [|b s IH]; simpl; [constructor |].
  pose proof (byte_forallb (λ b, forallb is_lower_hex (hex_byte b)) ltac:(vm_compute; reflexivity) b)
    as H. cbv beta in H. unfold hex_byte in H. simpl in H. bool_props. by repeat constructor.
Qed.

Lemma lower_hex_graphic b : is_lower_hex b = true → is_graphic b = true.
Proof.
  intros H. pose proof (byte_forallb (λ b, implb (is_lower_hex b) (is_graphic b))
    ltac:(vm_compute; reflexivity) b) as Hb. cbv beta in Hb. by rewrite H in Hb.
Qed.

Lemma hexEncode_graphic s : Forall (λ b, is_graphic b = true) (hexEncode s).
Proof. eapply Forall_impl; [apply hexEncode_lower | apply lower_hex_graphic]. Qed.

Lemma hexEncode_trim s : TrimSpace (hexEncode s) = hexEncode s.
Proof. apply TrimSpace_graphic, hexEncode_graphic. Qed.

Lemma hexEncode_digest_ne s : length s = 32%nat → hexEncode s ≠ [].
Proof. intros H E. apply (f_equal length) in E. rewrite hexEncode_length, H in E. done. Qed.

Lemma hex_byte_inj b c : hex_byte b = hex_byte c → b = c.
Proof.
  intros E. pose proof (byte_forallb2 (λ b c, implb (seqb (hex_byte b) (hex_byte c)) (beq b c))
    ltac:(vm_compute; reflexivity) b c) as H. cbv beta in H.
  rewrite E, seqb_refl in H. simpl in H. by apply beq_true.
Qed.

#[export] Instance hexEncode_inj : Inj (=) (=) hexEncode.
Proof.
  unfold hexEncode. intros s. induction s as [|b s IH]; intros [|c t]; simpl; try done.
  intros [= H1 H2 H3]. rewrite (IH t H3). f_equal. apply hex_byte_inj.
  unfold hex_byte. by rewrite H1, H2.
Qed.

(** NIST and RFC 4231 test vectors. *)
Example sha256_abc :
  hexEncode (sha256 (go "abc")) = go "ba7816bf8f01cfea414140de5dae2223b00361a396177a9cb410ff61f20015ad".
Proof. vm_compute. reflexivity. Qed.

Example hmac_rfc4231_2 :
  hexEncode (hmac_sha256 (go "Jefe") (go "what do ya want for nothing?")) =
  go "5bdcc146bf60754e6a042426089575c75a003f089d2739839dec58b964ec3843".
Proof. vm_compute. reflexivity. Qed.
