(* ===== verification/GoNetip.v ===== *)
(** * GoNetip: [net/netip]'s [ParseAddr] and [Addr.String]

    The address parser and printer the webhook authority canonicalisation relies on, following the
    loops of package netip: IPv4 octets without leading zeros, IPv6 groups of up to four hex
    digits, one ellipsis, an embedded IPv4 tail and a zone; printing in RFC 5952 form. *)

From S2P Require Import Prelude GoStrings GoStrconv.

Inductive addr :=
| Addr4 (octets : list Z)
| Addr6 (hextets : list Z) (zone : gostring).

Definition Is6 (a : addr) : bool := match a with Addr4 _ => false | Addr6 _ _ => true end.

Definition Zone (a : addr) : gostring := match a with Addr4 _ => [] | Addr6 _ z => z end.

(** [parseIPv4Fields]: current value, digits seen in this octet, finished octets. *)
Fixpoint v4_fields (s : gostring) (val : Z) (digLen : nat) (fields : list Z) : option (list Z) :=
  match s with
  | [] => if (length fields <? 3)%nat then None else Some (fields ++ [val])
  | c :: r =>
      if is_digit c then
        if (digLen =? 1)%nat && (val =? 0) then None
        else
          let val' := val * 10 + (bz c - 48) in
          if 255 <? val' then None else v4_fields r val' (S digLen) fields
      else if beq c "." then
        if (digLen =? 0)%nat || is_empty r then None
        else if (length fields =? 3)%nat then None
        else v4_fields r 0 0 (fields ++ [val])
      else None
  end.

Definition hex_value (c : byte) : option Z :=
  if is_digit c then Some (bz c - 48)
  else if in_range "a" "f" c then Some (bz c - 97 + 10)
  else if in_range "A" "F" c then Some (bz c - 65 + 10)
  else None.

(** The hex digits of one group: value, number of digits, rest; five digits are refused. *)
Fixpoint scan_hex (s : gostring) (acc : Z) (off : nat) : option (Z * nat * gostring) :=
  match s with
  | c :: r =>
      match hex_value c with
      | Some d => if (3 <? off)%nat then None else scan_hex r (acc * 16 + d) (S off)
      | None => Some (acc, off, s)
      end
  | [] => Some (acc, off, s)
  end.

(** The group loop of [parseIPv6]; [acc] holds the groups so far, so [fuel] is the room left. *)
Fixpoint v6_groups (fuel : nat) (s : gostring) (acc : list Z) (ellipsis : option nat)
  : option (list Z * option nat * gostring) :=
  match fuel with
  | O => Some (acc, ellipsis, s)
  | S k =>
      match scan_hex s 0 0 with
      | None => None
      | Some (v, off, rest) =>
          if (off =? 0)%nat then None
          else match rest with
               | [] => Some (acc ++ [v], ellipsis, [])
               | c :: rest1 =>
                   if beq c "." then
                     if (match ellipsis with None => true | Some _ => false end)
                        && negb (length acc =? 6)%nat then None
                     else if (8 <? length acc + 2)%nat then None
                     else match v4_fields s 0 0 [] with
                          | Some [a; b; c; d] =>
                              Some (acc ++ [a * 256 + b; c * 256 + d], ellipsis, [])
                          | _ => None
                          end
                   else if negb (beq c ":") || is_empty rest1 then None
                   else match rest1 with
                        | c2 :: rest2 =>
                            if beq c2 ":" then
                              match ellipsis with
                              | Some _ => None
                              | None =>
                                  if is_empty rest2
                                  then Some (acc ++ [v], Some (S (length acc)), [])
                                  else v6_groups k rest2 (acc ++ [v]) (Some (S (length acc)))
                              end
                            else v6_groups k rest1 (acc ++ [v]) ellipsis
                        | [] => None
                        end
               end
      end
  end.

Definition parseIPv6 (inp : gostring) : option addr :=
  let '(s, zone, hasZone) := Cut "%" inp in
  if hasZone && is_empty zone then None
  else
    let '(s, ellipsis) :=
      match s with
      | c1 :: c2 :: r => if beq c1 ":" && beq c2 ":" then (r, Some O) else (s, None)
      | _ => (s, None)
      end in
    if match ellipsis with Some _ => is_empty s | None => false end
    then Some (Addr6 (repeat 0 8) zone)
    else match v6_groups 8 s [] ellipsis with
         | Some (groups, ell, []) =>
             if (length groups <? 8)%nat then
               match ell with
               | None => None
               | Some e =>
                   Some (Addr6 (take e groups ++ repeat 0 (8 - length groups) ++ drop e groups) zone)
               end
             else match ell with Some _ => None | None => Some (Addr6 groups zone) end
         | _ => None
         end.

(** [netip.ParseAddr]: the first of dot, colon and percent decides the family. *)
Fixpoint first_family (s : gostring) : option byte :=
  match s with
  | [] => None
  | c :: r => if beq c "." || beq c ":" || beq c "%" then Some c else first_family r
  end.

Definition ParseAddr (s : gostring) : option addr :=
  match first_family s with
  | Some c =>
      if beq c "." then Addr4 <$> v4_fields s 0 0 []
      else if beq c ":" then parseIPv6 s
      else None
  | None => None
  end.

(** ** Printing *)

Fixpoint hex_fuel (fuel : nat) (n : Z) : gostring :=
  match fuel with
  | O => []
  | S k =>
      let d := n mod 16 in
      (if n / 16 =? 0 then [] else hex_fuel k (n / 16)) ++ [if d <? 10 then zb (48 + d) else zb (87 + d)]
  end.

Definition appendHex (n : Z) : gostring := hex_fuel 4 n.

Fixpoint zero_run (l : list Z) : nat :=
  match l with
  | z :: r => if z =? 0 then S (zero_run r) else O
  | [] => O
  end.

(** The longest run of at least two zero groups, the first of equal ones: start and end. *)
Fixpoint best_run (i : nat) (l : list Z) (best : nat * nat) : nat * nat :=
  match l with
  | [] => best
  | _ :: r =>
      let n := zero_run l in
      best_run (S i) r (if (2 <=? n)%nat && (best.2 - best.1 <? n)%nat then (i, (i + n)%nat) else best)
  end.

Fixpoint print6 (fuel i : nat) (h : list Z) (zs ze : nat) : gostring :=
  match fuel with
  | O => []
  | S k =>
      if (8 <=? i)%nat then []
      else if (i =? zs)%nat then
        go "::" ++ (if (8 <=? ze)%nat then [] else appendHex (nth ze h 0) ++ print6 k (S ze) h zs ze)
      else (if (0 <? i)%nat then [":"%byte] else []) ++ appendHex (nth i h 0) ++ print6 k (S i) h zs ze
  end.

Definition string4 (o : list Z) : gostring := Join ["."%byte] (map FormatUint o).

Definition Is4In6 (h : list Z) : bool := bool_decide (take 6 h = [0; 0; 0; 0; 0; 65535]).

Definition with_zone (zone : gostring) : gostring := if is_empty zone then [] else "%"%byte :: zone.

(** [Addr.String]. *)
Definition AddrString (a : addr) : gostring :=
  match a with
  | Addr4 o => string4 o
  | Addr6 h zone =>
      (if Is4In6 h then
         go "::ffff:" ++ string4 [nth 6 h 0 / 256; nth 6 h 0 mod 256; nth 7 h 0 / 256; nth 7 h 0 mod 256]
       else
         let '(zs, ze) := best_run 0 h (255, 255)%nat in print6 9 0 h zs ze)
      ++ with_zone zone
  end.

(** ** Checks *)

Example parse_print_v6 :
  map (λ s, AddrString <$> ParseAddr s)
    [go "2001:DB8:0:0:1:0:0:1"; go "::1"; go "::"; go "fe80::1%eth0"; go "::ffff:1.2.3.4";
     go "1:2:3:4:5:6:7:8"; go "1::"; go "0:0:0:0:0:0:0:1"; go "10.0.0.1"] =
  [Some (go "2001:db8::1:0:0:1"); Some (go "::1"); Some (go "::"); Some (go "fe80::1%eth0");
   Some (go "::ffff:1.2.3.4"); Some (go "1:2:3:4:5:6:7:8"); Some (go "1::"); Some (go "::1");
   Some (go "10.0.0.1")].
Proof. vm_compute. reflexivity. Qed.

Example parse_rejects :
  map ParseAddr
    [go "1.2.3"; go "01.2.3.4"; go "256.1.1.1"; go "1.2.3.4.5"; go "localhost"; go ":1"; go "1:::2";
     go "1::2::3"; go "12345::"; go "1:2:3:4:5:6:7"; go "1:2:3:4:5:6:7:8:9"; go "::1%"; go "%eth0"] =
  repeat None 13.
Proof. vm_compute. reflexivity. Qed.

(** ** Facts *)

Lemma addr_char_print_v4 o : Forall (λ n, 0 ≤ n) o → Forall (λ b, is_digit b || beq b "." = true) (string4 o).
Proof.
  unfold string4. induction 1 as [|n o Hn Ho IH]; [constructor |].
  assert (Forall (λ b, is_digit b || beq b "." = true) (FormatUint n)) as Hd.
  { destruct (FormatUint_spec n Hn) as (_ & H & _). apply Forall_forallb in H.
    eapply Forall_impl; [exact H |]. intros b Hb. cbv beta in *. by rewrite Hb. }
  destruct o as [|m o]; [done |]. cbn [map] in *. rewrite Join_cons2. rewrite !Forall_app.
  split_and!; [done | by repeat constructor | done].
Qed.

Lemma v4_fields_nonneg s v d fs o :
  0 ≤ v → Forall (λ n, 0 ≤ n) fs → v4_fields s v d fs = Some o → Forall (λ n, 0 ≤ n) o.
Proof.
  revert v d fs. induction s as [|c s IH]; intros v d fs Hv Hfs; cbn [v4_fields].
  - case_match; [done |]. intros [= <-]. apply Forall_app. by repeat constructor.
  - destruct (is_digit c) eqn:Ec.
    + case_match; [done |]. case_match; [done |]. apply IH; [|done].
      apply in_range_spec in Ec. change (bz "0") with 48 in Ec. lia.
    + case_match; [|done]. case_match; [done |]. case_match; [done |].
      apply IH; [lia |]. apply Forall_app. by repeat constructor.
Qed.

(** Printed addresses are printable ASCII. *)
Lemma digit_dot_graphic b : is_digit b || beq b "." = true → is_graphic b = true.
Proof.
  intros H. pose proof (byte_forallb (λ b, implb (is_digit b || beq b ".") (is_graphic b))
    ltac:(vm_compute; reflexivity) b) as Hb. cbv beta in Hb. by rewrite H in Hb.
Qed.

Lemma string4_graphic o : Forall (λ n, 0 ≤ n) o → Forall (λ b, is_graphic b = true) (string4 o).
Proof.
  intros H. eapply Forall_impl; [by apply addr_char_print_v4 | apply digit_dot_graphic].
Qed.

Lemma hex_digit_graphic d :
  0 ≤ d < 16 → is_graphic (if d <? 10 then zb (48 + d) else zb (87 + d)) = true.
Proof.
  intros H. apply in_range_spec. change (bz x21) with 33. change (bz x7e) with 126.
  destruct (Z.ltb_spec d 10); rewrite bz_zb, Z.mod_small by lia; lia.
Qed.

Lemma appendHex_graphic n : Forall (λ b, is_graphic b = true) (appendHex n).
Proof.
  unfold appendHex. generalize 4%nat. intros k. revert n.
  induction k as [|k IH]; intros n; [constructor |]. cbn [hex_fuel]. apply Forall_app. split.
  - destruct (n / 16 =? 0); [constructor | apply IH].
  - constructor; [|constructor]. apply hex_digit_graphic. apply Z.mod_pos_bound. lia.
Qed.

Lemma print6_graphic k i h zs ze : Forall (λ b, is_graphic b = true) (print6 k i h zs ze).
Proof.
  revert i. induction k as [|k IH]; intros i; [constructor |]. cbn [print6].
  case_match; [constructor |]. case_match.
  - apply Forall_app. split; [by repeat constructor |].
    case_match; [constructor |]. apply Forall_app. split; [apply appendHex_graphic | apply IH].
  - rewrite !Forall_app. split_and!; [|apply appendHex_graphic | apply IH].
    case_match; by repeat constructor.
Qed.

Lemma scan_hex_nonneg s a o v o' r : 0 ≤ a → scan_hex s a o = Some (v, o', r) → 0 ≤ v.
Proof.
  revert a o. induction s as [|c s IH]; intros a o Ha; cbn [scan_hex]; [naive_solver |].
  unfold hex_value.
  destruct (is_digit c) eqn:E1; [|destruct (in_range "a" "f" c) eqn:E2;
    [|destruct (in_range "A" "F" c) eqn:E3]];
    repeat match goal with H : in_range _ _ _ = true |- _ => apply in_range_spec in H
                         | H : is_digit _ = true |- _ => apply in_range_spec in H end;
    change (bz "0") with 48 in *; change (bz "a") with 97 in *; change (bz "A") with 65 in *;
    try (case_match; [done |]; apply IH; lia).
  intros [= <- <- <-]. done.
Qed.

Lemma v6_groups_nonneg k s acc e g e' r :
  Forall (λ n, 0 ≤ n) acc → v6_groups k s acc e = Some (g, e', r) → Forall (λ n, 0 ≤ n) g.
Proof.
  revert s acc e. induction k as [|k IH]; intros s acc e Hacc; cbn [v6_groups]; [naive_solver |].
  destruct (scan_hex s 0 0) as [[[v off] rest]|] eqn:Es; [|done].
  assert (0 ≤ v) by (by eapply scan_hex_nonneg, Es).
  assert (Forall (λ n, 0 ≤ n) (acc ++ [v])) by (apply Forall_app; by repeat constructor).
  case_match; [done |]. destruct rest as [|c rest]; [naive_solver |].
  destruct (beq c ".").
  - destruct (_ && _); [done |]. destruct (8 <? _)%nat; [done |].
    destruct (v4_fields s 0 0 []) as [o|] eqn:Ev; [|done].
    apply v4_fields_nonneg in Ev; [|lia | constructor].
    destruct o as [|a [|b [|c' [|d [|]]]]]; try done. intros [= <- <- <-].
    apply Forall_app. split; [done |].
    repeat match goal with H : Forall _ (_ :: _) |- _ => apply Forall_cons in H as [??] end.
    repeat constructor; lia.
  - destruct (_ || _); [done |]. destruct rest as [|c2 rest2]; [done |].
    destruct (beq c2 ":"); [|by apply IH].
    destruct e; [done |]. case_match; [naive_solver | by apply IH].
Qed.

Lemma parseIPv6_nonneg s h z : parseIPv6 s = Some (Addr6 h z) → Forall (λ n, 0 ≤ n) h.
Proof.
  unfold parseIPv6. destruct (Cut "%" s) as [[s1 z1] hz]. destruct (_ && _); [done |].
  destruct (match s1 with [] => _ | _ => _ end) as [s2 e0].
  destruct (match e0 with Some _ => is_empty s2 | None => false end).
  - intros [= <- _]. by repeat constructor.
  - destruct (v6_groups 8 s2 [] e0) as [[[g e] [|]]|] eqn:Eg; try done.
    apply v6_groups_nonneg in Eg; [|constructor].
    case_match; [destruct e as [e|]; [|done] | by destruct e; [|intros [= <- _]]].
    intros [= <- _]. rewrite !Forall_app. split_and!.
    + by apply Forall_take.
    + apply Forall_forall. intros x Hx%list_elem_of_In%repeat_spec. lia.
    + by apply Forall_drop.
Qed.

Lemma ParseAddr_graphic s a :
  ParseAddr s = Some a → Zone a = [] → Forall (λ b, is_graphic b = true) (AddrString a).
Proof.
  unfold ParseAddr. destruct (first_family s) as [c|]; [|done].
  destruct (beq c ".").
  - destruct (v4_fields s 0 0 []) as [o|] eqn:Ev; [|done]. intros [= <-] _.
    apply string4_graphic. eapply v4_fields_nonneg; [| |exact Ev]; [lia | constructor].
  - destruct (beq c ":"); [|done]. destruct a as [o|h z]; cbn [AddrString Zone].
    + unfold parseIPv6. intros H. exfalso. repeat (case_match; try done).
    + intros H ->. apply parseIPv6_nonneg in H. rewrite app_nil_r.
      destruct (Is4In6 h).
      * do 7 (constructor; [done |]). apply string4_graphic.
        assert (∀ i, 0 ≤ nth i h 0) as Hn.
        { intros i. destruct (nth_in_or_default i h 0) as [Hi| ->]; [|done].
          rewrite List.Forall_forall in H. auto. }
        repeat constructor; try (apply Z.div_pos; [apply Hn | lia]);
          apply Z.mod_pos_bound; lia.
      * destruct (best_run 0 h (255, 255)%nat). apply print6_graphic.
Qed.
