(* ===== verification/GoMime.v ===== *)
(** * GoMime: [mime.ParseMediaType]

    The media-type parser the webhook handler uses to accept JSON bodies.  Only success and the
    media type matter to the callers, so parameters are parsed, checked for conflicting duplicates
    and dropped. *)

From S2P Require Import Prelude GoStrings.

Definition isTSpecial (b : byte) : bool :=
  ContainsByte b (go "()<>@,;:\" ++ [x22] ++ go "/[]?=").

Definition isTokenChar (b : byte) : bool := in_range x21 x7e b && negb (isTSpecial b).

Fixpoint consumeToken (v : gostring) : gostring * gostring :=
  match v with
  | [] => ([], [])
  | b :: r => if isTokenChar b then let '(t, rest) := consumeToken r in (b :: t, rest) else ([], v)
  end.

(** The quoted-string loop after the opening quote; [None] when the quote is not closed or a line
    break is met. *)
Fixpoint quoted (v : gostring) : option (gostring * gostring) :=
  match v with
  | [] => None
  | b :: r =>
      if beq b x22 then Some ([], r)
      else match r with
           | e :: r' =>
               if beq b x5c && isTSpecial e
               then option_map (λ '(t, rest), (e :: t, rest)) (quoted r')
               else if beq b x0d || beq b x0a then None
               else option_map (λ '(t, rest), (b :: t, rest)) (quoted r)
           | [] => None
           end
  end.

(** [consumeValue]: [None] stands for the failure results ([value] empty and nothing consumed). *)
Definition consumeValue (v : gostring) : option (gostring * gostring) :=
  match v with
  | [] => None
  | b :: r =>
      if beq b x22 then quoted r
      else let '(t, rest) := consumeToken v in if is_empty t then None else Some (t, rest)
  end.

Definition consumeMediaParam (v : gostring) : option (gostring * gostring * gostring) :=
  match TrimLeftSpace v with
  | c :: rest =>
      if negb (beq c ";") then None
      else
        let '(param, rest) := consumeToken (TrimLeftSpace rest) in
        if is_empty param then None
        else match TrimLeftSpace rest with
             | e :: rest =>
                 if negb (beq e "=") then None
                 else option_map (λ '(value, rest), (ToLower param, value, rest))
                        (consumeValue (TrimLeftSpace rest))
             | [] => None
             end
  | [] => None
  end.

Fixpoint parse_params (fuel : nat) (v : gostring) (seen : list (gostring * gostring)) : bool :=
  match fuel with
  | O => is_empty v
  | S k =>
      let v := TrimLeftSpace v in
      if is_empty v then true
      else match consumeMediaParam v with
           | None => seqb (TrimSpace v) (go ";")
           | Some (key, value, rest) =>
               if existsb (λ '(k', v'), seqb k' key && negb (seqb v' value)) seen then false
               else parse_params k rest ((key, value) :: seen)
           end
  end.

Definition checkMediaTypeDisposition (s : gostring) : bool :=
  let '(typ, rest) := consumeToken s in
  if is_empty typ then false
  else match rest with
       | [] => true
       | c :: rest =>
           if negb (beq c "/") then false
           else let '(subtype, rest) := consumeToken rest in negb (is_empty subtype) && is_empty rest
       end.

(** [mime.ParseMediaType]; every parameter consumes a byte, so the length is fuel enough. *)
Definition ParseMediaType (v : gostring) : option gostring :=
  let '(base, _, _) := Cut ";" v in
  let mediatype := TrimSpace (ToLower base) in
  if negb (checkMediaTypeDisposition mediatype) then None
  else if parse_params (S (length v)) (drop (length base) v) [] then Some mediatype
  else None.

Example media_types :
  map ParseMediaType
    [go "application/json"; go "Application/JSON; charset=utf-8"; go " text/plain ;";
     go "application/json; charset="; go "application/json; a=1; a=2"; go "application/json x";
     []; go "/json"] =
  [Some (go "application/json"); Some (go "application/json"); Some (go "text/plain");
   None; None; None; None; None].
Proof. vm_compute. reflexivity. Qed.
