(* ===== verification/GoJson.v ===== *)
(** * GoJson: encoding/json/v2 as the SDK uses it

    A parser for JSON texts with the default options of encoding/json/v2 and jsontext (RFC 8259,
    valid UTF-8 only, no unpaired surrogate escapes, no duplicate member names, nesting up to 10000,
    nothing but white space after the value) and the decoding of values into Go strings, integers,
    booleans, pointers, slices and structs (exact member names, unknown members ignored, null as the
    zero value). *)

From S2P Require Import Prelude GoStrings GoStrconv.

(** Object members keep the text of their value, for [jsontext.Value] fields. *)
Inductive json :=
| JNull
| JBool (b : bool)
| JNumber (text : gostring)
| JString (s : gostring)
| JArray (elems : list json)
| JObject (members : list (gostring * (gostring * json))).

Definition is_ws (b : byte) : bool := beq b x20 || beq b x09 || beq b x0a || beq b x0d.

Fixpoint skip_ws (s : gostring) : gostring :=
  match s with
  | b :: r => if is_ws b then skip_ws r else s
  | [] => []
  end.

(** ** Strings *)

Definition hex_value (b : byte) : option Z :=
  if in_range "0" "9" b then Some (bz b - 48)
  else if in_range "a" "f" b then Some (bz b - 87)
  else if in_range "A" "F" b then Some (bz b - 55)
  else None.

Definition hex4 (s : gostring) : option (Z * gostring) :=
  match s with
  | a :: b :: c :: d :: r =>
      match hex_value a, hex_value b, hex_value c, hex_value d with
      | Some x, Some y, Some z, Some w => Some (((x * 16 + y) * 16 + z) * 16 + w, r)
      | _, _, _, _ => None
      end
  | _ => None
  end.

(** The text after [\u]: one code unit, or a surrogate pair written as two escapes. *)
Definition unicode_escape (s : gostring) : option (gostring * gostring) :=
  match hex4 s with
  | None => None
  | Some (u, r) =>
      if (55296 <=? u) && (u <=? 56319) then
        match r with
        | b1 :: b2 :: r' =>
            if beq b1 "\" && beq b2 "u" then
              match hex4 r' with
              | Some (v, r'') =>
                  if (56320 <=? v) && (v <=? 57343)
                  then Some (encodeRune ((u - 55296) * 1024 + (v - 56320) + 65536), r'')
                  else None
              | None => None
              end
            else None
        | _ => None
        end
      else if (56320 <=? u) && (u <=? 57343) then None
      else Some (encodeRune u, r)
  end.

Definition simple_escape (b : byte) : option byte :=
  if beq b x22 || beq b "\" || beq b "/" then Some b
  else if beq b "b" then Some x08
  else if beq b "f" then Some x0c
  else if beq b "n" then Some x0a
  else if beq b "r" then Some x0d
  else if beq b "t" then Some x09
  else None.

(** The rest of a string after its opening quote: the decoded text and what follows. *)
Fixpoint parse_string (fuel : nat) (s : gostring) : option (gostring * gostring) :=
  match fuel with
  | O => None
  | S fuel =>
      let emit (p : option (gostring * gostring)) :=
        match p with
        | Some (x, r) =>
            match parse_string fuel r with
            | Some (t, r') => Some (x ++ t, r')
            | None => None
            end
        | None => None
        end in
      match s with
      | [] => None
      | b :: r =>
          if beq b x22 then Some ([], r)
          else if beq b "\" then
            match r with
            | e :: r' =>
                if beq e "u" then emit (unicode_escape r')
                else emit (match simple_escape e with Some c => Some ([c], r') | None => None end)
            | [] => None
            end
          else if bz b <? 32 then None
          else
            let '(rune, size) := decodeRune s in
            if (rune =? RuneError) && Nat.eqb size 1 then None
            else emit (Some (take size s, drop size s))
      end
  end.

(** ** Numbers *)

Fixpoint span_digits (s : gostring) : gostring * gostring :=
  match s with
  | b :: r => if is_digit b then let '(d, r') := span_digits r in (b :: d, r') else ([], s)
  | [] => ([], [])
  end.

Definition parse_int_part (s : gostring) : option (gostring * gostring) :=
  match s with
  | b :: r =>
      if beq b "0" then Some ([b], r)
      else if is_digit b then Some (span_digits s)
      else None
  | [] => None
  end.

Definition parse_frac (s : gostring) : option (gostring * gostring) :=
  match s with
  | b :: r =>
      if beq b "." then
        match span_digits r with
        | ([], _) => None
        | (d, r') => Some (b :: d, r')
        end
      else Some ([], s)
  | [] => Some ([], [])
  end.

Definition parse_exp (s : gostring) : option (gostring * gostring) :=
  match s with
  | b :: r =>
      if beq b "e" || beq b "E" then
        let '(sign, r) := match r with
                          | c :: r' => if beq c "+" || beq c "-" then ([c], r') else ([], r)
                          | [] => ([], r)
                          end in
        match span_digits r with
        | ([], _) => None
        | (d, r') => Some (b :: sign ++ d, r')
        end
      else Some ([], s)
  | [] => Some ([], [])
  end.

Definition parse_number (s : gostring) : option (gostring * gostring) :=
  let '(sign, r) := match s with
                    | b :: r => if beq b "-" then ([b], r) else ([], s)
                    | [] => ([], [])
                    end in
  match parse_int_part r with
  | None => None
  | Some (i, r) =>
      match parse_frac r with
      | None => None
      | Some (f, r) =>
          match parse_exp r with
          | None => None
          | Some (e, r) => Some (sign ++ i ++ f ++ e, r)
          end
      end
  end.

(** ** Values *)

Definition maxNestingDepth : nat := Z.to_nat 10000.

Definition parse_literal (s : gostring) : option (json * gostring) :=
  match cut_prefix (go "null") s with
  | Some r => Some (JNull, r)
  | None =>
      match cut_prefix (go "true") s with
      | Some r => Some (JBool true, r)
      | None =>
          match cut_prefix (go "false") s with
          | Some r => Some (JBool false, r)
          | None => match parse_number s with
                    | Some (n, r) => Some (JNumber n, r)
                    | None => None
                    end
          end
      end
  end.

(** A value that begins at the first byte of [s] (white space already skipped); [depth] is how many
    more containers may open.  [elems] and [members] read what follows the opening bracket of a
    non-empty container, or a comma. *)
Fixpoint parse_value (fuel : nat) (depth : nat) (s : gostring) : option (json * gostring) :=
  match fuel with
  | O => None
  | S fuel =>
      match s with
      | [] => None
      | b :: r =>
          if beq b x22 then
            match parse_string (length r) r with
            | Some (t, r') => Some (JString t, r')
            | None => None
            end
          else if beq b "[" then
            match depth with
            | O => None
            | S depth =>
                match skip_ws r with
                | c :: r' =>
                    if beq c "]" then Some (JArray [], r')
                    else match parse_elems fuel depth (skip_ws r) with
                         | Some (l, r'') => Some (JArray l, r'')
                         | None => None
                         end
                | [] => None
                end
            end
          else if beq b "{" then
            match depth with
            | O => None
            | S depth =>
                match skip_ws r with
                | c :: r' =>
                    if beq c "}" then Some (JObject [], r')
                    else match parse_members fuel depth (skip_ws r) with
                         | Some (l, r'') =>
                             if bool_decide (NoDup (map fst l)) then Some (JObject l, r'') else None
                         | None => None
                         end
                | [] => None
                end
            end
          else parse_literal s
      end
  end
with parse_elems (fuel : nat) (depth : nat) (s : gostring) : option (list json * gostring) :=
  match fuel with
  | O => None
  | S fuel =>
      match parse_value fuel depth s with
      | None => None
      | Some (v, r) =>
          match skip_ws r with
          | c :: r' =>
              if beq c "]" then Some ([v], r')
              else if beq c "," then
                match parse_elems fuel depth (skip_ws r') with
                | Some (l, r'') => Some (v :: l, r'')
                | None => None
                end
              else None
          | [] => None
          end
      end
  end
with parse_members (fuel : nat) (depth : nat) (s : gostring)
  : option (list (gostring * (gostring * json)) * gostring) :=
  match fuel with
  | O => None
  | S fuel =>
      match s with
      | q :: r =>
          if negb (beq q x22) then None
          else
            match parse_string (length r) r with
            | None => None
            | Some (name, r) =>
                match skip_ws r with
                | c :: r' =>
                    if negb (beq c ":") then None
                    else
                      let v_text := skip_ws r' in
                      match parse_value fuel depth v_text with
                      | None => None
                      | Some (v, r) =>
                          let raw := take (length v_text - length r) v_text in
                          match skip_ws r with
                          | c :: r' =>
                              if beq c "}" then Some ([(name, (raw, v))], r')
                              else if beq c "," then
                                match parse_members fuel depth (skip_ws r') with
                                | Some (l, r'') => Some ((name, (raw, v)) :: l, r'')
                                | None => None
                                end
                              else None
                          | [] => None
                          end
                      end
                | [] => None
                end
            end
      | [] => None
      end
  end.

(** One value and nothing after it: [json.Unmarshal]'s reading of its input. *)
Definition parse_json (s : gostring) : option json :=
  match parse_value (2 * length s + 1) maxNestingDepth (skip_ws s) with
  | Some (v, r) => if is_empty (skip_ws r) then Some v else None
  | None => None
  end.

(** ** Decoding into Go types *)

Definition dec_string (v : json) : option gostring :=
  match v with JString s => Some s | JNull => Some [] | _ => None end.

(** An integer literal only: no fraction, no exponent, within the 64 bits. *)
Definition dec_int64 (v : json) : option Z :=
  match v with
  | JNull => Some 0
  | JNumber t =>
      if forallb is_digit t || match t with b :: d => beq b "-" && forallb is_digit d | [] => false end
      then ParseInt t else None
  | _ => None
  end.

Definition dec_bool (v : json) : option bool :=
  match v with JBool b => Some b | JNull => Some false | _ => None end.

Definition dec_ptr {A} (dec : json → option A) (v : json) : option (option A) :=
  match v with JNull => Some None | _ => Some <$> dec v end.

Definition dec_slice {A} (dec : json → option A) (v : json) : option (list A) :=
  match v with
  | JNull => Some []
  | JArray l => mapM dec l
  | _ => None
  end.

(** The members a struct is decoded from; null leaves the zero value. *)
Definition dec_struct (v : json) : option (list (gostring * (gostring * json))) :=
  match v with JObject l => Some l | JNull => Some [] | _ => None end.

Fixpoint find_member (name : gostring) (l : list (gostring * (gostring * json)))
  : option (gostring * json) :=
  match l with
  | [] => None
  | (n, v) :: r => if seqb n name then Some v else find_member name r
  end.

Definition member {A} (l : list (gostring * (gostring * json))) (name : gostring) (zero : A)
  (dec : json → option A) : option A :=
  match find_member name l with
  | Some (_, v) => dec v
  | None => Some zero
  end.

(** A [jsontext.Value] field: the text as it stands, null included. *)
Definition member_raw (l : list (gostring * (gostring * json))) (name : gostring) : gostring :=
  match find_member name l with
  | Some (raw, _) => raw
  | None => []
  end.

(** ** The fuel is enough *)

Lemma skip_ws_length s : (length (skip_ws s) ≤ length s)%nat.
Proof. induction s as [|b s IH]; simpl; [lia |]. destruct (is_ws b); simpl; lia. Qed.

Lemma hex4_length s u r : hex4 s = Some (u, r) → (length r < length s)%nat.
Proof.
  unfold hex4. destruct s as [|? [|? [|? [|? s]]]]; try done. intros H. repeat case_match; try done.
  simplify_eq. simpl. lia.
Qed.

Lemma unicode_escape_length s x r : unicode_escape s = Some (x, r) → (length r < length s)%nat.
Proof.
  unfold unicode_escape. destruct (hex4 s) as [[u r0]|] eqn:E; [|done]. apply hex4_length in E.
  destruct (_ && _).
  - destruct r0 as [|b1 [|b2 r1]]; try done. destruct (_ && _); [|done].
    destruct (hex4 r1) as [[v r2]|] eqn:E1; [|done]. apply hex4_length in E1. simpl in E.
    destruct (_ && _); [|done]. intros [= <- <-]. lia.
  - destruct (_ && _); [done |]. intros [= <- <-]. lia.
Qed.

Lemma decodeRune_size s : s ≠ [] → (1 ≤ (decodeRune s).2)%nat.
Proof.
  intros Hs. unfold decodeRune. destruct s as [|b0 s]; [done |].
  repeat case_match; simpl; lia.
Qed.

Lemma parse_string_length f s t r : parse_string f s = Some (t, r) → (length r < length s)%nat.
Proof.
  revert s t r. induction f as [|f IH]; intros s t r H; [done |]. cbn [parse_string] in H.
  destruct s as [|b s]; [done |]. destruct (beq b x22); [simplify_eq; simpl; lia |].
  destruct (beq b "\").
  - destruct s as [|e s]; [done |]. destruct (beq e "u").
    + destruct (unicode_escape s) as [[x r0]|] eqn:E; [|done]. apply unicode_escape_length in E.
      destruct (parse_string f r0) as [[t' r']|] eqn:E1; [|done]. apply IH in E1. simplify_eq. simpl. lia.
    + destruct (simple_escape e); [|done].
      destruct (parse_string f s) as [[t' r']|] eqn:E1; [|done]. apply IH in E1. simplify_eq. simpl. lia.
  - destruct (bz b <? 32); [done |].
    pose proof (decodeRune_size (b :: s) ltac:(done)) as Hsz.
    destruct (decodeRune (b :: s)) as [rune size]. simpl in Hsz. destruct (_ && _); [done |].
    destruct (parse_string f (drop size (b :: s))) as [[t' r']|] eqn:E1; [|done].
    apply IH in E1. simplify_eq. rewrite length_drop in E1. simpl in *. lia.
Qed.

Lemma span_digits_length s d r : span_digits s = (d, r) → (length d + length r = length s)%nat.
Proof.
  revert d r. induction s as [|b s IH]; intros d r H; simpl in H; [by simplify_eq |].
  destruct (is_digit b); [|by simplify_eq]. destruct (span_digits s) as [d' r'].
  pose proof (IH _ _ eq_refl). simplify_eq. simpl. lia.
Qed.

Lemma parse_int_part_length s i r : parse_int_part s = Some (i, r) → (length r < length s)%nat.
Proof.
  unfold parse_int_part. destruct s as [|b s]; [done |].
  destruct (beq b "0"); [intros [= <- <-]; simpl; lia |]. destruct (is_digit b) eqn:Ed; [|done].
  intros [= E]. cbn [span_digits] in E. rewrite Ed in E.
  destruct (span_digits s) as [d r'] eqn:E'. apply span_digits_length in E'.
  simplify_eq. simpl. lia.
Qed.

Lemma parse_frac_length s f r : parse_frac s = Some (f, r) → (length r ≤ length s)%nat.
Proof.
  unfold parse_frac. destruct s as [|b s]; [intros; by simplify_eq |].
  destruct (beq b "."); [|intros; by simplify_eq].
  destruct (span_digits s) as [d r'] eqn:E. apply span_digits_length in E.
  destruct d; [done |]. intros [= <- <-]. simpl in *. lia.
Qed.

Lemma parse_exp_length s e r : parse_exp s = Some (e, r) → (length r ≤ length s)%nat.
Proof.
  unfold parse_exp. destruct s as [|b s]; [intros; by simplify_eq |].
  destruct (_ || _); [|intros; by simplify_eq].
  destruct (match s with [] => _ | _ => _ end) as [sign r0] eqn:E0.
  assert (length r0 ≤ length s)%nat.
  { destruct s as [|c s]; [by simplify_eq |]. destruct (_ || _); simplify_eq; simpl; lia. }
  destruct (span_digits r0) as [d r'] eqn:E. apply span_digits_length in E.
  destruct d; [done |]. intros [= <- <-]. simpl in *. lia.
Qed.

Lemma parse_number_length s n r : parse_number s = Some (n, r) → (length r < length s)%nat.
Proof.
  unfold parse_number. destruct (match s with [] => _ | _ => _ end) as [sign r0] eqn:E0.
  assert (length r0 ≤ length s)%nat.
  { destruct s as [|b s]; [by simplify_eq |]. destruct (beq b "-"); simplify_eq; simpl; lia. }
  destruct (parse_int_part r0) as [[i r1]|] eqn:E1; [|done]. apply parse_int_part_length in E1.
  destruct (parse_frac r1) as [[f r2]|] eqn:E2; [|done]. apply parse_frac_length in E2.
  destruct (parse_exp r2) as [[e r3]|] eqn:E3; [|done]. apply parse_exp_length in E3.
  intros [= <- <-]. lia.
Qed.

Lemma parse_literal_length s v r : parse_literal s = Some (v, r) → (length r < length s)%nat.
Proof.
  unfold parse_literal. repeat case_match; try done; intros; simplify_eq;
    repeat match goal with
    | H : cut_prefix _ _ = Some _ |- _ => apply cut_prefix_spec in H as ->
    | H : parse_number _ = Some _ |- _ => apply parse_number_length in H
    end; rewrite ?length_app; try done; vm_compute length; lia.
Qed.

(** Every parser consumes at least a byte. *)
Lemma parse_length f :
  (∀ d s v r, parse_value f d s = Some (v, r) → (length r < length s)%nat) ∧
  (∀ d s l r, parse_elems f d s = Some (l, r) → (length r < length s)%nat) ∧
  (∀ d s l r, parse_members f d s = Some (l, r) → (length r < length s)%nat).
Proof.
  induction f as [|f (IHv & IHe & IHm)]; [done |].
  assert (∀ s c r, skip_ws s = c :: r → (length r < length s)%nat) as Hws.
  { intros s c r E. pose proof (skip_ws_length s) as H. rewrite E in H. simpl in H. lia. }
  split_and!; intros d s v r H; cbn [parse_value parse_elems parse_members] in H.
  - destruct s as [|b s]; [done |]. destruct (beq b x22).
    { destruct (parse_string _ _) as [[t r']|] eqn:E; [|done]. apply parse_string_length in E.
      simplify_eq. simpl. lia. }
    destruct (beq b "["); [|destruct (beq b "{")].
    + destruct d as [|d]; [done |]. destruct (skip_ws s) as [|c r'] eqn:Es; [done |].
      apply Hws in Es as Hs. destruct (beq c "]"); [simplify_eq; simpl; lia |]. rewrite <- Es in H.
      destruct (parse_elems _ _ _) as [[l r'']|] eqn:E; [|done]. apply IHe in E. simplify_eq.
      pose proof (skip_ws_length s). simpl. lia.
    + destruct d as [|d]; [done |]. destruct (skip_ws s) as [|c r'] eqn:Es; [done |].
      apply Hws in Es as Hs. destruct (beq c "}"); [simplify_eq; simpl; lia |]. rewrite <- Es in H.
      destruct (parse_members _ _ _) as [[l r'']|] eqn:E; [|done]. apply IHm in E.
      destruct (bool_decide _); [|done]. simplify_eq. pose proof (skip_ws_length s). simpl. lia.
    + by apply parse_literal_length in H.
  - destruct (parse_value _ _ _) as [[v' r1]|] eqn:E; [|done]. apply IHv in E.
    destruct (skip_ws r1) as [|c r2] eqn:Es; [done |]. apply Hws in Es.
    destruct (beq c "]"); [simplify_eq; lia |]. destruct (beq c ","); [|done].
    destruct (parse_elems _ _ _) as [[l r3]|] eqn:E1; [|done]. apply IHe in E1. simplify_eq.
    pose proof (skip_ws_length r2). lia.
  - destruct s as [|q s]; [done |]. destruct (negb (beq q x22)); [done |].
    destruct (parse_string _ _) as [[name r1]|] eqn:E0; [|done]. apply parse_string_length in E0.
    destruct (skip_ws r1) as [|c r2] eqn:Es; [done |]. apply Hws in Es.
    destruct (negb (beq c ":")); [done |].
    destruct (parse_value _ _ _) as [[v' r3]|] eqn:E; [|done]. apply IHv in E.
    pose proof (skip_ws_length r2).
    destruct (skip_ws r3) as [|c' r4] eqn:Es'; [done |]. apply Hws in Es'.
    destruct (beq c' "}"); [simplify_eq; simpl; lia |]. destruct (beq c' ","); [|done].
    destruct (parse_members _ _ _) as [[l r5]|] eqn:E1; [|done]. apply IHm in E1. simplify_eq.
    pose proof (skip_ws_length r4). simpl. lia.
Qed.

(** ** What a parser leaves is a suffix of what it got *)

Lemma skip_ws_split s : ∃ u, s = u ++ skip_ws s ∧ Forall (λ b, is_ws b = true) u.
Proof.
  induction s as [|b s (u & E & Hu)]; [by exists [] |]. cbn [skip_ws]. destruct (is_ws b) eqn:Eb; [|by exists []].
  exists (b :: u). split; [by rewrite E at 1 | by apply Forall_cons].
Qed.

Lemma skip_ws_suffix s : skip_ws s `suffix_of` s.
Proof. destruct (skip_ws_split s) as (u & E & _). by exists u. Qed.

Lemma skip_ws_next s c r : skip_ws s = c :: r → r `suffix_of` s.
Proof. intros E. pose proof (skip_ws_suffix s) as H. rewrite E in H. by apply suffix_cons_l in H. Qed.

Lemma span_digits_suffix s d r : span_digits s = (d, r) → r `suffix_of` s.
Proof.
  revert d r. induction s as [|b s IH]; intros d r H; simpl in H; [by simplify_eq |]. destruct (is_digit b); [|by simplify_eq].
  destruct (span_digits s) as [d' r'] eqn:E. simplify_eq. apply suffix_cons_r. by eapply IH.
Qed.

Create HintDb suffix.
#[export] Hint Resolve suffix_cons_r skip_ws_next span_digits_suffix suffix_nil : suffix.
#[export] Hint Extern 3 (?x `suffix_of` ?x) => reflexivity : suffix.

(** The cases of a parser, each of which leaves a suffix. *)
Ltac suffix_cases :=
  repeat case_match; simplify_eq/=; try done; eauto 8 with suffix.

Lemma hex4_suffix s u r : hex4 s = Some (u, r) → r `suffix_of` s.
Proof. unfold hex4. intros H. suffix_cases. Qed.
#[export] Hint Resolve hex4_suffix : suffix.

Lemma unicode_escape_suffix s x r : unicode_escape s = Some (x, r) → r `suffix_of` s.
Proof.
  unfold unicode_escape. destruct (hex4 s) as [[u r0]|] eqn:E; [|done]. apply hex4_suffix in E. intros H.
  etrans; [|exact E]. suffix_cases.
Qed.

Lemma parse_string_suffix f s t r : parse_string f s = Some (t, r) → r `suffix_of` s.
Proof.
  revert s t r. induction f as [|f IH]; intros s t r H; [done |]. cbn [parse_string] in H.
  destruct s as [|b s]; [done |]. destruct (beq b x22); [simplify_eq; auto with suffix |]. destruct (beq b "\").
  - destruct s as [|e s]; [done |]. destruct (beq e "u").
    + destruct (unicode_escape s) as [[x r0]|] eqn:E; [|done]. apply unicode_escape_suffix in E.
      destruct (parse_string f r0) as [[t' r']|] eqn:E1; [|done]. apply IH in E1. simplify_eq.
      do 2 apply suffix_cons_r. by etrans.
    + destruct (simple_escape e); [|done]. destruct (parse_string f s) as [[t' r']|] eqn:E1; [|done]. apply IH in E1.
      simplify_eq. by do 2 apply suffix_cons_r.
  - destruct (bz b <? 32); [done |]. destruct (decodeRune (b :: s)) as [rune size]. destruct (_ && _); [done |].
    destruct (parse_string f _) as [[t' r']|] eqn:E1; [|done]. apply IH in E1. simplify_eq. etrans; [exact E1 |]. apply suffix_drop.
Qed.

Lemma parse_number_suffix s n r : parse_number s = Some (n, r) → r `suffix_of` s.
Proof.
  unfold parse_number. destruct (match s with [] => _ | _ => _ end) as [sign r0] eqn:E0.
  assert (r0 `suffix_of` s) as H0 by suffix_cases. clear E0.
  destruct (parse_int_part r0) as [[i r1]|] eqn:E1; [|done].
  assert (r1 `suffix_of` r0) as H1 by (unfold parse_int_part in E1; suffix_cases).
  destruct (parse_frac r1) as [[f r2]|] eqn:E2; [|done].
  assert (r2 `suffix_of` r1) as H2 by (unfold parse_frac in E2; suffix_cases).
  destruct (parse_exp r2) as [[e r3]|] eqn:E3; [|done].
  assert (r3 `suffix_of` r2) as H3 by (unfold parse_exp in E3; suffix_cases).
  intros [= <- <-]. by repeat (etrans; [eassumption |]).
Qed.

Lemma parse_literal_suffix s v r : parse_literal s = Some (v, r) → r `suffix_of` s.
Proof.
  unfold parse_literal. intros H. repeat case_match; simplify_eq; try done;
    try (match goal with E : cut_prefix _ _ = Some _ |- _ => apply cut_prefix_spec in E as -> end; by eexists).
  by eapply parse_number_suffix.
Qed.

Lemma parse_suffix f :
  (∀ d s v r, parse_value f d s = Some (v, r) → r `suffix_of` s) ∧
  (∀ d s l r, parse_elems f d s = Some (l, r) → r `suffix_of` s) ∧
  (∀ d s l r, parse_members f d s = Some (l, r) → r `suffix_of` s).
Proof.
  induction f as [|f (IHv & IHe & IHm)]; [done |].
  split_and!; intros d s v r H; cbn [parse_value parse_elems parse_members] in H.
  - destruct s as [|b s]; [done |]. destruct (beq b x22).
    { destruct (parse_string _ _) as [[t r']|] eqn:E; [|done]. simplify_eq. apply suffix_cons_r. by eapply parse_string_suffix. }
    pose proof (skip_ws_suffix s). destruct (beq b "["); [|destruct (beq b "{")]; [..|by eapply parse_literal_suffix];
      (destruct d as [|d]; [done |]); apply suffix_cons_r; destruct (skip_ws s) as [|c r'] eqn:Es; try done.
    + destruct (beq c "]"); [simplify_eq; eauto with suffix |]. destruct (parse_elems _ _ _) as [[l r'']|] eqn:E; [|done].
      apply IHe in E. simplify_eq. by etrans.
    + destruct (beq c "}"); [simplify_eq; eauto with suffix |]. destruct (parse_members _ _ _) as [[l r'']|] eqn:E; [|done].
      apply IHm in E. destruct (bool_decide _); [|done]. simplify_eq. by etrans.
  - destruct (parse_value _ _ _) as [[v' r1]|] eqn:E; [|done]. apply IHv in E. etrans; [|exact E].
    destruct (skip_ws r1) as [|c r2] eqn:Es; [done |]. apply skip_ws_next in Es. destruct (beq c "]"); [by simplify_eq |].
    destruct (beq c ","); [|done]. destruct (parse_elems _ _ _) as [[l r3]|] eqn:E1; [|done]. apply IHe in E1. simplify_eq.
    etrans; [exact E1 |]. etrans; [apply skip_ws_suffix | done].
  - destruct s as [|q s]; [done |]. destruct (negb (beq q x22)); [done |]. apply suffix_cons_r.
    destruct (parse_string _ _) as [[name r1]|] eqn:E0; [|done]. apply parse_string_suffix in E0. etrans; [|exact E0].
    destruct (skip_ws r1) as [|c r2] eqn:Es; [done |]. apply skip_ws_next in Es. etrans; [|exact Es]. destruct (negb (beq c ":")); [done |].
    destruct (parse_value _ _ _) as [[v' r3]|] eqn:E; [|done]. apply IHv in E. pose proof (skip_ws_suffix r2).
    assert (r3 `suffix_of` r2) as H3 by (by etrans). etrans; [|exact H3].
    destruct (skip_ws r3) as [|c' r4] eqn:Es'; [done |]. apply skip_ws_next in Es'. destruct (beq c' "}"); [by simplify_eq |].
    destruct (beq c' ","); [|done]. destruct (parse_members _ _ _) as [[l r5]|] eqn:E1; [|done]. apply IHm in E1. simplify_eq.
    etrans; [exact E1 |]. etrans; [apply skip_ws_suffix | done].
Qed.

(** With fuel for two calls per byte, more fuel changes nothing. *)
Lemma parse_fuel f g :
  (∀ d s, (2 * length s + 1 ≤ f)%nat → (f ≤ g)%nat → parse_value g d s = parse_value f d s) ∧
  (∀ d s, (2 * length s + 2 ≤ f)%nat → (f ≤ g)%nat → parse_elems g d s = parse_elems f d s) ∧
  (∀ d s, (2 * length s + 2 ≤ f)%nat → (f ≤ g)%nat → parse_members g d s = parse_members f d s).
Proof.
  revert g. induction f as [|f IH]; intros g; [split_and!; intros; lia |].
  destruct g as [|g]; [split_and!; intros; lia |]. destruct (IH g) as (IHv & IHe & IHm). clear IH.
  pose proof (parse_length f) as (Lv & Le & Lm).
  assert (∀ s c r, skip_ws s = c :: r → (length r < length s)%nat) as Hws.
  { intros s c r E. pose proof (skip_ws_length s) as H. rewrite E in H. simpl in H. lia. }
  split_and!; intros d s Hf Hg; cbn [parse_value parse_elems parse_members].
  - destruct s as [|b s]; [done |]. simpl in Hf. pose proof (skip_ws_length s).
    destruct d as [|d]; [done |]. by rewrite IHe, IHm by lia.
  - rewrite IHv by lia. destruct (parse_value f d s) as [[v r]|] eqn:E; [|done]. apply Lv in E.
    destruct (skip_ws r) as [|c r'] eqn:Es; [done |]. apply Hws in Es. pose proof (skip_ws_length r').
    by rewrite IHe by lia.
  - destruct s as [|q s]; [done |]. simpl in Hf. destruct (negb _); [done |].
    destruct (parse_string _ _) as [[name r]|] eqn:E0; [|done]. apply parse_string_length in E0.
    destruct (skip_ws r) as [|c r'] eqn:Es; [done |]. apply Hws in Es. pose proof (skip_ws_length r').
    destruct (negb _); [done |]. rewrite IHv by lia.
    destruct (parse_value f d _) as [[v r1]|] eqn:E; [|done]. apply Lv in E.
    destruct (skip_ws r1) as [|c' r2] eqn:Es'; [done |]. apply Hws in Es'. pose proof (skip_ws_length r2).
    by rewrite IHm by lia.
Qed.

Lemma parse_json_fuel s g :
  (2 * length s + 1 ≤ g)%nat →
  parse_value g maxNestingDepth (skip_ws s) = parse_value (2 * length s + 1) maxNestingDepth (skip_ws s).
Proof.
  intros H. pose proof (skip_ws_length s).
  destruct (parse_fuel (2 * length s + 1) g) as (Hv & _ & _). apply Hv; lia.
Qed.

Example parse_json_example :
  parse_json (go " { " ++ [x22] ++ go "a" ++ [x22] ++ go " : [1, -2.5e+3,true,null], " ++ [x22]
    ++ go "\u00e9\ud83d\ude00" ++ [x22] ++ go ":" ++ [x22] ++ go "x\n" ++ [x22] ++ go "} ")
  = Some (JObject
      [(go "a", (go "[1, -2.5e+3,true,null]",
          JArray [JNumber (go "1"); JNumber (go "-2.5e+3"); JBool true; JNull]));
       ([xc3; xa9; xf0; x9f; x98; x80], ([x22] ++ go "x\n" ++ [x22], JString [x78; x0a]))]).
Proof. vm_compute. reflexivity. Qed.

Example parse_json_rejects :
  map parse_json [go "{} x"; go "[1,]"; go "01"; [x22; xff; x22]; [x22] ++ go "\ud800" ++ [x22];
    go "{" ++ [x22] ++ go "a" ++ [x22] ++ go ":1," ++ [x22] ++ go "\u0061" ++ [x22] ++ go ":2}"]
  = repeat None 6.
Proof. vm_compute. reflexivity. Qed.
