(* ===== verification/GoJsonEnc.v ===== *)
(** * GoJsonEnc: [json.Marshal] of encoding/json/v2 as the SDK uses it

    The encoder for the values the SDK sends: strings, integers, slices and structs, with the default options (no
    white space, the short escapes, control characters as [\u00xx], an error for a string that is not UTF-8), and the
    round trip through the parser of [GoJson]. *)

From S2P Require Import Prelude GoStrings GoStrconv GoJson.

(** A value to encode; which members of a struct are left out is decided before ([omitempty], [omitzero]). *)
Inductive jout :=
| OString (s : gostring)
| OInt (n : Z)
| OArray (elems : list jout)
| OObject (members : list (gostring * jout)).

(** ** The encoder *)

Definition hex_digit (n : Z) : byte := if n <? 10 then zb (48 + n) else zb (87 + n).

(** [jsonwire.AppendQuote] byte by byte: only ASCII bytes are escaped. *)
Definition escape_byte (b : byte) : gostring :=
  if beq b x22 || beq b "\" then ["\"%byte; b]
  else if beq b x08 then go "\b"
  else if beq b x0c then go "\f"
  else if beq b x0a then go "\n"
  else if beq b x0d then go "\r"
  else if beq b x09 then go "\t"
  else if bz b <? 32 then go "\u00" ++ [hex_digit (bz b / 16); hex_digit (bz b mod 16)]
  else [b].

Definition quote (s : gostring) : option gostring :=
  if ValidString s then Some (x22 :: flat_map escape_byte s ++ [x22]) else None.

Definition member_text (name text : option gostring) : option gostring :=
  match name, text with Some n, Some t => Some (n ++ ":"%byte :: t) | _, _ => None end.

Fixpoint render (v : jout) : option gostring :=
  match v with
  | OString s => quote s
  | OInt n => Some (FormatInt n)
  | OArray l => (λ ts, "["%byte :: Join (go ",") ts ++ ["]"%byte]) <$> mapM render l
  | OObject l =>
      (λ ts, "{"%byte :: Join (go ",") ts ++ ["}"%byte]) <$> mapM (λ m, member_text (quote m.1) (render m.2)) l
  end.

(** What a reader of the text gets. *)
Fixpoint as_json (v : jout) : json :=
  match v with
  | OString s => JString s
  | OInt n => JNumber (FormatInt n)
  | OArray l => JArray (map as_json l)
  | OObject l => JObject (map (λ m, (m.1, (default [] (render m.2), as_json m.2))) l)
  end.

(** Member names are distinct in every object, and no container is nested deeper than [d]. *)
Fixpoint out_ok (d : nat) (v : jout) : Prop :=
  match v with
  | OString _ | OInt _ => True
  | OArray l => match d with O => False | S d => fold_right (λ v P, out_ok d v ∧ P) True l end
  | OObject l => match d with O => False | S d => NoDup (map fst l) ∧ fold_right (λ m P, out_ok d m.2 ∧ P) True l end
  end.

Lemma jout_nested_ind (P : jout → Prop) :
  (∀ s, P (OString s)) → (∀ n, P (OInt n)) → (∀ l, Forall P l → P (OArray l)) →
  (∀ l, Forall (λ m, P m.2) l → P (OObject l)) → ∀ v, P v.
Proof.
  intros Hs Hi Ha Ho. fix IH 1. intros [s|n|l|l]; [apply Hs | apply Hi | apply Ha | apply Ho].
  - induction l as [|v l IHl]; constructor; [apply IH | exact IHl].
  - induction l as [|[n v] l IHl]; constructor; [apply IH | exact IHl].
Qed.

(** ** Strings *)

Lemma decode_from_skip k s : decode_from k s = decoded (drop k s).
Proof. revert k. induction s as [|b s IH]; intros [|k]; try done. cbn [decode_from drop]. apply IH. Qed.

(** A valid string begins with a complete rune and goes on as one. *)
Lemma valid_step b s : ValidString (b :: s) = true →
  let '(c, n) := decodeRune (b :: s) in
  (c =? RuneError) && (n =? 1)%nat = false ∧ ValidString (drop n (b :: s)) = true.
Proof.
  unfold ValidString, decoded. cbn [decode_from]. pose proof (decodeRune_width b s) as Hw.
  destruct (decodeRune (b :: s)) as [c n]. cbn [forallb snd] in *. rewrite andb_true_iff, negb_true_iff.
  rewrite decode_from_skip. destruct n as [|n]; [lia |]. cbn [drop Nat.sub]. by rewrite Nat.sub_0_r.
Qed.

(** A complete rune is decoded from its own bytes; past ASCII, none of them is escaped. *)
Lemma decodeRune_complete b s c n : decodeRune (b :: s) = (c, n) → (c =? RuneError) && (n =? 1)%nat = false →
  (∀ e, decodeRune (take n (b :: s) ++ e) = (c, n)) ∧ (128 ≤ bz b → Forall (λ x, 128 ≤ bz x) (take n (b :: s))).
Proof.
  assert (∀ x, is_cont x = true → 128 ≤ bz x) as Hcont.
  { intros x Hx. apply in_range_spec in Hx. change (bz x80) with 128 in Hx. lia. }
  assert (∀ x lo hi, in_range lo hi x = true → 128 ≤ bz lo → 128 ≤ bz x) as Hr
    by (intros x lo hi Hx; apply in_range_spec in Hx; lia).
  assert (128 ≤ bz (second3 b).1 ∧ 128 ≤ bz (second4 b).1) as [H3 H4].
  { unfold second3, second4. repeat destruct (beq b _); cbn [fst]; by vm_compute. }
  cbn [decodeRune]. destruct (bz b <? 128) eqn:E.
  { intros [= <- <-] _. cbn [take app]. bool_props. split; [|lia]. intros e. cbn [decodeRune]. by rewrite (proj2 (Z.ltb_lt _ _)). }
  bool_props.
  destruct (in_range xc2 xdf b) eqn:R2.
  { destruct s as [|b1 s]; [intros [= <- <-]; discriminate |]. destruct (is_cont b1) eqn:C1; [|intros [= <- <-]; discriminate].
    intros [= <- <-] _. cbn [take app]. split.
    - intros e. cbn [decodeRune]. by rewrite (proj2 (Z.ltb_ge _ _)), R2, C1 by lia.
    - intros _. repeat (apply Forall_cons; split; [auto |]). by apply Forall_nil. }
  destruct (in_range xe0 xef b) eqn:R3.
  { destruct s as [|b1 [|b2 s]]; [intros [= <- <-]; discriminate.. |].
    destruct (_ && is_cont b2) eqn:C2; [|intros [= <- <-]; discriminate]. intros [= <- <-] _. cbn [take app]. split.
    - intros e. cbn [decodeRune]. by rewrite (proj2 (Z.ltb_ge _ _)), R2, R3, C2 by lia.
    - intros _. bool_props. repeat (apply Forall_cons; split; [eauto |]). by apply Forall_nil. }
  destruct (in_range xf0 xf4 b) eqn:R4; [|intros [= <- <-]; discriminate].
  destruct s as [|b1 [|b2 [|b3 s]]]; [intros [= <- <-]; discriminate.. |].
  destruct (_ && is_cont b2 && is_cont b3) eqn:C3; [|intros [= <- <-]; discriminate]. intros [= <- <-] _. cbn [take app]. split.
  - intros e. cbn [decodeRune]. by rewrite (proj2 (Z.ltb_ge _ _)), R2, R3, R4, C3 by lia.
  - intros _. bool_props. repeat (apply Forall_cons; split; [eauto |]). by apply Forall_nil.
Qed.

Lemma escape_high l : Forall (λ x, 128 ≤ bz x) l → flat_map escape_byte l = l.
Proof.
  induction 1 as [|b l Hb _ IH]; [done |]. cbn [flat_map]. rewrite IH.
  assert (escape_byte b = [b]) as ->; [|done]. clear -Hb. revert Hb.
  pose proof (byte_forallb (λ b, (bz b <? 128) || seqb (escape_byte b) [b]) ltac:(vm_compute; reflexivity) b) as H. cbv beta in H.
  intros Hb. rewrite (proj2 (Z.ltb_ge _ _)) in H by done. by apply seqb_true in H.
Qed.

(** One escaped ASCII byte is read back as that byte. *)
Lemma parse_escaped b f r :
  bz b < 128 →
  parse_string (S f) (escape_byte b ++ r) =
  match parse_string f r with Some (t, r') => Some (b :: t, r') | None => None end.
Proof.
  intros Hb. assert (bz b <? 128 = true) as Hb' by (by apply Z.ltb_lt). clear Hb.
  destruct b; try discriminate Hb'; reflexivity.
Qed.


Lemma parse_high b s n c f r :
  128 ≤ bz b → decodeRune (b :: s) = (c, n) → (c =? RuneError) && (n =? 1)%nat = false →
  parse_string (S f) (flat_map escape_byte (take n (b :: s)) ++ r) =
  match parse_string f r with Some (t, r') => Some (take n (b :: s) ++ t, r') | None => None end.
Proof.
  intros Hb Hd Hc. destruct (decodeRune_complete b s c n Hd Hc) as [Hself Hhigh].
  pose proof (decodeRune_width b s) as Hw. rewrite Hd in Hw. cbn [snd] in Hw.
  rewrite escape_high by auto. specialize (Hself r). revert Hself.
  assert (length (take n (b :: s)) = n) as Hlen.
  { rewrite length_take. simpl length. simpl length in Hw. lia. }
  destruct n as [|n]; [lia |]. cbn [take app] in *. intros Hself. cbn [parse_string].
  assert (∀ x, bz x < 128 → beq b x = false) as Hne.
  { intros x Hx. apply beq_false. intros ->. lia. }
  rewrite !Hne by (vm_compute; done). rewrite (proj2 (Z.ltb_ge _ _)) by lia. rewrite Hself, Hc.
  change (b :: take n s ++ r) with ((b :: take n s) ++ r). by rewrite take_app_length', drop_app_length' by done.
Qed.

(** A quoted valid string is read back, whatever follows. *)
Lemma parse_quoted s : ∀ f r,
  ValidString s = true → (length s < f)%nat → parse_string f (flat_map escape_byte s ++ x22 :: r) = Some (s, r).
Proof.
  induction s as [s IH] using (well_founded_induction (well_founded_ltof _ (@length byte))). intros f r Hv Hf.
  destruct f as [|f]; [lia |]. destruct s as [|b s]; [done |].
  pose proof (valid_step b s Hv) as Hstep. pose proof (decodeRune_width b s) as Hw.
  destruct (decodeRune (b :: s)) as [c n] eqn:Ed. destruct Hstep as [Hc Hrest]. cbn [snd] in Hw.
  assert (parse_string f (flat_map escape_byte (drop n (b :: s)) ++ x22 :: r) = Some (drop n (b :: s), r)) as Hr.
  { apply IH; [|done |]; [unfold ltof|]; rewrite length_drop; simpl length in *; lia. }
  destruct (Z_lt_ge_dec (bz b) 128) as [Hlow|Hhigh].
  - assert (n = 1%nat) as -> by (cbn [decodeRune] in Ed; rewrite (proj2 (Z.ltb_lt _ _)) in Ed by done; congruence).
    change (drop 1 (b :: s)) with s in Hr. cbn [flat_map]. rewrite <- app_assoc, parse_escaped by done. by rewrite Hr.
  - rewrite <- (take_drop n (b :: s)) at 1. rewrite flat_map_app, <- app_assoc.
    rewrite (parse_high b s n c) by (done || lia). by rewrite Hr, take_drop.
Qed.

Lemma escape_length s : (length s ≤ length (flat_map escape_byte s))%nat.
Proof.
  induction s as [|b s IH]; [done |]. cbn [flat_map length]. rewrite length_app.
  assert (1 ≤ length (escape_byte b))%nat; [|lia]. unfold escape_byte. repeat case_match; simpl; lia.
Qed.

Lemma quote_inv s t : quote s = Some t → ValidString s = true ∧ t = x22 :: flat_map escape_byte s ++ [x22].
Proof. unfold quote. destruct (ValidString s); [|done]. by intros [= <-]. Qed.

(** The quoted name or value, without its opening quote, with the parser's own fuel. *)
Lemma parse_quote s r :
  ValidString s = true →
  parse_string (length (flat_map escape_byte s ++ x22 :: r)) (flat_map escape_byte s ++ x22 :: r) = Some (s, r).
Proof. intros Hv. apply parse_quoted; [done |]. rewrite length_app. pose proof (escape_length s). simpl. lia. Qed.

(** ** Numbers *)

(** What may follow a value inside the text: nothing, a comma or a closing bracket. *)
Definition closes (r : gostring) : Prop :=
  match r with [] => True | b :: _ => b = ","%byte ∨ b = "]"%byte ∨ b = "}"%byte end.

Lemma closes_comma r : closes (go "," ++ r).
Proof. by left. Qed.
Lemma closes_bracket r : closes ("]"%byte :: r).
Proof. right. by left. Qed.
Lemma closes_brace r : closes ("}"%byte :: r).
Proof. right. by right. Qed.

Lemma span_digits_app ds r : forallb is_digit ds = true → closes r → span_digits (ds ++ r) = (ds, r).
Proof.
  intros Hd Hr. induction ds as [|b ds IH]; cbn [app].
  - destruct r as [|b r]; [done |]. cbn [span_digits]. by destruct Hr as [->|[->| ->]].
  - cbn [forallb] in Hd. apply andb_true_iff in Hd as [Hb Hd]. cbn [span_digits]. by rewrite Hb, IH.
Qed.

Lemma parse_rest r : closes r → parse_frac r = Some ([], r) ∧ parse_exp r = Some ([], r).
Proof. destruct r as [|b r]; [done |]. by intros [->|[->| ->]]. Qed.

Lemma format_head k n : 0 < n < 2 ^ Z.of_nat k → ∃ b ds, format_fuel k n = b :: ds ∧ beq b "0" = false.
Proof.
  revert n. induction k as [|k IH]; intros n Hn; [simpl in Hn; lia |]. cbn [format_fuel].
  destruct (Z.ltb_spec n 10).
  - eexists _, []. split; [done |]. apply beq_false. intros E. apply (f_equal bz) in E.
    rewrite bz_digit in E by lia. change (bz "0") with 48 in E. lia.
  - rewrite Nat2Z.inj_succ, Z.pow_succ_r in Hn by lia.
    destruct (IH (n / 10)) as (b & ds & -> & Hb).
    { split; [apply Z.div_str_pos; lia | apply Z.div_lt_upper_bound; lia]. }
    by exists b, (ds ++ [zb (48 + n mod 10)]).
Qed.

Lemma parse_int_format n r : 0 ≤ n → closes r → parse_int_part (FormatUint n ++ r) = Some (FormatUint n, r).
Proof.
  intros Hn Hr. destruct (Z.eq_dec n 0) as [->|Hz]; [done |].
  destruct (format_head (S (Z.to_nat (Z.log2 n))) n) as (b & ds & E & Hb).
  { rewrite Nat2Z.inj_succ, Z2Nat.id by apply Z.log2_nonneg. pose proof (Z.log2_spec n). lia. }
  destruct (FormatUint_spec n Hn) as (_ & Hd & _). unfold FormatUint in *. rewrite E in *.
  pose proof Hd as Hb1. cbn [forallb] in Hb1. apply andb_true_iff in Hb1 as [Hb1 _].
  rewrite <- (span_digits_app (b :: ds) r Hd Hr). cbn [app parse_int_part]. by rewrite Hb, Hb1.
Qed.

Lemma FormatUint_cons n : 0 ≤ n → ∃ b ds, FormatUint n = b :: ds ∧ is_digit b = true.
Proof.
  intros Hn. destruct (FormatUint_spec n Hn) as (He & Hd & _). destruct (FormatUint n) as [|b ds]; [done |].
  cbn [forallb] in Hd. apply andb_true_iff in Hd as [Hd _]. by exists b, ds.
Qed.

Lemma parse_number_format n r : closes r → parse_number (FormatInt n ++ r) = Some (FormatInt n, r).
Proof.
  intros Hr. destruct (parse_rest r Hr) as [Hf He]. unfold FormatInt. destruct (Z.ltb_spec n 0) as [Hn|Hn].
  - unfold parse_number. cbn [app]. change (beq "-" "-") with true. cbv iota.
    rewrite parse_int_format by (done || lia). by rewrite Hf, He, !app_nil_r.
  - destruct (FormatUint_cons n Hn) as (b & ds & E & Hb). destruct (digit_not_sign b Hb) as [_ Hm].
    unfold parse_number. pose proof (parse_int_format n r Hn Hr) as Hi. rewrite E in *. cbn [app] in *.
    rewrite Hm, Hi, Hf, He. by rewrite !app_nil_r.
Qed.

(** A number begins with a byte that begins no literal, string or container. *)
Definition number_head (b : byte) : bool := is_digit b || beq b "-".

Lemma FormatInt_cons n : ∃ b ds, FormatInt n = b :: ds ∧ number_head b = true.
Proof.
  unfold FormatInt. destruct (Z.ltb_spec n 0) as [Hn|Hn]; [by eexists _, _ |].
  destruct (FormatUint_cons n Hn) as (b & ds & -> & Hb). exists b, ds. unfold number_head. by rewrite Hb.
Qed.

(** ** Values *)

(** The byte a value begins with: no white space, no closing bracket. *)
Definition value_head (b : byte) : bool := negb (is_ws b || beq b "]" || beq b "}" || beq b ",").

Lemma number_head_value b : number_head b = true →
  value_head b = true ∧ beq b x22 = false ∧ beq b "[" = false ∧ beq b "{" = false ∧
  ∀ s, cut_prefix (go "null") (b :: s) = None ∧ cut_prefix (go "true") (b :: s) = None ∧ cut_prefix (go "false") (b :: s) = None.
Proof.
  intros H. pose proof (byte_forallb (λ b, implb (number_head b) (value_head b && negb (beq b x22 || beq b "[" || beq b "{"
    || beq b "n" || beq b "t" || beq b "f"))) ltac:(vm_compute; reflexivity) b) as Hb. cbv beta in Hb. rewrite H in Hb.
  cbn [implb] in Hb. rewrite andb_true_iff, negb_true_iff, !orb_false_iff, !beq_false in Hb.
  destruct Hb as (Hv & ((((H1 & H2) & H3) & H4) & H5) & H6). rewrite !beq_false. split_and!; [done.. |].
  assert (∀ c p s, b ≠ c → cut_prefix (c :: p) (b :: s) = None) as Hcut.
  { intros c p s Hc. cbn [cut_prefix]. by rewrite (proj2 (beq_false c b)) by congruence. }
  intros s. split_and!; by apply Hcut.
Qed.

Lemma render_head v t : render v = Some t → ∃ b t', t = b :: t' ∧ value_head b = true.
Proof.
  destruct v as [s|n|l|l]; cbn [render].
  - intros H. apply quote_inv in H as [_ ->]. by eexists _, _.
  - intros [= <-]. destruct (FormatInt_cons n) as (b & ds & -> & Hb). exists b, ds. by apply number_head_value in Hb as [? _].
  - destruct (mapM _ l); [|done]. intros [= <-]. by eexists _, _.
  - destruct (mapM _ l); [|done]. intros [= <-]. by eexists _, _.
Qed.

Lemma skip_ws_value b s : value_head b = true → skip_ws (b :: s) = b :: s.
Proof. unfold value_head. rewrite negb_true_iff, !orb_false_iff. intros (((H & _) & _) & _). cbn [skip_ws]. by rewrite H. Qed.

Lemma skip_ws_closes r : closes r → skip_ws r = r.
Proof. destruct r as [|b r]; [done |]. by intros [->|[->| ->]]. Qed.

Lemma Join_head sep b t ts r : ∃ x, Join sep ((b :: t) :: ts) ++ r = b :: x.
Proof. cbn [Join]. destruct ts; eexists; reflexivity. Qed.

(** A rendered value is read back, whatever closes it. *)
Definition reads_back (v : jout) : Prop :=
  ∀ t d f r, render v = Some t → out_ok d v → closes r → (2 * length t + 1 ≤ f)%nat →
  parse_value f d (t ++ r) = Some (as_json v, r).

Lemma reads_string s : reads_back (OString s).
Proof.
  intros t d [|f] r H _ _ Hf; [lia |]. apply quote_inv in H as [Hv ->]. cbn [app parse_value].
  change (beq x22 x22) with true. cbv iota. rewrite <- app_assoc. cbn [app]. by rewrite parse_quote.
Qed.

Lemma reads_int n : reads_back (OInt n).
Proof.
  intros t d [|f] r H _ Hr Hf; [lia |]. injection H as <-. pose proof (parse_number_format n r Hr) as Hn.
  destruct (FormatInt_cons n) as (b & ds & E & Hb). cbn [as_json]. rewrite E in *. cbn [app parse_value] in *.
  apply number_head_value in Hb as (_ & -> & -> & -> & Hl). destruct (Hl (ds ++ r)) as (H1 & H2 & H3).
  unfold parse_literal. by rewrite H1, H2, H3, Hn.
Qed.

Lemma reads_elems l : ∀ ts d f r, l ≠ [] →
  Forall reads_back l → mapM render l = Some ts → fold_right (λ v P, out_ok d v ∧ P) True l →
  (2 * length (Join (go ",") ts) + 2 ≤ f)%nat →
  parse_elems f d (Join (go ",") ts ++ "]"%byte :: r) = Some (map as_json l, r).
Proof.
  induction l as [|v l IH]; intros ts d f r Hl Hread Hm Hok Hf; [done |]. clear Hl.
  apply Forall_cons in Hread as [Hv Hread]. destruct Hok as [Hok1 Hok].
  apply mapM_Some in Hm. inversion Hm as [|? t ? ts' Ht Hts]; subst. apply mapM_Some in Hts.
  destruct f as [|f]; [lia |]. cbn [parse_elems map]. destruct l as [|w l].
  - injection Hts as <-. cbn [Join] in *. rewrite (Hv t) by (done || lia || apply closes_comma || apply closes_bracket). cbn [skip_ws]. reflexivity.
  - destruct ts' as [|t2 ts']; [apply mapM_Some, Forall2_length in Hts; discriminate |].
    rewrite Join_cons2 in *. rewrite !length_app in Hf. change (length (go ",")) with 1%nat in Hf.
    rewrite <- !app_assoc. rewrite (Hv t) by (done || lia || apply closes_comma || apply closes_bracket).
    pose proof Hts as Hhead. apply mapM_Some in Hhead. inversion Hhead as [|? ? ? ? Hw _]; subst.
    apply render_head in Hw as (b & t' & Et & Hb).
    assert (∃ x, Join (go ",") (t2 :: ts') ++ "]"%byte :: r = b :: x) as [x Ex].
    { rewrite Et. apply Join_head. }
    change (go "," ++ Join (go ",") (t2 :: ts') ++ "]"%byte :: r) with (","%byte :: (Join (go ",") (t2 :: ts') ++ "]"%byte :: r)).
    cbn [skip_ws]. change (is_ws ",") with false. cbv iota. change (beq "," "]") with false. change (beq "," ",") with true. cbv iota.
    rewrite Ex, skip_ws_value, <- Ex by done. rewrite (IH (t2 :: ts')) by (done || lia). reflexivity.
Qed.

Lemma reads_array l : Forall reads_back l → reads_back (OArray l).
Proof.
  intros Hl t d [|f] r H Hok Hr Hf; [lia |]. cbn [render] in H. destruct (mapM render l) as [ts|] eqn:E; [|done].
  injection H as <-. destruct d as [|d]; [done |]. cbn [as_json]. cbn [out_ok] in Hok. cbn [app parse_value].
  change (beq "[" x22) with false. change (beq "[" "[") with true. cbv iota. rewrite <- app_assoc. cbn [app].
  destruct l as [|v l]; [by injection E as <- |].
  assert (∃ b x, Join (go ",") ts ++ "]"%byte :: r = b :: x ∧ value_head b = true) as (b & x & Ex & Hb).
  { apply mapM_Some in E. inversion E as [|? t ? ts' Ht Hts]; subst. apply render_head in Ht as (b & t' & -> & Hb).
    destruct (Join_head (go ",") b t' ts' ("]"%byte :: r)) as [x Ex]. by exists b, x. }
  rewrite Ex, skip_ws_value by done. unfold value_head in Hb. rewrite negb_true_iff, !orb_false_iff in Hb.
  destruct Hb as (((_ & ->) & _) & _). rewrite <- Ex. rewrite (reads_elems (v :: l) ts) by (done || (cbn [length] in Hf; rewrite length_app in Hf; cbn [length] in Hf; lia)).
  reflexivity.
Qed.

(** The members of an object, as the parser returns them. *)
Definition as_member (m : gostring * jout) : gostring * (gostring * json) := (m.1, (default [] (render m.2), as_json m.2)).

Lemma as_json_object l : as_json (OObject l) = JObject (map as_member l).
Proof. reflexivity. Qed.

Lemma member_text_inv name v t :
  member_text (quote name) (render v) = Some t →
  ∃ tv, ValidString name = true ∧ render v = Some tv ∧
    t = x22 :: (flat_map escape_byte name ++ x22 :: ":"%byte :: tv).
Proof.
  unfold member_text. destruct (quote name) as [tn|] eqn:En; [|done]. destruct (render v) as [tv|]; [|done].
  apply quote_inv in En as [Hv ->]. intros [= <-]. exists tv. split_and!; [done.. |]. by rewrite <- app_assoc.
Qed.

(** One member, up to what follows its value. *)
Lemma reads_member name v t d f r :
  reads_back v → member_text (quote name) (render v) = Some t → out_ok d v → closes r → (2 * length t + 2 ≤ f)%nat →
  parse_members f d (t ++ r) =
  match r with
  | c :: r' =>
      if beq c "}" then Some ([as_member (name, v)], r')
      else if beq c "," then
        match parse_members (f - 1) d (skip_ws r') with
        | Some (l, r'') => Some (as_member (name, v) :: l, r'')
        | None => None
        end
      else None
  | [] => None
  end.
Proof.
  intros Hv Ht Hok Hr Hf. apply member_text_inv in Ht as (tv & Hname & Htv & ->). destruct f as [|f]; [lia |].
  cbn [length] in Hf. rewrite length_app in Hf. cbn [length] in Hf. cbn [app parse_members]. change (beq x22 x22) with true. cbn [negb].
  rewrite <- app_assoc. cbn [app]. rewrite parse_quote by done. cbn [skip_ws]. change (is_ws ":") with false.
  change (beq ":" ":") with true. cbv iota. cbn [negb].
  destruct (render_head v tv Htv) as (b & t' & Et & Hb).
  assert (skip_ws (tv ++ r) = tv ++ r) as -> by (rewrite Et; cbn [app]; by apply skip_ws_value).
  cbv zeta. rewrite (Hv tv d f r) by (done || lia).
  assert (take (length (tv ++ r) - length r) (tv ++ r) = tv) as ->.
  { rewrite length_app, Nat.add_sub. apply take_app_length. }
  rewrite (skip_ws_closes r Hr). unfold as_member. cbn [fst snd]. rewrite Htv. cbn [default]. by rewrite Nat.sub_succ, Nat.sub_0_r.
Qed.

Lemma member_head m t : member_text (quote m.1) (render m.2) = Some t → ∃ t', t = x22 :: t'.
Proof. intros H. apply member_text_inv in H as (tv & _ & _ & ->). by eexists. Qed.

Lemma reads_members l : ∀ ts d f r, l ≠ [] →
  Forall (λ m, reads_back m.2) l → mapM (λ m, member_text (quote m.1) (render m.2)) l = Some ts →
  fold_right (λ m P, out_ok d m.2 ∧ P) True l → (2 * length (Join (go ",") ts) + 2 ≤ f)%nat →
  parse_members f d (Join (go ",") ts ++ "}"%byte :: r) = Some (map as_member l, r).
Proof.
  induction l as [|[name v] l IH]; intros ts d f r Hl Hread Hm Hok Hf; [done |]. clear Hl.
  apply Forall_cons in Hread as [Hv Hread]. destruct Hok as [Hok1 Hok].
  apply mapM_Some in Hm. inversion Hm as [|? t ? ts' Ht Hts]; subst. apply mapM_Some in Hts. destruct l as [|w l].
  - injection Hts as <-. cbn [Join] in *. by rewrite (reads_member name v) by (done || apply closes_brace).
  - destruct ts' as [|t2 ts']; [apply mapM_Some, Forall2_length in Hts; discriminate |].
    rewrite Join_cons2 in *. rewrite !length_app in Hf. change (length (go ",")) with 1%nat in Hf.
    rewrite <- !app_assoc. rewrite (reads_member name v) by (done || lia || apply closes_comma).
    pose proof Hts as Hhead. apply mapM_Some in Hhead. inversion Hhead as [|? ? ? ? Hw _]; subst.
    apply member_head in Hw as [t' Et].
    assert (∃ x, Join (go ",") (t2 :: ts') ++ "}"%byte :: r = x22 :: x) as [x Ex] by (rewrite Et; apply Join_head).
    change (go "," ++ Join (go ",") (t2 :: ts') ++ "}"%byte :: r) with (","%byte :: (Join (go ",") (t2 :: ts') ++ "}"%byte :: r)).
    change (beq "," "}") with false. change (beq "," ",") with true. cbv iota.
    rewrite Ex, skip_ws_value, <- Ex by done. by rewrite (IH (t2 :: ts')) by (done || lia).
Qed.

Lemma as_member_names l : map fst (map as_member l) = map fst l.
Proof. by rewrite map_map. Qed.

Lemma reads_object l : Forall (λ m, reads_back m.2) l → reads_back (OObject l).
Proof.
  intros Hl t d [|f] r H Hok Hr Hf; [lia |]. cbn [render] in H.
  destruct (mapM _ l) as [ts|] eqn:E; [|done]. injection H as <-. destruct d as [|d]; [done |].
  cbn [out_ok] in Hok. destruct Hok as [Hnd Hok]. cbn [as_json]. cbn [app parse_value].
  change (beq "{" x22) with false. change (beq "{" "[") with false. change (beq "{" "{") with true. cbv iota.
  rewrite <- app_assoc. cbn [app]. destruct l as [|m l]; [by injection E as <- |].
  assert (∃ x, Join (go ",") ts ++ "}"%byte :: r = x22 :: x) as (x & Ex).
  { apply mapM_Some in E. inversion E as [|? t ? ts' Ht Hts]; subst. apply member_head in Ht as [t' ->]. apply Join_head. }
  rewrite Ex, skip_ws_value by done. change (beq x22 "}") with false. cbv iota. rewrite <- Ex.
  rewrite (reads_members (m :: l) ts) by (done || (cbn [length] in Hf; rewrite length_app in Hf; cbn [length] in Hf; lia)).
  fold (as_member m). rewrite bool_decide_eq_true_2; [reflexivity |]. by rewrite as_member_names.
Qed.

Lemma render_reads v : reads_back v.
Proof.
  induction v as [s|n|l Hl|l Hl] using jout_nested_ind;
    [apply reads_string | apply reads_int | by apply reads_array | by apply reads_object].
Qed.

(** What [Marshal] writes, [Unmarshal] reads back. *)
Lemma parse_render v t : render v = Some t → out_ok maxNestingDepth v → parse_json t = Some (as_json v).
Proof.
  intros Ht Hok. unfold parse_json. destruct (render_head v t Ht) as (b & t' & Et & Hb).
  assert (skip_ws t = t) as -> by (rewrite Et; by apply skip_ws_value).
  pose proof (render_reads v t maxNestingDepth (2 * length t + 1)%nat [] Ht Hok I ltac:(lia)) as H.
  rewrite app_nil_r in H. by rewrite H.
Qed.

Lemma out_ok_mono v : ∀ d d', out_ok d v → (d ≤ d')%nat → out_ok d' v.
Proof.
  induction v as [s|n|l Hl|l Hl] using jout_nested_ind; intros d d' H Hd; [by destruct d' | by destruct d' | |];
    (destruct d as [|d]; [by destruct H |]; destruct d' as [|d']; [lia |]; cbn [out_ok] in *).
  - induction Hl as [|v l Hv _ IH]; [done |]. cbn [fold_right] in *. destruct H as [H1 H2]. split; [apply (Hv d); [done | lia] | auto].
  - destruct H as [Hn H]. split; [done |]. clear Hn.
    induction Hl as [|m l Hv _ IH]; [done |]. cbn [fold_right] in *. destruct H as [H1 H2]. split; [apply (Hv d); [done | lia] | auto].
Qed.

Lemma out_ok_list {A} d (f : A → jout) l : (∀ x, x ∈ l → out_ok d (f x)) → fold_right (λ v P, out_ok d v ∧ P) True (map f l).
Proof.
  induction l as [|x l IH]; intros H; [done |]. cbn [map fold_right]. split; [apply H, list_elem_of_here |].
  apply IH. intros y Hy. by apply H, list_elem_of_further.
Qed.

(** ** Marshal *)

(** The value a type is encoded as; [None] if its [MarshalJSON] fails. *)
Class Marshaler (A : Type) := to_jout : A → option jout.

Definition Marshal {A} `{Marshaler A} (x : A) : option gostring := to_jout x ≫= render.

(** Struct members by their tags: always there; with [omitempty], left out when the value would be empty; with
    [omitzero], left out when it is zero. *)
Definition field (name : gostring) (v : jout) : list (gostring * jout) := [(name, v)].
Definition omitempty (name s : gostring) : list (gostring * jout) := if is_empty s then [] else [(name, OString s)].
Definition omitempty_ptr (name : gostring) (p : option gostring) : list (gostring * jout) :=
  match p with Some s => omitempty name s | None => [] end.
Definition omitnil_int (name : gostring) (p : option Z) : list (gostring * jout) :=
  match p with Some n => [(name, OInt n)] | None => [] end.
Definition omitempty_slice (name : gostring) (l : list jout) : list (gostring * jout) :=
  if is_empty l then [] else [(name, OArray l)].
Definition omitzero (name : gostring) (n : Z) : list (gostring * jout) := if n =? 0 then [] else [(name, OInt n)].

(** ** What a reader gets *)

Lemma ParseInt_FormatInt n : MinInt64 ≤ n ≤ MaxInt64 → ParseInt (FormatInt n) = Some n.
Proof.
  unfold MinInt64. intros Hn. unfold FormatInt. destruct (Z.ltb_spec n 0) as [H|H]; [|apply ParseInt_FormatUint; lia].
  destruct (FormatUint_spec (- n)) as (H1 & H2 & H3); [lia |]. unfold ParseInt, split_sign.
  change (beq "-" "+") with false. change (beq "-" "-") with true. cbv iota.
  destruct (is_empty (FormatUint (- n))) eqn:E; [by apply is_empty_true in E |]. rewrite H2, H3. cbn [orb negb].
  rewrite (proj2 (Z.leb_le _ _)) by lia. f_equal. lia.
Qed.

Lemma dec_int64_out n : MinInt64 ≤ n ≤ MaxInt64 → dec_int64 (as_json (OInt n)) = Some n.
Proof.
  intros Hn. cbn [as_json dec_int64]. rewrite ParseInt_FormatInt by done. unfold FormatInt. destruct (Z.ltb_spec n 0) as [H|H].
  - destruct (FormatUint_spec (- n)) as (_ & -> & _); [lia |]. change (beq "-" "-") with true. by rewrite orb_true_r.
  - destruct (FormatUint_spec n) as (_ & -> & _); [lia |]. done.
Qed.

(** The members by name, before and after encoding. *)
Fixpoint find_out (name : gostring) (l : list (gostring * jout)) : option jout :=
  match l with
  | [] => None
  | (n, v) :: r => if seqb n name then Some v else find_out name r
  end.

Lemma find_out_app name l1 l2 :
  find_out name (l1 ++ l2) = match find_out name l1 with Some v => Some v | None => find_out name l2 end.
Proof. induction l1 as [|[n v] l IH]; [done |]. cbn [app find_out]. by destruct (seqb n name). Qed.

Lemma find_as_member name l :
  find_member name (map as_member l) = (λ v, (default [] (render v), as_json v)) <$> find_out name l.
Proof. induction l as [|[n v] l IH]; [done |]. cbn [map as_member find_member find_out fst snd]. by destruct (seqb n name). Qed.

Lemma member_out {A} l name v (zero : A) dec x :
  find_out name l = Some v → dec (as_json v) = Some x → member (map as_member l) name zero dec = Some x.
Proof. intros H Hd. unfold member. rewrite find_as_member, H. exact Hd. Qed.

Lemma member_absent {A} l name (zero : A) dec : find_out name l = None → member (map as_member l) name zero dec = Some zero.
Proof. intros H. unfold member. by rewrite find_as_member, H. Qed.

Lemma mapM_dec {A B} (enc : A → jout) (dec : json → option B) (f : A → B) l :
  Forall (λ x, dec (as_json (enc x)) = Some (f x)) l → mapM dec (map as_json (map enc l)) = Some (map f l).
Proof. induction 1 as [|x l Hx _ IH]; [done |]. cbn [map]. apply mapM_Some. apply mapM_Some in IH. by constructor. Qed.

(** A struct that was encoded is read as its members. *)
Lemma parse_Marshal {A} `{Marshaler A} (x : A) l t :
  to_jout x = Some (OObject l) → Marshal x = Some t → out_ok 4 (OObject l) → parse_json t = Some (JObject (map as_member l)).
Proof.
  intros Hx Ht Hok. unfold Marshal in Ht. rewrite Hx in Ht. apply (parse_render (OObject l)); [done |].
  apply (out_ok_mono _ 4); [done | unfold maxNestingDepth; lia].
Qed.

(** Member names that are written out are told apart by evaluation. *)
Lemma names_distinct (l : list (gostring * jout)) names :
  map fst l = names → bool_decide (NoDup names) = true → NoDup (map fst l).
Proof. intros ->. apply bool_decide_eq_true_1. Qed.

(** ** The text is on one line *)

Lemma escape_no_cr s : x0d ∉ flat_map escape_byte s.
Proof.
  induction s as [|b s IH]; [apply not_elem_of_nil |]. cbn [flat_map]. rewrite elem_of_app. intros [H|H]; [|done].
  pose proof (byte_forallb (λ b, negb (existsb (beq x0d) (escape_byte b))) ltac:(vm_compute; reflexivity) b) as Hb. cbv beta in Hb.
  apply negb_true_iff in Hb. enough (existsb (beq x0d) (escape_byte b) = true) by congruence.
  apply existsb_exists. exists x0d. split; [by apply list_elem_of_In | apply beq_refl].
Qed.

Lemma digits_no_cr ds : forallb is_digit ds = true → x0d ∉ ds.
Proof. rewrite forallb_forall. intros H Hin. apply list_elem_of_In, H in Hin. discriminate Hin. Qed.

Lemma Join_no_cr ts : Forall (λ t, x0d ∉ t) ts → x0d ∉ Join (go ",") ts.
Proof.
  induction 1 as [|t ts Ht Hts IH]; [apply not_elem_of_nil |]. destruct ts as [|u ts]; [done |].
  rewrite Join_cons2, !elem_of_app. intros [H|[H|H]]; [done | | done]. by apply list_elem_of_singleton in H.
Qed.

Lemma quote_no_cr s t : quote s = Some t → x0d ∉ t.
Proof.
  intros H. apply quote_inv in H as [_ ->]. rewrite elem_of_cons, elem_of_app, list_elem_of_singleton.
  intros [H|[H|H]]; [done | by apply escape_no_cr in H | done].
Qed.

Lemma render_no_cr v : ∀ t, render v = Some t → x0d ∉ t.
Proof.
  induction v as [s|n|l Hl|l Hl] using jout_nested_ind; intros t H; cbn [render] in H.
  - by apply quote_no_cr in H.
  - injection H as <-. unfold FormatInt. destruct (Z.ltb_spec n 0).
    + destruct (FormatUint_spec (- n)) as (_ & Hd & _); [lia |]. rewrite elem_of_cons. intros [H1|H1]; [done |].
      by apply digits_no_cr in Hd.
    + destruct (FormatUint_spec n) as (_ & Hd & _); [lia |]. by apply digits_no_cr in Hd.
  - destruct (mapM render l) as [ts|] eqn:E; [|done]. injection H as <-. rewrite elem_of_cons, elem_of_app, list_elem_of_singleton.
    intros [H|[H|H]]; [done | | done]. revert H. apply Join_no_cr. apply mapM_Some in E.
    clear -E Hl. induction E as [|v t l ts Hv _ IH]; [by apply Forall_nil |]. apply Forall_cons in Hl as [Hv' Hl]. apply Forall_cons. auto.
  - destruct (mapM _ l) as [ts|] eqn:E; [|done]. injection H as <-. rewrite elem_of_cons, elem_of_app, list_elem_of_singleton.
    intros [H|[H|H]]; [done | | done]. revert H. apply Join_no_cr. apply mapM_Some in E.
    clear -E Hl. induction E as [|m t l ts Hm _ IH]; [by apply Forall_nil |]. apply Forall_cons in Hl as [Hv' Hl]. apply Forall_cons.
    split; [|auto]. apply member_text_inv in Hm as (tv & _ & Htv & ->). rewrite elem_of_cons, elem_of_app, !elem_of_cons.
    intros [H|[H|[H|[H|H]]]]; [done | by apply escape_no_cr in H | done | done |]. by apply Hv' in Htv.
Qed.
