(* ===== verification/GoHttp.v ===== *)
(** * GoHttp: the parts of net/http the SDK reads and writes

    [http.Header] as a finite map from keys to value lists, and the status codes. *)

From S2P Require Import Prelude GoStrings.

Abbreviation Header := (gmap gostring (list gostring)).

(** [Header.Values], [Header.Get] and [Header.Set].  Go canonicalizes the key of the call; every
    call of the SDK passes a key that is already canonical ([canonical_keys] in Hmac.v's users). *)
Definition Header_Values (h : Header) (key : gostring) : list gostring := default [] (h !! key).

Definition Header_Get (h : Header) (key : gostring) : gostring :=
  match Header_Values h key with
  | v :: _ => v
  | [] => []
  end.

Definition Header_Set (key value : gostring) (h : Header) : Header := <[key := [value]]> h.

(** [maps.DeleteFunc]. *)
Definition Header_DeleteFunc (del : gostring → bool) (h : Header) : Header :=
  filter (λ kv, del kv.1 = false) h.

Definition MethodPost : gostring := go "POST".
Definition MethodGet : gostring := go "GET".

Definition StatusOK : Z := 200.
Definition StatusBadRequest : Z := 400.
Definition StatusUnauthorized : Z := 401.
Definition StatusMethodNotAllowed : Z := 405.
Definition StatusRequestTimeout : Z := 408.
Definition StatusConflict : Z := 409.
Definition StatusRequestEntityTooLarge : Z := 413.
Definition StatusUnsupportedMediaType : Z := 415.
Definition StatusTooManyRequests : Z := 429.
Definition StatusInternalServerError : Z := 500.
Definition StatusBadGateway : Z := 502.
Definition StatusServiceUnavailable : Z := 503.
Definition StatusGatewayTimeout : Z := 504.

Lemma Header_Values_Set_eq k v h : Header_Values (Header_Set k v h) k = [v].
Proof. unfold Header_Values, Header_Set. by rewrite lookup_insert_eq. Qed.

Lemma Header_Values_Set_ne k k' v h :
  k ≠ k' → Header_Values (Header_Set k v h) k' = Header_Values h k'.
Proof. intros H. unfold Header_Values, Header_Set. by rewrite lookup_insert_ne. Qed.

Lemma Header_Get_Values h k v : Header_Values h k = [v] → Header_Get h k = v.
Proof. unfold Header_Get. by intros ->. Qed.

Lemma Header_Values_DeleteFunc_keep del k h :
  del k = false → Header_Values (Header_DeleteFunc del h) k = Header_Values h k.
Proof.
  intros H. unfold Header_Values, Header_DeleteFunc. f_equal.
  destruct (h !! k) as [v|] eqn:E.
  - by apply map_lookup_filter_Some_2.
  - apply map_lookup_filter_None_2. by left.
Qed.

Lemma Header_Values_DeleteFunc_drop del k h :
  del k = true → Header_Values (Header_DeleteFunc del h) k = [].
Proof.
  intros H. unfold Header_Values, Header_DeleteFunc.
  rewrite map_lookup_filter_None_2; [done |]. right. simpl. congruence.
Qed.

(** [sync/atomic.Uint64.Add(1)]: addition modulo 2^64. *)
Definition MaxUint64 : Z := 18446744073709551615.
Definition uint64_inc (n : Z) : Z := (n + 1) mod (MaxUint64 + 1).
