(* ===== verification/Canonical.v ===== *)
(** * Canonical: internal/irishmac/canonical.go

    The canonical form of a request target (query decoding, re-encoding, sorting and duplicate-key
    rejection), the five-line request transcript and message-ID normalisation.  The reference
    notion [decodedPairs] gives the meaning of a raw query: the multiset of decoded pairs. *)

From S2P Require Import Prelude GoStrings.

Definition CanonicalRequest (method target timestamp nonce bodySHA256 : gostring) : gostring :=
  Join [x0a] [ToUpper method; target; timestamp; nonce; bodySHA256].

Inductive targetError :=
| MalformedQuery
| ErrDuplicateQueryKey.

Record canonicalQueryPair := mkPair { key : gostring; value : option gostring }.

#[export] Instance canonicalQueryPair_eq_dec : EqDecision canonicalQueryPair.
Proof. solve_decision. Defined.

Definition isHexByte (b : byte) : bool :=
  in_range "0" "9" b || in_range "a" "f" b || in_range "A" "F" b.

Definition fromHexNibble (b : byte) : byte :=
  if in_range "0" "9" b then zb (bz b - bz "0")
  else if in_range "a" "f" b then zb (bz b - bz "a" + 10)
  else zb (bz b - bz "A" + 10).

Definition fromHexPair (high low : byte) : byte :=
  zb (Z.lor (Z.shiftl (bz (fromHexNibble high)) 4 mod 256) (bz (fromHexNibble low))).

(** The decoding loop of [decodeQueryComponentStrict]. *)
Fixpoint percent_decode (value : gostring) : option gostring :=
  match value with
  | [] => Some []
  | b :: rest =>
      if negb (beq b "%") then option_map (cons b) (percent_decode rest)
      else match rest with
           | h :: l :: rest' =>
               if isHexByte h && isHexByte l
               then option_map (cons (fromHexPair h l)) (percent_decode rest')
               else None
           | _ => None
           end
  end.

Definition decodeQueryComponentStrict (value : gostring) : option gostring :=
  match percent_decode value with
  | Some decoded => if ValidString decoded then Some decoded else None
  | None => None
  end.

Definition is_unreserved (b : byte) : bool :=
  in_range "A" "Z" b || in_range "a" "z" b || in_range "0" "9" b
  || beq b "-" || beq b "." || beq b "_" || beq b "~".

(** The digit of [%02X]. *)
Definition upper_hex_digit (n : Z) : byte := if n <? 10 then zb (48 + n) else zb (55 + n).

Definition encode_byte (b : byte) : gostring :=
  if is_unreserved b then [b]
  else ["%"%byte; upper_hex_digit (bz b / 16); upper_hex_digit (bz b mod 16)].

Definition EncodeQueryComponent (value : gostring) : gostring := flat_map encode_byte value.

(** One iteration of [parseCanonicalQuery]'s loop body, for a non-empty raw pair. *)
Definition parse_pair (rawPair : gostring) : option canonicalQueryPair :=
  let '(rawKey, rawValue, hasValue) := Cut "=" rawPair in
  match decodeQueryComponentStrict rawKey with
  | None => None
  | Some k =>
      if hasValue then
        match decodeQueryComponentStrict rawValue with
        | None => None
        | Some v => Some (mkPair (EncodeQueryComponent k) (Some (EncodeQueryComponent v)))
        end
      else Some (mkPair (EncodeQueryComponent k) None)
  end.

Fixpoint parse_pairs (raw : list gostring) : option (list canonicalQueryPair) :=
  match raw with
  | [] => Some []
  | rawPair :: rest =>
      if is_empty rawPair then parse_pairs rest
      else match parse_pair rawPair with
           | None => None
           | Some p => option_map (cons p) (parse_pairs rest)
           end
  end.

Definition parseCanonicalQuery (rawQuery : gostring) : option (list canonicalQueryPair) :=
  parse_pairs (Split "&" rawQuery).

Definition compareOptionalCanonicalQueryValue (left right : option gostring) : comparison :=
  match left, right with
  | None, None => Eq
  | None, Some _ => Lt
  | Some _, None => Gt
  | Some l, Some r => bcompare l r
  end.

(** The [slices.SortFunc] comparison: [cmp.Or] of the key and the value comparison. *)
Definition compare_pair (left right : canonicalQueryPair) : comparison :=
  match bcompare (key left) (key right) with
  | Eq => compareOptionalCanonicalQueryValue (value left) (value right)
  | c => c
  end.

Definition pair_le (left right : canonicalQueryPair) : Prop := compare_pair left right ≠ Gt.

#[export] Instance pair_le_dec l r : Decision (pair_le l r).
Proof. unfold pair_le. solve_decision. Defined.

(** [slices.SortFunc]: its result is determined, because pairs that compare equal are equal. *)
Definition sort_pairs (pairs : list canonicalQueryPair) : list canonicalQueryPair :=
  merge_sort pair_le pairs.

(** The loop [for i := 1; i < len(pairs); i++] comparing neighbouring keys. *)
Fixpoint has_adjacent_dup (pairs : list canonicalQueryPair) : bool :=
  match pairs with
  | p :: (q :: _) as rest => seqb (key q) (key p) || has_adjacent_dup rest
  | _ => false
  end.

Definition render_pair (p : canonicalQueryPair) : gostring :=
  key p ++ match value p with Some v => "="%byte :: v | None => [] end.

(** The builder loop: pairs separated by an ampersand. *)
Definition render_pairs (pairs : list canonicalQueryPair) : gostring :=
  Join ["&"%byte] (map render_pair pairs).

Definition canonicalTarget (target : gostring) (rejectDuplicateKeys : bool)
  : result targetError gostring :=
  let '(path, rawQuery, hasQuery) := Cut "?" target in
  if negb hasQuery || is_empty rawQuery then Ok path
  else match parseCanonicalQuery rawQuery with
       | None => Err MalformedQuery
       | Some pairs =>
           if is_empty pairs then Ok path
           else
             let pairs := sort_pairs pairs in
             if rejectDuplicateKeys && has_adjacent_dup pairs then Err ErrDuplicateQueryKey
             else Ok (path ++ "?"%byte :: render_pairs pairs)
       end.

Definition CanonicalTarget (target : gostring) : result targetError gostring :=
  canonicalTarget target false.

Definition CanonicalRequestTarget (target : gostring) : result targetError gostring :=
  canonicalTarget target true.

Definition MaxMessageIDBytes : Z := 256.

Definition validMessageIDByte (character : byte) : bool :=
  in_range "a" "z" character || in_range "A" "Z" character || in_range "0" "9" character
  || ContainsByte character (go "-_.:/").

(** [NormalizeMessageID]: a blank value passes as the empty string; [None] is [("", false)]. *)
Definition NormalizeMessageID (raw : gostring) : option gostring :=
  let messageID := TrimSpace raw in
  if is_empty messageID then Some []
  else if MaxMessageIDBytes <? Z.of_nat (length messageID) then None
  else if forallb validMessageIDByte messageID then Some messageID
  else None.

(** ** Reference meaning of a raw query *)

Definition decode_pair (rawPair : gostring) : option (gostring * option gostring) :=
  let '(rawKey, rawValue, hasValue) := Cut "=" rawPair in
  match decodeQueryComponentStrict rawKey with
  | None => None
  | Some k =>
      if hasValue then
        match decodeQueryComponentStrict rawValue with
        | None => None
        | Some v => Some (k, Some v)
        end
      else Some (k, None)
  end.

(** The decoded pairs of a raw query, in order; empty raw pairs are skipped. *)
Definition decodedPairs (rawQuery : gostring) : option (list (gostring * option gostring)) :=
  mapM decode_pair (filter (λ w, w ≠ []) (Split "&" rawQuery)).

Definition encode_pair (d : gostring * option gostring) : canonicalQueryPair :=
  mkPair (EncodeQueryComponent d.1) (EncodeQueryComponent <$> d.2).

(** ** Encoding and decoding *)

Lemma encode_byte_decodes b rest :
  percent_decode (encode_byte b ++ rest) = option_map (cons b) (percent_decode rest).
Proof.
  pose proof (byte_forallb (λ b,
    if is_unreserved b then negb (beq b "%")
    else isHexByte (upper_hex_digit (bz b / 16)) && isHexByte (upper_hex_digit (bz b mod 16))
         && beq (fromHexPair (upper_hex_digit (bz b / 16)) (upper_hex_digit (bz b mod 16))) b)
    ltac:(vm_compute; reflexivity) b) as H. cbv beta in H.
  unfold encode_byte. destruct (is_unreserved b); cbn [app percent_decode].
  - by rewrite H.
  - bool_props. rewrite beq_refl. cbn [negb].
    repeat match goal with H : isHexByte _ = true |- _ => rewrite H; clear H end.
    cbn [andb]. by match goal with H : beq _ _ = true |- _ => apply beq_true in H as -> end.
Qed.

Lemma percent_decode_encode s : percent_decode (EncodeQueryComponent s) = Some s.
Proof.
  unfold EncodeQueryComponent. induction s as [|b s IH]; [done |].
  cbn [flat_map]. by rewrite encode_byte_decodes, IH.
Qed.

Lemma EncodeQueryComponent_inj s t :
  EncodeQueryComponent s = EncodeQueryComponent t → s = t.
Proof. intros E. apply Some_inj. by rewrite <- !percent_decode_encode, E. Qed.

#[export] Instance EncodeQueryComponent_Inj : Inj (=) (=) EncodeQueryComponent.
Proof. intros s t. apply EncodeQueryComponent_inj. Qed.

Lemma decode_encode s :
  ValidString s = true → decodeQueryComponentStrict (EncodeQueryComponent s) = Some s.
Proof. intros H. unfold decodeQueryComponentStrict. by rewrite percent_decode_encode, H. Qed.

Lemma decode_valid s d : decodeQueryComponentStrict s = Some d → ValidString d = true.
Proof. unfold decodeQueryComponentStrict. split_cases; naive_solver. Qed.

Definition is_delimiter (b : byte) : bool := beq b "&" || beq b "=" || beq b "?".

Lemma encode_no_delimiter s b : b ∈ EncodeQueryComponent s → is_delimiter b = false.
Proof.
  intros H. apply list_elem_of_In, in_flat_map in H as (c & _ & H).
  pose proof (byte_forallb (λ c, forallb (λ b, negb (is_delimiter b)) (encode_byte c))
    ltac:(vm_compute; reflexivity) c) as Hc. cbv beta in Hc.
  rewrite forallb_forall in Hc. apply negb_true_iff. auto.
Qed.

(** ** Parsing agrees with the reference meaning *)

Lemma parse_pair_decode raw : parse_pair raw = encode_pair <$> decode_pair raw.
Proof. unfold parse_pair, decode_pair, encode_pair. split_cases. Qed.

Lemma parse_pairs_decode l :
  parse_pairs l = map encode_pair <$> mapM decode_pair (filter (λ w, w ≠ []) l).
Proof.
  induction l as [|w l IH]; [done |]. cbn [parse_pairs]. destruct w as [|b w]; cbn [is_empty].
  - rewrite filter_cons_False by naive_solver. done.
  - rewrite filter_cons_True by done. rewrite parse_pair_decode. cbn [mapM].
    rewrite IH. unfold mbind. destruct (decode_pair (b :: w)); [|done]. simpl.
    by destruct (mapM decode_pair (filter (λ w, w ≠ []) l)).
Qed.

Lemma parse_decodedPairs q : parseCanonicalQuery q = map encode_pair <$> decodedPairs q.
Proof. apply parse_pairs_decode. Qed.

Lemma encode_pair_inj d e : encode_pair d = encode_pair e → d = e.
Proof.
  destruct d as [k v], e as [k' v']. unfold encode_pair. simpl.
  intros [= Hk Hv]. apply EncodeQueryComponent_inj in Hk as ->. f_equal.
  destruct v, v'; simpl in *; by simplify_eq.
Qed.

(** ** The order on pairs *)

Lemma compareOptional_eq l r : compareOptionalCanonicalQueryValue l r = Eq ↔ l = r.
Proof. destruct l, r; simpl; rewrite ?bcompare_eq; naive_solver. Qed.

Lemma compareOptional_antisym l r :
  compareOptionalCanonicalQueryValue r l = CompOpp (compareOptionalCanonicalQueryValue l r).
Proof. destruct l, r; simpl; try done. apply bcompare_antisym. Qed.

Lemma compareOptional_trans_lt l m r :
  compareOptionalCanonicalQueryValue l m = Lt → compareOptionalCanonicalQueryValue m r = Lt →
  compareOptionalCanonicalQueryValue l r = Lt.
Proof. destruct l, m, r; simpl; try done. apply bcompare_trans_lt. Qed.

Lemma compare_pair_eq p q : compare_pair p q = Eq ↔ p = q.
Proof.
  destruct p as [k v], q as [k' v']. unfold compare_pair. simpl.
  destruct (bcompare k k') eqn:E.
  - apply bcompare_eq in E as ->. rewrite compareOptional_eq. naive_solver.
  - split; [done |]. intros [= -> _]. by rewrite bcompare_refl in E.
  - split; [done |]. intros [= -> _]. by rewrite bcompare_refl in E.
Qed.

Lemma compare_pair_antisym p q : compare_pair q p = CompOpp (compare_pair p q).
Proof.
  unfold compare_pair. rewrite (bcompare_antisym (key p)).
  destruct (bcompare (key p) (key q)); simpl; try done. apply compareOptional_antisym.
Qed.

Lemma compare_pair_trans_lt p q r :
  compare_pair p q = Lt → compare_pair q r = Lt → compare_pair p r = Lt.
Proof.
  unfold compare_pair.
  destruct (bcompare (key p) (key q)) eqn:E1; try done;
    destruct (bcompare (key q) (key r)) eqn:E2; try done; intros H1 H2.
  - apply bcompare_eq in E1 as ->. rewrite E2. by eapply compareOptional_trans_lt.
  - apply bcompare_eq in E1 as ->. by rewrite E2.
  - apply bcompare_eq in E2 as <-. by rewrite E1.
  - by rewrite (bcompare_trans_lt _ _ _ E1 E2).
Qed.

#[export] Instance pair_le_total : Total pair_le.
Proof.
  intros p q. unfold pair_le. rewrite (compare_pair_antisym p q).
  destruct (compare_pair p q); simpl; naive_solver.
Qed.

#[export] Instance pair_le_antisymm : AntiSymm (=) pair_le.
Proof.
  intros p q. unfold pair_le. rewrite (compare_pair_antisym p q).
  destruct (compare_pair p q) eqn:E; simpl; try done. by apply compare_pair_eq in E.
Qed.

#[export] Instance pair_le_trans : Transitive pair_le.
Proof.
  intros p q r. unfold pair_le.
  destruct (compare_pair p q) eqn:E1; [|destruct (compare_pair q r) eqn:E2|]; try done.
  - by apply compare_pair_eq in E1 as ->.
  - by apply compare_pair_eq in E2 as <-; rewrite E1.
  - by rewrite (compare_pair_trans_lt _ _ _ E1 E2).
Qed.

Lemma sort_pairs_perm l : sort_pairs l ≡ₚ l.
Proof. apply merge_sort_Permutation. Qed.

Lemma sort_pairs_sorted l : Sorted pair_le (sort_pairs l).
Proof. apply Sorted_merge_sort, _. Qed.

(** Whatever sorting algorithm is used, the sorted list is this one. *)
Lemma sort_pairs_unique l k : Sorted pair_le k → k ≡ₚ l → k = sort_pairs l.
Proof.
  intros Hk Hp. apply (Sorted_unique pair_le); [done | apply sort_pairs_sorted |].
  by rewrite sort_pairs_perm.
Qed.

Lemma sort_pairs_proper l k : l ≡ₚ k → sort_pairs l = sort_pairs k.
Proof.
  intros H. apply sort_pairs_unique; [apply sort_pairs_sorted |]. by rewrite sort_pairs_perm.
Qed.

(** Equal keys are neighbours after sorting. *)
Lemma adjacent_dup_sorted l :
  StronglySorted pair_le l → has_adjacent_dup l = false ↔ NoDup (map key l).
Proof.
  induction 1 as [|p l Hl IH Hp]; [split; [constructor | done] |].
  destruct l as [|q l]; [split; [intros _; apply NoDup_singleton | done] |].
  cbn [has_adjacent_dup]. rewrite orb_false_iff, IH, seqb_false.
  change (map key (p :: q :: l)) with (key p :: map key (q :: l)).
  rewrite NoDup_cons. split; intros [Hne Hnd]; split; try done.
  - intros Hin. apply list_elem_of_In, in_map_iff in Hin as (r & Hr & Hin%list_elem_of_In).
    assert (pair_le p q) as Hpq by (by apply Forall_inv in Hp).
    assert (q = r ∨ pair_le q r) as Hqr.
    { apply elem_of_cons in Hin as [->|Hin]; [by left | right].
      apply StronglySorted_inv in Hl as [_ Hl]. rewrite Forall_forall in Hl. auto. }
    destruct Hqr as [->|Hqr]; [congruence |].
    apply Hne. unfold pair_le, compare_pair in Hpq, Hqr. rewrite Hr in Hqr.
    rewrite (bcompare_antisym (key p) (key q)) in Hqr.
    destruct (bcompare (key p) (key q)) eqn:E; simpl in *; try done.
    by apply bcompare_eq in E.
  - intros E. apply Hne. cbn [map]. rewrite <- E. left.
Qed.

(** ** Rendering and re-parsing *)

(** What decoding yields: valid UTF-8, and never a pair with an empty key and no value. *)
Definition good_pair (d : gostring * option gostring) : Prop :=
  ValidString d.1 = true ∧ from_option (λ v, ValidString v = true) True d.2 ∧ d ≠ ([], None).

Lemma percent_decode_nil s : percent_decode s = Some [] → s = [].
Proof.
  destruct s as [|b s]; [done |]. cbn [percent_decode]. intros H. exfalso.
  destruct (negb (beq b "%")).
  - by destruct (percent_decode s).
  - destruct s as [|h [|l s]]; try done. destruct (isHexByte h && isHexByte l); [|done].
    by destruct (percent_decode s).
Qed.

Lemma decode_pair_good w d : w ≠ [] → decode_pair w = Some d → good_pair d.
Proof.
  unfold decode_pair. intros Hw. destruct (Cut "=" w) as [[rk rv] hv] eqn:EC.
  apply Cut_spec in EC as [_ EC].
  destruct (decodeQueryComponentStrict rk) as [k|] eqn:Ek; [|done].
  assert (ValidString k = true) by (by eapply decode_valid).
  destruct hv; [destruct (decodeQueryComponentStrict rv) as [v|] eqn:Ev; [|done] |];
    intros [= <-]; split_and!; simpl; try done.
  - by eapply decode_valid.
  - intros [= ->]. destruct EC as [-> ->]. apply Hw.
    unfold decodeQueryComponentStrict in Ek.
    destruct (percent_decode rk) as [d|] eqn:Ep; [|done].
    destruct (ValidString d); simplify_eq. by apply percent_decode_nil.
Qed.

Lemma decodedPairs_good q ds : decodedPairs q = Some ds → Forall good_pair ds.
Proof.
  intros H. apply mapM_Some in H. apply Forall_forall. intros d Hd.
  apply list_elem_of_lookup in Hd as [i Hi].
  destruct (Forall2_lookup_r _ _ _ _ _ H Hi) as (w & Hw & Hdec).
  apply list_elem_of_lookup_2, list_elem_of_filter in Hw as [Hw _].
  by eapply decode_pair_good.
Qed.

Lemma encode_delim_free c s : is_delimiter c = true → c ∉ EncodeQueryComponent s.
Proof. intros Hc Hin. apply encode_no_delimiter in Hin. congruence. Qed.

Lemma decode_render d : good_pair d → decode_pair (render_pair (encode_pair d)) = Some d.
Proof.
  destruct d as [k [v|]]; intros (Hk & Hv & _); simpl in *;
    unfold decode_pair, render_pair; simpl.
  - rewrite Cut_found by (by apply encode_delim_free). by rewrite !decode_encode.
  - rewrite app_nil_r, Cut_not_found by (by apply encode_delim_free). by rewrite decode_encode.
Qed.

Lemma render_pair_ne d : good_pair d → render_pair (encode_pair d) ≠ [].
Proof.
  intros (_ & _ & Hd). destruct d as [k [v|]]; unfold render_pair; simpl.
  - intros E. by apply app_eq_nil in E as [_ ?].
  - rewrite app_nil_r. intros E. apply Hd. f_equal. by apply EncodeQueryComponent_inj.
Qed.

Lemma render_pair_delim_free d c :
  c = "&"%byte ∨ c = "?"%byte → c ∉ render_pair (encode_pair d).
Proof.
  intros Hc. assert (is_delimiter c = true) by (by destruct Hc as [-> | ->]).
  unfold render_pair. rewrite not_elem_of_app. split; [by apply encode_delim_free |].
  destruct d as [k [v|]]; simpl; [|apply not_elem_of_nil].
  apply not_elem_of_cons. split; [|by apply encode_delim_free].
  by destruct Hc as [-> | ->].
Qed.

Lemma Split_render ds :
  ds ≠ [] → Split "&" (render_pairs (map encode_pair ds)) = map render_pair (map encode_pair ds).
Proof.
  intros Hds. apply Split_Join; [by destruct ds |].
  rewrite map_map. apply Forall_forall. intros w Hw.
  apply list_elem_of_In, in_map_iff in Hw as (d & <- & _).
  apply render_pair_delim_free. by left.
Qed.

Lemma decodedPairs_render ds :
  ds ≠ [] → Forall good_pair ds → decodedPairs (render_pairs (map encode_pair ds)) = Some ds.
Proof.
  intros Hne Hg. unfold decodedPairs. rewrite Split_render by done. rewrite map_map.
  clear Hne. induction Hg as [|d ds Hd Hg IH]; [done |].
  cbn [map]. rewrite filter_cons_True by (by apply render_pair_ne). cbn [mapM].
  rewrite (decode_render d Hd). simpl. by rewrite IH.
Qed.

Lemma sort_encode ds : ∃ ds', ds' ≡ₚ ds ∧ sort_pairs (map encode_pair ds) = map encode_pair ds'.
Proof.
  pose proof (sort_pairs_perm (map encode_pair ds)) as H.
  apply Permutation_map_inv in H as (ds' & E & Hp). exists ds'. done.
Qed.

Lemma render_question_free ds : "?"%byte ∉ render_pairs (map encode_pair ds).
Proof.
  unfold render_pairs. induction ds as [|d [|e ds] IH].
  - apply not_elem_of_nil.
  - apply render_pair_delim_free. by right.
  - cbn [map] in *. rewrite Join_cons2. rewrite !not_elem_of_app. split_and!.
    + apply render_pair_delim_free. by right.
    + apply not_elem_of_cons. split; [done | apply not_elem_of_nil].
    + exact IH.
Qed.

(** ** The canonical target in terms of the decoded pairs *)

Lemma canonicalTarget_query p q rej :
  "?"%byte ∉ p →
  canonicalTarget (p ++ "?"%byte :: q) rej =
  match decodedPairs q with
  | None => Err MalformedQuery
  | Some ds =>
      if is_empty ds then Ok p
      else if rej && has_adjacent_dup (sort_pairs (map encode_pair ds))
      then Err ErrDuplicateQueryKey
      else Ok (p ++ "?"%byte :: render_pairs (sort_pairs (map encode_pair ds)))
  end.
Proof.
  intros Hp. unfold canonicalTarget. rewrite Cut_found by done. simpl negb. simpl orb.
  rewrite parse_decodedPairs. destruct q as [|b q]; cbn [is_empty].
  - by vm_compute.
  - destruct (decodedPairs (b :: q)) as [[|d ds]|]; done.
Qed.

Lemma canonicalTarget_plain p rej : "?"%byte ∉ p → canonicalTarget p rej = Ok p.
Proof. intros Hp. unfold canonicalTarget. by rewrite Cut_not_found. Qed.

Lemma target_cases (t : gostring) :
  ("?"%byte ∉ t) ∨ ∃ p q, ("?"%byte ∉ p) ∧ t = p ++ "?"%byte :: q.
Proof.
  destruct (Cut "?" t) as [[p q] f] eqn:E. apply Cut_spec in E as [Hp E].
  destruct f; [right; by exists p, q | left; by destruct E as [-> _]].
Qed.

Lemma render_encoded_inj ds es :
  ds ≠ [] → es ≠ [] → Forall good_pair ds → Forall good_pair es →
  render_pairs (map encode_pair ds) = render_pairs (map encode_pair es) → ds = es.
Proof.
  intros. apply Some_inj. rewrite <- !decodedPairs_render by done. congruence.
Qed.

Lemma sort_render_perm ds es :
  ds ≠ [] → es ≠ [] → Forall good_pair ds → Forall good_pair es →
  render_pairs (sort_pairs (map encode_pair ds)) = render_pairs (sort_pairs (map encode_pair es)) →
  ds ≡ₚ es.
Proof.
  intros Hds Hes Hgd Hge E.
  destruct (sort_encode ds) as (ds' & Pd & Ed), (sort_encode es) as (es' & Pe & Ee).
  rewrite Ed, Ee in E. apply render_encoded_inj in E.
  - by rewrite <- Pd, <- Pe, E.
  - intros ->. by apply Permutation_nil_l in Pd.
  - intros ->. by apply Permutation_nil_l in Pe.
  - by rewrite Pd.
  - by rewrite Pe.
Qed.

(** C17: two targets with the same path have the same canonical form exactly when their queries
    decode to the same multiset of pairs.  The signature therefore covers the meaning of the query
    (nothing is lost) and does not depend on the order or the escaping of the raw pairs. *)
Theorem canonical_target_meaning (p q1 q2 : gostring) ds1 ds2 :
  "?"%byte ∉ p →
  decodedPairs q1 = Some ds1 → decodedPairs q2 = Some ds2 →
  CanonicalTarget (p ++ "?"%byte :: q1) = CanonicalTarget (p ++ "?"%byte :: q2) ↔ ds1 ≡ₚ ds2.
Proof.
  intros Hp H1 H2. unfold CanonicalTarget.
  rewrite !canonicalTarget_query, H1, H2 by done. cbn [andb].
  apply decodedPairs_good in H1, H2. split.
  - destruct ds1 as [|d1 ds1], ds2 as [|d2 ds2]; cbn [is_empty]; intros E; try done.
    + exfalso. apply (f_equal (λ r, if r is Ok t then length t else O)) in E.
      rewrite length_app in E. simpl in E. lia.
    + exfalso. apply (f_equal (λ r, if r is Ok t then length t else O)) in E.
      rewrite length_app in E. simpl in E. lia.
    + injection E as E. apply app_inv_head in E. injection E as E.
      by apply (sort_render_perm (d1 :: ds1) (d2 :: ds2)).
  - intros Hperm. destruct ds1 as [|d1 ds1].
    + by apply Permutation_nil_l in Hperm as <-.
    + destruct ds2 as [|d2 ds2]; [by apply Permutation_nil_r in Hperm |]. cbn [is_empty].
      do 3 f_equal. rewrite (sort_pairs_proper (map encode_pair (d1 :: ds1)) (map encode_pair (d2 :: ds2))); [done |].
      by apply Permutation_map.
Qed.

Lemma canonical_target_meaning_witness :
  CanonicalTarget (go "/rooms/42/stats?period=7d&limit=%35") =
  CanonicalTarget (go "/rooms/42/stats?limit=5&period=7d").
Proof.
  apply (canonical_target_meaning (go "/rooms/42/stats") (go "period=7d&limit=%35")
           (go "limit=5&period=7d")
           [(go "period", Some (go "7d")); (go "limit", Some (go "5"))]
           [(go "limit", Some (go "5")); (go "period", Some (go "7d"))]).
  - apply (bool_decide_unpack _). vm_compute. exact I.
  - vm_compute. reflexivity.
  - vm_compute. reflexivity.
  - apply perm_swap.
Defined.

(** Canonicalisation is idempotent: the canonical form of a canonical target is itself, for
    both the accepting and the duplicate-rejecting variant. *)
Theorem canonicalTarget_idempotent (t c : gostring) (rej : bool) :
  canonicalTarget t rej = Ok c → canonicalTarget c rej = Ok c.
Proof.
  destruct (target_cases t) as [Ht|(p & q & Hp & ->)].
  - rewrite canonicalTarget_plain by done. intros [= <-]. by apply canonicalTarget_plain.
  - rewrite canonicalTarget_query by done. destruct (decodedPairs q) as [ds|] eqn:Eq; [|done].
    apply decodedPairs_good in Eq. destruct (is_empty ds) eqn:Ee; [|apply is_empty_false in Ee].
    + intros [= <-]. by apply canonicalTarget_plain.
    + destruct (rej && _) eqn:Edup; [done |]. intros [= <-].
      destruct (sort_encode ds) as (ds' & P & E). rewrite E in *.
      assert (ds' ≠ []) as Hne by (intros ->; by apply Permutation_nil_l in P).
      rewrite canonicalTarget_query by done.
      rewrite decodedPairs_render; [|done | by rewrite P].
      rewrite (sort_pairs_proper (map encode_pair ds') (map encode_pair ds))
        by (by rewrite P).
      rewrite E, Edup. by destruct ds'.
Qed.

Lemma canonicalTarget_idempotent_witness :
  canonicalTarget (go "/a?b=1&a=2") true = Ok (go "/a?a=2&b=1") ∧
  canonicalTarget (go "/a?a=2&b=1") true = Ok (go "/a?a=2&b=1").
Proof.
  split; [vm_compute; reflexivity |].
  apply (canonicalTarget_idempotent (go "/a?b=1&a=2") (go "/a?a=2&b=1") true).
  vm_compute. reflexivity.
Defined.

Lemma sorted_dup_decoded ds :
  has_adjacent_dup (sort_pairs (map encode_pair ds)) = false ↔ NoDup (map fst ds).
Proof.
  rewrite adjacent_dup_sorted by (apply StronglySorted_merge_sort; apply _).
  assert (map key (sort_pairs (map encode_pair ds)) ≡ₚ map EncodeQueryComponent (map fst ds)) as ->.
  { rewrite sort_pairs_perm, !map_map. done. }
  split.
  - intros H. by apply NoDup_fmap_1 in H.
  - apply (NoDup_fmap_2 EncodeQueryComponent).
Qed.

(** [CanonicalRequestTarget] refuses a target with [ErrDuplicateQueryKey] exactly when two
    decoded query keys are equal, although the code only compares neighbouring encoded keys after
    sorting; on every other target it agrees with [CanonicalTarget]. *)
Theorem duplicate_key_rejected_iff (p q : gostring) :
  "?"%byte ∉ p →
  (CanonicalRequestTarget (p ++ "?"%byte :: q) = Err ErrDuplicateQueryKey ↔
   ∃ ds, decodedPairs q = Some ds ∧ ¬ NoDup (map fst ds)) ∧
  (CanonicalRequestTarget (p ++ "?"%byte :: q) ≠ Err ErrDuplicateQueryKey →
   CanonicalRequestTarget (p ++ "?"%byte :: q) = CanonicalTarget (p ++ "?"%byte :: q)).
Proof.
  intros Hp. unfold CanonicalRequestTarget, CanonicalTarget.
  rewrite !canonicalTarget_query by done.
  destruct (decodedPairs q) as [[|d ds]|]; cbn [is_empty andb].
  - split; [|done]. split; [done |]. intros (ds & [= <-] & Hn). destruct Hn. constructor.
  - pose proof (sorted_dup_decoded (d :: ds)) as H.
    destruct (has_adjacent_dup _); (split; [|done]); split.
    + intros _. eexists. split; [done |]. intros Hnd. apply H in Hnd. done.
    + done.
    + done.
    + intros (? & [= <-] & Hn). destruct Hn. by apply H.
  - split; [|done]. split; [done |]. intros (? & ? & _). done.
Qed.

Lemma duplicate_key_rejected_iff_witness :
  CanonicalRequestTarget (go "/r?a=1&b=2&%61=3") = Err ErrDuplicateQueryKey.
Proof.
  apply (duplicate_key_rejected_iff (go "/r") (go "a=1&b=2&%61=3")).
  - apply (bool_decide_unpack _). vm_compute. exact I.
  - exists [(go "a", Some (go "1")); (go "b", Some (go "2")); (go "a", Some (go "3"))].
    split; [vm_compute; reflexivity |].
    apply (bool_decide_unpack _). vm_compute. exact I.
Defined.

(** Percent-encoding round trips: decoding the encoding of a valid UTF-8 string gives it back,
    and the encoding of any string never contains a query delimiter. *)
Theorem query_component_roundtrip (s : gostring) :
  ValidString s = true →
  decodeQueryComponentStrict (EncodeQueryComponent s) = Some s ∧
  Forall (λ b, is_delimiter b = false) (EncodeQueryComponent s).
Proof.
  intros H. split; [by apply decode_encode |].
  apply Forall_forall. intros b. apply encode_no_delimiter.
Qed.

