(* ===== verification/GoUrl.v ===== *)
(** * GoUrl: [net/url]'s [Parse], [ParseRequestURI], [URL.String] and [URL.Hostname]

    Percent coding by component, the scheme scanner, the authority (user information, bracketed IPv6
    literals, the port), the two entry points and the printer, following package url.  Error values are
    not told apart.  [RawFragment] is left out: nothing that is modelled reads it. *)

From S2P Require Import Prelude GoStrings GoNetip Canonical.

(** ** Percent coding *)

Inductive encoding := encodePath | encodeUserPassword | encodeHost | encodeZone | encodeFragment.

Definition is_alnum (b : byte) : bool := in_range "a" "z" b || in_range "A" "Z" b || in_range "0" "9" b.

Definition one_of (s : gostring) (b : byte) : bool := ContainsByte b s.

Definition is_host_mode (mode : encoding) : bool := match mode with encodeHost | encodeZone => true | _ => false end.

Definition host_delims : gostring := go "!$&'()*+,;=:[]<>" ++ [x22].

Definition shouldEscape (c : byte) (mode : encoding) : bool :=
  if is_alnum c then false
  else if is_host_mode mode && one_of host_delims c then false
  else if one_of (go "-_.~") c then false
  else if one_of (go "$&+,/:;=?@") c && negb (is_host_mode mode) then
    match mode with
    | encodePath => beq c "?"
    | encodeUserPassword => one_of (go "@/?:") c
    | _ => false
    end
  else if match mode with encodeFragment => one_of (go "!()*") c | _ => false end then false
  else true.

Definition percent (b : byte) : gostring := ["%"%byte; upper_hex_digit (bz b / 16); upper_hex_digit (bz b mod 16)].

Definition escape (mode : encoding) (s : gostring) : gostring :=
  flat_map (λ b, if shouldEscape b mode then percent b else [b]) s.

(** Whether an escaped byte is allowed: a host escapes only non-ASCII bytes and the percent sign. *)
Definition escape_allowed (mode : encoding) (v : byte) : bool :=
  match mode with
  | encodeHost => (128 <=? bz v) || beq v "%"
  | encodeZone => beq v "%" || beq v " " || negb (shouldEscape v encodeHost)
  | _ => true
  end.

Definition raw_allowed (mode : encoding) (b : byte) : bool :=
  if is_host_mode mode then (128 <=? bz b) || negb (shouldEscape b mode) else true.

Fixpoint unescape (mode : encoding) (s : gostring) : option gostring :=
  match s with
  | [] => Some []
  | b :: rest =>
      if beq b "%" then
        match rest with
        | h :: l :: rest' =>
            if isHexByte h && isHexByte l && escape_allowed mode (fromHexPair h l)
            then cons (fromHexPair h l) <$> unescape mode rest'
            else None
        | _ => None
        end
      else if raw_allowed mode b then cons b <$> unescape mode rest
      else None
  end.

(** ** URLs *)

Record URL := mkURL {
  u_Scheme : gostring;
  u_Opaque : gostring;
  u_User : option (gostring * option gostring);
  u_Host : gostring;
  u_Path : gostring;
  u_RawPath : gostring;
  u_OmitHost : bool;
  u_ForceQuery : bool;
  u_RawQuery : gostring;
  u_Fragment : gostring;
}.

Definition is_ctl (b : byte) : bool := (bz b <? 32) || (bz b =? 127).

(** [getScheme]; [None] is an error. *)
Fixpoint scan_scheme (raw acc s : gostring) : option (gostring * gostring) :=
  match s with
  | [] => Some ([], raw)
  | c :: r =>
      if in_range "a" "z" c || in_range "A" "Z" c then scan_scheme raw (acc ++ [c]) r
      else if in_range "0" "9" c || one_of (go "+-.") c
      then if is_empty acc then Some ([], raw) else scan_scheme raw (acc ++ [c]) r
      else if beq c ":" then if is_empty acc then None else Some (acc, r)
      else Some ([], raw)
  end.

Definition getScheme (rawURL : gostring) : option (gostring * gostring) := scan_scheme rawURL [] rawURL.

Definition validOptionalPort (port : gostring) : bool :=
  match port with
  | [] => true
  | c :: digits => beq c ":" && forallb (λ b, in_range "0" "9" b) digits
  end.

(** [strings.LastIndexByte] as a cut: what is before and after the last separator. *)
Definition LastCut (sep : byte) (s : gostring) : gostring * gostring * bool :=
  let '(a, b, found) := Cut sep (rev s) in if found then (rev b, rev a, true) else (s, [], false).

(** A bracketed literal, after its opening bracket. *)
Definition parse_ip_literal (t : gostring) : option gostring :=
  let '(hostname, colonPort, closed) := LastCut "]" t in
  if negb closed || negb (validOptionalPort colonPort) then None
  else
    port ← unescape encodeHost colonPort;
    name ← match Index hostname (go "%25") with
           | Some zoneIdx =>
               hostPart ← unescape encodeHost (take zoneIdx hostname);
               zonePart ← unescape encodeZone (drop zoneIdx hostname);
               Some (hostPart ++ zonePart)
           | None => unescape encodeHost hostname
           end;
    match ParseAddr name with
    | Some (Addr6 _ _) => Some ("["%byte :: name ++ "]"%byte :: port)
    | _ => None
    end.

Definition parseHost (scheme host : gostring) : option gostring :=
  match host with
  | c :: t =>
      if beq c "[" && negb (ContainsByte "[" t) then parse_ip_literal t
      else if ContainsByte "[" host then None
      else
        let '(_, port, hasPort) :=
          if seqb scheme (go "postgresql") || seqb scheme (go "postgres") then LastCut ":" host else Cut ":" host in
        if hasPort && negb (validOptionalPort (":"%byte :: port)) then None else unescape encodeHost host
  | [] => Some []
  end.

(** [validUserinfo]. *)
Definition is_userinfo_byte (b : byte) : bool :=
  is_alnum b || one_of (go "-._:~!$&'()*+,;=%@") b.

Definition parseAuthority (scheme authority : gostring) : option (option (gostring * option gostring) * gostring) :=
  let '(userinfo, host, found) := LastCut "@" authority in
  if negb found then h ← parseHost scheme authority; Some (None, h)
  else
    h ← parseHost scheme host;
    if negb (forallb is_userinfo_byte userinfo) then None
    else
      let '(username, password, hasPassword) := Cut ":" userinfo in
      username ← unescape encodeUserPassword username;
      if hasPassword then password ← unescape encodeUserPassword password; Some (Some (username, Some password), h)
      else Some (Some (username, None), h).

(** [setPath]: the decoded path and, when it is not the default coding, the raw one. *)
Definition setPath (p : gostring) : option (gostring * gostring) :=
  path ← unescape encodePath p;
  Some (path, if seqb p (escape encodePath path) then [] else p).

(** The part after the authority. *)
Definition with_path (scheme : gostring) (user : option (gostring * option gostring)) (host rest : gostring)
  (omitHost forceQuery : bool) (rawQuery : gostring) : option URL :=
  '(path, rawPath) ← setPath rest;
  Some (mkURL scheme [] user host path rawPath omitHost forceQuery rawQuery []).

(** The query, cut off: a lone question mark at the end is remembered in [ForceQuery]. *)
Definition split_query (rest : gostring) : gostring * gostring * bool :=
  if HasSuffix rest (go "?") && (CountByte "?" rest =? 1)%nat then (take (length rest - 1) rest, [], true)
  else let '(r, q, _) := Cut "?" rest in (r, q, false).

Definition parse (rawURL : gostring) (viaRequest : bool) : option URL :=
  if existsb is_ctl rawURL then None
  else if is_empty rawURL && viaRequest then None
  else if seqb rawURL (go "*") then Some (mkURL [] [] None [] (go "*") [] false false [] [])
  else
    '(scheme, rest) ← getScheme rawURL;
    let scheme := ToLower scheme in
    let '(rest, rawQuery, forceQuery) := split_query rest in
    if negb (HasPrefix rest (go "/")) && negb (is_empty scheme)
    then Some (mkURL scheme rest None [] [] [] false forceQuery rawQuery [])
    else if negb (HasPrefix rest (go "/")) && (viaRequest || ContainsByte ":" (Cut "/" rest).1.1) then None
    else if (negb (is_empty scheme) || negb viaRequest && negb (HasPrefix rest (go "///")))
            && HasPrefix rest (go "//") then
      let '(authority, path, slash) := Cut "/" (drop 2 rest) in
      '(user, host) ← parseAuthority scheme authority;
      with_path scheme user host (if slash : bool then "/"%byte :: path else []) false forceQuery rawQuery
    else
      with_path scheme None [] rest (negb (is_empty scheme) && HasPrefix rest (go "/")) forceQuery rawQuery.

Definition ParseRequestURI (rawURL : gostring) : option URL := parse rawURL true.

Definition Parse (rawURL : gostring) : option URL :=
  let '(u, frag, _) := Cut "#" rawURL in
  url ← parse u false;
  if is_empty frag then Some url
  else
    f ← unescape encodeFragment frag;
    Some (mkURL (u_Scheme url) (u_Opaque url) (u_User url) (u_Host url) (u_Path url) (u_RawPath url) (u_OmitHost url)
            (u_ForceQuery url) (u_RawQuery url) f).

(** ** Printing *)

Definition validEncoded (s : gostring) (mode : encoding) : bool :=
  forallb (λ b, one_of (go "!$&'()*+,;=:@[]%") b || negb (shouldEscape b mode)) s.

Definition EscapedPath (u : URL) : gostring :=
  if negb (is_empty (u_RawPath u)) && validEncoded (u_RawPath u) encodePath
     && bool_decide (unescape encodePath (u_RawPath u) = Some (u_Path u))
  then u_RawPath u
  else if seqb (u_Path u) (go "*") then go "*"
  else escape encodePath (u_Path u).

Definition userinfo_String (user : gostring * option gostring) : gostring :=
  escape encodeUserPassword user.1
  ++ match user.2 with Some p => ":"%byte :: escape encodeUserPassword p | None => [] end.

(** [URL.String] of a URL without a fragment. *)
Definition URL_String (u : URL) : gostring :=
  let has_user := match u_User u with Some _ => true | None => false end in
  let prefix := if is_empty (u_Scheme u) then [] else u_Scheme u ++ go ":" in
  let body :=
    if negb (is_empty (u_Opaque u)) then prefix ++ u_Opaque u
    else
      let authority :=
        if negb (is_empty (u_Scheme u)) || negb (is_empty (u_Host u)) || has_user then
          if u_OmitHost u && is_empty (u_Host u) && negb has_user then []
          else (if negb (is_empty (u_Host u)) || negb (is_empty (u_Path u)) || has_user then go "//" else [])
               ++ match u_User u with Some ui => userinfo_String ui ++ go "@" | None => [] end
               ++ escape encodeHost (u_Host u)
        else [] in
      let path := EscapedPath u in
      let slash := if negb (is_empty path) && negb (HasPrefix path (go "/")) && negb (is_empty (u_Host u))
                   then go "/" else [] in
      let written := prefix ++ authority ++ slash in
      let dot := if is_empty written && ContainsByte ":" (Cut "/" path).1.1 then go "./" else [] in
      written ++ dot ++ path in
  body ++ (if u_ForceQuery u || negb (is_empty (u_RawQuery u)) then "?"%byte :: u_RawQuery u else []).

(** [RequestURI]: what goes on the request line. *)
Definition RequestURI (u : URL) : gostring :=
  let result :=
    if is_empty (u_Opaque u) then let p := EscapedPath u in if is_empty p then go "/" else p
    else if HasPrefix (u_Opaque u) (go "//") then u_Scheme u ++ go ":" ++ u_Opaque u else u_Opaque u in
  result ++ (if u_ForceQuery u || negb (is_empty (u_RawQuery u)) then "?"%byte :: u_RawQuery u else []).

(** [Hostname]: the host without port and brackets. *)
Definition splitHostPort (hostPort : gostring) : gostring * gostring :=
  let '(h, p, found) := LastCut ":" hostPort in
  let '(host, port) := if found && validOptionalPort (":"%byte :: p) then (h, p) else (hostPort, []) in
  if HasPrefix host (go "[") && HasSuffix host (go "]")
  then (take (length host - 2) (drop 1 host), port) else (host, port).

Definition Hostname (u : URL) : gostring := (splitHostPort (u_Host u)).1.

(** Known results of the library. *)
Example url_tenant :
  (λ u, (URL_String u, Hostname u)) <$> ParseRequestURI (go "https://iris.example:443/tenant//bridge%2f1")
  = Some (go "https://iris.example:443/tenant//bridge%2f1", go "iris.example").
Proof. vm_compute. reflexivity. Qed.

Example url_zone :
  (λ u, (u_Host u, URL_String u)) <$> Parse (go "https://[fe80::1%25en0]:80/a?b=1#c")
  = Some (go "[fe80::1%en0]:80", go "https://[fe80::1%25en0]:80/a?b=1").
Proof. vm_compute. reflexivity. Qed.

Example url_rejects :
  map (λ s, match ParseRequestURI (go s) with Some _ => true | None => false end)
    ["https://a:b"; "https://a%20b"; "https://::1"; "https://[1.2.3.4]"; "https://x[::1]"; "/p#f"; "p"; "https://h#f"]%string
  = [false; false; false; false; false; true; false; false].
Proof. vm_compute. reflexivity. Qed.

(** ** Percent coding round trips *)

Lemma percent_ind (P : gostring → Prop) :
  P [] → (∀ b s, b ≠ "%"%byte → P s → P (b :: s)) → (∀ h l s, P s → P ("%"%byte :: h :: l :: s)) →
  P ["%"%byte] → (∀ h, P ["%"%byte; h]) → ∀ s, P s.
Proof.
  intros H0 H1 H3 Ha Hb s. remember (length s) as n eqn:En. revert s En.
  induction n as [n IH] using (well_founded_induction lt_wf). intros s ->. destruct s as [|b s]; [done |].
  destruct (decide (b = "%"%byte)) as [->|Hne]; [|apply H1; [done |]; eapply IH; [|reflexivity]; simpl; lia].
  destruct s as [|h [|l s]]; [done | by apply Hb |]. apply H3. eapply IH; [|reflexivity]. simpl. lia.
Qed.

Lemma unescape_raw mode b s : b ≠ "%"%byte →
  unescape mode (b :: s) = if raw_allowed mode b then cons b <$> unescape mode s else None.
Proof. intros Hb. cbn [unescape]. by rewrite (proj2 (beq_false _ _) Hb). Qed.

Lemma unescape_app mode a a' b :
  unescape mode a = Some a' → unescape mode (a ++ b) = app a' <$> unescape mode b.
Proof.
  revert a'. induction a as [|c a Hc IH|h l a IH| |h] using percent_ind; intros a' H; try discriminate H.
  - injection H as <-. simpl. by destruct (unescape mode b).
  - cbn [app]. rewrite unescape_raw in H |- * by done. destruct (raw_allowed mode c); [|done].
    destruct (unescape mode a) as [d|] eqn:E; [|done]. injection H as <-. rewrite (IH d eq_refl).
    by destruct (unescape mode b).
  - cbn [app unescape] in *. change (beq "%" "%") with true in *. cbv iota in *. destruct (_ && _); [|done].
    destruct (unescape mode a) as [d|] eqn:E; [|done]. injection H as <-. rewrite (IH d eq_refl).
    by destruct (unescape mode b).
Qed.

Lemma percent_decodes b :
  isHexByte (upper_hex_digit (bz b / 16)) = true ∧ isHexByte (upper_hex_digit (bz b mod 16)) = true ∧
  fromHexPair (upper_hex_digit (bz b / 16)) (upper_hex_digit (bz b mod 16)) = b.
Proof.
  pose proof (byte_forallb (λ b, isHexByte (upper_hex_digit (bz b / 16)) && isHexByte (upper_hex_digit (bz b mod 16))
    && beq (fromHexPair (upper_hex_digit (bz b / 16)) (upper_hex_digit (bz b mod 16))) b) ltac:(vm_compute; reflexivity) b) as H.
  cbv beta in H. bool_props. rewrite beq_true in *. done.
Qed.

(** A byte that the printer and the parser of a component agree on. *)
Definition codable (mode : encoding) (b : byte) : bool :=
  if shouldEscape b mode then escape_allowed mode b else raw_allowed mode b && negb (beq b "%").

Lemma unescape_percent mode b s :
  escape_allowed mode b = true → unescape mode (percent b ++ s) = cons b <$> unescape mode s.
Proof.
  intros Hb. unfold percent. cbn [app unescape]. change (beq "%" "%") with true. cbv iota.
  destruct (percent_decodes b) as (-> & -> & ->). by rewrite Hb.
Qed.

Lemma unescape_escape mode s :
  Forall (λ b, codable mode b = true) s → unescape mode (escape mode s) = Some s.
Proof.
  induction s as [|b s IH]; intros H; [done |]. apply Forall_cons in H as [Hb Hs]. specialize (IH Hs).
  unfold escape in *. cbn [flat_map]. unfold codable in Hb. destruct (shouldEscape b mode).
  - by rewrite unescape_percent, IH.
  - bool_props. cbn [app]. rewrite unescape_raw by (by apply beq_false).
    match goal with H : raw_allowed _ _ = true |- _ => rewrite H end. by rewrite IH.
Qed.

Lemma codable_path b : codable encodePath b = true.
Proof. revert b. apply byte_forallb. vm_compute. reflexivity. Qed.

Lemma unescape_escape_path s : unescape encodePath (escape encodePath s) = Some s.
Proof. apply unescape_escape, Forall_forall. intros b _. apply codable_path. Qed.

Lemma unescape_host_codable raw h :
  unescape encodeHost raw = Some h → Forall (λ b, codable encodeHost b = true) h.
Proof.
  revert h. induction raw as [|c a Hc IH|x l a IH| |x] using percent_ind; intros h H; try discriminate H.
  - injection H as <-. by apply Forall_nil.
  - rewrite unescape_raw in H by done. destruct (raw_allowed encodeHost c) eqn:Er; [|done].
    destruct (unescape encodeHost a) as [d|] eqn:E; [|done]. injection H as <-. apply Forall_cons.
    split; [|by apply IH]. pose proof (byte_forallb (λ c, implb (raw_allowed encodeHost c && negb (beq c "%")) (codable encodeHost c))
      ltac:(vm_compute; reflexivity) c) as Hall. cbv beta in Hall. rewrite Er in Hall.
    rewrite (proj2 (beq_false _ _) Hc) in Hall. done.
  - cbn [unescape] in H. change (beq "%" "%") with true in H. cbv iota in H.
    destruct (_ && _) eqn:Ea; [|done]. destruct (unescape encodeHost a) as [d|] eqn:E; [|done]. injection H as <-.
    bool_props. apply Forall_cons. split; [|by apply IH].
    pose proof (byte_forallb (λ c, implb (escape_allowed encodeHost c) (codable encodeHost c)) ltac:(vm_compute; reflexivity)
      (fromHexPair x l)) as Hall. cbv beta in Hall. rewrite H0 in Hall. done.
Qed.

(** Bytes that never come out of the printer of a component. *)
Definition never_printed (mode : encoding) (c : byte) : bool :=
  shouldEscape c mode && negb (isHexByte c) && negb (beq c "%").

Lemma upper_hex_is_hex b : isHexByte (upper_hex_digit (bz b / 16)) = true ∧ isHexByte (upper_hex_digit (bz b mod 16)) = true.
Proof. destruct (percent_decodes b) as (? & ? & _). done. Qed.

Lemma escape_elem mode s c :
  c ∈ escape mode s → c = "%"%byte ∨ isHexByte c = true ∨ (c ∈ s ∧ shouldEscape c mode = false).
Proof.
  unfold escape. rewrite list_elem_of_In, in_flat_map. intros (b & Hb & Hc). destruct (shouldEscape b mode) eqn:E.
  - destruct (upper_hex_is_hex b) as [H1 H2]. unfold percent in Hc. simpl in Hc.
    destruct Hc as [<-|[<-|[<-|[]]]]; auto.
  - destruct Hc as [<-|[]]. right. right. split; [by apply list_elem_of_In | done].
Qed.

Lemma escape_never mode s c : never_printed mode c = true → c ∉ escape mode s.
Proof.
  unfold never_printed. intros H Hin. bool_props. apply beq_false in H0.
  destruct (escape_elem _ _ _ Hin) as [?|[?|[_ ?]]]; congruence.
Qed.

Lemma escape_not_in mode s c : c ∉ s → isHexByte c = false → c ≠ "%"%byte → c ∉ escape mode s.
Proof. intros Hs Hh Hp Hin. destruct (escape_elem _ _ _ Hin) as [?|[?|[? _]]]; congruence. Qed.

Lemma escape_app mode a b : escape mode (a ++ b) = escape mode a ++ escape mode b.
Proof. apply flat_map_app. Qed.

(** ** The host survives printing *)

(** Separators of the authority: ASCII, never escaped, never part of an escape. *)
Definition is_sep (c : byte) : bool :=
  negb (isHexByte c) && negb (beq c "%") && negb (shouldEscape c encodeHost) && (bz c <? 128).

Lemma unescape_sep raw h c : is_sep c = true → unescape encodeHost raw = Some h → (c ∈ h ↔ c ∈ raw).
Proof.
  unfold is_sep. intros Hc. bool_props. apply beq_false in H2. revert h.
  induction raw as [|b a Hb IH|x l a IH| |x] using percent_ind; intros h H'; try discriminate H'.
  - by injection H' as <-.
  - rewrite unescape_raw in H' by done. destruct (raw_allowed encodeHost b); [|done].
    destruct (unescape encodeHost a) as [d|] eqn:E; [|done]. injection H' as <-.
    rewrite !elem_of_cons. by rewrite (IH d eq_refl).
  - cbn [unescape] in H'. change (beq "%" "%") with true in H'. cbv iota in H'.
    destruct (_ && _) eqn:Ea; [|done]. destruct (unescape encodeHost a) as [d|] eqn:E; [|done]. injection H' as <-.
    rewrite !elem_of_cons, (IH d eq_refl). bool_props.
    assert (c ≠ fromHexPair x l) as Hne.
    { intros ->. unfold escape_allowed in *. apply orb_true_iff in H4 as [H4|H4]; bool_props; [lia | by apply beq_true in H4]. }
    assert (c ≠ x ∧ c ≠ l) as [? ?] by (split; congruence). naive_solver.
Qed.

Lemma sep_open : is_sep "[" = true.
Proof. vm_compute. reflexivity. Qed.

Lemma sep_colon : is_sep ":" = true.
Proof. vm_compute. reflexivity. Qed.

Lemma unescape_prefix mode a c b h :
  isHexByte c = false → unescape mode (a ++ c :: b) = Some h → ∃ a', unescape mode a = Some a'.
Proof.
  intros Hc. revert h. induction a as [|x a Hx IH|x l a IH| |x] using percent_ind; intros h Hh; cbn [app] in Hh.
  - by eexists.
  - rewrite unescape_raw in Hh |- * by done. destruct (raw_allowed mode x); [|done].
    destruct (unescape mode (a ++ c :: b)) eqn:E; [|done]. destruct (IH _ eq_refl) as [a' ->]. by eexists.
  - cbn [unescape] in Hh |- *. change (beq "%" "%") with true in *. cbv iota in *. destruct (_ && _); [|done].
    destruct (unescape mode (a ++ c :: b)) eqn:E; [|done]. destruct (IH _ eq_refl) as [a' ->]. by eexists.
  - cbn [unescape] in Hh. change (beq "%" "%") with true in *. cbv iota in *. destruct b as [|y b]; [done |].
    rewrite Hc in Hh. done.
  - cbn [unescape] in Hh. change (beq "%" "%") with true in *. cbv iota in *. rewrite Hc, andb_false_r in Hh. done.
Qed.

Lemma unescape_cut raw h c a b :
  is_sep c = true → raw = a ++ c :: b → unescape encodeHost raw = Some h →
  ∃ a' b', h = a' ++ c :: b' ∧ unescape encodeHost a = Some a' ∧ unescape encodeHost b = Some b'.
Proof.
  intros Hc -> Hh. pose proof Hc as Hc'. unfold is_sep in Hc'. bool_props.
  destruct (unescape_prefix _ _ _ _ _ H Hh) as [a' Ha]. clear H H0 H1 H2.
  rewrite (unescape_app _ _ _ _ Ha) in Hh. unfold is_sep in Hc. bool_props. apply beq_false in H2.
  rewrite unescape_raw in Hh by done. unfold raw_allowed in Hh. cbn [is_host_mode] in Hh. rewrite H1, orb_true_r in Hh.
  destruct (unescape encodeHost b) as [b'|] eqn:Eb; [|done]. injection Hh as <-. by exists a', b'.
Qed.

Lemma digits_codable p : forallb (λ b, in_range "0" "9" b) p = true →
  unescape encodeHost p = Some p ∧ escape encodeHost p = p ∧ (∀ c, is_sep c = true → c ∉ p).
Proof.
  intros Hp. apply Forall_forallb in Hp. split_and!.
  - induction Hp as [|b p Hb Hp IH]; [done |].
    pose proof (byte_forallb (λ b, implb (in_range "0" "9" b) (raw_allowed encodeHost b && negb (beq b "%")))
      ltac:(vm_compute; reflexivity) b) as H. cbv beta in H. rewrite Hb in H. cbn [implb] in H. bool_props.
    apply beq_false in H0. rewrite unescape_raw, H, IH by done. done.
  - unfold escape. induction Hp as [|b p Hb Hp IH]; [done |]. cbn [flat_map].
    pose proof (byte_forallb (λ b, implb (in_range "0" "9" b) (negb (shouldEscape b encodeHost)))
      ltac:(vm_compute; reflexivity) b) as H. cbv beta in H. rewrite Hb in H. cbn [implb] in H. bool_props.
    rewrite H, IH. done.
  - intros c Hc Hin. rewrite Forall_forall in Hp. specialize (Hp c Hin). unfold is_sep, isHexByte in Hc.
    rewrite Hp in Hc. done.
Qed.

Lemma elem_of_rev {A} (x : A) l : x ∈ rev l ↔ x ∈ l.
Proof. rewrite !list_elem_of_In. symmetry. apply in_rev. Qed.

Lemma LastCut_found sep x y : sep ∉ y → LastCut sep (x ++ sep :: y) = (x, y, true).
Proof.
  intros Hy. unfold LastCut. rewrite rev_app_distr. cbn [rev]. rewrite <- app_assoc. cbn [app].
  rewrite Cut_found by (rewrite elem_of_rev; done). by rewrite !rev_involutive.
Qed.

Lemma LastCut_not_found sep x : sep ∉ x → LastCut sep x = (x, [], false).
Proof. intros Hx. unfold LastCut. by rewrite Cut_not_found by (rewrite elem_of_rev; done). Qed.

Lemma LastCut_spec sep s a b f :
  LastCut sep s = (a, b, f) → if f then s = a ++ sep :: b ∧ sep ∉ b else a = s ∧ b = [] ∧ sep ∉ s.
Proof.
  unfold LastCut. destruct (Cut sep (rev s)) as [[x y] g] eqn:E. apply Cut_spec in E as [Hx E]. destruct g.
  - intros [= <- <- <-]. split; [|by rewrite elem_of_rev]. apply (f_equal (@rev byte)) in E.
    rewrite rev_involutive, rev_app_distr in E. cbn [rev] in E. by rewrite <- app_assoc in E.
  - intros [= <- <- <-]. split_and!; try done. destruct E as [E ->]. rewrite <- elem_of_rev, E. done.
Qed.

Lemma ContainsByte_spec c s : ContainsByte c s = true ↔ c ∈ s.
Proof.
  unfold ContainsByte. rewrite existsb_exists, list_elem_of_In. split.
  - intros (x & Hx & E). apply beq_true in E as ->. done.
  - intros H. exists c. split; [done | apply beq_refl].
Qed.

Lemma ContainsByte_false c s : ContainsByte c s = false ↔ c ∉ s.
Proof. rewrite <- ContainsByte_spec. destruct (ContainsByte c s); naive_solver. Qed.

(** No escape of a non-ASCII byte reads as the zone mark. *)
Lemma Index_no_zone name :
  Forall (λ b, codable encodeHost b = true) name → "%"%byte ∉ name → Index (escape encodeHost name) (go "%25") = None.
Proof.
  unfold escape. induction name as [|b name IH]; intros Hc Hp; [done |]. apply Forall_cons in Hc as [Hb Hc].
  apply not_elem_of_cons in Hp as [Hne Hp]. specialize (IH Hc Hp). cbn [flat_map].
  set (s := flat_map _ name) in *.
  assert (∀ c t, c ≠ "%"%byte → Index t (go "%25") = None → Index (c :: t) (go "%25") = None) as Hstep.
  { intros c t Hcne Ht. cbn [Index]. unfold HasPrefix. change (go "%25") with ["%"%byte; "2"%byte; "5"%byte] in *. cbn [cut_prefix].
    rewrite (proj2 (beq_false _ _)) by congruence. by rewrite Ht. }
  destruct (shouldEscape b encodeHost) eqn:Es; [|by apply Hstep].
  pose proof (byte_forallb (λ b, implb (shouldEscape b encodeHost && codable encodeHost b && negb (beq b "%"))
    (negb (beq (upper_hex_digit (bz b / 16)) "2") && negb (beq (upper_hex_digit (bz b / 16)) "%")
     && negb (beq (upper_hex_digit (bz b mod 16)) "%"))) ltac:(vm_compute; reflexivity) b) as H. cbv beta in H.
  rewrite Es, Hb, (proj2 (beq_false b "%") ltac:(done)) in H. cbn [andb negb implb] in H. bool_props.
  rewrite !beq_false in *. unfold percent. cbn [app].
  assert (Index (upper_hex_digit (bz b / 16) :: upper_hex_digit (bz b mod 16) :: s) (go "%25") = None) as Ht
    by (apply Hstep; [done |]; by apply Hstep).
  cbn [Index] in Ht |- *. unfold HasPrefix in *. change (go "%25") with ["%"%byte; "2"%byte; "5"%byte] in *. cbn [cut_prefix] in *.
  rewrite beq_refl, (proj2 (beq_false "2" (upper_hex_digit (bz b / 16)))) by congruence. by rewrite Ht.
Qed.

Lemma parse_literal_escape t h :
  parse_ip_literal t = Some h → "%"%byte ∉ h → "["%byte ∉ t →
  ∃ t', h = "["%byte :: t' ∧ ("["%byte ∉ t') ∧ parse_ip_literal (escape encodeHost t') = Some h.
Proof.
  unfold parse_ip_literal at 1. destruct (LastCut "]" t) as [[hostname cp] closed] eqn:El.
  destruct closed; cbn [negb orb]; [|done]. apply LastCut_spec in El as [-> Hcp].
  destruct (validOptionalPort cp) eqn:Ev; cbn [negb]; [|done].
  assert (unescape encodeHost cp = Some cp ∧ escape encodeHost cp = cp ∧ "["%byte ∉ cp) as (Hcu & Hce & Hcb).
  { destruct cp as [|c ds]; [split_and!; try done; apply not_elem_of_nil |]. cbn [validOptionalPort] in Ev. bool_props.
    apply beq_true in H as ->. destruct (digits_codable ds H0) as (H1 & H2 & H3). split_and!.
    - rewrite unescape_raw by done. by rewrite H1.
    - unfold escape in *. cbn [flat_map]. by rewrite H2.
    - apply not_elem_of_cons. split; [done |]. by apply H3. }
  rewrite Hcu. cbn [mbind option_bind]. intros H Hp Ht. apply not_elem_of_app in Ht as [Ht _].
  destruct (Index hostname (go "%25")) as [z|] eqn:Ez.
  - exfalso. destruct (unescape encodeHost (take z hostname)) as [hp|]; [|done]. cbn [mbind option_bind] in H.
    destruct (unescape encodeZone (drop z hostname)) as [zp|] eqn:Eu; [|done]. cbn [mbind option_bind] in H.
    assert (∃ r, drop z hostname = go "%25" ++ r) as [r Er].
    { clear -Ez. revert z Ez. induction hostname as [|c s IH]; intros z; cbn [Index].
      - done.
      - destruct (HasPrefix (c :: s) (go "%25")) eqn:Ec.
        + intros [= <-]. by apply HasPrefix_spec in Ec.
        + destruct (Index s (go "%25")) as [k|]; [|done]. intros [= <-]. destruct (IH k eq_refl) as [r Hr]. by exists r. }
    rewrite Er in Eu. change (go "%25" ++ r) with (percent "%" ++ r) in Eu. rewrite unescape_percent in Eu by done.
    destruct (unescape encodeZone r) as [zr|]; [|done]. injection Eu as <-.
    destruct (ParseAddr _) as [[]|]; try done. injection H as <-. apply Hp.
    rewrite elem_of_cons, !elem_of_app, elem_of_cons. auto.
  - destruct (unescape encodeHost hostname) as [name|] eqn:Eu; [|done]. cbn [mbind option_bind] in H.
    destruct (ParseAddr name) as [[]|] eqn:Ea; try done. injection H as <-.
    apply not_elem_of_cons in Hp as [_ Hp]. apply not_elem_of_app in Hp as [Hp _].
    pose proof (unescape_host_codable _ _ Eu) as Hcod.
    assert ("["%byte ∉ name) as Hn by (by rewrite (unescape_sep _ _ _ sep_open Eu)).
    exists (name ++ "]"%byte :: cp). split_and!; [done | |].
    { rewrite not_elem_of_app, not_elem_of_cons. done. }
    rewrite escape_app. change (escape encodeHost ("]"%byte :: cp)) with ("]"%byte :: escape encodeHost cp). rewrite Hce.
    unfold parse_ip_literal. rewrite LastCut_found by done. rewrite Ev. cbn [negb orb].
    rewrite Hcu. cbn [mbind option_bind]. rewrite Index_no_zone by done. rewrite unescape_escape by done.
    cbn [mbind option_bind]. by rewrite Ea.
Qed.

Lemma parseHost_escape scheme raw h :
  seqb scheme (go "postgresql") || seqb scheme (go "postgres") = false →
  parseHost scheme raw = Some h → "%"%byte ∉ h → parseHost scheme (escape encodeHost h) = Some h.
Proof.
  intros Hs. unfold parseHost at 1. destruct raw as [|c t]; [by intros [= <-] |].
  destruct (beq c "[" && negb (ContainsByte "[" t)) eqn:Eb.
  - bool_props. apply ContainsByte_false in H0. intros H' Hp.
    destruct (parse_literal_escape t h H' Hp H0) as (t' & -> & Ht' & Hl).
    change (escape encodeHost ("["%byte :: t')) with ("["%byte :: escape encodeHost t'). cbn [parseHost].
    rewrite beq_refl, (proj2 (ContainsByte_false _ _)) by (by apply escape_not_in). done.
  - destruct (ContainsByte "[" (c :: t)) eqn:Ec; [done |]. apply ContainsByte_false in Ec. rewrite Hs.
    set (raw := c :: t) in *. destruct (Cut ":" raw) as [[a port] hasPort] eqn:Ecut. apply Cut_spec in Ecut as [Ha Ecut].
    destruct (hasPort && negb (validOptionalPort (":"%byte :: port))) eqn:Ep; [done |]. intros Hu Hp.
    pose proof (unescape_host_codable _ _ Hu) as Hcod.
    assert ("["%byte ∉ escape encodeHost h) as Hnb.
    { apply escape_not_in; [|done | done]. by rewrite (unescape_sep _ _ _ sep_open Hu). }
    assert (unescape encodeHost (escape encodeHost h) = Some h) as Hround by (by apply unescape_escape).
    unfold parseHost. destruct (escape encodeHost h) as [|c' t'] eqn:Eesc.
    { injection Hround as <-. done. }
    assert (beq c' "[" = false) as -> by (apply beq_false; intros ->; apply Hnb, elem_of_cons; by left).
    cbn [andb]. rewrite (proj2 (ContainsByte_false _ _) Hnb), Hs, <- Eesc.
    assert (∃ x y f, Cut ":" (escape encodeHost h) = (x, y, f) ∧ f && negb (validOptionalPort (":"%byte :: y)) = false)
      as (x & y & f & Ex & Ef).
    { destruct hasPort.
      - destruct (unescape_cut _ _ ":" a port sep_colon Ecut Hu) as (a' & b' & -> & Hua & Hub).
        cbn [andb] in Ep. apply negb_false_iff in Ep. cbn [validOptionalPort] in Ep. rewrite beq_refl in Ep. cbn [andb] in Ep.
        destruct (digits_codable port Ep) as (Hd & Hde & _). rewrite Hd in Hub. injection Hub as <-.
        exists (escape encodeHost a'), port, true. rewrite escape_app.
        change (escape encodeHost (":"%byte :: port)) with (":"%byte :: escape encodeHost port). rewrite Hde. split.
        + apply Cut_found. apply escape_not_in; [|done | done].
          by rewrite (unescape_sep _ _ _ sep_colon Hua).
        + cbn [validOptionalPort]. rewrite beq_refl, Ep. done.
      - destruct Ecut as [-> _]. exists (escape encodeHost h), [], false. split; [|done]. apply Cut_not_found.
        apply escape_not_in; [|done | done]. by rewrite (unescape_sep _ _ _ sep_colon Hu). }
    rewrite Ex, Ef, Eesc. exact Hround.
Qed.

(** ** Absolute URLs, taken apart and put together *)

Lemma scan_scheme_inv raw acc s sch rest :
  scan_scheme raw acc s = Some (sch, rest) → sch ≠ [] →
  ∃ t, sch = acc ++ t ∧ s = t ++ ":"%byte :: rest ∧
    ∀ raw' rest', scan_scheme raw' acc (t ++ ":"%byte :: rest') = Some (sch, rest').
Proof.
  revert acc. induction s as [|c s IH]; intros acc H Hne; cbn [scan_scheme] in H; [by simplify_eq |].
  assert (∀ t, sch = (acc ++ [c]) ++ t → sch = acc ++ c :: t) as Happ by (intros t ->; by rewrite <- app_assoc).
  destruct (in_range "a" "z" c || in_range "A" "Z" c) eqn:E1.
  { destruct (IH _ H Hne) as (t & -> & -> & Ht). exists (c :: t). split_and!; [by rewrite <- app_assoc | done |].
    intros raw' rest'. cbn [app scan_scheme]. rewrite E1. apply Ht. }
  destruct (in_range "0" "9" c || one_of (go "+-.") c) eqn:E2.
  { destruct (is_empty acc) eqn:Ee; [by simplify_eq |].
    destruct (IH _ H Hne) as (t & -> & -> & Ht). exists (c :: t). split_and!; [by rewrite <- app_assoc | done |].
    intros raw' rest'. cbn [app scan_scheme]. rewrite E1, E2, Ee. apply Ht. }
  destruct (beq c ":") eqn:E3; [|by simplify_eq]. apply beq_true in E3 as ->.
  destruct (is_empty acc) eqn:Ee; [done |]. injection H as <- <-. exists []. split_and!; [by rewrite app_nil_r | done |].
  intros raw' rest'. cbn [app scan_scheme]. rewrite E1, E2, beq_refl, Ee. done.
Qed.

Lemma getScheme_inv raw sch rest :
  getScheme raw = Some (sch, rest) → sch ≠ [] →
  raw = sch ++ ":"%byte :: rest ∧ ∀ rest', getScheme (sch ++ ":"%byte :: rest') = Some (sch, rest').
Proof.
  intros H Hne. apply scan_scheme_inv in H as (t & -> & -> & Ht); [|done]. split; [done |]. intros rest'. apply Ht.
Qed.

Lemma CountByte_app c a b : CountByte c (a ++ b) = (CountByte c a + CountByte c b)%nat.
Proof. unfold CountByte. by rewrite List.filter_app, length_app. Qed.

Lemma CountByte_zero c a : CountByte c a = 0%nat → c ∉ a.
Proof.
  unfold CountByte. intros H Hin. apply list_elem_of_In in Hin.
  pose proof (proj2 (filter_In (beq c) c a) (conj Hin (beq_refl c))) as Hf. by destruct (List.filter _ _).
Qed.

(** Whichever way the query was cut off, the parts are those of the first question mark. *)
Lemma split_query_cut rest :
  (split_query rest).1.1 = (Cut "?" rest).1.1 ∧ (split_query rest).1.2 = (Cut "?" rest).1.2.
Proof.
  unfold split_query. destruct (HasSuffix rest (go "?") && (CountByte "?" rest =? 1)%nat) eqn:E.
  - bool_props. apply Nat.eqb_eq in H0. unfold HasSuffix in H. apply HasPrefix_spec in H as [r Hr].
    apply (f_equal (@rev byte)) in Hr. rewrite rev_involutive, rev_app_distr in Hr. change (rev (rev (go "?"))) with ["?"%byte] in Hr. subst rest.
    rewrite CountByte_app in H0. change (CountByte "?" ["?"%byte]) with 1%nat in H0.
    assert ("?"%byte ∉ rev r) as Hn by (apply CountByte_zero; lia).
    rewrite Cut_found by done. rewrite length_app, Nat.add_sub, take_app_length. done.
  - by destruct (Cut "?" rest) as [[r q] f].
Qed.

Lemma split_query_none rest r :
  split_query rest = (r, [], false) → rest = r ∧ "?"%byte ∉ rest.
Proof.
  intros H. pose proof (split_query_cut rest) as [H1 H2]. rewrite H in H1, H2. cbn [fst snd] in *.
  destruct (Cut "?" rest) as [[a b] f] eqn:Ec. cbn [fst snd] in *. subst a b. apply Cut_spec in Ec as [Hr Ec].
  destruct f; [|by destruct Ec as [-> _]]. exfalso. subst rest. unfold split_query in H.
  assert (HasSuffix (r ++ ["?"%byte]) (go "?") = true) as Hs
    by (unfold HasSuffix; rewrite rev_app_distr; apply HasPrefix_spec; by exists (rev r)).
  rewrite Hs in H. cbn [andb] in H. rewrite CountByte_app in H.
  assert (CountByte "?" r = 0%nat) as Hc.
  { unfold CountByte. destruct (List.filter (beq "?") r) as [|x l] eqn:Ef; [done |]. exfalso.
    assert (In x (List.filter (beq "?") r)) as Hin by (rewrite Ef; by left). apply filter_In in Hin as [Hin Hx].
    apply beq_true in Hx as <-. by apply list_elem_of_In in Hin. }
  rewrite Hc in H. done.
Qed.

(** An absolute URL with an authority, in its parts: the scheme as written, the authority, the path. *)
Record url_parts (raw : gostring) (u : URL) (sch authority path : gostring) : Prop := {
  up_clean : existsb is_ctl raw = false;
  up_scheme : ∃ rest, getScheme raw = Some (sch, rest) ∧
    split_query rest = (go "//" ++ authority ++ path, u_RawQuery u, u_ForceQuery u);
  up_lower : ToLower sch = u_Scheme u;
  up_nonempty : u_Scheme u ≠ [];
  up_slash : "/"%byte ∉ authority;
  up_path : path = [] ∨ ∃ p, path = "/"%byte :: p;
  up_authority : parseAuthority (u_Scheme u) authority = Some (u_User u, u_Host u);
  up_set : setPath path = Some (u_Path u, u_RawPath u);
  up_rest : u_Opaque u = [] ∧ u_OmitHost u = false ∧ u_Fragment u = [];
}.

Lemma ToLower_nil : ToLower [] = [].
Proof. reflexivity. Qed.

Lemma parse_parts raw viaRequest u :
  parse raw viaRequest = Some u → u_Scheme u ≠ [] → u_Host u ≠ [] →
  ∃ sch authority path, url_parts raw u sch authority path.
Proof.
  unfold parse. destruct (existsb is_ctl raw) eqn:Ectl; [done |]. destruct (is_empty raw && viaRequest); [done |].
  destruct (seqb raw (go "*")); [by intros [= <-] |]. destruct (getScheme raw) as [[sch rest0]|] eqn:Es; [|done].
  cbn [mbind option_bind]. cbv zeta. destruct (split_query rest0) as [[rest q] fq] eqn:Eq.
  destruct (negb (HasPrefix rest (go "/")) && negb (is_empty (ToLower sch))) eqn:E1; [by intros [= <-] |].
  destruct (negb (HasPrefix rest (go "/")) && (_ || _)) eqn:E2; [done |].
  destruct ((negb (is_empty (ToLower sch)) || negb viaRequest && negb (HasPrefix rest (go "///"))) && HasPrefix rest (go "//")) eqn:E3.
  - destruct (Cut "/" (drop 2 rest)) as [[authority path] slash] eqn:Ec. apply Cut_spec in Ec as [Ha Ec].
    destruct (parseAuthority (ToLower sch) authority) as [[user host]|] eqn:Ea; [|done]. cbn [mbind option_bind].
    unfold with_path. set (path' := if slash then "/"%byte :: path else []).
    destruct (setPath path') as [[pth rp]|] eqn:Ep; [|done]. cbn [mbind option_bind]. intros [= <-] Hsne Hhne.
    cbn [u_Scheme u_Host] in *. bool_props. apply HasPrefix_spec in H0 as [r Hr]. subst rest.
    exists sch, authority, path'. split; cbn; try done.
    + exists rest0. split; [done |]. rewrite Eq. f_equal. f_equal. cbn [drop] in Ec. change (drop 2 (go "//" ++ r)) with r in Ec.
      f_equal. subst path'. destruct slash; [done |]. destruct Ec as [-> _]. by rewrite app_nil_r.
    + subst path'. destruct slash; [right; by eexists | by left].
  - unfold with_path. destruct (setPath rest) as [[pth rp]|]; [|done]. cbn [mbind option_bind]. intros [= <-] _ Hh. done.
Qed.

(** Parsing a text with a scheme and an authority. *)
Lemma parse_absolute raw viaRequest sch rest authority path q fq :
  existsb is_ctl raw = false → getScheme raw = Some (sch, rest) → ToLower sch ≠ [] →
  split_query rest = (go "//" ++ authority ++ path, q, fq) → "/"%byte ∉ authority → (path = [] ∨ ∃ p, path = "/"%byte :: p) →
  parse raw viaRequest =
    '(user, host) ← parseAuthority (ToLower sch) authority; with_path (ToLower sch) user host path false fq q.
Proof.
  intros Hctl Hs Hne Hq Hsl Hp.
  assert (sch ≠ []) as Hsch by (intros ->; by rewrite ToLower_nil in Hne).
  destruct (getScheme_inv _ _ _ Hs Hsch) as [Hraw _].
  unfold parse. rewrite Hctl.
  assert (is_empty raw = false) as -> by (apply is_empty_false; rewrite Hraw; by destruct sch).
  assert (seqb raw (go "*") = false) as ->.
  { apply seqb_false. rewrite Hraw. destruct sch as [|c [|? ?]]; [done | |]; intros H; discriminate H. }
  cbn [andb]. rewrite Hs. cbn [mbind option_bind]. cbv zeta. rewrite Hq, (proj2 (is_empty_false _) Hne).
  change (HasPrefix (go "//" ++ authority ++ path) (go "/")) with true.
  change (HasPrefix (go "//" ++ authority ++ path) (go "//")) with true.
  cbn [negb andb orb].
  change (drop 2 (go "//" ++ authority ++ path)) with (authority ++ path).
  destruct Hp as [->|[p ->]]; [rewrite app_nil_r, Cut_not_found by done; done | by rewrite Cut_found by done].
Qed.

Lemma parse_built raw viaRequest u sch authority path :
  url_parts raw u sch authority path → parse raw viaRequest = Some u.
Proof.
  intros [Hctl (rest & Hs & Hq) Hl Hne Hsl Hp Ha Hset (Ho & Hoh & Hf)].
  rewrite (parse_absolute raw viaRequest sch rest authority path _ _ Hctl Hs) by (by rewrite ?Hl).
  rewrite Hl, Ha. cbn [mbind option_bind]. unfold with_path. rewrite Hset. cbn [mbind option_bind].
  destruct u; cbn in *. subst. done.
Qed.

Lemma split_query_no rest : "?"%byte ∉ rest → split_query rest = (rest, [], false).
Proof.
  intros H. unfold split_query. rewrite Cut_not_found by done.
  destruct (HasSuffix rest (go "?")) eqn:E; [|done]. exfalso. apply H. unfold HasSuffix in E.
  apply HasPrefix_spec in E as [r Hr]. rewrite <- elem_of_rev, Hr. apply elem_of_cons. by left.
Qed.

(** ** The printed path *)

Definition path_printed (b : byte) : bool :=
  one_of (go "!$&'()*+,;=:@[]%") b || negb (shouldEscape b encodePath).

Lemma escape_path_printed s : Forall (λ b, path_printed b = true) (escape encodePath s).
Proof.
  apply Forall_forall. intros c Hc. unfold path_printed. destruct (escape_elem _ _ _ Hc) as [->|[Hh|[_ ->]]].
  - done.
  - pose proof (byte_forallb (λ c, implb (isHexByte c) (negb (shouldEscape c encodePath))) ltac:(vm_compute; reflexivity) c) as H.
    cbv beta in H. rewrite Hh in H. cbn [implb] in H. rewrite H. apply orb_true_r.
  - apply orb_true_r.
Qed.

Lemma EscapedPath_spec u path :
  setPath path = Some (u_Path u, u_RawPath u) → (path = [] ∨ ∃ p, path = "/"%byte :: p) →
  unescape encodePath (EscapedPath u) = Some (u_Path u) ∧ Forall (λ b, path_printed b = true) (EscapedPath u) ∧
  (EscapedPath u = [] ∧ u_Path u = [] ∨ ∃ p, EscapedPath u = "/"%byte :: p).
Proof.
  unfold setPath. destruct (unescape encodePath path) as [pth|] eqn:Eu; [|done]. cbn [mbind option_bind].
  intros [= Hp Hr] Hshape. rewrite <- Hp in *.
  assert (pth = [] ∧ path = [] ∨ ∃ q, pth = "/"%byte :: q) as Hq.
  { destruct Hshape as [->|[q ->]]; [left; by injection Eu as <- |]. right. rewrite unescape_raw in Eu by done.
    destruct (raw_allowed _ _); [|done]. destruct (unescape encodePath q); [|done]. injection Eu as <-. by eexists. }
  unfold EscapedPath. rewrite <- Hp, <- Hr. destruct (_ && bool_decide _) eqn:Ev.
  - bool_props. apply bool_decide_eq_true in H0.
    destruct (seqb path (escape encodePath pth)) eqn:Es; [done |]. split_and!; [done | |].
    + by apply Forall_forallb.
    + destruct Hshape as [->|[q ->]]; [|right; by eexists]. by destruct H.
  - destruct (seqb pth (go "*")) eqn:Estar.
    + apply seqb_true in Estar as ->. destruct Hq as [[? _]|[q Hq]]; [done | by injection Hq].
    + split_and!; [apply unescape_escape_path | apply escape_path_printed |].
      destruct Hq as [[-> _]|[q ->]]; [by left |]. right. unfold escape. cbn [flat_map].
      change (shouldEscape "/" encodePath) with false. cbn [app]. by eexists.
Qed.

(** ** The request line of a parsed URL *)

Lemma EscapedPath_printed u : Forall (λ b, path_printed b = true) (EscapedPath u).
Proof.
  unfold EscapedPath. destruct (_ && bool_decide _) eqn:E; [bool_props; by apply Forall_forallb |].
  destruct (seqb _ _); [by repeat constructor | apply escape_path_printed].
Qed.

Lemma getScheme_suffix raw sch rest : getScheme raw = Some (sch, rest) → rest `suffix_of` raw.
Proof.
  unfold getScheme. assert (∀ acc s, s `suffix_of` raw → scan_scheme raw acc s = Some (sch, rest) → rest `suffix_of` raw) as H; [|by apply H].
  intros acc s. revert acc. induction s as [|c s IH]; intros acc Hs H; cbn [scan_scheme] in H; [by simplify_eq |].
  apply suffix_cons_l in Hs. repeat case_match; simplify_eq; eauto.
Qed.

Lemma no_slash_slash s : HasPrefix s (go "/") = false → HasPrefix s (go "//") = false.
Proof.
  intros H. destruct (HasPrefix s (go "//")) eqn:E; [|done]. apply HasPrefix_spec in E as [r ->]. by vm_compute in H.
Qed.

(** A parsed URL has no control bytes outside its decoded parts, and an opaque part does not begin with a slash. *)
Lemma parse_clean raw viaRequest u :
  parse raw viaRequest = Some u →
  existsb is_ctl (u_Opaque u) = false ∧ existsb is_ctl (u_RawQuery u) = false ∧ HasPrefix (u_Opaque u) (go "//") = false.
Proof.
  unfold parse. destruct (existsb is_ctl raw) eqn:Ectl; [done |]. destruct (is_empty raw && viaRequest); [done |].
  destruct (seqb raw (go "*")); [by intros [= <-] |]. destruct (getScheme raw) as [[sch rest0]|] eqn:Es; [|done].
  apply getScheme_suffix in Es as [x Hx]. cbn [mbind option_bind]. cbv zeta.
  assert (existsb is_ctl rest0 = false) as H0 by (by rewrite Hx, existsb_app, orb_false_iff in Ectl; destruct Ectl). clear Hx.
  pose proof (split_query_cut rest0) as [Hr Hq]. destruct (split_query rest0) as [[rest q] fq]. cbn [fst snd] in *.
  assert (existsb is_ctl rest = false ∧ existsb is_ctl q = false) as [Hcr Hcq].
  { subst rest q. destruct (Cut "?" rest0) as [[y z] f] eqn:Ec. apply Cut_spec in Ec as [_ Ec]. destruct f.
    - rewrite Ec, existsb_app in H0. cbn [existsb] in H0. apply orb_false_iff in H0 as [? H0]. by apply orb_false_iff in H0 as [_ ?].
    - by destruct Ec as [-> ->]. }
  destruct (HasPrefix rest (go "/")) eqn:Ep; cbn [negb andb].
  - assert (∀ user host o sch' rst, with_path sch' user host rst o fq q = Some u → u_Opaque u = [] ∧ u_RawQuery u = q) as Hw.
    { intros user host o sch' rst. unfold with_path. destruct (setPath _) as [[? ?]|]; [|done]. by intros [= <-]. }
    destruct (_ && HasPrefix rest (go "//")).
    + destruct (Cut "/" (drop 2 rest)) as [[authority path] slash]. destruct (parseAuthority _ _) as [[user host]|]; [|done].
      cbn [mbind option_bind]. intros [-> ->]%Hw. done.
    + intros [-> ->]%Hw. done.
  - destruct (negb (is_empty (ToLower sch))); cbn [andb].
    + intros [= <-]. cbn. split_and!; [done | done | by apply no_slash_slash].
    + destruct (_ || _); [done |]. rewrite (no_slash_slash rest Ep), andb_false_r. unfold with_path. destruct (setPath _) as [[? ?]|]; [|done]. intros [= <-]. done.
Qed.

(** The request line of a URL that was parsed, by a client or by a server, has no control byte. *)
Lemma RequestURI_clean raw u : Parse raw = Some u ∨ ParseRequestURI raw = Some u → existsb is_ctl (RequestURI u) = false.
Proof.
  intros H. assert (existsb is_ctl (u_Opaque u) = false ∧ existsb is_ctl (u_RawQuery u) = false ∧ HasPrefix (u_Opaque u) (go "//") = false)
    as (Ho & Hq & Hs).
  { destruct H as [H|H]; [|by eapply parse_clean]. unfold Parse in H. destruct (Cut "#" raw) as [[t frag] f].
    destruct (parse t false) as [v|] eqn:E; [|done]. apply parse_clean in E. cbn [mbind option_bind] in H.
    destruct (is_empty frag); [by simplify_eq |]. destruct (unescape encodeFragment frag); [|done]. by injection H as <-. }
  assert (existsb is_ctl (EscapedPath u) = false) as Hp.
  { destruct (existsb is_ctl (EscapedPath u)) eqn:E; [|done]. apply existsb_exists in E as (c & Hin & Hc).
    pose proof (EscapedPath_printed u) as Hf. rewrite List.Forall_forall in Hf. specialize (Hf c Hin).
    pose proof (byte_forallb (λ c, implb (is_ctl c) (negb (path_printed c))) ltac:(vm_compute; reflexivity) c) as H'.
    cbv beta in H'. by rewrite Hc, Hf in H'. }
  unfold RequestURI. cbv zeta. rewrite existsb_app, Hs. apply orb_false_iff. split.
  - destruct (is_empty (u_Opaque u)); [|done]. by destruct (is_empty (EscapedPath u)).
  - destruct (_ || _); [|done]. cbn [existsb]. by rewrite Hq.
Qed.
