(* ===== verification/BaseEndpoint.v ===== *)
(** * BaseEndpoint: the base URL of a client (internal/baseendpoint/base_endpoint.go)

    The checks on a configured base URL and its normal form, and what a request URL made of it and a path
    points at. *)

From S2P Require Import Prelude GoStrings GoNetip Canonical GoUrl.

(** The two texts for a URL that does not parse are not told apart. *)
Inductive endpointError :=
| EndpointEmpty | EndpointMalformed | EndpointNotAbsolute | EndpointScheme | EndpointNoHost | EndpointUserinfo
| EndpointQuery | EndpointFragment | EndpointNotNormal.

(** [strings.TrimRight] with a one-byte cutset. *)
Fixpoint trim_left_byte (c : byte) (s : gostring) : gostring :=
  match s with
  | b :: r => if beq b c then trim_left_byte c r else s
  | [] => []
  end.

Definition TrimRightByte (s : gostring) (c : byte) : gostring := rev (trim_left_byte c (rev s)).

Definition Parse (raw : gostring) : result endpointError URL :=
  let trimmed := TrimSpace raw in
  if is_empty trimmed then Err EndpointEmpty
  else
    match ParseRequestURI trimmed with
    | None => Err EndpointMalformed
    | Some parsed =>
        if is_empty (u_Scheme parsed) || negb (is_empty (u_Opaque parsed)) then Err EndpointNotAbsolute
        else if negb (seqb (u_Scheme parsed) (go "http")) && negb (seqb (u_Scheme parsed) (go "https"))
        then Err EndpointScheme
        else if is_empty (u_Host parsed) || is_empty (Hostname parsed) then Err EndpointNoHost
        else if match u_User parsed with Some _ => true | None => false end then Err EndpointUserinfo
        else if negb (is_empty (u_RawQuery parsed)) || u_ForceQuery parsed then Err EndpointQuery
        else if negb (is_empty (u_Fragment parsed)) then Err EndpointFragment
        else
          match ParseRequestURI (TrimRightByte trimmed "/") with
          | None => Err EndpointNotNormal
          | Some normalized => Ok normalized
          end
    end.

(** ** What is accepted *)

Lemma trim_left_spec c s : ∃ k, s = repeat c k ++ trim_left_byte c s ∧ ∀ r, trim_left_byte c s ≠ c :: r.
Proof.
  induction s as [|b s (k & IH & Hn)]; [by exists O |]. cbn [trim_left_byte]. destruct (beq b c) eqn:E.
  - apply beq_true in E as ->. exists (S k). cbn [repeat app]. by rewrite <- IH.
  - apply beq_false in E. exists O. split; [done |]. congruence.
Qed.

Lemma TrimRight_spec s c : ∃ k, s = TrimRightByte s c ++ repeat c k ∧ ∀ x, TrimRightByte s c ≠ x ++ [c].
Proof.
  unfold TrimRightByte. destruct (trim_left_spec c (rev s)) as (k & E & Hn). exists k. split.
  - apply (f_equal (@rev byte)) in E. rewrite rev_involutive, rev_app_distr in E. rewrite E at 1. f_equal.
    clear. induction k as [|k IH]; [done |]. cbn [repeat rev]. by rewrite IH, repeat_cons.
  - intros x Hx. apply (f_equal (@rev byte)) in Hx. rewrite rev_involutive, rev_app_distr in Hx. by apply Hn in Hx.
Qed.

(** Only slashes after a given text that does not end in one are trimmed. *)
Lemma TrimRight_app a c b s : b ≠ c → TrimRightByte (a ++ b :: s) c = a ++ b :: TrimRightByte s c.
Proof.
  intros Hne. unfold TrimRightByte. rewrite rev_app_distr. cbn [rev]. rewrite <- app_assoc. cbn [app].
  assert (∀ u v, trim_left_byte c (u ++ b :: v) = trim_left_byte c u ++ b :: v) as H.
  { intros u v. induction u as [|x u IH]; cbn [app trim_left_byte]; [by rewrite (proj2 (beq_false _ _) Hne) |].
    by destruct (beq x c). }
  rewrite H, rev_app_distr. cbn [rev]. by rewrite rev_involutive, <- app_assoc.
Qed.

Lemma setPath_prefix path k path' :
  path = path' ++ repeat "/"%byte k → (∃ x, setPath path = Some x) → ∃ y, setPath path' = Some y.
Proof.
  intros -> [x H]. unfold setPath in *. destruct k as [|k]; [rewrite app_nil_r in H; by eexists |].
  destruct (unescape encodePath (path' ++ repeat "/"%byte (S k))) as [p|] eqn:E; [|done]. cbn [repeat] in E.
  apply unescape_prefix in E as [p' ->]; [|done]. cbn [mbind option_bind]. by eexists.
Qed.

(** The authority of a URL whose host is not empty is not empty. *)
Lemma authority_nonempty scheme authority user host :
  parseAuthority scheme authority = Some (user, host) → host ≠ [] → authority ≠ [].
Proof. intros H Hh ->. vm_compute in H. congruence. Qed.

Record endpoint_ok (u : URL) (sch authority path : gostring) : Prop := {
  ep_parts : url_parts (sch ++ go "://" ++ authority ++ path) u sch authority path;
  ep_scheme : u_Scheme u = go "http" ∨ u_Scheme u = go "https";
  ep_host : u_Host u ≠ [] ∧ Hostname u ≠ [];
  ep_user : u_User u = None;
  ep_query : u_RawQuery u = [] ∧ u_ForceQuery u = false;
  ep_trimmed : ∀ x, path ≠ x ++ ["/"%byte];
}.

Lemma existsb_prefix {A} (f : A → bool) l k : existsb f (l ++ k) = false → existsb f l = false.
Proof. rewrite existsb_app, orb_false_iff. by intros [? _]. Qed.

Lemma Parse_ok raw u : Parse raw = Ok u → ∃ sch authority path, endpoint_ok u sch authority path.
Proof.
  unfold Parse. cbv zeta. set (trimmed := TrimSpace raw). destruct (is_empty trimmed); [done |].
  destruct (ParseRequestURI trimmed) as [v|] eqn:E0; [|done].
  destruct (is_empty (u_Scheme v) || negb (is_empty (u_Opaque v))) eqn:E1; [done |].
  destruct (negb (seqb (u_Scheme v) (go "http")) && negb (seqb (u_Scheme v) (go "https"))) eqn:E2; [done |].
  destruct (is_empty (u_Host v) || is_empty (Hostname v)) eqn:E3; [done |].
  destruct (u_User v) eqn:E4; [done |]. destruct (negb (is_empty (u_RawQuery v)) || u_ForceQuery v) eqn:E5; [done |].
  destruct (negb (is_empty (u_Fragment v))) eqn:E6; [done |].
  destruct (ParseRequestURI (TrimRightByte trimmed "/")) as [w|] eqn:E7; [|done]. intros [= <-].
  apply orb_false_iff in E1 as [Hs Ho], E3 as [Hh Hn], E5 as [Hq Hf]. apply negb_false_iff in Hq, E6. bool_props.
  destruct (parse_parts _ _ _ E0 Hs Hh) as (sch & authority & path & [Hctl (rest & Hsch & Hrest) Hl Hne Hsl Hp Ha Hset Hor]).
  rewrite Hq, Hf in Hrest. apply split_query_none in Hrest as [-> Hnq].
  assert (sch ≠ []) as Hsne by (intros ->; by rewrite ToLower_nil in Hl).
  destruct (getScheme_inv _ _ _ Hsch Hsne) as [Hraw Hgs].
  pose proof (authority_nonempty _ _ _ _ Ha Hh) as Hane.
  destruct (TrimRight_spec path "/") as (k & Hk & Hend). set (path' := TrimRightByte path "/") in *.
  assert (TrimRightByte trimmed "/" = sch ++ go "://" ++ authority ++ path') as Htrim.
  { destruct (exists_last Hane) as (a0 & c & Hac).
    assert (c ≠ "/"%byte) as Hc by (intros ->; apply Hsl; rewrite Hac; apply elem_of_app; right; by apply list_elem_of_singleton).
    rewrite Hraw, Hac. replace (sch ++ ":"%byte :: go "//" ++ (a0 ++ [c]) ++ path)
      with ((sch ++ go "://" ++ a0) ++ c :: path) by (rewrite <- !app_assoc; done).
    rewrite TrimRight_app by done. rewrite <- !app_assoc. done. }
  destruct (setPath_prefix path k path' Hk ltac:(by eexists)) as [[pth rp] Hset'].
  assert (url_parts (sch ++ go "://" ++ authority ++ path')
    (mkURL (u_Scheme v) [] None (u_Host v) pth rp false false [] []) sch authority path') as Hparts.
  { split; cbn; try done.
    - rewrite Hraw, Hk in Hctl.
      replace (sch ++ ":"%byte :: go "//" ++ authority ++ path' ++ repeat "/"%byte k)
        with ((sch ++ go "://" ++ authority ++ path') ++ repeat "/"%byte k) in Hctl by (rewrite <- !app_assoc; done).
      by apply existsb_prefix in Hctl.
    - exists (go "//" ++ authority ++ path'). split; [apply Hgs |]. apply split_query_no. intros Hin. apply Hnq.
      rewrite Hk. rewrite !app_assoc, elem_of_app. left. by rewrite <- app_assoc.
    - destruct Hp as [Hp|[p Hp]]; rewrite Hk in Hp.
      + apply app_eq_nil in Hp as [-> _]. by left.
      + destruct path' as [|c p'] eqn:Ep'; [by left |]. cbn [app] in Hp. injection Hp as -> _. right. by eexists.
    - by rewrite <- E4. }
  rewrite Htrim in E7. unfold ParseRequestURI in E7. rewrite (parse_built _ _ _ _ _ _ Hparts) in E7. injection E7 as <-.
  exists sch, authority, path'. split; cbn; try done.
  - apply andb_false_iff in E2 as [H|H]; apply negb_false_iff, seqb_true in H; auto.
Qed.

(** The printed form of an accepted endpoint. *)
Lemma endpoint_String u sch authority path :
  endpoint_ok u sch authority path →
  URL_String u = u_Scheme u ++ go "://" ++ escape encodeHost (u_Host u) ++ EscapedPath u.
Proof.
  intros [[_ _ _ _ _ Hp _ Hset (Ho & Hoh & _)] Hs [Hh _] Hu [Hq Hf] _].
  destruct (EscapedPath_spec u path Hset Hp) as (_ & _ & Hsl).
  unfold URL_String. rewrite Ho, Hoh, Hu, Hq, Hf. cbv zeta. cbn [is_empty negb orb andb].
  assert (is_empty (u_Scheme u) = false) as -> by (by destruct Hs as [->| ->]).
  assert (is_empty (u_Host u) = false) as -> by (by apply is_empty_false). cbn [negb orb andb].
  rewrite !app_nil_r.
  assert (negb (is_empty (EscapedPath u)) && negb (HasPrefix (EscapedPath u) (go "/")) && true = false) as Hslash.
  { destruct Hsl as [[-> _]|[p ->]]; [done |]. cbn [is_empty negb andb]. done. }
  rewrite Hslash. rewrite app_nil_r.
  match goal with |- context [is_empty ?w && ContainsByte _ _] =>
    assert (is_empty w = false) as -> by (by destruct Hs as [->| ->]) end.
  cbn [andb app]. rewrite <- !app_assoc. done.
Qed.

(** ** Where a request goes *)

Lemma getScheme_http rest : getScheme (go "http" ++ ":"%byte :: rest) = Some (go "http", rest).
Proof. reflexivity. Qed.

Lemma getScheme_https rest : getScheme (go "https" ++ ":"%byte :: rest) = Some (go "https", rest).
Proof. reflexivity. Qed.

Lemma split_query_app a b : "?"%byte ∉ a →
  split_query (a ++ b) = (a ++ (split_query b).1.1, (split_query b).1.2, (split_query b).2).
Proof.
  intros Ha. unfold split_query.
  assert (CountByte "?" (a ++ b) = CountByte "?" b) as Hc.
  { rewrite CountByte_app. destruct (CountByte "?" a) eqn:E; [done |]. exfalso. apply Ha. unfold CountByte in E.
    destruct (List.filter (beq "?") a) as [|x l] eqn:Ef; [done |].
    assert (In x (List.filter (beq "?") a)) as Hin by (rewrite Ef; by left). apply filter_In in Hin as [Hin Hx].
    apply beq_true in Hx as <-. by apply list_elem_of_In. }
  rewrite Hc. destruct (Nat.eqb_spec (CountByte "?" b) 1) as [H1|H1].
  - assert (b ≠ []) as Hb by (by intros ->). destruct (exists_last Hb) as (b0 & c & ->).
    assert (HasSuffix (a ++ b0 ++ [c]) (go "?") = HasSuffix (b0 ++ [c]) (go "?")) as ->
      by (unfold HasSuffix, HasPrefix; rewrite app_assoc, !rev_app_distr; change (rev (go "?")) with ["?"%byte]; cbn [rev app cut_prefix]; by destruct (beq "?" c)).
    destruct (HasSuffix (b0 ++ [c]) (go "?")); cbn [andb fst snd].
    + rewrite !length_app. cbn [length]. f_equal. f_equal. rewrite take_app_ge by lia. f_equal. f_equal. simpl. lia.
    + destruct (Cut "?" (b0 ++ [c])) as [[x y] f] eqn:Ex. apply Cut_spec in Ex as [Hx Ex].
      destruct f; [rewrite Ex, app_assoc, Cut_found by (rewrite not_elem_of_app; done); done |].
      destruct Ex as [-> ->]. rewrite Cut_not_found by (rewrite not_elem_of_app; done). done.
  - rewrite !andb_false_r. destruct (Cut "?" b) as [[x y] f] eqn:Ex. apply Cut_spec in Ex as [Hx Ex]. cbn [fst snd].
    destruct f; [rewrite Ex, app_assoc, Cut_found by (rewrite not_elem_of_app; done); done |].
    destruct Ex as [-> ->]. rewrite Cut_not_found by (rewrite not_elem_of_app; done). done.
Qed.

Lemma printed_not_in c s : path_printed c = false → Forall (λ b, path_printed b = true) s → c ∉ s.
Proof. intros Hc Hs Hin. rewrite Forall_forall in Hs. specialize (Hs _ Hin). congruence. Qed.

Lemma printed_clean s : (∀ c, is_ctl c = true → c ∉ s) → existsb is_ctl s = false.
Proof.
  intros H. destruct (existsb is_ctl s) eqn:E; [|done]. apply existsb_exists in E as (c & Hin & Hc).
  apply list_elem_of_In in Hin. by apply H in Hc.
Qed.

Lemma ctl_never c : is_ctl c = true → never_printed encodeHost c = true ∧ path_printed c = false.
Proof.
  intros H. pose proof (byte_forallb (λ c, implb (is_ctl c) (never_printed encodeHost c && negb (path_printed c)))
    ltac:(vm_compute; reflexivity) c) as Hc. cbv beta in Hc. rewrite H in Hc. cbn [implb] in Hc. by bool_props.
Qed.

(** An authority that parses without user information is a host. *)
Lemma authority_no_user scheme authority host : parseAuthority scheme authority = Some (None, host) → parseHost scheme authority = Some host.
Proof.
  unfold parseAuthority. destruct (LastCut "@" authority) as [[ui ho] found]. destruct found; cbn [negb].
  - destruct (parseHost scheme ho); [|done]. cbn [mbind option_bind].
    destruct (forallb is_userinfo_byte ui); cbn [negb]; [|done].
    destruct (Cut ":" ui) as [[un pw] f]. destruct (unescape encodeUserPassword un); [|done]. cbn [mbind option_bind].
    destruct f; [by destruct (unescape encodeUserPassword pw) | done].
  - destruct (parseHost scheme authority); [|done]. cbn [mbind option_bind]. congruence.
Qed.

Lemma Cut_app sep a b : sep ∉ a → Cut sep (a ++ b) = (a ++ (Cut sep b).1.1, (Cut sep b).1.2, (Cut sep b).2).
Proof.
  intros Ha. destruct (Cut sep b) as [[x y] f] eqn:E. apply Cut_spec in E as [Hx E]. cbn [fst snd]. destruct f.
  - rewrite E, app_assoc. apply Cut_found. by rewrite not_elem_of_app.
  - destruct E as [-> ->]. apply Cut_not_found. by rewrite not_elem_of_app.
Qed.

(** The bytes that matter to the parser of URLs never come out of the printer of an endpoint. *)
Lemma endpoint_clean u sch authority path :
  endpoint_ok u sch authority path → existsb is_ctl (URL_String u) = false ∧ "#"%byte ∉ URL_String u.
Proof.
  intros Hok. rewrite (endpoint_String _ _ _ _ Hok). destruct Hok as [[_ _ _ _ _ Hep _ Hset _] Hsch _ _ _ _].
  destruct (EscapedPath_spec u path Hset Hep) as (_ & Hpr & _).
  assert (∀ c, never_printed encodeHost c = true → path_printed c = false → c ∉ escape encodeHost (u_Host u) ++ EscapedPath u) as Hno.
  { intros c Hc Hp. rewrite not_elem_of_app. split; [by apply escape_never | by apply printed_not_in]. }
  rewrite (app_assoc (u_Scheme u)). split.
  - rewrite existsb_app. apply orb_false_iff. split; [by destruct Hsch as [->| ->] |].
    apply printed_clean. intros c [? ?]%ctl_never. by apply Hno.
  - rewrite not_elem_of_app. split; [|by apply Hno]. by destruct Hsch as [->| ->]; apply (bool_decide_unpack _); vm_compute.
Qed.

(** The request URL up to its fragment, as it is parsed: the endpoint with what the path adds. *)
Lemma request_parse u sch authority epath target :
  endpoint_ok u sch authority epath → "%"%byte ∉ u_Host u → HasPrefix target (go "/") = true →
  parse (URL_String u ++ target) false =
    if existsb is_ctl target then None
    else with_path (u_Scheme u) None (u_Host u) (EscapedPath u ++ (Cut "?" target).1.1) false (split_query target).2 (Cut "?" target).1.2.
Proof.
  intros Hok Hz Hslash. destruct (endpoint_clean _ _ _ _ Hok) as [Hclean _]. destruct (existsb is_ctl target) eqn:Hctl.
  { unfold parse. by rewrite existsb_app, Hctl, orb_true_r. }
  rewrite (endpoint_String _ _ _ _ Hok) in *. destruct Hok as [[_ _ Hlow _ _ Hep Hauth Hset _] Hsch [Hh _] Huser _ _].
  destruct (EscapedPath_spec u epath Hset Hep) as (_ & Hpr & Hshape). rewrite Huser in Hauth. apply authority_no_user in Hauth as Hhost.
  set (eh := escape encodeHost (u_Host u)) in *. set (ep := EscapedPath u) in *.
  assert (∀ c, never_printed encodeHost c = true → c ∉ eh) as Heh by (intros; by apply escape_never).
  assert (ToLower (u_Scheme u) = u_Scheme u) as Hl by (by destruct Hsch as [->| ->]).
  apply HasPrefix_spec in Hslash as [t0 ->]. change (go "/" ++ t0) with ("/"%byte :: t0) in *.
  pose proof (split_query_cut ("/"%byte :: t0)) as [Hq1 Hq2]. rewrite <- Hq1, <- Hq2.
  rewrite (parse_absolute _ false (u_Scheme u) (go "//" ++ eh ++ ep ++ "/"%byte :: t0) eh (ep ++ (split_query ("/"%byte :: t0)).1.1)
    (split_query ("/"%byte :: t0)).1.2 (split_query ("/"%byte :: t0)).2).
  - rewrite Hl. unfold parseAuthority. rewrite LastCut_not_found by (by apply Heh). cbn [negb].
    subst eh. rewrite (parseHost_escape _ authority (u_Host u)); [done | by destruct Hsch as [->| ->] | done | done].
  - by rewrite existsb_app, Hclean, Hctl.
  - rewrite <- !app_assoc. by destruct Hsch as [->| ->].
  - by destruct Hsch as [->| ->].
  - rewrite (app_assoc eh), (app_assoc (go "//")), split_query_app; [by rewrite <- !app_assoc |].
    rewrite !not_elem_of_app. split_and!; [vm_compute; set_solver | by apply Heh | by apply printed_not_in].
  - by apply Heh.
  - right. rewrite Hq1. cbn [Cut]. change (beq "/" "?") with false. cbv iota. destruct (Cut "?" t0) as [[? ?] ?]. cbn [fst].
    by destruct Hshape as [[-> _]|[e ->]]; eexists.
Qed.

Lemma with_path_endpoint u epath scheme host p fq q :
  setPath epath = Some (u_Path u, u_RawPath u) → (epath = [] ∨ ∃ x, epath = "/"%byte :: x) →
  match unescape encodePath p with
  | Some d => ∃ rawPath, with_path scheme None host (EscapedPath u ++ p) false fq q =
      Some (mkURL scheme [] None host (u_Path u ++ d) rawPath false fq q [])
  | None => with_path scheme None host (EscapedPath u ++ p) false fq q = None
  end.
Proof.
  intros Hset Hep. destruct (EscapedPath_spec u epath Hset Hep) as (Hue & _). unfold with_path, setPath.
  rewrite (unescape_app _ _ _ _ Hue). destruct (unescape encodePath p); [by eexists | done].
Qed.

(** C29: a request goes to the configured endpoint and nowhere else.  An accepted base URL is an http or https URL with a
    host and without user information and query.  If its host has no zone, then whatever path that begins with a slash
    is put behind the printed endpoint, the result, if it parses, has the scheme and the host of the endpoint, no user
    information, the endpoint's path followed by the decoded path, and the query of the path; and it parses exactly if
    the path up to its fragment has no control byte and both the path proper and the fragment are well escaped. *)
Theorem request_same_origin (raw : gostring) (u : URL) (path target fragment p query : gostring) (hasFragment hasQuery : bool) :
  Parse raw = Ok u → "%"%byte ∉ u_Host u → HasPrefix path (go "/") = true →
  Cut "#" path = (target, fragment, hasFragment) → Cut "?" target = (p, query, hasQuery) →
  (u_Scheme u = go "http" ∨ u_Scheme u = go "https") ∧ u_Host u ≠ [] ∧ Hostname u ≠ [] ∧ u_User u = None ∧ u_RawQuery u = [] ∧
  (∀ v, GoUrl.Parse (URL_String u ++ path) = Some v →
     u_Scheme v = u_Scheme u ∧ u_Host v = u_Host u ∧ u_User v = None ∧ u_Opaque v = [] ∧ u_RawQuery v = query ∧
     ∃ d, unescape encodePath p = Some d ∧ u_Path v = u_Path u ++ d) ∧
  (is_Some (GoUrl.Parse (URL_String u ++ path)) ↔
     existsb is_ctl target = false ∧ is_Some (unescape encodePath p) ∧ is_Some (unescape encodeFragment fragment)).
Proof.
  intros HP Hz Hs Hc Hcq. apply Parse_ok in HP as (sch & authority & epath & Hok).
  pose proof Hok as [[_ _ _ _ _ Hep _ Hset _] Hsch [Hh Hn] Husr [Hq _] _]. do 5 (split; [done |]).
  assert (HasPrefix target (go "/") = true) as Hst.
  { apply HasPrefix_spec in Hs as [r ->]. change (go "/" ++ r) with ("/"%byte :: r) in Hc. cbn [Cut] in Hc.
    change (beq "/" "#") with false in Hc. cbv iota in Hc. destruct (Cut "#" r) as [[? ?] ?]. by injection Hc as <- _ _. }
  unfold GoUrl.Parse. destruct (endpoint_clean _ _ _ _ Hok) as [_ Hfrag]. rewrite Cut_app, Hc by done. cbn [fst snd].
  rewrite (request_parse u sch authority epath target Hok Hz Hst), Hcq. cbn [fst snd].
  pose proof (with_path_endpoint u epath (u_Scheme u) (u_Host u) p (split_query target).2 query Hset Hep) as Hw.
  destruct (existsb is_ctl target); [split; [done |]; split; [by intros [? ?] | by intros (? & _)] |].
  destruct (unescape encodePath p) as [d|]; [|rewrite Hw; split; [done |]; split; [by intros [? ?] | by intros (_ & [? ?] & _)]].
  destruct Hw as [rp ->]. cbn [mbind option_bind]. destruct fragment as [|b f]; cbn [is_empty].
  - split; [intros v [= <-]; cbn; split_and!; try done; by exists d |]. split; [|by eexists]. intros _. split_and!; by try eexists.
  - destruct (unescape encodeFragment (b :: f)) as [fr|]; cbn [mbind option_bind].
    + split; [intros v [= <-]; cbn; split_and!; try done; by exists d |]. split; [|by eexists]. intros _. split_and!; by try eexists.
    + split; [done |]. split; [by intros [? ?] | by intros (_ & _ & [? ?])].
Qed.

Definition demo_endpoint : URL :=
  match Parse (go " https://iris.example:8443/tenant/ ") with Ok u => u | Err _ => mkURL [] [] None [] [] [] false false [] [] end.

Lemma request_same_origin_witness :
  is_Some (GoUrl.Parse (URL_String demo_endpoint ++ go "/rooms/7?x=1#top")) ∧
  ∀ v, GoUrl.Parse (URL_String demo_endpoint ++ go "/rooms/7?x=1#top") = Some v →
    u_Host v = go "iris.example:8443" ∧ u_RawQuery v = go "x=1".
Proof.
  destruct (request_same_origin (go " https://iris.example:8443/tenant/ ") demo_endpoint (go "/rooms/7?x=1#top")
    (go "/rooms/7?x=1") (go "top") (go "/rooms/7") (go "x=1") true true) as (_ & _ & _ & _ & _ & Hv & Hp).
  - vm_compute. reflexivity.
  - apply ContainsByte_false. vm_compute. reflexivity.
  - vm_compute. reflexivity.
  - vm_compute. reflexivity.
  - vm_compute. reflexivity.
  - split.
    + apply Hp. split; [vm_compute; reflexivity |]. split; eexists; vm_compute; reflexivity.
    + intros v H. destruct (Hv v H) as (_ & Hh & _ & _ & Hq & _). split; [rewrite Hh; vm_compute; reflexivity | exact Hq].
Defined.

(** The check for a fragment never fires: the request form of a URL has none, so a number sign after the
    host is part of the path, where it is accepted and printed escaped; only right after the host is it refused,
    as a malformed host. *)
Theorem fragment_accepted_in_path :
  (URL_String <$> match Parse (go "https://iris.example/#v2") with Ok u => Some u | Err _ => None end)
    = Some (go "https://iris.example/%23v2") ∧
  Parse (go "https://iris.example#v2") = Err EndpointMalformed ∧
  ∀ raw viaRequest u, parse raw viaRequest = Some u → u_Fragment u = [].
Proof.
  split; [vm_compute; reflexivity |]. split; [vm_compute; reflexivity |]. intros raw vr u. unfold parse, with_path.
  destruct (existsb _ _); [done |]. destruct (is_empty raw && vr); [done |]. destruct (seqb raw _); [by intros [= <-] |].
  destruct (getScheme raw) as [[sch rest]|]; [|done]. cbn [mbind option_bind]. cbv zeta.
  destruct (split_query rest) as [[r q] fq]. destruct (_ && negb (is_empty (ToLower sch))); [by intros [= <-] |].
  destruct (negb (HasPrefix r (go "/")) && _); [done |]. destruct (_ && HasPrefix r (go "//")).
  - destruct (Cut "/" (drop 2 r)) as [[a b] f]. destruct (parseAuthority _ _) as [[? ?]|]; [|done]. cbn [mbind option_bind].
    destruct (setPath _) as [[? ?]|]; [|done]. by intros [= <-].
  - destruct (setPath _) as [[? ?]|]; [|done]. by intros [= <-].
Qed.
