(* ===== verification/Hmac.v ===== *)
(** * Hmac: internal/irishmac/hmac.go and internal/client/signing

    The pooled HMAC signer, the webhook v3 transcript and the canonical form of its authority, the
    body hash, and the SDK's request signing headers. *)

From S2P Require Import Prelude GoStrings GoStrconv GoCrypto GoNetip Canonical.

Definition EmptyBodySHA256Hex : gostring :=
  go "e3b0c44298fc1c149afbf4c8996fb92427ae41e4649b934ca495991b7852b855".

Definition HeaderIrisTimestamp : gostring := go "X-Iris-Timestamp".
Definition HeaderIrisNonce : gostring := go "X-Iris-Nonce".
Definition HeaderIrisSignature : gostring := go "X-Iris-Signature".
Definition HeaderIrisBodySHA256 : gostring := go "X-Iris-Body-Sha256".
Definition HeaderIrisMessageID : gostring := go "X-Iris-Message-Id".
Definition HeaderIrisSignatureVersion : gostring := go "X-Iris-Signature-Version".
Definition SignatureVersionV3 : gostring := go "v3".

(** ** The pooled signer *)

(** A [hash.Hash] made by [hmac.New]: its key and the bytes written since the last reset. *)
Record mac := mkMac { mac_key : gostring; mac_buf : gostring }.

Definition NewMAC (k : gostring) : mac := mkMac k [].
Definition mac_Reset (m : mac) : mac := mkMac (mac_key m) [].
Definition mac_Write (m : mac) (p : gostring) : mac := mkMac (mac_key m) (mac_buf m ++ p).
Definition mac_Sum (m : mac) : gostring := hmac_sha256 (mac_key m) (mac_buf m).

(** [SignHash]: the digest and the MAC left behind. *)
Definition SignHash (m : mac) (canonical : gostring) : gostring * mac :=
  let m := mac_Write (mac_Reset m) canonical in
  (hexEncode (mac_Sum m), m).

Record Signer := mkSigner { signer_key : gostring; signer_pool : list mac }.

Definition NewSigner (secret : gostring) : Signer := mkSigner secret [].

(** [sync.Pool.Get] may return any pooled MAC or make a new one; [choice] is its pick. *)
Definition pool_get (s : Signer) (choice : nat) : mac * list mac :=
  match signer_pool s !! choice with
  | Some m => (m, delete choice (signer_pool s))
  | None => (NewMAC (signer_key s), signer_pool s)
  end.

Definition Sign (s : Signer) (choice : nat) (canonical : gostring) : gostring * Signer :=
  let '(m, pool) := pool_get s choice in
  let '(sig, m') := SignHash m canonical in
  (sig, mkSigner (signer_key s) (m' :: pool)).

(** What the signer computes, whatever the pool holds ([Sign_spec] below). *)
Definition sign_hex (secret canonical : gostring) : gostring :=
  hexEncode (hmac_sha256 secret canonical).

(** ** The canonical authority *)

Inductive authorityError :=
| AuthorityBlank
| InvalidBracketedHost
| InvalidBracketedSuffix
| UnmatchedBrackets
| IPv6NotBracketed
| EmptyHostOrPort
| InvalidIPv6Host
| InvalidHostname
| InvalidPort.

Definition splitWebhookAuthority (authority : gostring)
  : result authorityError (gostring * gostring * bool * bool) :=
  if HasPrefix authority (go "[") then
    let '(upto, suffix, found) := Cut "]" authority in
    if negb found || (length upto <=? 1)%nat then Err InvalidBracketedHost
    else
      let host := drop 1 upto in
      match suffix with
      | [] => Ok (host, [], false, true)
      | c :: rest =>
          if beq c ":" && negb (is_empty rest) then Ok (host, rest, true, true)
          else Err InvalidBracketedSuffix
      end
  else if ContainsByte "[" authority || ContainsByte "]" authority then Err UnmatchedBrackets
  else
    let finish (host port : gostring) (hasPort : bool) :=
      if is_empty host || hasPort && is_empty port then Err EmptyHostOrPort
      else Ok (host, port, hasPort, false) in
    match CountByte ":" authority with
    | O => finish authority [] false
    | S O => let '(host, port, _) := Cut ":" authority in finish host port true
    | _ => Err IPv6NotBracketed
    end.

Definition is_hostname_byte (c : byte) : bool :=
  in_range "a" "z" c || in_range "A" "Z" c || in_range "0" "9" c
  || beq c "-" || beq c "." || beq c "_".

Definition validWebhookAuthorityHostname (host : gostring) : bool :=
  negb (is_empty host) && forallb is_hostname_byte host.

Definition canonicalWebhookHost (host : gostring) (bracketed : bool)
  : result authorityError gostring :=
  if bracketed then
    match ParseAddr host with
    | Some address =>
        if negb (Is6 address) || negb (is_empty (Zone address)) then Err InvalidIPv6Host
        else Ok ("["%byte :: AddrString address ++ ["]"%byte])
    | None => Err InvalidIPv6Host
    end
  else
    match ParseAddr host with
    | Some address => if Is6 address then Err IPv6NotBracketed else Ok (AddrString address)
    | None =>
        if validWebhookAuthorityHostname host then Ok (ToLower host) else Err InvalidHostname
    end.

Definition canonicalWebhookAuthority (authority : gostring) : result authorityError gostring :=
  if is_empty authority || negb (seqb (TrimSpace authority) authority) then Err AuthorityBlank
  else
    let? (host, port, hasPort, bracketed) := splitWebhookAuthority authority in
    let? host := canonicalWebhookHost host bracketed in
    if negb hasPort then Ok host
    else match ParseUint port 16 with
         | None => Err InvalidPort
         | Some portNumber => Ok (host ++ ":"%byte :: FormatUint portNumber)
         end.

Definition CanonicalWebhookRequestV3
  (authority method target timestamp nonce messageID bodySHA256 : gostring)
  : result authorityError gostring :=
  let? canonicalAuthority := canonicalWebhookAuthority authority in
  Ok (Join [x0a]
        [SignatureVersionV3; canonicalAuthority; ToUpper method; target; timestamp; nonce;
         messageID; ToLower bodySHA256]).

(** ** Body hash *)

Definition SHA256HexBytes (body : gostring) : gostring :=
  if is_empty body then EmptyBodySHA256Hex else hexEncode (sha256 body).

(** ** internal/client/signing *)

Definition SignIrisCanonicalWithSigner
  (secret method path timestamp nonce bodySHA256 : gostring) : result targetError gostring :=
  let? target := CanonicalRequestTarget path in
  Ok (sign_hex secret (CanonicalRequest method target timestamp nonce bodySHA256)).

(** [copy(nonce[:32], epoch)] into a zeroed array of 97 bytes, a dot, and 32 random bytes in hex. *)
Definition GenerateNonce (epoch random : gostring) : gostring :=
  let head := take 32 epoch in
  head ++ repeat x00 (32 - length head) ++ "."%byte :: take 64 (hexEncode random).

(** The four signing headers; [now] is [time.Now().UnixMilli()], [random] what crypto/rand gave. *)
Definition SetIrisHMACHeaders
  (secret method path bodySHA256 epoch : gostring) (now : Z) (random : gostring)
  : result targetError (list (gostring * gostring)) :=
  let timestamp := FormatInt now in
  let nonce := GenerateNonce epoch random in
  let? signature := SignIrisCanonicalWithSigner secret method path timestamp nonce bodySHA256 in
  Ok [(HeaderIrisTimestamp, timestamp); (HeaderIrisNonce, nonce);
      (HeaderIrisSignature, signature); (HeaderIrisBodySHA256, bodySHA256)].

(** internal/client/randomhex: sixteen random bytes in hex. *)
Definition randomhex_Generate (random : gostring) : gostring := hexEncode random.

(** ** The signer is stateless to its callers *)

Definition signer_ok (s : Signer) : Prop :=
  Forall (λ m, mac_key m = signer_key s) (signer_pool s).

Lemma Sign_spec s choice c :
  signer_ok s →
  (Sign s choice c).1 = sign_hex (signer_key s) c ∧
  signer_key (Sign s choice c).2 = signer_key s ∧ signer_ok (Sign s choice c).2.
Proof.
  unfold signer_ok, Sign, pool_get. intros H.
  destruct (signer_pool s !! choice) as [m|] eqn:E; simpl.
  - pose proof (Forall_lookup_1 _ _ _ _ H E) as Hm. cbv beta in Hm.
    rewrite Hm. split_and!; try done. constructor; [done |]. by apply Forall_delete.
  - split_and!; try done. by constructor.
Qed.

(** A run of [Sign] calls, each with the pool's pick. *)
Fixpoint sign_all (s : Signer) (calls : list (nat * gostring)) : list gostring :=
  match calls with
  | [] => []
  | (choice, c) :: rest => let '(sig, s') := Sign s choice c in sig :: sign_all s' rest
  end.

Lemma sign_all_spec s calls :
  signer_ok s → sign_all s calls = map (λ c, sign_hex (signer_key s) c.2) calls.
Proof.
  revert s. induction calls as [|[choice c] calls IH]; intros s Hs; [done |].
  cbn [sign_all map]. destruct (Sign_spec s choice c Hs) as (H1 & H2 & H3).
  destruct (Sign s choice c) as [sig s']. simpl in *. by rewrite IH, H2, <- H1.
Qed.

(** The pooled signer is indistinguishable from a fresh HMAC per call: for every sequence of
    calls and every way the pool may hand MACs out, each result is the hex HMAC-SHA256 of its own
    transcript under the secret. *)
Theorem pooled_signer_pure (secret : gostring) (calls : list (nat * gostring)) :
  sign_all (NewSigner secret) calls = map (λ c, sign_hex secret c.2) calls.
Proof. apply (sign_all_spec (NewSigner secret)). constructor. Qed.

(** ** Body hash *)

Lemma empty_body_constant : EmptyBodySHA256Hex = hexEncode (sha256 []).
Proof. vm_compute. reflexivity. Qed.

Lemma SHA256HexBytes_spec body : SHA256HexBytes body = hexEncode (sha256 body).
Proof. destruct body; [apply empty_body_constant | done]. Qed.

(** The body hash is the lower-case hex SHA-256 of the body for every body, the empty-body
    constant included, and has 64 digits. *)
Theorem body_hash_correct (body : gostring) :
  SHA256HexBytes body = hexEncode (sha256 body) ∧
  length (SHA256HexBytes body) = 64%nat ∧
  Forall (λ b, is_lower_hex b = true) (SHA256HexBytes body).
Proof.
  rewrite SHA256HexBytes_spec. split_and!; [done | | apply hexEncode_lower].
  by rewrite hexEncode_length, sha256_length.
Qed.

Lemma SHA256HexBytes_graphic body : Forall (λ b, is_graphic b = true) (SHA256HexBytes body).
Proof. rewrite SHA256HexBytes_spec. apply hexEncode_graphic. Qed.

Lemma SHA256HexBytes_ne body : SHA256HexBytes body ≠ [].
Proof. rewrite SHA256HexBytes_spec. by apply hexEncode_digest_ne. Qed.

Lemma lower_hex_fixed b : is_lower_hex b = true → lower_byte b = b.
Proof.
  intros H. pose proof (byte_forallb (λ b, implb (is_lower_hex b) (beq (lower_byte b) b))
    ltac:(vm_compute; reflexivity) b) as Hb. cbv beta in Hb. rewrite H in Hb. by apply beq_true.
Qed.

Lemma ToLower_hex s : Forall (λ b, is_lower_hex b = true) s → ToLower s = s.
Proof.
  intros H. rewrite ToLower_ascii.
  - induction H as [|b s Hb Hs IH]; [done |]. simpl. by rewrite IH, lower_hex_fixed.
  - eapply Forall_impl; [exact H |]. intros b Hb. by apply graphic_ascii, lower_hex_graphic.
Qed.

(** ** The canonical authority *)

Lemma hostname_graphic b : is_hostname_byte b = true → is_graphic b = true.
Proof.
  intros H. pose proof (byte_forallb (λ b, implb (is_hostname_byte b) (is_graphic b))
    ltac:(vm_compute; reflexivity) b) as Hb. cbv beta in Hb. by rewrite H in Hb.
Qed.

Lemma canonicalWebhookHost_graphic host br h :
  canonicalWebhookHost host br = Ok h → Forall (λ b, is_graphic b = true) h.
Proof.
  unfold canonicalWebhookHost. destruct br; destruct (ParseAddr host) as [a|] eqn:Ea; try done.
  - destruct (negb (Is6 a) || negb (is_empty (Zone a))) eqn:Eb; [done |]. bool_props.
    intros [= <-]. constructor; [done |]. apply Forall_app. split; [|by repeat constructor].
    by eapply ParseAddr_graphic.
  - destruct (Is6 a) eqn:E6; [done |]. intros [= <-]. destruct a; [|done].
    by eapply ParseAddr_graphic.
  - destruct (validWebhookAuthorityHostname host) eqn:Ev; [|done]. intros [= <-].
    unfold validWebhookAuthorityHostname in Ev. bool_props.
    apply ToLower_graphic. apply Forall_forallb in H0.
    eapply Forall_impl; [exact H0 | apply hostname_graphic].
Qed.

Lemma ParseUint_nonneg s bits n : ParseUint s bits = Some n → 0 ≤ n.
Proof.
  unfold ParseUint. case_match; [done |]. case_match eqn:Ed; [|done]. case_match; [|done].
  intros [= <-]. clear -Ed. unfold dec_value.
  assert (∀ a, 0 ≤ a → 0 ≤ fold_left (λ acc b, acc * 10 + (bz b - 48)) s a) as Hgen; [|by apply Hgen].
  apply Forall_forallb in Ed. induction Ed as [|b s Hb Hs IH]; [done |]. intros a Ha. simpl.
  apply IH. apply in_range_spec in Hb. change (bz "0") with 48 in Hb. lia.
Qed.

Lemma canonicalWebhookAuthority_graphic a c :
  canonicalWebhookAuthority a = Ok c → Forall (λ b, is_graphic b = true) c.
Proof.
  unfold canonicalWebhookAuthority. destruct (_ || _); [done |]. intros H. inv_ok.
  destruct x as [[[host port] hasPort] bracketed]. inv_ok.
  apply canonicalWebhookHost_graphic in E0. destruct hasPort; simpl in H; inv_ok; [|by subst].
  destruct (ParseUint port 16) as [n|] eqn:En; [|done]. inv_ok. subst. apply Forall_app.
  split; [done |]. constructor; [done |]. eapply FormatUint_graphic, ParseUint_nonneg, En.
Qed.

(** ** The transcript determines what it was made from *)

(** The last two words of a text are determined when they are separator-free. *)
Lemma sep_last2_inj sep (x x' y y' z z' : gostring) :
  sep ∉ y → sep ∉ y' → sep ∉ z → sep ∉ z' →
  x ++ sep :: y ++ sep :: z = x' ++ sep :: y' ++ sep :: z' → x = x' ∧ y = y' ∧ z = z'.
Proof.
  intros Hy Hy' Hz Hz' E. rewrite !app_comm_cons, !app_assoc in E.
  apply sep_last_inj in E as [E ->]; [|done..]. by apply sep_last_inj in E as [-> ->].
Qed.

Lemma ToLower_body_hash body : ToLower (SHA256HexBytes body) = SHA256HexBytes body.
Proof. apply ToLower_hex. rewrite SHA256HexBytes_spec. apply hexEncode_lower. Qed.

(** A transcript whose fields other than the nonce are newline-free determines all of them: the nonce is what lies
    between them, even if it contains newlines. *)
Lemma transcript_v3_fields
  (a m t ts n id body a' m' t' ts' n' id' body' c : gostring) :
  CanonicalWebhookRequestV3 a m t ts n id (SHA256HexBytes body) = Ok c →
  CanonicalWebhookRequestV3 a' m' t' ts' n' id' (SHA256HexBytes body') = Ok c →
  Forall (λ w, x0a ∉ w) [ToUpper m; t; ts; id; ToUpper m'; t'; ts'; id'] →
  canonicalWebhookAuthority a = canonicalWebhookAuthority a' ∧ ToUpper m = ToUpper m' ∧
  t = t' ∧ ts = ts' ∧ n = n' ∧ id = id' ∧ SHA256HexBytes body = SHA256HexBytes body'.
Proof.
  unfold CanonicalWebhookRequestV3. rewrite !ToLower_body_hash. intros H1 H2 Hnl. inv_ok.
  rewrite E, E0. subst c.
  apply canonicalWebhookAuthority_graphic, graphic_no_newline in E, E0.
  repeat (apply Forall_cons in Hnl as [? Hnl]).
  cbn [Join app] in H2. injection H2 as H2.
  do 4 (apply sep_head_inj in H2 as [? H2]; [|done..]).
  apply sep_last2_inj in H2 as (? & ? & ?); try done;
    [by subst | apply graphic_no_newline, SHA256HexBytes_graphic..].
Qed.

(** The repository's webhook vector (webhook/testdata). *)
Example webhook_v3_vector :
  let body := go "{" ++ [x22] ++ go "messageId" ++ [x22; x3a; x22] ++ go "kakao-log-g7-123456-default"
    ++ [x22; x2c; x22] ++ go "text" ++ [x22; x3a; x22] ++ go "hello" ++ [x22; x2c; x22] ++ go "room"
    ++ [x22; x3a; x22] ++ go "room-1" ++ [x22; x2c; x22] ++ go "userId" ++ [x22; x3a; x22]
    ++ go "user-1" ++ [x22] ++ go "}" in
  SHA256HexBytes body = go "996ab617569cab40a0826be05713794c853df741efd0813b6a61a95c77698404" ∧
  sign_hex (go "webhook-secret") <$>
    (match CanonicalWebhookRequestV3 (go "Webhook.Example:08443") (go "POST") (go "/webhook/iris")
             (go "9003") (go "webhook-v3-n1") (go "kakao-log-g7-123456-default")
             (SHA256HexBytes body) with Ok c => Some c | Err _ => None end)
  = Some (go "13ef0a9d37b8230cf385f54189ce835191d73e9fb8e0e4f228418e080c92a5d9").
Proof. vm_compute. split; reflexivity. Qed.

(** One of the shared request vectors (internal/client/transport/testdata). *)
Example request_vector :
  SignIrisCanonicalWithSigner (go "tok") (go "GET") (go "/rooms/42/stats?period=7d&limit=5")
    (go "500")
    (go "000102030405060708090a0b0c0d0e0f.676b8bb84ce7267dd520deca4811c8f10a53e636352f06987f42fe425acedd80")
    (SHA256HexBytes [])
  = Ok (go "28195e55e85151193e672926bc9df7e7cda0e228ba98c97f32eb08f7b23064f8").
Proof. vm_compute. reflexivity. Qed.
