(* ===== verification/NonceStore.v ===== *)
(** * NonceStore: webhook/nonce.go and valkeydedup/valkeydedup.go

    The set-once contract between the webhook handler and its nonce store as a typeclass, and the
    Valkey store of the repository as an instance.  Times and durations are nanoseconds in [Z]. *)

From S2P Require Import Prelude.

Definition Millisecond : Z := 1000000.
Definition Second : Z := 1000 * Millisecond.
Definition Minute : Z := 60 * Second.

Inductive storeError := StoreError.

(** What [SetOnceNonceStore] promises.  [IsDuplicate s now key ttl] is one call that the store
    serves at [now].  [holds s key until] says the key is on record and stays so up to [until]. *)
Class SetOnceStore (S : Type) := {
  IsDuplicate : S → Z → gostring → Z → result storeError bool * S;
  holds : S → gostring → Z → Prop;
  (** A first observation is recorded, for the TTL at the store's millisecond resolution. *)
  IsDuplicate_records s now key ttl s' :
    IsDuplicate s now key ttl = (Ok false, s') → holds s' key (now + ttl `div` Millisecond * Millisecond);
  (** No call, answered or failed, takes a record away. *)
  IsDuplicate_keeps s now key ttl key' u :
    holds s key' u → holds (IsDuplicate s now key ttl).2 key' u;
  (** A recorded key is not reported as new while its record stands. *)
  IsDuplicate_detects s now key ttl u :
    holds s key u → now ≤ u → (IsDuplicate s now key ttl).1 ≠ Ok false;
}.

(** ** The Valkey store *)

(** The server's keyspace (key to expiry, in milliseconds of its clock) and, per call, whether the
    round trip fails and if so whether the command had been applied before it failed. *)
Inductive roundTrip := Delivered | FailedBefore | FailedAfter.

Record valkey := mkValkey {
  vk_keys : gmap gostring Z;
  vk_calls : nat;
  vk_net : nat → roundTrip;
}.

(** The reply to [SET key 1 NX PX ms]: Valkey refuses a non-positive expiry, answers nil when the
    key is live, and sets it otherwise.  A key is live up to and including its expiry. *)
Inductive setReply := ReplyOK | ReplyNil | ReplyError.

Definition key_live (keys : gmap gostring Z) (nowMs : Z) (key : gostring) : bool :=
  match keys !! key with
  | Some expiry => nowMs <=? expiry
  | None => false
  end.

Definition set_nx_px (keys : gmap gostring Z) (nowMs : Z) (key : gostring) (px : Z)
  : setReply * gmap gostring Z :=
  if px <=? 0 then (ReplyError, keys)
  else if key_live keys nowMs key then (ReplyNil, keys)
  else (ReplyOK, <[key := nowMs + px]> keys).

Definition flooredTTL (ttl : Z) : Z := Z.max ttl Millisecond.

(** [NonceStore.IsDuplicate]. *)
Definition valkey_IsDuplicate (s : valkey) (now : Z) (key : gostring) (ttl : Z)
  : result storeError bool * valkey :=
  let '(reply, keys) :=
    set_nx_px (vk_keys s) (now `div` Millisecond) key (flooredTTL ttl `div` Millisecond) in
  let after keys := mkValkey keys (S (vk_calls s)) (vk_net s) in
  match vk_net s (vk_calls s) with
  | FailedBefore => (Err StoreError, after (vk_keys s))
  | FailedAfter => (Err StoreError, after keys)
  | Delivered =>
      match reply with
      | ReplyNil => (Ok true, after keys)
      | ReplyError => (Err StoreError, after keys)
      | ReplyOK => (Ok false, after keys)
      end
  end.

Definition valkey_holds (s : valkey) (key : gostring) (until : Z) : Prop :=
  ∃ expiry, vk_keys s !! key = Some expiry ∧ until `div` Millisecond ≤ expiry.

Lemma set_nx_px_keeps keys nowMs key px key' e :
  keys !! key' = Some e →
  ∃ e', (set_nx_px keys nowMs key px).2 !! key' = Some e' ∧ e ≤ e'.
Proof.
  intros H. unfold set_nx_px. destruct (px <=? 0) eqn:Ep; [by exists e |].
  destruct (key_live keys nowMs key) eqn:El; [by exists e |]. bool_props. simpl.
  destruct (decide (key = key')) as [->|Hne].
  - exists (nowMs + px). rewrite lookup_insert_eq. split; [done |].
    unfold key_live in El. rewrite H in El. bool_props. lia.
  - exists e. by rewrite lookup_insert_ne.
Qed.

Lemma flooredTTL_px ttl : 1 ≤ flooredTTL ttl `div` Millisecond.
Proof. apply Z.div_le_lower_bound; unfold flooredTTL, Millisecond; lia. Qed.

Lemma valkey_records s now key ttl s' :
  valkey_IsDuplicate s now key ttl = (Ok false, s') →
  valkey_holds s' key (now + ttl `div` Millisecond * Millisecond).
Proof.
  unfold valkey_IsDuplicate, set_nx_px. pose proof (flooredTTL_px ttl).
  rewrite (proj2 (Z.leb_gt _ _)) by lia.
  destruct (key_live _ _ _); destruct (vk_net s (vk_calls s)); intros [= <-].
  eexists. simpl. rewrite lookup_insert_eq. split; [done |].
  rewrite Z.div_add by done. apply Zplus_le_compat_l, Z.div_le_mono; [done |]. unfold flooredTTL. lia.
Qed.

Lemma valkey_keeps s now key ttl key' u :
  valkey_holds s key' u → valkey_holds (valkey_IsDuplicate s now key ttl).2 key' u.
Proof.
  intros (e & He & Hu). unfold valkey_IsDuplicate.
  pose proof (set_nx_px_keeps _ (now `div` Millisecond) key (flooredTTL ttl `div` Millisecond) _ _ He)
    as (e' & He' & Hle).
  destruct (set_nx_px _ _ _ _) as [reply keys]. simpl in He'.
  destruct (vk_net s (vk_calls s)); [destruct reply| |]; simpl;
    try (exists e'; split; [done | lia]). by exists e.
Qed.

Lemma valkey_detects s now key ttl u :
  valkey_holds s key u → now ≤ u → (valkey_IsDuplicate s now key ttl).1 ≠ Ok false.
Proof.
  intros (e & He & Hu) Hnow. unfold valkey_IsDuplicate, set_nx_px. pose proof (flooredTTL_px ttl).
  rewrite (proj2 (Z.leb_gt _ _)) by lia. unfold key_live. rewrite He.
  assert (now `div` Millisecond ≤ u `div` Millisecond) by (by apply Z.div_le_mono).
  rewrite (proj2 (Z.leb_le _ _)) by lia. by destruct (vk_net s (vk_calls s)).
Qed.

#[export] Instance valkey_store : SetOnceStore valkey := {
  IsDuplicate := valkey_IsDuplicate;
  holds := valkey_holds;
  IsDuplicate_records := valkey_records;
  IsDuplicate_keeps := valkey_keeps;
  IsDuplicate_detects := valkey_detects;
}.

(** ** Runs of a store *)

Section runs.
Context {S : Type} `{SetOnceStore S}.

Record nonceCall := mkCall { call_now : Z; call_key : gostring; call_ttl : Z }.

Fixpoint store_run (s : S) (calls : list nonceCall) : list (result storeError bool) * S :=
  match calls with
  | [] => ([], s)
  | c :: rest =>
      let '(r, s') := IsDuplicate s (call_now c) (call_key c) (call_ttl c) in
      let '(rs, s'') := store_run s' rest in
      (r :: rs, s'')
  end.

Lemma store_run_keeps s calls key u : holds s key u → holds (store_run s calls).2 key u.
Proof.
  revert s. induction calls as [|c calls IH]; intros s Hs; [done |]. simpl.
  pose proof (IsDuplicate_keeps s (call_now c) (call_key c) (call_ttl c) key u Hs) as Hk.
  destruct (IsDuplicate s _ _ _) as [r s']. simpl in Hk. apply IH in Hk.
  by destruct (store_run s' calls).
Qed.
End runs.

(** Set-once.  Over any store that keeps the contract, for every interleaving of other calls
    between two calls with one key, failed ones included: if the first call was told the key is new
    and the second is served within the first call's TTL, the second is not told it is new. *)
Theorem store_set_once {S : Type} `{SetOnceStore S} (s : S) (c1 c2 : nonceCall)
    (between : list nonceCall) (s1 : S) :
  call_key c1 = call_key c2 →
  IsDuplicate s (call_now c1) (call_key c1) (call_ttl c1) = (Ok false, s1) →
  call_now c2 ≤ call_now c1 + call_ttl c1 `div` Millisecond * Millisecond →
  (IsDuplicate (store_run s1 between).2 (call_now c2) (call_key c2) (call_ttl c2)).1 ≠ Ok false.
Proof.
  intros Hk H1 Ht. eapply IsDuplicate_detects; [|exact Ht]. rewrite <- Hk.
  by eapply store_run_keeps, IsDuplicate_records.
Qed.

(** The Valkey store on a run with an unrelated call and a call that failed after it was applied. *)
Definition demo_valkey : valkey :=
  mkValkey ∅ 0 (λ n, if Nat.eqb n 2 then FailedAfter else Delivered).

Lemma store_set_once_witness :
  (IsDuplicate (S := valkey)
     (store_run (IsDuplicate (S := valkey) demo_valkey 0 (go "k") (10 * Minute)).2
        [mkCall 1 (go "j") Minute; mkCall 2 (go "i") Minute]).2
     (10 * Minute) (go "k") 5).1 ≠ Ok false.
Proof.
  apply (store_set_once demo_valkey (mkCall 0 (go "k") (10 * Minute)) (mkCall (10 * Minute) (go "k") 5)).
  - reflexivity.
  - simpl. reflexivity.
  - vm_compute. discriminate.
Defined.

(** The Valkey store answers exactly when the command made its round trip: an outage is always an
    error, never "new" (fail closed), and no TTL makes a delivered call fail, the ones below the
    millisecond included, which the server refuses as an expiry of zero. *)
Theorem valkey_fail_closed (s : valkey) (now : Z) (key : gostring) (ttl : Z) :
  is_ok (valkey_IsDuplicate s now key ttl).1 = true ↔ vk_net s (vk_calls s) = Delivered.
Proof.
  unfold valkey_IsDuplicate, set_nx_px. pose proof (flooredTTL_px ttl).
  rewrite (proj2 (Z.leb_gt _ _)) by lia.
  destruct (key_live _ _ _); destruct (vk_net s (vk_calls s)); simpl; naive_solver.
Qed.
