(* ===== verification/WebhookSign.v ===== *)
(** * WebhookSign: webhooksign/sign.go

    Signing an outgoing webhook request: the checks of the request, the secret, the message ID and
    the time, the transcript over the URL's and the Host's authority, the six headers and the body. *)

From S2P Require Import Prelude GoStrings GoStrconv GoCrypto GoHttp Canonical Hmac.

(** The part of [*url.URL] and [*http.Request] that signing reads and writes.  [req_Body] is what a
    reader of [Body] gets and [req_GetBody] what [GetBody] gives, when set. *)
Record URL := mkURL { url_Host : gostring; url_RequestURI : gostring }.

Record Request := mkRequest {
  req_Method : gostring;
  req_URL : option URL;
  req_Host : gostring;
  req_Header : option Header;
  req_Body : gostring;
  req_GetBody : option gostring;
  req_ContentLength : Z;
}.

Inductive signError :=
| RequestNil
| RequestURLNil
| MethodNotPost (method : gostring)
| SecretRequired
| MessageIDCount
| MessageIDNonCanonical
| MessageIDBlank
| TimestampAndNonceRequired
| TargetError (e : targetError)
| URLAuthority (e : authorityError)
| HostAuthority (e : authorityError)
| AuthorityMismatch.

Definition validateSigningRequest (req : option Request) : result signError (Request * URL) :=
  match req with
  | None => Err RequestNil
  | Some r =>
      match req_URL r with
      | None => Err RequestURLNil
      | Some u => if negb (seqb (req_Method r) MethodPost) then Err (MethodNotPost (req_Method r))
                  else Ok (r, u)
      end
  end.

Definition normalizedSigningSecret (secret : gostring) : result signError gostring :=
  let secret := TrimSpace secret in
  if is_empty secret then Err SecretRequired else Ok secret.

(** Every key that folds to the header's name, whatever its spelling. *)
Definition messageIDHeaderValues (header : Header) : list gostring :=
  flat_map (λ kv, if EqualFold kv.1 HeaderIrisMessageID then kv.2 else []) (map_to_list header).

Definition normalizedSigningMessageID (header : option Header) : result signError gostring :=
  match messageIDHeaderValues (default ∅ header) with
  | [v] =>
      match NormalizeMessageID v with
      | None => Err MessageIDNonCanonical
      | Some messageID => if is_empty messageID then Err MessageIDBlank else Ok messageID
      end
  | _ => Err MessageIDCount
  end.

Definition normalizedSigningTime (timestamp nonce : gostring)
  : result signError (gostring * gostring) :=
  let timestamp := TrimSpace timestamp in
  let nonce := TrimSpace nonce in
  if is_empty timestamp || is_empty nonce then Err TimestampAndNonceRequired
  else Ok (timestamp, nonce).

Definition canonicalRequestV3 (r : Request) (u : URL)
  (target timestamp nonce messageID bodySHA256 : gostring) : result signError gostring :=
  let? urlCanonical := result_map_err URLAuthority
    (CanonicalWebhookRequestV3 (url_Host u) (req_Method r) target timestamp nonce messageID
       bodySHA256) in
  if is_empty (req_Host r) then Ok urlCanonical
  else
    let? hostCanonical := result_map_err HostAuthority
      (CanonicalWebhookRequestV3 (req_Host r) (req_Method r) target timestamp nonce messageID
         bodySHA256) in
    if negb (seqb hostCanonical urlCanonical) then Err AuthorityMismatch else Ok hostCanonical.

Definition setSignedBody (r : Request) (body : gostring) : Request :=
  if is_empty body then
    mkRequest (req_Method r) (req_URL r) (req_Host r) (req_Header r) [] (Some []) 0
  else
    mkRequest (req_Method r) (req_URL r) (req_Host r) (req_Header r) body (Some body)
      (Z.of_nat (length body)).

(** The header updates of [signRequest], in its order. *)
Definition signedHeader (header : option Header)
  (timestamp nonce bodySHA256 signature messageID : gostring) : Header :=
  let h := default ∅ header in
  let h := Header_Set HeaderIrisSignatureVersion SignatureVersionV3 h in
  let h := Header_Set HeaderIrisTimestamp timestamp h in
  let h := Header_Set HeaderIrisNonce nonce h in
  let h := Header_Set HeaderIrisBodySHA256 bodySHA256 h in
  let h := Header_Set HeaderIrisSignature signature h in
  let h := Header_DeleteFunc (λ key, EqualFold key HeaderIrisMessageID) h in
  Header_Set HeaderIrisMessageID messageID h.

(** [signRequest]: the signed request; on an error the request is left as it was. *)
Definition signRequest (req : option Request) (secret body timestamp nonce : gostring)
  : result signError Request :=
  let? (r, u) := validateSigningRequest req in
  let? secret := normalizedSigningSecret secret in
  let? messageID := normalizedSigningMessageID (req_Header r) in
  let? (timestamp, nonce) := normalizedSigningTime timestamp nonce in
  let? target := result_map_err TargetError (CanonicalTarget (url_RequestURI u)) in
  let bodySHA256 := SHA256HexBytes body in
  let? canonical := canonicalRequestV3 r u target timestamp nonce messageID bodySHA256 in
  let signature := (SignHash (NewMAC secret) canonical).1 in
  let h := signedHeader (req_Header r) timestamp nonce bodySHA256 signature messageID in
  Ok (setSignedBody
        (mkRequest (req_Method r) (req_URL r) (req_Host r) (Some h) (req_Body r) (req_GetBody r)
           (req_ContentLength r)) body).

(** [SignRequest]: [nowMs] is the clock in milliseconds, [random] the sixteen bytes drawn. *)
Definition SignRequest (req : option Request) (secret body : gostring) (nowMs : Z)
  (random : gostring) : result signError Request :=
  signRequest req secret body (FormatInt nowMs) (randomhex_Generate random).

(** ** What the signed request carries *)

(** The headers of a signed request, in the map as Go keeps it. *)
Record carries (h : Header) (timestamp nonce bodySHA256 signature messageID : gostring) : Prop := {
  carries_version : Header_Values h HeaderIrisSignatureVersion = [SignatureVersionV3];
  carries_timestamp : Header_Values h HeaderIrisTimestamp = [timestamp];
  carries_nonce : Header_Values h HeaderIrisNonce = [nonce];
  carries_hash : Header_Values h HeaderIrisBodySHA256 = [bodySHA256];
  carries_signature : Header_Values h HeaderIrisSignature = [signature];
  carries_messageID : Header_Values h HeaderIrisMessageID = [messageID];
}.

Lemma signedHeader_carries header ts n sha sig id :
  carries (signedHeader header ts n sha sig id) ts n sha sig id.
Proof.
  unfold signedHeader.
  split; repeat first
    [ rewrite Header_Values_Set_eq; done
    | rewrite Header_Values_Set_ne by (apply (bool_decide_unpack _); vm_compute; exact I)
    | rewrite Header_Values_DeleteFunc_keep by (vm_compute; reflexivity) ].
Qed.

Lemma signedHeader_other_spelling header ts n sha sig id k :
  EqualFold k HeaderIrisMessageID = true → k ≠ HeaderIrisMessageID →
  Header_Values (signedHeader header ts n sha sig id) k = [].
Proof.
  intros Hk Hne. unfold signedHeader. rewrite Header_Values_Set_ne by done.
  by apply Header_Values_DeleteFunc_drop.
Qed.

(** What a successful [signRequest] did. *)
Record signed_as (r r' : Request) (secret body timestamp nonce : gostring)
    (u : URL) (messageID target canonical : gostring) : Prop := {
  sa_method : req_Method r = MethodPost ∧ req_Method r' = MethodPost;
  sa_url : req_URL r = Some u ∧ req_URL r' = Some u ∧ req_Host r' = req_Host r;
  sa_secret : TrimSpace secret ≠ [];
  sa_messageID : messageID ≠ [] ∧ NormalizeMessageID messageID = Some messageID;
  sa_time : TrimSpace timestamp ≠ [] ∧ TrimSpace nonce ≠ [];
  sa_target : CanonicalTarget (url_RequestURI u) = Ok target;
  sa_canonical : canonicalRequestV3 r u target (TrimSpace timestamp) (TrimSpace nonce) messageID
    (SHA256HexBytes body) = Ok canonical;
  sa_header : req_Header r' = Some (signedHeader (req_Header r) (TrimSpace timestamp)
    (TrimSpace nonce) (SHA256HexBytes body) (sign_hex (TrimSpace secret) canonical) messageID);
  sa_body : req_Body r' = body ∧ req_GetBody r' = Some body
    ∧ req_ContentLength r' = Z.of_nat (length body);
}.

Lemma NormalizeMessageID_idem v id : NormalizeMessageID v = Some id → NormalizeMessageID id = Some id.
Proof.
  unfold NormalizeMessageID. destruct (is_empty (TrimSpace v)) eqn:E; [by intros [= <-] |].
  destruct (_ <? _) eqn:El; [done |]. destruct (forallb _ _) eqn:Ef; [|done]. intros [= <-].
  by rewrite TrimSpace_idem, E, El, Ef.
Qed.

Lemma setSignedBody_body r body :
  req_Body (setSignedBody r body) = body ∧ req_GetBody (setSignedBody r body) = Some body
  ∧ req_ContentLength (setSignedBody r body) = Z.of_nat (length body).
Proof. by destruct body. Qed.

Lemma setSignedBody_rest r body :
  req_Method (setSignedBody r body) = req_Method r ∧ req_URL (setSignedBody r body) = req_URL r
  ∧ req_Host (setSignedBody r body) = req_Host r ∧ req_Header (setSignedBody r body) = req_Header r.
Proof. by destruct body. Qed.

Lemma signRequest_ok r secret body timestamp nonce r' :
  signRequest (Some r) secret body timestamp nonce = Ok r' →
  ∃ u messageID target canonical,
    signed_as r r' secret body timestamp nonce u messageID target canonical.
Proof.
  unfold signRequest, validateSigningRequest. intros H. inv_ok.
  destruct (req_URL r) as [u|] eqn:Eu; [|done].
  destruct (negb _) eqn:Em; [done |]. bool_props. inv_ok. subst x. inv_ok.
  destruct x1 as [ts n]. inv_ok.
  unfold normalizedSigningSecret in E. destruct (is_empty (TrimSpace secret)) eqn:Es; [done |].
  unfold normalizedSigningMessageID in E0.
  destruct (messageIDHeaderValues _) as [|v [|]] eqn:Ev; try done.
  destruct (NormalizeMessageID v) as [id|] eqn:Eid; [|done].
  destruct (is_empty id) eqn:Ei; [done |].
  unfold normalizedSigningTime in E1. destruct (_ || _) eqn:Et; [done |].
  bool_props. inv_ok. simplify_eq.
  match goal with |- context [setSignedBody ?q body] =>
    destruct (setSignedBody_rest q body) as (Hm & Hu & Hh & Hhd) end.
  eexists u, _, _, _. split; rewrite ?Hm, ?Hu, ?Hh, ?Hhd; simpl; try done.
  - split; [done |]. by eapply NormalizeMessageID_idem.
  - apply setSignedBody_body.
Qed.
