(* ===== verification/WebhookMessage.v ===== *)
(** * WebhookMessage: webhook/types.go, thread.go, context.go and the decoding half of
    handler_validation.go

    The webhook body: decoding, the contract checks, normalization, and the [Message] the admitter
    gets; and the read-only snapshot of a message. *)

From S2P Require Import Prelude GoStrings GoStrconv GoJson Canonical.

(** ** Data *)

Record WebhookMention := mkMention {
  mention_UserID : gostring;
  mention_Nickname : gostring;
  mention_At : list Z;
  mention_Len : Z;
}.

Record WebhookRequest := mkWebhookRequest {
  wr_Route : gostring;
  wr_MessageID : gostring;
  wr_SourceLogID : Z;
  wr_SourceCreatedAtMS : Z;
  wr_RawSourceLogID : option Z;
  wr_SourceGenerationID : option Z;
  wr_SourceAccountID : gostring;
  wr_Text : gostring;
  wr_Room : gostring;
  wr_Sender : gostring;
  wr_UserID : gostring;
  wr_ChatLogID : gostring;
  wr_RoomType : gostring;
  wr_RoomLinkID : gostring;
  wr_ThreadID : gostring;
  wr_ThreadScope : option Z;
  wr_Type : gostring;
  wr_IsMine : option bool;
  wr_Origin : gostring;
  wr_Attachment : gostring;
  wr_Mentions : list WebhookMention;
  wr_EventPayload : gostring;
}.

Record MessageJSON := mkMessageJSON {
  mj_UserID : gostring;
  mj_Type : gostring;
  mj_Route : gostring;
  mj_MessageID : gostring;
  mj_ChatLogID : gostring;
  mj_RoomType : gostring;
  mj_RoomLinkID : gostring;
  mj_SourceLogID : option Z;
  mj_SourceCreatedAtMS : Z;
  mj_RawSourceLogID : option Z;
  mj_SourceGenerationID : option Z;
  mj_SourceAccountID : gostring;
  mj_ThreadID : option gostring;
  mj_ThreadScope : option Z;
  mj_IsMine : option bool;
  mj_Origin : gostring;
  mj_Attachment : gostring;
  mj_Mentions : list WebhookMention;
  mj_EventPayload : gostring;
}.

(** [Message]; its [JSON] pointer is nil only in messages built outside the SDK. *)
Record Message := mkMessage {
  msg_Msg : gostring;
  msg_Room : gostring;
  msg_Sender : option gostring;
  msg_JSON : option MessageJSON;
}.

(** ** Decoding *)

Definition dec_mention (v : json) : option WebhookMention :=
  l ← dec_struct v;
  userId ← member l (go "userId") [] dec_string;
  nickname ← member l (go "nickname") [] dec_string;
  at_ ← member l (go "at") [] (dec_slice dec_int64);
  len ← member l (go "len") 0 dec_int64;
  Some (mkMention userId nickname at_ len).

(** [jsonv2.Unmarshal(body, &req)] into the struct's tagged fields. *)
Definition dec_webhook_request (v : json) : option WebhookRequest :=
  l ← dec_struct v;
  route ← member l (go "route") [] dec_string;
  messageId ← member l (go "messageId") [] dec_string;
  sourceLogId ← member l (go "sourceLogId") 0 dec_int64;
  sourceCreatedAtMs ← member l (go "sourceCreatedAtMs") 0 dec_int64;
  rawSourceLogId ← member l (go "rawSourceLogId") None (dec_ptr dec_int64);
  sourceGenerationId ← member l (go "sourceGenerationId") None (dec_ptr dec_int64);
  sourceAccountId ← member l (go "sourceAccountId") [] dec_string;
  text ← member l (go "text") [] dec_string;
  room ← member l (go "room") [] dec_string;
  sender ← member l (go "sender") [] dec_string;
  userId ← member l (go "userId") [] dec_string;
  chatLogId ← member l (go "chatLogId") [] dec_string;
  roomType ← member l (go "roomType") [] dec_string;
  roomLinkId ← member l (go "roomLinkId") [] dec_string;
  threadId ← member l (go "threadId") [] dec_string;
  threadScope ← member l (go "threadScope") None (dec_ptr dec_int64);
  type ← member l (go "type") [] dec_string;
  isMine ← member l (go "isMine") None (dec_ptr dec_bool);
  origin ← member l (go "origin") [] dec_string;
  attachment ← member l (go "attachment") [] dec_string;
  mentions ← member l (go "mentions") [] (dec_slice dec_mention);
  Some (mkWebhookRequest route messageId sourceLogId sourceCreatedAtMs rawSourceLogId
          sourceGenerationId sourceAccountId text room sender userId chatLogId roomType roomLinkId
          threadId threadScope type isMine origin attachment mentions
          (member_raw l (go "eventPayload"))).

Inductive decodeError :=
| DecodeFailed
| errInvalidWebhookRequest
| errInvalidMessageID.

Definition decodeWebhookRequest (body : gostring) : result decodeError WebhookRequest :=
  match parse_json body ≫= dec_webhook_request with
  | Some req => Ok req
  | None => Err DecodeFailed
  end.

(** ** The contract checks *)

Definition maxEventPayloadBytes : Z := Z.shiftl 256 10.

Definition validWebhookMentions (mentions : list WebhookMention) : bool :=
  forallb (λ mention, negb (is_empty (TrimSpace (mention_UserID mention)))) mentions.

Definition validWebhookText (req : WebhookRequest) : bool :=
  if 16000 <? RuneCountInString (wr_Text req) then false
  else if negb (is_empty (TrimSpace (wr_Text req))) then true
  else negb (is_empty (TrimSpace (wr_Type req))).

Definition validRequiredMax (value : gostring) (limit : Z) : bool :=
  if limit <? RuneCountInString value then false else negb (is_empty (TrimSpace value)).

Definition validOptionalMax (value : gostring) (limit : Z) : bool := RuneCountInString value <=? limit.

Definition validOptionalMessageID (value : gostring) : bool :=
  match NormalizeMessageID value with Some _ => true | None => false end.

Definition validWebhookRequest (req : WebhookRequest) : bool :=
  validWebhookText req
  && validRequiredMax (wr_Room req) 256
  && validRequiredMax (wr_UserID req) 256
  && validOptionalMax (wr_Sender req) 256
  && validOptionalMax (wr_Route req) 256
  && validOptionalMessageID (wr_MessageID req)
  && validOptionalMax (wr_SourceAccountID req) 256
  && validOptionalMax (wr_ChatLogID req) 256
  && validOptionalMax (wr_RoomType req) 256
  && validOptionalMax (wr_RoomLinkID req) 256
  && validOptionalMax (wr_ThreadID req) 256
  && validOptionalMax (wr_Type req) 256
  && validOptionalMax (wr_Origin req) 64
  && (is_empty (wr_Attachment req) || (RuneCountInString (wr_Attachment req) <=? 65536))
  && (Z.of_nat (length (wr_EventPayload req)) <=? maxEventPayloadBytes)
  && validWebhookMentions (wr_Mentions req).

(** ** Normalization and the message *)

Definition cloneWebhookMentions (mentions : list WebhookMention) : list WebhookMention :=
  map (λ mention, mkMention (TrimSpace (mention_UserID mention)) (TrimSpace (mention_Nickname mention))
                    (mention_At mention) (mention_Len mention)) mentions.

Definition with_MessageID (req : WebhookRequest) (messageID : gostring) : WebhookRequest :=
  {| wr_Route := wr_Route req; wr_MessageID := messageID; wr_SourceLogID := wr_SourceLogID req;
     wr_SourceCreatedAtMS := wr_SourceCreatedAtMS req; wr_RawSourceLogID := wr_RawSourceLogID req;
     wr_SourceGenerationID := wr_SourceGenerationID req;
     wr_SourceAccountID := wr_SourceAccountID req; wr_Text := wr_Text req; wr_Room := wr_Room req;
     wr_Sender := wr_Sender req; wr_UserID := wr_UserID req; wr_ChatLogID := wr_ChatLogID req;
     wr_RoomType := wr_RoomType req; wr_RoomLinkID := wr_RoomLinkID req;
     wr_ThreadID := wr_ThreadID req; wr_ThreadScope := wr_ThreadScope req; wr_Type := wr_Type req;
     wr_IsMine := wr_IsMine req; wr_Origin := wr_Origin req; wr_Attachment := wr_Attachment req;
     wr_Mentions := wr_Mentions req; wr_EventPayload := wr_EventPayload req |}.

Definition normalizeWebhookRequest (req : WebhookRequest) : WebhookRequest :=
  {| wr_Route := TrimSpace (wr_Route req);
     wr_MessageID := TrimSpace (wr_MessageID req);
     wr_SourceLogID := wr_SourceLogID req;
     wr_SourceCreatedAtMS := wr_SourceCreatedAtMS req;
     wr_RawSourceLogID := wr_RawSourceLogID req;
     wr_SourceGenerationID := wr_SourceGenerationID req;
     wr_SourceAccountID := TrimSpace (wr_SourceAccountID req);
     wr_Text := wr_Text req;
     wr_Room := wr_Room req;
     wr_Sender := TrimSpace (wr_Sender req);
     wr_UserID := wr_UserID req;
     wr_ChatLogID := TrimSpace (wr_ChatLogID req);
     wr_RoomType := TrimSpace (wr_RoomType req);
     wr_RoomLinkID := TrimSpace (wr_RoomLinkID req);
     wr_ThreadID := TrimSpace (wr_ThreadID req);
     wr_ThreadScope := wr_ThreadScope req;
     wr_Type := TrimSpace (wr_Type req);
     wr_IsMine := wr_IsMine req;
     wr_Origin := TrimSpace (wr_Origin req);
     wr_Attachment := wr_Attachment req;
     wr_Mentions := cloneWebhookMentions (wr_Mentions req);
     wr_EventPayload := wr_EventPayload req |}.

(** [resolveThreadID] of a non-nil request. *)
Definition resolveThreadID (req : WebhookRequest) : gostring := TrimSpace (wr_ThreadID req).

Definition nonempty (s : gostring) : option gostring := if is_empty s then None else Some s.

Definition buildMessageJSON (req : WebhookRequest) : MessageJSON :=
  {| mj_UserID := wr_UserID req;
     mj_Type := wr_Type req;
     mj_Route := wr_Route req;
     mj_MessageID := wr_MessageID req;
     mj_ChatLogID := wr_ChatLogID req;
     mj_RoomType := wr_RoomType req;
     mj_RoomLinkID := wr_RoomLinkID req;
     mj_SourceLogID := if negb (wr_SourceLogID req =? 0) then Some (wr_SourceLogID req) else None;
     mj_SourceCreatedAtMS := wr_SourceCreatedAtMS req;
     mj_RawSourceLogID := wr_RawSourceLogID req;
     mj_SourceGenerationID := wr_SourceGenerationID req;
     mj_SourceAccountID := wr_SourceAccountID req;
     mj_ThreadID := nonempty (resolveThreadID req);
     mj_ThreadScope := wr_ThreadScope req;
     mj_IsMine := wr_IsMine req;
     mj_Origin := wr_Origin req;
     mj_Attachment := wr_Attachment req;
     mj_Mentions := wr_Mentions req;
     mj_EventPayload := wr_EventPayload req |}.

Definition buildMessage (req : WebhookRequest) : Message :=
  let trimmed := normalizeWebhookRequest req in
  {| msg_Msg := wr_Text trimmed;
     msg_Room := wr_Room trimmed;
     msg_Sender := nonempty (wr_Sender trimmed);
     msg_JSON := Some (buildMessageJSON trimmed) |}.

Definition parseWebhookRequest (body : gostring) : result decodeError WebhookRequest :=
  let? req := decodeWebhookRequest body in
  if negb (validWebhookRequest req) then Err errInvalidWebhookRequest
  else
    match NormalizeMessageID (wr_MessageID req) with
    | None => Err errInvalidMessageID
    | Some messageID =>
        if is_empty messageID then Err errInvalidMessageID else Ok (with_MessageID req messageID)
    end.

Definition DecodeMessage (body : gostring) : result decodeError Message :=
  let? req := parseWebhookRequest body in
  Ok (buildMessage req).

(** ** webhook/context.go *)

Record MessageContext := mkMessageContext {
  mc_route : gostring;
  mc_roomID : gostring;
  mc_messageType : gostring;
  mc_eventPayload : gostring;
  mc_eventType : gostring;
  mc_eventKind : gostring;
  mc_eventStatus : gostring;
  mc_eventSchemaVersion : Z;
  mc_hasEventSchemaVersion : bool;
}.

Definition dec_event_header (v : json) : option (gostring * gostring * gostring * option Z) :=
  l ← dec_struct v;
  type ← member l (go "type") [] dec_string;
  kind ← member l (go "kind") [] dec_string;
  status ← member l (go "status") [] dec_string;
  schemaVersion ← member l (go "schemaVersion") None (dec_ptr dec_int64);
  Some (type, kind, status, schemaVersion).

Definition semanticEventHeader (raw : gostring) : gostring * gostring * gostring * Z * bool :=
  let raw := TrimSpace raw in
  if is_empty raw then ([], [], [], 0, false)
  else
    match parse_json raw ≫= dec_event_header with
    | None => ([], [], [], 0, false)
    | Some (type, kind, status, None) => (TrimSpace type, TrimSpace kind, TrimSpace status, 0, false)
    | Some (type, kind, status, Some v) => (TrimSpace type, TrimSpace kind, TrimSpace status, v, true)
    end.

Definition NewMessageContext (message : option Message) : MessageContext :=
  match message with
  | None => mkMessageContext [] [] [] [] [] [] [] 0 false
  | Some m =>
      let roomID := TrimSpace (msg_Room m) in
      match msg_JSON m with
      | None => mkMessageContext [] roomID [] [] [] [] [] 0 false
      | Some j =>
          let '(type, kind, status, version, has) := semanticEventHeader (mj_EventPayload j) in
          mkMessageContext (TrimSpace (mj_Route j)) roomID (TrimSpace (mj_Type j))
            (mj_EventPayload j) type kind status version has
      end
  end.

Definition EventType (c : MessageContext) : gostring :=
  if negb (is_empty (mc_eventType c)) then mc_eventType c else mc_messageType c.

Definition EventSchemaVersion (c : MessageContext) : Z * bool :=
  (mc_eventSchemaVersion c, mc_hasEventSchemaVersion c).

(** ** What a decoded message guarantees *)

(** The contract the admitter may rely on. *)
Record message_ok (m : Message) (j : MessageJSON) : Prop := {
  mok_json : msg_JSON m = Some j;
  mok_id : mj_MessageID j ≠ [] ∧ Z.of_nat (length (mj_MessageID j)) ≤ MaxMessageIDBytes
    ∧ Forall (λ b, validMessageIDByte b = true) (mj_MessageID j);
  mok_text : RuneCountInString (msg_Msg m) ≤ 16000
    ∧ (TrimSpace (msg_Msg m) ≠ [] ∨ mj_Type j ≠ []);
  mok_room : RuneCountInString (msg_Room m) ≤ 256 ∧ TrimSpace (msg_Room m) ≠ [];
  mok_user : RuneCountInString (mj_UserID j) ≤ 256 ∧ TrimSpace (mj_UserID j) ≠ [];
  mok_trimmed : Forall trimmed [mj_Type j; mj_Route j; mj_MessageID j; mj_ChatLogID j; mj_RoomType j;
    mj_RoomLinkID j; mj_SourceAccountID j; mj_Origin j];
  mok_bounded : Forall (λ v, RuneCountInString v ≤ 256)
    [mj_Type j; mj_Route j; mj_ChatLogID j; mj_RoomType j; mj_RoomLinkID j; mj_SourceAccountID j];
  mok_origin : RuneCountInString (mj_Origin j) ≤ 64;
  mok_sender : ∀ s, msg_Sender m = Some s → s ≠ [] ∧ trimmed s ∧ RuneCountInString s ≤ 256;
  mok_thread : ∀ s, mj_ThreadID j = Some s → s ≠ [] ∧ trimmed s ∧ RuneCountInString s ≤ 256;
  mok_source : mj_SourceLogID j ≠ Some 0;
  mok_attachment : RuneCountInString (mj_Attachment j) ≤ 65536;
  mok_payload : Z.of_nat (length (mj_EventPayload j)) ≤ 262144;
  mok_mentions : Forall (λ n, mention_UserID n ≠ [] ∧ trimmed (mention_UserID n)) (mj_Mentions j);
}.

Lemma NormalizeMessageID_some v id :
  NormalizeMessageID v = Some id → id ≠ [] →
  id = TrimSpace v ∧ Z.of_nat (length id) ≤ MaxMessageIDBytes
  ∧ Forall (λ b, validMessageIDByte b = true) id.
Proof.
  unfold NormalizeMessageID. destruct (is_empty (TrimSpace v)); [by intros [= <-] |].
  destruct (_ <? _) eqn:El; [done |]. destruct (forallb _ _) eqn:Ef; [|done]. intros [= <-] _.
  bool_props. by apply Forall_forallb in Ef.
Qed.

Lemma nonempty_some s t : nonempty s = Some t → t = s ∧ t ≠ [].
Proof. unfold nonempty. destruct s; simpl; naive_solver. Qed.

Lemma validRequiredMax_spec v n :
  validRequiredMax v n = true → RuneCountInString v ≤ n ∧ TrimSpace v ≠ [].
Proof. unfold validRequiredMax. destruct (_ <? _) eqn:E; [done |]. intros. by bool_props. Qed.

Lemma validOptionalMax_trim v n :
  validOptionalMax v n = true → RuneCountInString (TrimSpace v) ≤ n.
Proof. unfold validOptionalMax. intros. bool_props. pose proof (TrimSpace_runes v). lia. Qed.

Lemma validWebhookMentions_clone l :
  validWebhookMentions l = true →
  Forall (λ n, mention_UserID n ≠ [] ∧ trimmed (mention_UserID n)) (cloneWebhookMentions l).
Proof.
  unfold validWebhookMentions, cloneWebhookMentions. intros H%Forall_forallb.
  apply Forall_fmap. eapply Forall_impl; [exact H |]. intros n Hn. cbv beta in Hn. simpl.
  bool_props. split; [done | apply TrimSpace_trimmed].
Qed.

Lemma parseWebhookRequest_ok body req :
  parseWebhookRequest body = Ok req →
  ∃ req0 id, decodeWebhookRequest body = Ok req0 ∧ validWebhookRequest req0 = true ∧
    NormalizeMessageID (wr_MessageID req0) = Some id ∧ id ≠ [] ∧ req = with_MessageID req0 id.
Proof.
  unfold parseWebhookRequest. intros H. inv_ok. destruct (negb _) eqn:Ev; [done |].
  destruct (NormalizeMessageID _) as [id|] eqn:Ei; [|done]. destruct (is_empty id) eqn:Ee; [done |].
  bool_props. inv_ok. by eexists _, _.
Qed.

(** Every clause of [validWebhookRequest]. *)
Lemma validWebhookRequest_clauses req :
  validWebhookRequest req = true →
  validWebhookText req = true ∧
  validRequiredMax (wr_Room req) 256 = true ∧ validRequiredMax (wr_UserID req) 256 = true ∧
  Forall (λ v, validOptionalMax v 256 = true)
    [wr_Type req; wr_Route req; wr_ChatLogID req; wr_RoomType req; wr_RoomLinkID req;
     wr_SourceAccountID req; wr_Sender req; wr_ThreadID req] ∧
  validOptionalMax (wr_Origin req) 64 = true ∧
  RuneCountInString (wr_Attachment req) ≤ 65536 ∧
  Z.of_nat (length (wr_EventPayload req)) ≤ 262144 ∧
  validWebhookMentions (wr_Mentions req) = true.
Proof.
  unfold validWebhookRequest. intros H. bool_props.
  split_and!; try done; [by rewrite ?Forall_cons, Forall_nil |].
  match goal with H : _ || _ = true |- _ => apply orb_true_iff in H as [H|H] end; bool_props; [|done].
  match goal with H : wr_Attachment _ = [] |- _ => rewrite H end. vm_compute. discriminate.
Qed.


(** A body in the style of the repository's tests, with untrimmed fields and a mention. *)
Definition quoted_text (s : gostring) : gostring := [x22] ++ s ++ [x22].
Definition demo_body : gostring :=
  go "{" ++ quoted_text (go "messageId") ++ go ":" ++ quoted_text (go " kakao-1 ") ++ go ","
  ++ quoted_text (go "text") ++ go ":" ++ quoted_text (go "hello") ++ go ","
  ++ quoted_text (go "room") ++ go ":" ++ quoted_text (go "room-1") ++ go ","
  ++ quoted_text (go "userId") ++ go ":" ++ quoted_text (go "user-1") ++ go ","
  ++ quoted_text (go "sender") ++ go ":" ++ quoted_text (go " kim ") ++ go ","
  ++ quoted_text (go "sourceLogId") ++ go ":7,"
  ++ quoted_text (go "mentions") ++ go ":[{" ++ quoted_text (go "userId") ++ go ":"
  ++ quoted_text (go "u2 ") ++ go "}]}".

Definition demo_message : Message :=
  {| msg_Msg := go "hello"; msg_Room := go "room-1"; msg_Sender := Some (go "kim");
     msg_JSON := Some {| mj_UserID := go "user-1"; mj_Type := []; mj_Route := [];
       mj_MessageID := go "kakao-1"; mj_ChatLogID := []; mj_RoomType := []; mj_RoomLinkID := [];
       mj_SourceLogID := Some 7; mj_SourceCreatedAtMS := 0; mj_RawSourceLogID := None;
       mj_SourceGenerationID := None; mj_SourceAccountID := []; mj_ThreadID := None;
       mj_ThreadScope := None; mj_IsMine := None; mj_Origin := []; mj_Attachment := [];
       mj_Mentions := [mkMention (go "u2") [] [] 0]; mj_EventPayload := [] |} |}.


(** Normalization is idempotent, a normalized request gives the same message, and a valid
    request stays valid when it is normalized (trimming never lengthens a field, counted in runes). *)
Theorem normalize_stable (req : WebhookRequest) :
  normalizeWebhookRequest (normalizeWebhookRequest req) = normalizeWebhookRequest req ∧
  buildMessage (normalizeWebhookRequest req) = buildMessage req ∧
  (validWebhookRequest req = true → validWebhookRequest (normalizeWebhookRequest req) = true).
Proof.
  assert (normalizeWebhookRequest (normalizeWebhookRequest req) = normalizeWebhookRequest req) as Hid.
  { unfold normalizeWebhookRequest. simpl. rewrite !TrimSpace_idem. f_equal.
    unfold cloneWebhookMentions. rewrite map_map. apply map_ext. intros n. simpl.
    by rewrite !TrimSpace_idem. }
  split_and!; [done | unfold buildMessage; by rewrite Hid |].
  unfold validWebhookRequest. intros H. bool_props. simpl.
  assert (∀ v n, validOptionalMax v n = true → validOptionalMax (TrimSpace v) n = true) as Hopt.
  { intros v n Hv. apply Z.leb_le. by apply validOptionalMax_trim. }
  rewrite !andb_true_iff. split_and!; try done; try by apply Hopt.
  - unfold validWebhookText in *. simpl. by rewrite TrimSpace_idem.
  - unfold validOptionalMessageID, NormalizeMessageID in *. by rewrite TrimSpace_idem.
  - by apply Z.leb_le.
  - apply Forall_forallb, Forall_fmap.
    match goal with H : validWebhookMentions _ = true |- _ => apply Forall_forallb in H as Hm end.
    eapply Forall_impl; [exact Hm |]. intros n. simpl. by rewrite TrimSpace_idem.
Qed.
