(* ===== verification/WebhookHandler.v ===== *)
(** * WebhookHandler: webhook/handler.go, handler_options.go and the transport half of
    handler_validation.go

    One request through [ServeHTTP]: the header checks, the bounded body read, the signature, the
    nonce, the body's contract, and admission.  The handler runs in a state monad over the nonce
    store, the signer's pool, the counters, the admitter, the metrics and the response. *)

From S2P Require Import Prelude GoStrings GoStrconv GoCrypto GoHttp GoMime Canonical Hmac NonceStore.
From S2P Require Import WebhookMessage.

(** ** Configuration *)

Definition defaultAdmitTimeout : Z := 30 * Second.
Definition defaultNonceTimeout : Z := 200 * Millisecond.
Definition defaultMaxBodyBytes : Z := Z.shiftl 1 20.
Definition defaultReplayWindow : Z := 5 * Minute.

Record handlerOptions := mkHandlerOptions {
  opt_admitTimeout : Z;
  opt_nonceTimeout : Z;
  opt_maxBodyBytes : Z;
}.

Definition defaultHandlerOptions : handlerOptions :=
  mkHandlerOptions defaultAdmitTimeout defaultNonceTimeout defaultMaxBodyBytes.

Definition normalizeHandlerOptions (o : handlerOptions) : handlerOptions :=
  mkHandlerOptions
    (if opt_admitTimeout o <=? 0 then defaultAdmitTimeout else opt_admitTimeout o)
    (if opt_nonceTimeout o <=? 0 then defaultNonceTimeout else opt_nonceTimeout o)
    (if opt_maxBodyBytes o <=? 0 then defaultMaxBodyBytes else opt_maxBodyBytes o).

(** The fields of [Handler] that are fixed after construction. *)
Record Handler := mkHandler {
  h_token : gostring;
  h_replayWindow : Z;
  h_options : handlerOptions;
}.

(** The options a caller can pass; [None] is a nil option or a nil argument.  Logger, metrics and
    base context only choose where observations go. *)
Inductive HandlerOption (S : Type) :=
| WithWebhookToken (token : gostring)
| WithWebhookLogger
| WithContext
| WithMetrics
| WithNonceStore (store : option S)
| WithAdmitTimeout (d : Z)
| WithMaxBodyBytes (n : Z)
| WithNonceTimeout (d : Z).
Arguments WithWebhookToken {S}. Arguments WithWebhookLogger {S}. Arguments WithContext {S}.
Arguments WithMetrics {S}. Arguments WithNonceStore {S}. Arguments WithAdmitTimeout {S}.
Arguments WithMaxBodyBytes {S}. Arguments WithNonceTimeout {S}.

Definition apply_option {S} (h : Handler * option S) (o : HandlerOption S) : Handler * option S :=
  let '(mkHandler token window opts, store) := h in
  let with_opts o := (mkHandler token window o, store) in
  match o with
  | WithWebhookToken t => (mkHandler t window opts, store)
  | WithWebhookLogger | WithContext | WithMetrics => h
  | WithNonceStore (Some s) => (mkHandler token window opts, Some s)
  | WithNonceStore None => h
  | WithAdmitTimeout d =>
      with_opts (mkHandlerOptions d (opt_nonceTimeout opts) (opt_maxBodyBytes opts))
  | WithMaxBodyBytes n =>
      with_opts (mkHandlerOptions (opt_admitTimeout opts) (opt_nonceTimeout opts) n)
  | WithNonceTimeout d =>
      with_opts (mkHandlerOptions (opt_admitTimeout opts) d (opt_maxBodyBytes opts))
  end.

Inductive constructorError :=
| ErrMessageAdmitterRequired
| TokenRequired
| ErrNonceStoreRequired.

Definition NewDurableHandler {S} (admitter : bool) (opts : list (option (HandlerOption S)))
  : result constructorError (Handler * S) :=
  if negb admitter then Err ErrMessageAdmitterRequired
  else
    let h := (mkHandler [] defaultReplayWindow defaultHandlerOptions, None) in
    let '(h, store) := fold_left (λ h o, match o with Some o => apply_option h o | None => h end)
                         opts h in
    let token := TrimSpace (h_token h) in
    if is_empty token then Err TokenRequired
    else
      match store with
      | None => Err ErrNonceStoreRequired
      | Some s =>
          Ok (mkHandler token (h_replayWindow h) (normalizeHandlerOptions (h_options h)), s)
      end.

(** ** Requests *)

(** Why reading a request body can fail, as far as [statusForDecodeError] tells errors apart. *)
Inductive readError :=
| MaxBytesError
| DeadlineExceeded
| NetError (timeout : bool)
| OtherError.

(** What the server hands the handler: the request, the body as the connection will deliver it with
    the error that ends it, and the error of [Close]. *)
Record httpRequest := mkHttpRequest {
  hr_Method : gostring;
  hr_Host : gostring;
  hr_RequestURI : gostring;
  hr_Header : Header;
  hr_Body : gostring;
  hr_BodyErr : option readError;
  hr_CloseErr : option readError;
}.

(** When and how the run of one request meets the rest of the system: the clock at the header check
    and at the nonce check, the pool's pick, whether a close comes between the two looks at it in
    [admitMessage], and whether the request's context is over by then. *)
Record arrival := mkArrival {
  at_headers : Z;
  at_nonce : Z;
  at_pool : nat;
  at_closing : bool;
  at_ctx_done : bool;
}.

(** The admitter's verdict; [errors.Is(err, ErrAlreadyAdmitted)] is all the handler asks of it. *)
Inductive admitError := ErrAlreadyAdmitted | ErrAdmit.

Inductive metric :=
| ObserveRequest | ObserveUnauthorized | ObserveBadRequest | ObserveDuplicate
| ObserveEnqueueFailure | ObserveAccepted | ObserveDecodeLatency | ObserveHandlerDuration.

(** ** Pure checks *)

Definition isPOST (method : gostring) : bool := seqb method MethodPost.

Definition contentTypeJSON : gostring := go "application/json".

Definition isJSONContentType (contentType : gostring) : bool :=
  match ParseMediaType contentType with
  | None => false
  | Some mediaType => EqualFold mediaType contentTypeJSON
  end.

Definition hasSignatureHeaders (header : Header) : bool :=
  negb (is_empty (Header_Get header HeaderIrisTimestamp))
  || negb (is_empty (Header_Get header HeaderIrisNonce))
  || negb (is_empty (Header_Get header HeaderIrisSignature))
  || negb (is_empty (Header_Get header HeaderIrisBodySHA256))
  || negb (is_empty (Header_Get header HeaderIrisSignatureVersion)).

Inductive signatureVersionStatus :=
| signatureVersionAccepted
| signatureVersionUnknown
| signatureVersionMalformed.

Definition webhookSignatureVersion (header : Header) : gostring * signatureVersionStatus :=
  match Header_Values header HeaderIrisSignatureVersion with
  | [v] =>
      if is_empty v || negb (seqb (TrimSpace v) v) then ([], signatureVersionMalformed)
      else if seqb (ToLower v) SignatureVersionV3 then (SignatureVersionV3, signatureVersionAccepted)
      else ([], signatureVersionUnknown)
  | _ => ([], signatureVersionMalformed)
  end.

Definition signatureHeaderValues (header : Header)
  : gostring * gostring * gostring * gostring * bool :=
  let timestamp := TrimSpace (Header_Get header HeaderIrisTimestamp) in
  let nonce := TrimSpace (Header_Get header HeaderIrisNonce) in
  let signature := TrimSpace (Header_Get header HeaderIrisSignature) in
  let bodySHA256 := TrimSpace (Header_Get header HeaderIrisBodySHA256) in
  (timestamp, nonce, signature, bodySHA256,
   negb (is_empty timestamp) && negb (is_empty nonce) && negb (is_empty signature)
   && negb (is_empty bodySHA256)).

(** Times are exact nanoseconds: [time.Time] does not overflow on [UnixMilli] of any 64-bit value. *)
Definition timestampWithinReplayWindow (timestamp : gostring) (window now : Z) : bool :=
  match ParseInt timestamp with
  | None => false
  | Some timestampMs =>
      let signedAt := timestampMs * Millisecond in
      negb (signedAt <? now - window) && negb (now + window <? signedAt)
  end.

(** [(messageID, present, valid)]. *)
Definition normalizedMessageIDHeader (header : Header) : gostring * bool * bool :=
  match Header_Values header HeaderIrisMessageID with
  | [] => ([], false, true)
  | [v] =>
      match NormalizeMessageID v with
      | Some messageID => (messageID, negb (is_empty messageID), true)
      | None => ([], false, false)
      end
  | _ => ([], false, false)
  end.

Definition isBodyTooLarge (e : readError) : bool :=
  match e with MaxBytesError => true | _ => false end.

Definition statusForDecodeError (e : readError) : Z :=
  if isBodyTooLarge e then StatusRequestEntityTooLarge
  else match e with
       | DeadlineExceeded => StatusRequestTimeout
       | NetError true => StatusRequestTimeout
       | _ => StatusBadRequest
       end.

(** [crypto/subtle.ConstantTimeCompare] = 1. *)
Definition constantTimeEqualString (left right : gostring) : bool := seqb left right.

(** [io.ReadAll(http.MaxBytesReader(w, r.Body, n))] and [Close]. *)
Definition read_body (r : httpRequest) (n : Z) : result readError gostring :=
  let err := if n <? Z.of_nat (length (hr_Body r)) then Some MaxBytesError else hr_BodyErr r in
  let err := match err with None => hr_CloseErr r | Some _ => err end in
  match err with
  | Some e => Err e
  | None => Ok (hr_Body r)
  end.

Record hmacHeaders := mkHmacHeaders {
  hh_timestamp : gostring;
  hh_nonce : gostring;
  hh_signature : gostring;
  hh_bodySHA256 : gostring;
  hh_target : gostring;
  hh_messageID : gostring;
}.

Inductive hmacAuthOutcome := hmacAuthReject | hmacAuthAccept | hmacAuthUnavailable.

Inductive handlerError := errClosed | ErrContext | ErrAdmission (e : admitError).

(** ** The handler's world *)

Section handler.
Context {S : Type} `{SetOnceStore S} {A : Type} (AdmitMessage : A → Message → gostring → option admitError * A).

(** What a run of the handler reads and changes.  [w_calls] is the trace of [AdmitMessage] calls and
    [w_status] that of [WriteHeader] calls. *)
Record world := mkWorld {
  w_store : option S;
  w_signer : Signer;
  w_v3Validated : Z;
  w_unknown : Z;
  w_malformed : Z;
  w_closed : bool;
  w_admitter : A;
  w_calls : list (Message * gostring);
  w_metrics : list metric;
  w_status : list Z;
}.

Definition hM (X : Type) : Type := world → X * world.
#[global] Instance hM_ret : MRet hM := λ X x w, (x, w).
#[global] Instance hM_bind : MBind hM := λ X Y k m w, let '(x, w') := m w in k x w'.

Definition observe (m : metric) : hM unit := λ w,
  (tt, mkWorld (w_store w) (w_signer w) (w_v3Validated w) (w_unknown w) (w_malformed w) (w_closed w)
         (w_admitter w) (w_calls w) (w_metrics w ++ [m]) (w_status w)).

Definition WriteHeader (code : Z) : hM unit := λ w,
  (tt, mkWorld (w_store w) (w_signer w) (w_v3Validated w) (w_unknown w) (w_malformed w) (w_closed w)
         (w_admitter w) (w_calls w) (w_metrics w) (w_status w ++ [code])).

Definition count_v3 : hM unit := λ w,
  (tt, mkWorld (w_store w) (w_signer w) (uint64_inc (w_v3Validated w)) (w_unknown w) (w_malformed w)
         (w_closed w) (w_admitter w) (w_calls w) (w_metrics w) (w_status w)).

Definition count_unknown : hM unit := λ w,
  (tt, mkWorld (w_store w) (w_signer w) (w_v3Validated w) (uint64_inc (w_unknown w)) (w_malformed w)
         (w_closed w) (w_admitter w) (w_calls w) (w_metrics w) (w_status w)).

Definition count_malformed : hM unit := λ w,
  (tt, mkWorld (w_store w) (w_signer w) (w_v3Validated w) (w_unknown w) (uint64_inc (w_malformed w))
         (w_closed w) (w_admitter w) (w_calls w) (w_metrics w) (w_status w)).

Definition sign_with (choice : nat) (canonical : gostring) : hM gostring := λ w,
  let '(sig, signer) := Sign (w_signer w) choice canonical in
  (sig, mkWorld (w_store w) signer (w_v3Validated w) (w_unknown w) (w_malformed w) (w_closed w)
          (w_admitter w) (w_calls w) (w_metrics w) (w_status w)).

Definition call_admitter (msg : Message) (body : gostring) : hM (option admitError) := λ w,
  let '(e, a) := AdmitMessage (w_admitter w) msg body in
  (e, mkWorld (w_store w) (w_signer w) (w_v3Validated w) (w_unknown w) (w_malformed w) (w_closed w)
        a (w_calls w ++ [(msg, body)]) (w_metrics w) (w_status w)).

Definition get_closed : hM bool := λ w, (w_closed w, w).

(** ** Authentication *)

Definition nonceReplayTTL (h : Handler) : Z := 2 * h_replayWindow h.

(** The call of the store; [None] when there is no store. *)
Definition isNonceDuplicate (h : Handler) (e : arrival) (key : gostring)
  : hM (option (result storeError bool)) := λ w,
  match w_store w with
  | None => (None, w)
  | Some s =>
      let '(r, s') := IsDuplicate s (at_nonce e) key (nonceReplayTTL h) in
      (Some r, mkWorld (Some s') (w_signer w) (w_v3Validated w) (w_unknown w) (w_malformed w)
                 (w_closed w) (w_admitter w) (w_calls w) (w_metrics w) (w_status w))
  end.

Definition nonce_key (method target timestamp nonce : gostring) : gostring :=
  Join [x0a] [ToUpper method; target; timestamp; nonce].

Definition checkNonce (h : Handler) (e : arrival) (method target timestamp nonce : gostring)
  : hM hmacAuthOutcome :=
  r ← isNonceDuplicate h e (nonce_key method target timestamp nonce);
  mret match r with
       | None => hmacAuthReject
       | Some (Err _) => hmacAuthUnavailable
       | Some (Ok true) => hmacAuthReject
       | Some (Ok false) => hmacAuthAccept
       end.

Definition authorizeHMACHeaders (h : Handler) (e : arrival) (r : httpRequest)
  : hM (option hmacHeaders) :=
  match (webhookSignatureVersion (hr_Header r)).2 with
  | signatureVersionUnknown => count_unknown;; mret None
  | signatureVersionMalformed => count_malformed;; mret None
  | signatureVersionAccepted =>
      let '(timestamp, nonce, signature, bodySHA256, ok) := signatureHeaderValues (hr_Header r) in
      if negb ok || negb (timestampWithinReplayWindow timestamp (h_replayWindow h) (at_headers e))
      then mret None
      else
        match CanonicalTarget (hr_RequestURI r) with
        | Err _ => mret None
        | Ok target =>
            let '(messageID, present, valid) := normalizedMessageIDHeader (hr_Header r) in
            if negb valid || negb present then mret None
            else mret (Some (mkHmacHeaders timestamp nonce signature bodySHA256 target messageID))
        end
  end.

Definition authorizeHMACBody (h : Handler) (e : arrival) (r : httpRequest) (headers : hmacHeaders)
  (body : gostring) : hM hmacAuthOutcome :=
  let gotBodySHA256 := SHA256HexBytes body in
  if negb (constantTimeEqualString (hh_bodySHA256 headers) gotBodySHA256) then mret hmacAuthReject
  else
    match CanonicalWebhookRequestV3 (hr_Host r) (hr_Method r) (hh_target headers)
            (hh_timestamp headers) (hh_nonce headers) (hh_messageID headers) gotBodySHA256 with
    | Err _ => mret hmacAuthReject
    | Ok canonical =>
        expected ← sign_with (at_pool e) canonical;
        if negb (constantTimeEqualString (hh_signature headers) expected) then mret hmacAuthReject
        else
          count_v3;;
          checkNonce h e (hr_Method r) (hh_target headers) (hh_timestamp headers) (hh_nonce headers)
    end.

Definition bufferBodyForHMAC (h : Handler) (r : httpRequest) : hM (option gostring) :=
  match read_body r (opt_maxBodyBytes (h_options h)) with
  | Err err =>
      observe ObserveBadRequest;;
      WriteHeader (statusForDecodeError err);;
      mret None
  | Ok raw => mret (Some raw)
  end.

Definition unauthorized : hM (option gostring) :=
  observe ObserveUnauthorized;;
  WriteHeader StatusUnauthorized;;
  mret None.

Definition authorizeRequest (h : Handler) (e : arrival) (r : httpRequest) : hM (option gostring) :=
  if hasSignatureHeaders (hr_Header r) then
    headers ← authorizeHMACHeaders h e r;
    match headers with
    | None => unauthorized
    | Some headers =>
        body ← bufferBodyForHMAC h r;
        match body with
        | None => mret None
        | Some body =>
            outcome ← authorizeHMACBody h e r headers body;
            match outcome with
            | hmacAuthAccept => mret (Some body)
            | hmacAuthUnavailable => WriteHeader StatusServiceUnavailable;; mret None
            | hmacAuthReject => unauthorized
            end
        end
    end
  else unauthorized.

Definition acceptTransport (h : Handler) (e : arrival) (r : httpRequest) : hM (option gostring) :=
  if negb (isPOST (hr_Method r)) then WriteHeader StatusMethodNotAllowed;; mret None
  else
    body ← authorizeRequest h e r;
    match body with
    | None => mret None
    | Some body =>
        if negb (isJSONContentType (Header_Get (hr_Header r) (go "Content-Type")))
        then WriteHeader StatusUnsupportedMediaType;; mret None
        else mret (Some body)
    end.

(** ** Decoding and admission *)

(** Every decoding error is told apart from a too large or late body: it is a 400. *)
Definition decodeAndValidate (body : gostring) : hM (option WebhookRequest) :=
  observe ObserveDecodeLatency;;
  match parseWebhookRequest body with
  | Ok req => mret (Some req)
  | Err _ =>
      observe ObserveBadRequest;;
      WriteHeader (statusForDecodeError OtherError);;
      mret None
  end.

Definition reconcileMessageID (r : httpRequest) (req : WebhookRequest) : hM bool :=
  let '(headerID, headerPresent, valid) := normalizedMessageIDHeader (hr_Header r) in
  if negb valid || negb headerPresent || negb (seqb (wr_MessageID req) headerID) then
    observe ObserveBadRequest;;
    WriteHeader StatusBadRequest;;
    mret false
  else mret true.

Definition admitMessage (e : arrival) (msg : Message) (body : gostring) : hM (option handlerError) :=
  closed ← get_closed;
  if closed : bool then mret (Some errClosed)
  else if at_closing e then mret (Some errClosed)
  else if at_ctx_done e then mret (Some ErrContext)
  else
    err ← call_admitter msg body;
    mret match err with Some x => Some (ErrAdmission x) | None => None end.

Definition ServeHTTP (h : Handler) (e : arrival) (r : httpRequest) : hM unit :=
  observe ObserveRequest;;
  body ← acceptTransport h e r;
  match body with
  | None => mret tt
  | Some body =>
      req ← decodeAndValidate body;
      match req with
      | None => mret tt
      | Some req =>
          ok ← reconcileMessageID r req;
          if negb ok then mret tt
          else
            let msg := buildMessage req in
            err ← admitMessage e msg body;
            observe ObserveHandlerDuration;;
            match err with
            | Some (ErrAdmission ErrAlreadyAdmitted) =>
                observe ObserveDuplicate;; WriteHeader StatusOK
            | Some _ => observe ObserveEnqueueFailure;; WriteHeader StatusServiceUnavailable
            | None => observe ObserveAccepted;; WriteHeader StatusOK
            end
      end
  end.

Definition SignatureVersionDiagnostics (w : world) : Z * Z * Z :=
  (w_v3Validated w, w_unknown w, w_malformed w).

(** A sequence of requests. *)
Fixpoint serve_all (h : Handler) (l : list (arrival * httpRequest)) (w : world) : world :=
  match l with
  | [] => w
  | (e, r) :: rest => serve_all h rest (ServeHTTP h e r w).2
  end.

End handler.
Arguments world S A : clear implicits.

(** ** The contract, as a decision table *)

(** What the headers alone decide. *)
Definition signed_headers (h : Handler) (e : arrival) (r : httpRequest) : option hmacHeaders :=
  match (webhookSignatureVersion (hr_Header r)).2 with
  | signatureVersionAccepted =>
      let '(timestamp, nonce, signature, bodySHA256, ok) := signatureHeaderValues (hr_Header r) in
      if ok && timestampWithinReplayWindow timestamp (h_replayWindow h) (at_headers e) then
        match CanonicalTarget (hr_RequestURI r), normalizedMessageIDHeader (hr_Header r) with
        | Ok target, (messageID, true, true) =>
            Some (mkHmacHeaders timestamp nonce signature bodySHA256 target messageID)
        | _, _ => None
        end
      else None
  | _ => None
  end.

(** Whether the signature covers this authority, method, target, time, nonce, message ID and body. *)
Definition signature_ok (h : Handler) (r : httpRequest) (hh : hmacHeaders) (body : gostring) : bool :=
  seqb (hh_bodySHA256 hh) (SHA256HexBytes body) &&
  match CanonicalWebhookRequestV3 (hr_Host r) (hr_Method r) (hh_target hh) (hh_timestamp hh)
          (hh_nonce hh) (hh_messageID hh) (SHA256HexBytes body) with
  | Ok canonical => seqb (hh_signature hh) (sign_hex (h_token h) canonical)
  | Err _ => false
  end.

Definition request_key (r : httpRequest) (hh : hmacHeaders) : gostring :=
  nonce_key (hr_Method r) (hh_target hh) (hh_timestamp hh) (hh_nonce hh).

Section spec.
Context {S : Type} `{SetOnceStore S} {A : Type} (AdmitMessage : A → Message → gostring → option admitError * A).

(** What the contract keeps of the handler: the store, the admitter and whether it is closed. *)
Record astate := mkAState {
  a_store : option S;
  a_admitter : A;
  a_closed : bool;
}.

Definition abs (w : world S A) : astate := mkAState (w_store w) (w_admitter w) (w_closed w).

(** The visible effect of one request: the status, the state after it and the admitter calls. *)
Record effect := mkEffect {
  ef_status : Z;
  ef_state : astate;
  ef_calls : list (Message * gostring);
}.

Definition set_store (a : astate) (s : option S) : astate := mkAState s (a_admitter a) (a_closed a).
Definition set_admitter (a : astate) (x : A) : astate := mkAState (a_store a) x (a_closed a).

(** Admission of a decoded body. *)
Definition spec_admit (e : arrival) (a : astate) (m : Message) (body : gostring) : effect :=
  if a_closed a || at_closing e || at_ctx_done e
  then mkEffect StatusServiceUnavailable a []
  else
    match AdmitMessage (a_admitter a) m body with
    | (None, x) => mkEffect StatusOK (set_admitter a x) [(m, body)]
    | (Some ErrAlreadyAdmitted, x) => mkEffect StatusOK (set_admitter a x) [(m, body)]
    | (Some ErrAdmit, x) => mkEffect StatusServiceUnavailable (set_admitter a x) [(m, body)]
    end.

(** An authenticated body. *)
Definition spec_body (e : arrival) (r : httpRequest) (a : astate) (hh : hmacHeaders)
  (body : gostring) : effect :=
  if negb (isJSONContentType (Header_Get (hr_Header r) (go "Content-Type")))
  then mkEffect StatusUnsupportedMediaType a []
  else
    match parseWebhookRequest body with
    | Err _ => mkEffect StatusBadRequest a []
    | Ok req =>
        if negb (seqb (wr_MessageID req) (hh_messageID hh)) then mkEffect StatusBadRequest a []
        else spec_admit e a (buildMessage req) body
    end.

(** The nonce of a correctly signed request. *)
Definition spec_nonce (h : Handler) (e : arrival) (r : httpRequest) (a : astate) (hh : hmacHeaders)
  (body : gostring) : effect :=
  match a_store a with
  | None => mkEffect StatusUnauthorized a []
  | Some s =>
      let '(reply, s') := IsDuplicate s (at_nonce e) (request_key r hh) (nonceReplayTTL h) in
      let a' := set_store a (Some s') in
      match reply with
      | Err _ => mkEffect StatusServiceUnavailable a' []
      | Ok true => mkEffect StatusUnauthorized a' []
      | Ok false => spec_body e r a' hh body
      end
  end.

Definition serve_spec (h : Handler) (e : arrival) (r : httpRequest) (a : astate) : effect :=
  if negb (isPOST (hr_Method r)) then mkEffect StatusMethodNotAllowed a []
  else
    match signed_headers h e r with
    | None => mkEffect StatusUnauthorized a []
    | Some hh =>
        match read_body r (opt_maxBodyBytes (h_options h)) with
        | Err err => mkEffect (statusForDecodeError err) a []
        | Ok body =>
            if negb (signature_ok h r hh body) then mkEffect StatusUnauthorized a []
            else spec_nonce h e r a hh body
        end
    end.

(** The handler's own signer holds only MACs of its token. *)
Definition world_ok (h : Handler) (w : world S A) : Prop :=
  signer_key (w_signer w) = h_token h ∧ signer_ok (w_signer w).

(** A run that ends in [w'] has the effect [ef] on [w]. *)
Definition has_effect (h : Handler) (w : world S A) (ef : effect) (w' : world S A) : Prop :=
  w_status w' = w_status w ++ [ef_status ef] ∧ abs w' = ef_state ef ∧
  w_calls w' = w_calls w ++ ef_calls ef ∧ world_ok h w'.

Lemma signed_headers_present h e r hh :
  signed_headers h e r = Some hh → hasSignatureHeaders (hr_Header r) = true.
Proof.
  unfold signed_headers, webhookSignatureVersion, hasSignatureHeaders, Header_Get.
  destruct (Header_Values (hr_Header r) HeaderIrisSignatureVersion) as [|v [|]]; try done.
  intros Hs. destruct v; [done |]. cbn [is_empty]. by rewrite !orb_true_r.
Qed.

Lemma authorizeHMACHeaders_spec h e r (w : world S A) :
  ∃ w', authorizeHMACHeaders h e r w = (signed_headers h e r, w') ∧
    w_status w' = w_status w ∧ w_store w' = w_store w ∧ w_admitter w' = w_admitter w ∧
    w_calls w' = w_calls w ∧ w_closed w' = w_closed w ∧ w_signer w' = w_signer w.
Proof.
  unfold authorizeHMACHeaders, signed_headers.
  destruct (webhookSignatureVersion (hr_Header r)).2; [|by eexists..].
  destruct (signatureHeaderValues (hr_Header r)) as [[[[ts n] sig] sha] ok].
  destruct ok, (timestampWithinReplayWindow _ _ _); simpl; try by eexists.
  destruct (CanonicalTarget (hr_RequestURI r)); [|by eexists].
  destruct (normalizedMessageIDHeader _) as [[id [|]] [|]]; by eexists.
Qed.

(** The outcome of the body checks, and what they leave behind. *)
Lemma authorizeHMACBody_spec h e r hh body (w : world S A) :
  world_ok h w →
  ∃ w',
    (if signature_ok h r hh body then
       match w_store w with
       | None => authorizeHMACBody h e r hh body w = (hmacAuthReject, w') ∧ w_store w' = None
       | Some s =>
           let '(reply, s') := IsDuplicate s (at_nonce e) (request_key r hh) (nonceReplayTTL h) in
           authorizeHMACBody h e r hh body w =
             (match reply with
              | Err _ => hmacAuthUnavailable | Ok true => hmacAuthReject | Ok false => hmacAuthAccept
              end, w') ∧ w_store w' = Some s'
       end
     else authorizeHMACBody h e r hh body w = (hmacAuthReject, w') ∧ w_store w' = w_store w) ∧
    w_status w' = w_status w ∧ w_admitter w' = w_admitter w ∧ w_calls w' = w_calls w ∧
    w_closed w' = w_closed w ∧ world_ok h w'.
Proof.
  intros [Hk Hs]. unfold authorizeHMACBody, signature_ok, constantTimeEqualString.
  destruct (seqb (hh_bodySHA256 hh) _); simpl; [|by exists w].
  destruct (CanonicalWebhookRequestV3 _ _ _ _ _ _ _) as [c|]; [|by exists w].
  destruct (Sign_spec (w_signer w) (at_pool e) c Hs) as (Hsig & Hkey & Hok). rewrite Hk in *.
  unfold mbind, hM_bind, sign_with. destruct (Sign (w_signer w) (at_pool e) c) as [sig signer].
  simpl in Hsig, Hkey, Hok. cbv beta iota. rewrite Hsig.
  destruct (seqb (hh_signature hh) _); simpl; [|eexists; split; [split; [reflexivity | done] | done]].
  unfold checkNonce, isNonceDuplicate, request_key, mbind, hM_bind, mret, hM_ret. simpl.
  destruct (w_store w) as [s|]; [|eexists; split; [split; [reflexivity | done] | done]].
  destruct (IsDuplicate s _ _ _) as [[[]|] s']; (eexists; split; [split; [reflexivity | done] | done]).
Qed.

Lemma reconcile_signed h e r hh req (w : world S A) :
  signed_headers h e r = Some hh →
  reconcileMessageID r req w =
    if seqb (wr_MessageID req) (hh_messageID hh) then (true, w)
    else (false, (WriteHeader StatusBadRequest (observe ObserveBadRequest w).2).2).
Proof.
  unfold signed_headers, reconcileMessageID. intros Hs.
  destruct (webhookSignatureVersion (hr_Header r)).2; try done.
  destruct (signatureHeaderValues (hr_Header r)) as [[[[ts n] sig] sha] ok].
  destruct (_ && _); [|done]. destruct (CanonicalTarget (hr_RequestURI r)); [|done].
  destruct (normalizedMessageIDHeader _) as [[id [|]] [|]]; try done. simplify_eq. simpl.
  by destruct (seqb (wr_MessageID req) id).
Qed.

(** The part of [ServeHTTP] that follows authentication. *)
Lemma serve_body_effect h e r hh body (w w1 : world S A) :
  signed_headers h e r = Some hh → w_status w1 = w_status w → w_calls w1 = w_calls w →
  world_ok h w1 → isJSONContentType (Header_Get (hr_Header r) (go "Content-Type")) = true →
  has_effect h w (spec_body e r (abs w1) hh body)
    ((req ← decodeAndValidate body;
      match req with
      | None => mret tt
      | Some req =>
          ok ← reconcileMessageID r req;
          if negb ok then mret tt
          else
            let msg := buildMessage req in
            err ← admitMessage AdmitMessage e msg body;
            observe ObserveHandlerDuration;;
            match err with
            | Some (ErrAdmission ErrAlreadyAdmitted) =>
                observe ObserveDuplicate;; WriteHeader StatusOK
            | Some _ => observe ObserveEnqueueFailure;; WriteHeader StatusServiceUnavailable
            | None => observe ObserveAccepted;; WriteHeader StatusOK
            end
      end) w1).2.
Proof.
  intros Hh Hst Hc [Hk Hok] Hct. unfold spec_body. rewrite Hct. cbn [negb].
  unfold decodeAndValidate, mbind, hM_bind.
  destruct (parseWebhookRequest body) as [req|err]; simpl.
  2:{ unfold has_effect, world_ok. simpl. by rewrite Hst, Hc, app_nil_r. }
  rewrite (reconcile_signed h e r hh) by done.
  destruct (seqb (wr_MessageID req) (hh_messageID hh)); simpl.
  2:{ unfold has_effect, world_ok. simpl. by rewrite Hst, Hc, app_nil_r. }
  unfold spec_admit, admitMessage, get_closed, call_admitter, mbind, hM_bind, mret, hM_ret, abs. simpl.
  destruct (w_closed w1) eqn:Ecl, (at_closing e), (at_ctx_done e); simpl;
    unfold has_effect, world_ok, abs; simpl; try by rewrite Hst, Hc, ?Ecl, app_nil_r.
  destruct (AdmitMessage (w_admitter w1) (buildMessage req) body) as [[[]|] a]; simpl;
    by rewrite Hst, Hc, ?Ecl.
Qed.

Lemma answer_effect h code (w w' : world S A) a :
  world_ok h w' → w_status w' = w_status w ++ [code] → w_calls w' = w_calls w → abs w' = a →
  has_effect h w (mkEffect code a []) w'.
Proof. intros. unfold has_effect. simpl. rewrite app_nil_r. by split_and!. Qed.

Lemma serve_refines h e r (w : world S A) :
  world_ok h w → has_effect h w (serve_spec h e r (abs w)) (ServeHTTP AdmitMessage h e r w).2.
Proof.
  intros Hw. unfold ServeHTTP, acceptTransport, serve_spec.
  unfold mbind, hM_bind. unfold observe at 1. cbv beta iota.
  set (w0 := mkWorld _ _ _ _ _ _ _ _ _ _).
  assert (world_ok h w0) as Hw0 by done.
  destruct (isPOST (hr_Method r)); cbn [negb]; [|by apply answer_effect].
  unfold authorizeRequest. destruct (hasSignatureHeaders (hr_Header r)) eqn:Hsh.
  2:{ destruct (signed_headers h e r) eqn:E; [|by apply answer_effect].
      apply signed_headers_present in E. congruence. }
  unfold mbind, hM_bind. cbv beta iota.
  destruct (authorizeHMACHeaders_spec h e r w0) as (w1 & -> & Hst & Hsto & Had & Hc & Hcl & Hsg).
  assert (world_ok h w1) as Hw1 by (unfold world_ok; by rewrite Hsg).
  assert (abs w1 = abs w) as Habs by (unfold abs; by rewrite Hsto, Had, Hcl).
  destruct (signed_headers h e r) as [hh|] eqn:Ehh.
  2:{ apply answer_effect; [done | simpl; by rewrite Hst | done..]. }
  unfold bufferBodyForHMAC. destruct (read_body r _) as [body|err].
  2:{ apply answer_effect; [done | simpl; by rewrite Hst | done..]. }
  unfold mret, hM_ret, mbind, hM_bind. cbv beta iota.
  destruct (authorizeHMACBody_spec h e r hh body w1 Hw1) as (w2 & Hb & Hst2 & Had2 & Hc2 & Hcl2 & Hw2).
  assert (w_status w2 = w_status w) as Hst' by (by rewrite Hst2, Hst).
  assert (w_calls w2 = w_calls w) as Hc' by (by rewrite Hc2, Hc).
  assert (∀ s, w_store w2 = s → abs w2 = set_store (abs w) s) as Habs2.
  { intros s <-. unfold abs, set_store. simpl. by rewrite Had2, Had, Hcl2, Hcl. }
  rewrite Hsto in Hb. change (w_store w0) with (a_store (abs w)) in Hb. unfold spec_nonce.
  destruct (signature_ok h r hh body); cbn [negb].
  2:{ destruct Hb as [-> Hsto2%Habs2]. apply answer_effect; [done | simpl; by rewrite Hst' | done..]. }
  destruct (a_store (abs w)) as [s|] eqn:Es.
  2:{ destruct Hb as [-> Hsto2%Habs2]. rewrite <- Es in Hsto2.
      apply answer_effect; [done | simpl; by rewrite Hst' | done..]. }
  destruct (IsDuplicate s _ _ _) as [reply s']. destruct Hb as [-> Hsto2%Habs2].
  destruct reply as [[]|];
    try (apply answer_effect; [done | simpl; by rewrite Hst' | done..]).
  rewrite <- Hsto2. destruct (isJSONContentType _) eqn:Ect; cbn [negb].
  - by apply (serve_body_effect h e r hh body w w2).
  - unfold spec_body. rewrite Ect. apply answer_effect; [done | simpl; by rewrite Hst' | done..].
Qed.
End spec.
