(* ===== verification/WebhookContract.v ===== *)
(** * WebhookContract: what the webhook handler guarantees

    The theorems on [ServeHTTP]: it refines the decision table of WebhookHandler.v over every
    sequence of requests; 200 means durable admission; only authentic requests are admitted, at most
    once; outages are retryable; what [SignRequest] signs is accepted. *)

From S2P Require Import Prelude GoStrings GoStrconv GoCrypto GoHttp Canonical Hmac NonceStore.
From S2P Require Import WebhookSign WebhookMessage WebhookHandler.

(** ** Refinement over sequences of requests *)

Section refinement.
Context {S : Type} `{SetOnceStore S} {A : Type} (AdmitMessage : A → Message → gostring → option admitError * A).

(** The contract run on a sequence: the statuses, the admitter calls and the final state. *)
Fixpoint spec_all (h : Handler) (l : list (arrival * httpRequest)) (a : astate)
  : list Z * list (Message * gostring) * astate (S := S) (A := A) :=
  match l with
  | [] => ([], [], a)
  | (e, r) :: rest =>
      let ef := serve_spec AdmitMessage h e r a in
      let '(codes, calls, a') := spec_all h rest (ef_state ef) in
      (ef_status ef :: codes, ef_calls ef ++ calls, a')
  end.

Lemma serve_all_spec h l (w : world S A) :
  world_ok h w →
  let w' := serve_all AdmitMessage h l w in
  let '(codes, calls, a') := spec_all h l (abs w) in
  w_status w' = w_status w ++ codes ∧ w_calls w' = w_calls w ++ calls ∧ abs w' = a' ∧ world_ok h w'.
Proof.
  revert w. induction l as [|[e r] l IH]; intros w Hw; simpl; [by rewrite !app_nil_r |].
  destruct (serve_refines AdmitMessage h e r w Hw) as (Hst & Ha & Hc & Hw').
  specialize (IH _ Hw'). rewrite Ha in IH.
  destruct (spec_all h l _) as [[codes calls] a']. destruct IH as (-> & -> & ? & ?).
  rewrite Hst, Hc, <- !app_assoc. done.
Qed.
End refinement.

(** C1: the handler refines its contract.  For every sequence of requests, every clock, pool pick and
    interleaved close, and every store and admitter, [ServeHTTP] writes exactly the statuses, makes
    exactly the admitter calls and leaves exactly the store and admitter states of the decision table
    (405, 401, body-read status, 401, nonce verdict, 415, 400, 503 or 200, in this order), one status
    per request. *)
Theorem handler_refines_contract {S : Type} `{SetOnceStore S} {A : Type}
    (AdmitMessage : A → Message → gostring → option admitError * A) (h : Handler)
    (l : list (arrival * httpRequest)) (w : world S A) :
  world_ok h w →
  let w' := serve_all AdmitMessage h l w in
  let '(codes, calls, a') := spec_all AdmitMessage h l (abs w) in
  w_status w' = w_status w ++ codes ∧ length codes = length l ∧
  w_calls w' = w_calls w ++ calls ∧ abs w' = a'.
Proof.
  intros Hw. pose proof (serve_all_spec AdmitMessage h l w Hw) as Hs. cbv zeta in Hs |- *.
  assert (length (spec_all AdmitMessage h l (abs w)).1.1 = length l) as Hlen.
  { generalize (abs w). induction l as [|[e r] l IH]; intros a; [done |]. simpl.
    specialize (IH (serve_all_spec AdmitMessage h l w Hw) (ef_state (serve_spec AdmitMessage h e r a))).
    destruct (spec_all AdmitMessage h l _) as [[??]?]. simpl in *. by rewrite IH. }
  destruct (spec_all AdmitMessage h l (abs w)) as [[codes calls] a']. simpl in Hlen.
  destruct Hs as (? & ? & ? & _). by split_and!.
Qed.

(** ** 200 means durable *)

Section durable.
Context {S : Type} `{SetOnceStore S} {A : Type} (AdmitMessage : A → Message → gostring → option admitError * A).

Implicit Types a : astate (S := S) (A := A).

Lemma read_body_ok r n body :
  read_body r n = Ok body →
  body = hr_Body r ∧ Z.of_nat (length body) ≤ n ∧ hr_BodyErr r = None ∧ hr_CloseErr r = None.
Proof.
  unfold read_body. destruct (_ <? _) eqn:E; [done |].
  destruct (hr_BodyErr r); [done |]. destruct (hr_CloseErr r); [done |].
  intros Hb. inv_ok. subst. by bool_props.
Qed.

(** The requests that get past authentication, with what they carried. *)
Record authenticated (h : Handler) (e : arrival) (r : httpRequest) a (hh : hmacHeaders) (s s' : S)
    : Prop := {
  au_post : hr_Method r = MethodPost;
  au_headers : signed_headers h e r = Some hh;
  au_body : read_body r (opt_maxBodyBytes (h_options h)) = Ok (hr_Body r);
  au_signature : signature_ok h r hh (hr_Body r) = true;
  au_store : a_store a = Some s;
  au_new : IsDuplicate s (at_nonce e) (request_key r hh) (nonceReplayTTL h) = (Ok false, s');
}.

(** Either a request is authenticated and its body is judged, or nothing is admitted, no 200 is
    written, and a record the store holds stays. *)
Lemma serve_spec_cases h e r a :
  (∃ hh s s', authenticated h e r a hh s s' ∧
     serve_spec AdmitMessage h e r a = spec_body AdmitMessage e r (set_store a (Some s')) hh (hr_Body r)) ∨
  (ef_status (serve_spec AdmitMessage h e r a) ≠ StatusOK ∧
   ef_calls (serve_spec AdmitMessage h e r a) = [] ∧
   (∀ s, a_store a = Some s → ∃ s', a_store (ef_state (serve_spec AdmitMessage h e r a)) = Some s' ∧
      ∀ k u, holds s k u → holds s' k u)).
Proof.
  unfold serve_spec. destruct (isPOST (hr_Method r)) eqn:Ep; simpl; [|right; by eauto].
  apply seqb_true in Ep.
  destruct (signed_headers h e r) as [hh|] eqn:Eh; [|right; by eauto].
  destruct (read_body r _) as [body|err] eqn:Eb; [|].
  2:{ right. split_and!; [|done | by eauto]. simpl. unfold statusForDecodeError.
      by destruct (isBodyTooLarge err), err as [| |[]|]. }
  pose proof (read_body_ok _ _ _ Eb) as (-> & _).
  destruct (signature_ok h r hh (hr_Body r)) eqn:Es; simpl; [|right; by eauto].
  unfold spec_nonce. destruct (a_store a) as [s|] eqn:Est; [|right; by eauto].
  pose proof (IsDuplicate_keeps s (at_nonce e) (request_key r hh) (nonceReplayTTL h)) as Hk.
  destruct (IsDuplicate s _ _ _) as [[[]|] s'] eqn:Ed; simpl in Hk.
  - right. split_and!; [done | done |]. intros ? [= <-]. eauto.
  - left. exists hh, s, s'. done.
  - right. split_and!; [done | done |]. intros ? [= <-]. eauto.
Qed.

Lemma serve_spec_authenticated h e r a hh s s' :
  authenticated h e r a hh s s' →
  serve_spec AdmitMessage h e r a = spec_body AdmitMessage e r (set_store a (Some s')) hh (hr_Body r).
Proof.
  intros [Hm Hh Hb Hs Hst Hnew]. unfold serve_spec, isPOST. rewrite Hm, seqb_refl, Hh, Hb, Hs.
  cbn [negb]. unfold spec_nonce. by rewrite Hst, Hnew.
Qed.

(** A judged body: its call, its status and its store. *)
Lemma spec_body_cases e r a hh body :
  let ef := spec_body AdmitMessage e r a hh body in
  a_store (ef_state ef) = a_store a ∧
  ((ef_status ef ≠ StatusOK ∧ ef_calls ef = []) ∨
   (∃ m req, parseWebhookRequest body = Ok req ∧ m = buildMessage req ∧
      wr_MessageID req = hh_messageID hh ∧ a_closed a = false ∧ ef_calls ef = [(m, body)] ∧
      (ef_status ef = StatusOK ↔ (AdmitMessage (a_admitter a) m body).1 ≠ Some ErrAdmit))).
Proof.
  unfold spec_body. destruct (isJSONContentType _); simpl; [|by auto].
  destruct (parseWebhookRequest body) as [req|]; [|by auto].
  destruct (seqb _ _) eqn:Eid; simpl; [|by auto]. apply seqb_true in Eid.
  unfold spec_admit. destruct (a_closed a) eqn:Ec, (at_closing e), (at_ctx_done e); simpl; auto.
  destruct (AdmitMessage _ _ _) as [[[]|] x] eqn:Ea; simpl; (split; [done |]); right;
    eexists _, req; rewrite Ea; by split_and!.
Qed.

Lemma DecodeMessage_parse body req :
  parseWebhookRequest body = Ok req → DecodeMessage body = Ok (buildMessage req).
Proof. unfold DecodeMessage. by intros ->. Qed.
End durable.

(** 200 means durable.  A request is answered with one status; the status is 200 exactly when
    the admitter was called with the message [DecodeMessage] gives for the request's body and that
    very body, and the admitter answered nil or already-admitted.  A closed handler admits nothing. *)
Theorem ok_iff_admitted {S : Type} `{SetOnceStore S} {A : Type}
    (AdmitMessage : A → Message → gostring → option admitError * A) (h : Handler) (e : arrival)
    (r : httpRequest) (w : world S A) :
  world_ok h w →
  let w' := (ServeHTTP AdmitMessage h e r w).2 in
  ∃ code, w_status w' = w_status w ++ [code] ∧
    (code = StatusOK ↔ ∃ m, DecodeMessage (hr_Body r) = Ok m ∧ w_closed w = false ∧
       w_calls w' = w_calls w ++ [(m, hr_Body r)] ∧
       (AdmitMessage (w_admitter w) m (hr_Body r)).1 ≠ Some ErrAdmit).
Proof.
  intros Hw. destruct (serve_refines AdmitMessage h e r w Hw) as (Hst & Ha & Hc & _).
  cbv zeta. eexists. split; [exact Hst |]. rewrite Hc.
  destruct (serve_spec_cases AdmitMessage h e r (abs w)) as [(hh & s & s' & Hau & ->)|(Hne & Hnil & _)].
  2:{ split; [done |]. intros (m & _ & _ & Hcalls & _). apply app_inv_head in Hcalls. by rewrite Hnil in Hcalls. }
  destruct (spec_body_cases AdmitMessage e r (set_store (abs w) (Some s')) hh (hr_Body r))
    as [_ [[Hne Hnil]|(m & req & Hp & -> & _ & Hcl & Hcalls & Hok)]].
  - split; [done |]. intros (m & _ & _ & Hcalls & _). apply app_inv_head in Hcalls. by rewrite Hnil in Hcalls.
  - rewrite Hok. simpl. split.
    + intros Hadm. exists (buildMessage req). rewrite Hcalls.
      split_and!; [by apply DecodeMessage_parse | done..].
    + intros (m & Hd & _ & Heq & Hadm). apply app_inv_head in Heq. rewrite Hcalls in Heq. by simplify_eq.
Qed.

(** ** The replay window *)

Lemma window_iff (timestamp : gostring) (window now : Z) :
  timestampWithinReplayWindow timestamp window now = true ↔
  ∃ ms, ParseInt timestamp = Some ms ∧ Z.abs (ms * Millisecond - now) ≤ window.
Proof.
  unfold timestampWithinReplayWindow. destruct (ParseInt timestamp) as [ms|].
  - rewrite andb_true_iff, !negb_true_iff, !Z.ltb_ge. split.
    + intros [??]. exists ms. split; [done | lia].
    + intros (ms' & [= <-] & ?). lia.
  - split; [done |]. by intros (? & ? & _).
Qed.

(** The time check accepts exactly the decimal 64-bit timestamps whose time in milliseconds lies
    within the window on either side of now, with no wrap-around for extreme values. *)
Theorem window_exact (timestamp : gostring) (window now : Z) :
  timestampWithinReplayWindow timestamp window now = true ↔
  ∃ ms, ParseInt timestamp = Some ms ∧ Z.abs (ms * Millisecond - now) ≤ window
    ∧ MinInt64 ≤ ms ≤ MaxInt64.
Proof.
  rewrite window_iff. split.
  - intros (ms & Hms & Hw). exists ms. split_and!; [done..| |]; by eapply ParseInt_range.
  - intros (ms & Hms & Hw & _). by exists ms.
Qed.

(** ** Construction *)

(** The handlers [NewDurableHandler] can return. *)
Definition constructed {S} (h : Handler) (s : S) : Prop :=
  ∃ opts, NewDurableHandler true opts = Ok (h, s).

Lemma apply_options_window {S} (opts : list (option (HandlerOption S))) hs :
  h_replayWindow (fold_left (λ h o, match o with Some o => apply_option h o | None => h end) opts hs).1
  = h_replayWindow hs.1.
Proof.
  revert hs. induction opts as [|o opts IH]; intros hs; [done |]. simpl. rewrite IH.
  destruct o as [o|]; [|done]. destruct hs as [[token window os] st]. by destruct o as [| | | |[] | | |].
Qed.

Lemma constructed_spec {S} h (s : S) :
  constructed h s →
  h_token h ≠ [] ∧ trimmed (h_token h) ∧ h_replayWindow h = defaultReplayWindow ∧
  0 < opt_admitTimeout (h_options h) ∧ 0 < opt_nonceTimeout (h_options h) ∧
  0 < opt_maxBodyBytes (h_options h).
Proof.
  intros [opts Hn]. unfold NewDurableHandler in Hn. cbn [negb] in Hn.
  pose proof (apply_options_window opts (mkHandler [] defaultReplayWindow defaultHandlerOptions, None)) as Hw.
  destruct (fold_left _ opts _) as [h0 st]. simpl in Hw.
  destruct (is_empty (TrimSpace (h_token h0))) eqn:Et; [done |]. destruct st; [|done].
  bool_props. inv_ok. simplify_eq. simpl. split_and!; [done | apply TrimSpace_trimmed | done |..];
    (destruct (_ <=? _) eqn:E; bool_props; [by vm_compute | done]).
Qed.

(** The constructor's contract.  A handler exists only with an admitter, a non-blank token and an
    explicit nonce store; it then has a trimmed token, the five minute window, and positive timeouts
    and body limit, whatever options were passed and in whatever order. *)
Theorem constructor_contract {S : Type} (admitter : bool) (opts : list (option (HandlerOption S)))
    (h : Handler) (s : S) :
  NewDurableHandler admitter opts = Ok (h, s) →
  admitter = true ∧ h_token h ≠ [] ∧ trimmed (h_token h) ∧ h_replayWindow h = 5 * Minute ∧
  0 < opt_admitTimeout (h_options h) ∧ 0 < opt_nonceTimeout (h_options h) ∧
  0 < opt_maxBodyBytes (h_options h) ∧ ∃ o, Some (WithNonceStore o) ∈ opts ∧ o = Some s.
Proof.
  intros Hn. destruct admitter; [|done].
  destruct (constructed_spec h s (ex_intro _ _ Hn)) as (H1 & H2 & H3 & H4 & H5 & H6).
  split_and!; try done. unfold NewDurableHandler in Hn. cbn [negb] in Hn.
  assert (∀ (opts : list (option (HandlerOption S))) hs s',
    (fold_left (λ h o, match o with Some o => apply_option h o | None => h end) opts hs).2 = Some s' →
    hs.2 = Some s' ∨ Some (WithNonceStore (Some s')) ∈ opts) as Hst.
  { clear. induction opts as [|o opts IH]; intros hs s' Hf; [by left |]. simpl in Hf.
    apply IH in Hf as [Hf|Hf]; [|by right; right].
    destruct o as [o|]; [|by left]. destruct hs as [[token window os] st].
    destruct o as [| | | |[x|] | | |]; simpl in Hf |- *; auto. right. simplify_eq. left. }
  specialize (Hst opts (mkHandler [] defaultReplayWindow defaultHandlerOptions, None) s).
  destruct (fold_left _ opts _) as [h0 st]. destruct (is_empty _); [done |]. destruct st; [|done].
  inv_ok. simplify_eq. exists (Some s). split; [|done]. destruct (Hst eq_refl) as [|]; [done | done].
Qed.

(** ** A concrete deployment *)

Definition demo_token : gostring := go "webhook-secret".

Definition demo_options : list (option (HandlerOption valkey)) :=
  [Some (WithWebhookToken (go " webhook-secret ")); None; Some (WithMaxBodyBytes 0);
   Some (WithNonceStore (Some demo_valkey))].

Definition demo_handler : Handler :=
  mkHandler demo_token defaultReplayWindow defaultHandlerOptions.

(** An admitter that counts, and refuses nothing. *)
Definition counting_admitter (n : nat) (_ : Message) (_ : gostring) : option admitError * nat :=
  (None, Datatypes.S n).

Definition demo_world : world valkey nat :=
  mkWorld (Some demo_valkey) (NewSigner demo_token) 0 0 0 false 0%nat [] [] [].

Definition demo_outgoing : Request :=
  mkRequest MethodPost (Some (mkURL (go "Hook.Example:8443") (go "/webhook/iris?b=2&a=1"))) []
    (Some {[ go "x-iris-message-id" := [go "kakao-1"]; go "Content-Type" := [go "application/json"] ]})
    [] None 0.

(** The request on the wire: what [signRequest] made, with canonical header keys. *)
Definition on_wire (r : Request) : httpRequest :=
  mkHttpRequest (req_Method r)
    (match req_Host r, req_URL r with [], Some u => url_Host u | x, _ => x end)
    (match req_URL r with Some u => url_RequestURI u | None => [] end)
    (default ∅ (req_Header r)) (req_Body r) None None.

(** Signed for ten minutes past the epoch. *)
Definition demo_request : httpRequest :=
  match signRequest (Some demo_outgoing) demo_token demo_body (go "600000") (go "n-1") with
  | Ok r => on_wire r
  | Err _ => on_wire demo_outgoing
  end.

Definition demo_arrival (headers nonce : Z) : arrival := mkArrival headers nonce 0 false false.

Lemma demo_world_ok : world_ok demo_handler demo_world.
Proof. by repeat constructor. Qed.

Lemma handler_refines_contract_witness :
  length (spec_all counting_admitter demo_handler
    [(demo_arrival 0 0, demo_request)] (abs demo_world)).1.1 = 1%nat.
Proof.
  pose proof (handler_refines_contract counting_admitter demo_handler
    [(demo_arrival 0 0, demo_request)] demo_world demo_world_ok) as Hr.
  cbv zeta in Hr. destruct (spec_all _ _ _ _) as [[codes calls] a']. exact (proj1 (proj2 Hr)).
Defined.

Lemma ok_iff_admitted_witness :
  ∃ m, DecodeMessage demo_body = Ok m ∧
    w_calls (ServeHTTP counting_admitter demo_handler (demo_arrival (10 * Minute) (10 * Minute))
      demo_request demo_world).2 = [(m, demo_body)].
Proof.
  destruct (ok_iff_admitted counting_admitter demo_handler (demo_arrival (10 * Minute) (10 * Minute))
    demo_request demo_world demo_world_ok) as (code & Hst & Hok).
  assert (w_status (ServeHTTP counting_admitter demo_handler (demo_arrival (10 * Minute) (10 * Minute))
    demo_request demo_world).2 = [StatusOK]) as H200 by (vm_compute; reflexivity).
  rewrite H200 in Hst. injection Hst as Hst. destruct (proj1 Hok (eq_sym Hst)) as (m & Hd & _ & Hc & _).
  exists m. split; [exact Hd | exact Hc].
Defined.

(** The deployment at work: the signed request is admitted once, and its replay is refused. *)
Example demo_run :
  w_status (serve_all counting_admitter demo_handler
    [(demo_arrival (10 * Minute) (10 * Minute), demo_request);
     (demo_arrival (11 * Minute) (11 * Minute), demo_request)] demo_world) = [StatusOK; StatusUnauthorized].
Proof. vm_compute. reflexivity. Qed.

(** ** Authenticity *)

(** What the headers of a request that may be authenticated say. *)
Lemma signed_headers_spec h e r hh :
  signed_headers h e r = Some hh →
  (∃ v, Header_Values (hr_Header r) HeaderIrisSignatureVersion = [v] ∧ ToLower v = SignatureVersionV3) ∧
  hh_timestamp hh = TrimSpace (Header_Get (hr_Header r) HeaderIrisTimestamp) ∧
  hh_nonce hh = TrimSpace (Header_Get (hr_Header r) HeaderIrisNonce) ∧
  hh_signature hh = TrimSpace (Header_Get (hr_Header r) HeaderIrisSignature) ∧
  timestampWithinReplayWindow (hh_timestamp hh) (h_replayWindow h) (at_headers e) = true ∧
  CanonicalTarget (hr_RequestURI r) = Ok (hh_target hh) ∧
  (∃ v, Header_Values (hr_Header r) HeaderIrisMessageID = [v] ∧
     NormalizeMessageID v = Some (hh_messageID hh) ∧ hh_messageID hh ≠ []).
Proof.
  unfold signed_headers, webhookSignatureVersion, normalizedMessageIDHeader.
  destruct (Header_Values (hr_Header r) HeaderIrisSignatureVersion) as [|v [|]] eqn:Ev; try done.
  destruct (_ || _); [done |]. destruct (seqb (ToLower v) _) eqn:El; [|done]. apply seqb_true in El.
  cbn [snd signatureHeaderValues]. destruct (_ && timestampWithinReplayWindow _ _ _) eqn:Ew; [|done].
  apply andb_true_iff in Ew as [_ Ew]. destruct (CanonicalTarget (hr_RequestURI r)); [|done].
  destruct (Header_Values (hr_Header r) HeaderIrisMessageID) as [|x [|]]; try done.
  destruct (NormalizeMessageID x) as [id|] eqn:Eid; [|done].
  destruct (is_empty id) eqn:Ee; [done |]. intros [= <-]. bool_props. simpl.
  split_and!; try done; by eexists.
Qed.

Lemma signature_ok_spec h r hh body :
  signature_ok h r hh body = true →
  ∃ c, CanonicalWebhookRequestV3 (hr_Host r) (hr_Method r) (hh_target hh) (hh_timestamp hh)
         (hh_nonce hh) (hh_messageID hh) (SHA256HexBytes body) = Ok c ∧
       hh_signature hh = sign_hex (h_token h) c.
Proof.
  unfold signature_ok. intros Hs. apply andb_true_iff in Hs as [_ Hs].
  destruct (CanonicalWebhookRequestV3 _ _ _ _ _ _ _) as [c|]; [|done].
  exists c. split; [done |]. by apply seqb_true.
Qed.

Lemma admitted_cases {S : Type} `{SetOnceStore S} {A : Type}
    (AdmitMessage : A → Message → gostring → option admitError * A) h e r (w : world S A) :
  world_ok h w → w_calls (ServeHTTP AdmitMessage h e r w).2 ≠ w_calls w →
  ∃ hh s s' req, authenticated h e r (abs w) hh s s' ∧ parseWebhookRequest (hr_Body r) = Ok req ∧
    wr_MessageID req = hh_messageID hh ∧
    w_calls (ServeHTTP AdmitMessage h e r w).2 = w_calls w ++ [(buildMessage req, hr_Body r)].
Proof.
  intros Hw. destruct (serve_refines AdmitMessage h e r w Hw) as (_ & _ & -> & _).
  destruct (serve_spec_cases AdmitMessage h e r (abs w)) as [(hh & s & s' & Hau & ->)|(_ & -> & _)];
    [|by rewrite app_nil_r].
  destruct (spec_body_cases AdmitMessage e r (set_store (abs w) (Some s')) hh (hr_Body r))
    as [_ [[_ ->]|(m & req & Hp & -> & Hid & _ & -> & _)]]; [by rewrite app_nil_r |].
  intros _. by exists hh, s, s', req.
Qed.

(** C13: only authentic requests reach the admitter.  If [AdmitMessage] was called, the request was a
    POST with one v3 version header, its body was read whole within the limit, its timestamp was in
    the window, its signature header is the HMAC under the token of the transcript of its own
    authority, method, canonical target, timestamp, nonce, message ID header and body hash, and the
    admitted message carries that message ID. *)
Theorem admitted_is_authentic {S : Type} `{SetOnceStore S} {A : Type}
    (AdmitMessage : A → Message → gostring → option admitError * A) (h : Handler) (e : arrival)
    (r : httpRequest) (w : world S A) :
  world_ok h w → w_calls (ServeHTTP AdmitMessage h e r w).2 ≠ w_calls w →
  ∃ target id c m ms,
    let ts := TrimSpace (Header_Get (hr_Header r) HeaderIrisTimestamp) in
    let nonce := TrimSpace (Header_Get (hr_Header r) HeaderIrisNonce) in
    hr_Method r = MethodPost ∧ Z.of_nat (length (hr_Body r)) ≤ opt_maxBodyBytes (h_options h) ∧
    hr_BodyErr r = None ∧
    (∃ v, Header_Values (hr_Header r) HeaderIrisSignatureVersion = [v] ∧ ToLower v = SignatureVersionV3) ∧
    ParseInt ts = Some ms ∧ Z.abs (ms * Millisecond - at_headers e) ≤ h_replayWindow h ∧
    CanonicalTarget (hr_RequestURI r) = Ok target ∧
    (∃ v, Header_Values (hr_Header r) HeaderIrisMessageID = [v] ∧ NormalizeMessageID v = Some id) ∧
    CanonicalWebhookRequestV3 (hr_Host r) (hr_Method r) target ts nonce id
      (SHA256HexBytes (hr_Body r)) = Ok c ∧
    TrimSpace (Header_Get (hr_Header r) HeaderIrisSignature) = sign_hex (h_token h) c ∧
    w_calls (ServeHTTP AdmitMessage h e r w).2 = w_calls w ++ [(m, hr_Body r)] ∧
    DecodeMessage (hr_Body r) = Ok m ∧ mj_MessageID <$> msg_JSON m = Some id.
Proof.
  intros Hw Hne. destruct (admitted_cases AdmitMessage h e r w Hw Hne) as (hh & s & s' & req & Hau & Hp & Hid & Hc).
  destruct Hau as [Hm Hh Hb Hs _ _].
  apply signed_headers_spec in Hh as (Hv & Ets & En & Esig & Hwin & Ht & v & Hvals & Hn & Hidne).
  apply signature_ok_spec in Hs as (c & Hcan & Hsig). apply read_body_ok in Hb as (_ & Hlen & Hbe & _).
  apply window_iff in Hwin as (ms & Hms & Habs). rewrite Ets in *. rewrite En in *. rewrite Esig in *.
  exists (hh_target hh), (hh_messageID hh), c, (buildMessage req), ms. cbv zeta.
  split_and!; try done; [by eexists | by apply DecodeMessage_parse |].
  simpl. f_equal. rewrite Hid. apply TrimSpace_id.
  destruct (NormalizeMessageID_some _ _ Hn Hidne) as [-> _]. apply TrimSpace_trimmed.
Qed.

Lemma admitted_is_authentic_witness :
  ∃ c, TrimSpace (Header_Get (hr_Header demo_request) HeaderIrisSignature) = sign_hex demo_token c.
Proof.
  destruct (admitted_is_authentic counting_admitter demo_handler (demo_arrival (10 * Minute) (10 * Minute))
    demo_request demo_world demo_world_ok) as (t & id & c & m & ms & Hall).
  - vm_compute. discriminate.
  - exists c. cbv zeta in Hall. tauto.
Defined.

(** ** Replay *)

(** Two requests with one nonce key: the same method, target, timestamp and nonce. *)
Definition same_nonce (r1 r2 : httpRequest) : Prop :=
  hr_Method r1 = hr_Method r2 ∧ hr_RequestURI r1 = hr_RequestURI r2 ∧
  Header_Get (hr_Header r1) HeaderIrisTimestamp = Header_Get (hr_Header r2) HeaderIrisTimestamp ∧
  Header_Get (hr_Header r1) HeaderIrisNonce = Header_Get (hr_Header r2) HeaderIrisNonce.

Lemma same_nonce_key h e1 e2 r1 r2 hh1 hh2 :
  same_nonce r1 r2 → signed_headers h e1 r1 = Some hh1 → signed_headers h e2 r2 = Some hh2 →
  request_key r1 hh1 = request_key r2 hh2 ∧ hh_timestamp hh1 = hh_timestamp hh2.
Proof.
  intros (Hm & Hu & Ht & Hn) H1%signed_headers_spec H2%signed_headers_spec.
  destruct H1 as (_ & T1 & N1 & _ & _ & C1 & _), H2 as (_ & T2 & N2 & _ & _ & C2 & _).
  rewrite Hu in C1. unfold request_key. rewrite T1, T2, N1, N2, Ht, Hn, Hm.
  split; [|done]. congruence.
Qed.

Section replay.
Context {S : Type} `{SetOnceStore S} {A : Type} (AdmitMessage : A → Message → gostring → option admitError * A).

Lemma serve_keeps h e r (w : world S A) s k u :
  world_ok h w → w_store w = Some s → holds s k u →
  world_ok h (ServeHTTP AdmitMessage h e r w).2 ∧
  ∃ s', w_store (ServeHTTP AdmitMessage h e r w).2 = Some s' ∧ holds s' k u.
Proof.
  intros Hw Hs Hh. destruct (serve_refines AdmitMessage h e r w Hw) as (_ & Ha & _ & Hw').
  split; [done |]. change (w_store (ServeHTTP AdmitMessage h e r w).2)
    with (a_store (abs (ServeHTTP AdmitMessage h e r w).2)). rewrite Ha.
  destruct (serve_spec_cases AdmitMessage h e r (abs w)) as [(hh & s0 & s' & Hau & ->)|(_ & _ & Hk)].
  - destruct (spec_body_cases AdmitMessage e r (set_store (abs w) (Some s')) hh (hr_Body r)) as [-> _].
    exists s'. split; [done |]. destruct Hau as [_ _ _ _ Hst Hnew]. simpl in Hst. rewrite Hs in Hst.
    injection Hst as <-.
    pose proof (IsDuplicate_keeps s (at_nonce e) (request_key r hh) (nonceReplayTTL h) k u Hh) as Hk.
    by rewrite Hnew in Hk.
  - destruct (Hk s Hs) as (s' & ? & ?). eauto.
Qed.

Lemma serve_all_keeps h l (w : world S A) s k u :
  world_ok h w → w_store w = Some s → holds s k u →
  world_ok h (serve_all AdmitMessage h l w) ∧
  ∃ s', w_store (serve_all AdmitMessage h l w) = Some s' ∧ holds s' k u.
Proof.
  revert w s. induction l as [|[e r] l IH]; intros w s Hw Hs Hh; simpl; [by eauto |].
  destruct (serve_keeps h e r w s k u Hw Hs Hh) as (Hw' & s' & Hs' & Hh'). by eapply IH.
Qed.

(** After an authenticated request its nonce is on record for twice the window. *)
Lemma authenticated_recorded h e r (w : world S A) hh s s' :
  world_ok h w → authenticated h e r (abs w) hh s s' → h_replayWindow h = defaultReplayWindow →
  world_ok h (ServeHTTP AdmitMessage h e r w).2 ∧
  ∃ s'', w_store (ServeHTTP AdmitMessage h e r w).2 = Some s'' ∧
    holds s'' (request_key r hh) (at_nonce e + 2 * h_replayWindow h).
Proof.
  intros Hw Hau HW. destruct (serve_refines AdmitMessage h e r w Hw) as (_ & Ha & _ & Hw').
  split; [done |]. exists s'. rewrite (serve_spec_authenticated _ _ _ _ _ _ _ _ Hau) in Ha.
  destruct (spec_body_cases AdmitMessage e r (set_store (abs w) (Some s')) hh (hr_Body r)) as [Hst _].
  rewrite <- Ha in Hst. split; [exact Hst |].
  destruct Hau as [_ _ _ _ _ Hnew]. apply IsDuplicate_records in Hnew.
  unfold nonceReplayTTL in Hnew. by rewrite HW in Hnew |- *.
Qed.
End replay.

(** C2: no replay.  Once a request has been authenticated, a later request with its method, target,
    timestamp and nonce is never admitted and never answered with 200, whatever was served in between
    (store failures included) and whatever response the first one got, provided it spends no longer
    between its header check and its nonce check than the first one did. *)
Theorem no_replay {S : Type} `{SetOnceStore S} {A : Type}
    (AdmitMessage : A → Message → gostring → option admitError * A) (h : Handler) (s0 : S)
    (w : world S A) (e1 e2 : arrival) (r1 r2 : httpRequest) (between : list (arrival * httpRequest))
    (hh : hmacHeaders) (s s' : S) :
  constructed h s0 → world_ok h w →
  authenticated h e1 r1 (abs w) hh s s' → same_nonce r1 r2 →
  at_nonce e2 - at_headers e2 ≤ at_nonce e1 - at_headers e1 →
  let w2 := serve_all AdmitMessage h between (ServeHTTP AdmitMessage h e1 r1 w).2 in
  let w3 := (ServeHTTP AdmitMessage h e2 r2 w2).2 in
  w_calls w3 = w_calls w2 ∧ ∃ code, w_status w3 = w_status w2 ++ [code] ∧ code ≠ StatusOK.
Proof.
  intros Hcon Hw Hau Hsame Hdelay. apply constructed_spec in Hcon as (_ & _ & HW & _).
  destruct (authenticated_recorded AdmitMessage h e1 r1 w hh s s' Hw Hau HW) as (Hw1 & s1 & Hs1 & Hh1).
  destruct (serve_all_keeps AdmitMessage h between _ s1 _ _ Hw1 Hs1 Hh1) as (Hw2 & s2 & Hs2 & Hh2).
  cbv zeta. set (w2 := serve_all AdmitMessage h between _) in *.
  destruct (serve_refines AdmitMessage h e2 r2 w2 Hw2) as (Hst & _ & Hc & _). rewrite Hc, Hst.
  destruct (serve_spec_cases AdmitMessage h e2 r2 (abs w2)) as [(hh2 & s2' & s3 & Hau2 & _)|(Hne & -> & _)].
  2:{ rewrite app_nil_r. by eauto. }
  exfalso. destruct Hau as [_ Hsh1 _ _ _ _], Hau2 as [_ Hsh2 _ _ Hst2 Hnew2].
  destruct (same_nonce_key _ _ _ _ _ _ _ Hsame Hsh1 Hsh2) as [Hkey Hts].
  apply signed_headers_spec in Hsh1 as (_ & _ & _ & _ & (ms & Hms & Hr1)%window_iff & _).
  apply signed_headers_spec in Hsh2 as (_ & _ & _ & _ & (ms' & Hms' & Hr2)%window_iff & _).
  rewrite <- Hts, Hms in Hms'. simplify_eq.
  simpl in Hst2. rewrite Hs2 in Hst2. simplify_eq. rewrite Hkey in Hh2.
  apply (IsDuplicate_detects _ (at_nonce e2) _ (nonceReplayTTL h) _ Hh2); [lia |]. by rewrite Hnew2.
Qed.

Definition demo_headers : hmacHeaders :=
  match signed_headers demo_handler (demo_arrival (10 * Minute) (10 * Minute)) demo_request with
  | Some hh => hh
  | None => mkHmacHeaders [] [] [] [] [] []
  end.

Lemma no_replay_witness :
  let w2 := serve_all counting_admitter demo_handler []
    (ServeHTTP counting_admitter demo_handler (demo_arrival (10 * Minute) (10 * Minute)) demo_request
       demo_world).2 in
  w_calls (ServeHTTP counting_admitter demo_handler (demo_arrival (12 * Minute) (12 * Minute))
    demo_request w2).2 = w_calls w2.
Proof.
  refine (proj1 (no_replay counting_admitter demo_handler demo_valkey demo_world
    (demo_arrival (10 * Minute) (10 * Minute)) (demo_arrival (12 * Minute) (12 * Minute))
    demo_request demo_request [] demo_headers demo_valkey
    (IsDuplicate demo_valkey (10 * Minute) (request_key demo_request demo_headers) (10 * Minute)).2
    _ demo_world_ok _ _ _)).
  - exists demo_options. vm_compute. reflexivity.
  - constructor; vm_compute; reflexivity.
  - repeat split.
  - vm_compute. discriminate.
Defined.

(** The doc comment's claim that a TTL of twice the window closes the replay window does not
    hold for a slow body.  The window is checked before the body is read and the nonce after it, so
    the same signed request, accepted once at the early edge of its window and sent again at the late
    edge with a body that takes two milliseconds to arrive, is admitted a second time. *)
Theorem replay_gap_slow_body :
  let early := demo_arrival (5 * Minute) (5 * Minute) in
  let late := demo_arrival (15 * Minute) (15 * Minute + 2 * Millisecond) in
  let w := serve_all counting_admitter demo_handler [(early, demo_request); (late, demo_request)] demo_world in
  w_status w = [StatusOK; StatusOK] ∧ w_calls w = [(demo_message, demo_body); (demo_message, demo_body)].
Proof. vm_compute. split; reflexivity. Qed.

(** ** Outages and nonces *)

(** An outage of the nonce store is retryable and admits nothing: a correctly signed request whose
    nonce check fails is answered with 503, never 401 (which the sender takes as final). *)
Theorem store_outage_is_503 {S : Type} `{SetOnceStore S} {A : Type}
    (AdmitMessage : A → Message → gostring → option admitError * A) (h : Handler) (e : arrival)
    (r : httpRequest) (w : world S A) (hh : hmacHeaders) (s s' : S) (err : storeError) :
  world_ok h w → hr_Method r = MethodPost → signed_headers h e r = Some hh →
  read_body r (opt_maxBodyBytes (h_options h)) = Ok (hr_Body r) →
  signature_ok h r hh (hr_Body r) = true → w_store w = Some s →
  IsDuplicate s (at_nonce e) (request_key r hh) (nonceReplayTTL h) = (Err err, s') →
  let w' := (ServeHTTP AdmitMessage h e r w).2 in
  w_status w' = w_status w ++ [StatusServiceUnavailable] ∧ w_calls w' = w_calls w.
Proof.
  intros Hw Hm Hh Hb Hs Hst Hd. destruct (serve_refines AdmitMessage h e r w Hw) as (Hstat & _ & Hc & _).
  cbv zeta. rewrite Hstat, Hc. unfold serve_spec, isPOST, spec_nonce.
  rewrite Hm, seqb_refl, Hh, Hb, Hs. simpl. rewrite Hst, Hd. simpl. by rewrite app_nil_r.
Qed.

(** The deployment with a store that is down. *)
Definition down_valkey : valkey := mkValkey ∅ 0 (λ _, FailedBefore).
Definition down_world : world valkey nat :=
  mkWorld (Some down_valkey) (NewSigner demo_token) 0 0 0 false 0%nat [] [] [].

(** C21: nonces are spent only by correctly signed requests: a request without a valid signature over
    its own body leaves the store untouched, so an attacker without the token cannot burn nonces. *)
Theorem nonce_spent_only_when_signed {S : Type} `{SetOnceStore S} {A : Type}
    (AdmitMessage : A → Message → gostring → option admitError * A) (h : Handler) (e : arrival)
    (r : httpRequest) (w : world S A) :
  world_ok h w →
  w_store (ServeHTTP AdmitMessage h e r w).2 = w_store w ∨
  ∃ hh c, signed_headers h e r = Some hh ∧
    CanonicalWebhookRequestV3 (hr_Host r) (hr_Method r) (hh_target hh) (hh_timestamp hh)
      (hh_nonce hh) (hh_messageID hh) (SHA256HexBytes (hr_Body r)) = Ok c ∧
    hh_signature hh = sign_hex (h_token h) c.
Proof.
  intros Hw. destruct (serve_refines AdmitMessage h e r w Hw) as (_ & Ha & _ & _).
  change (w_store (ServeHTTP AdmitMessage h e r w).2)
    with (a_store (abs (ServeHTTP AdmitMessage h e r w).2)). rewrite Ha. clear Ha. unfold serve_spec.
  destruct (isPOST (hr_Method r)); simpl; [|by left].
  destruct (signed_headers h e r) as [hh|]; [|by left].
  destruct (read_body r _) as [body|] eqn:Eb; [|by left]. apply read_body_ok in Eb as (-> & _).
  destruct (signature_ok h r hh (hr_Body r)) eqn:Es; [|by left].
  apply signature_ok_spec in Es as (c & ? & ?). right. by exists hh, c.
Qed.

Lemma nonce_spent_only_when_signed_witness :
  w_store (ServeHTTP counting_admitter demo_handler (demo_arrival 0 0) demo_request demo_world).2
  = Some demo_valkey.
Proof.
  destruct (nonce_spent_only_when_signed counting_admitter demo_handler (demo_arrival 0 0) demo_request
    demo_world demo_world_ok) as [Heq|(hh & c & Hh & _)]; [exact Heq |].
  assert (signed_headers demo_handler (demo_arrival 0 0) demo_request = None) as Hn
    by (vm_compute; reflexivity).
  rewrite Hn in Hh. discriminate Hh.
Defined.

(** ** Signing and verifying agree *)

(** The request a server gets when [r] is sent: the signing headers, the effective authority, the
    target and the body as they are, and no transport error.  Other headers may differ. *)
Record delivered (r : Request) (u : URL) (q : httpRequest) : Prop := {
  dl_method : hr_Method q = req_Method r;
  dl_host : hr_Host q = if is_empty (req_Host r) then url_Host u else req_Host r;
  dl_uri : hr_RequestURI q = url_RequestURI u;
  dl_header : Forall (λ k, Header_Values (hr_Header q) k = Header_Values (default ∅ (req_Header r)) k)
    [HeaderIrisSignatureVersion; HeaderIrisTimestamp; HeaderIrisNonce; HeaderIrisBodySHA256;
     HeaderIrisSignature; HeaderIrisMessageID];
  dl_body : hr_Body q = req_Body r;
  dl_errors : hr_BodyErr q = None ∧ hr_CloseErr q = None;
}.

Lemma sign_hex_trim secret c : TrimSpace (sign_hex secret c) = sign_hex secret c.
Proof. apply hexEncode_trim. Qed.

Lemma sign_hex_ne secret c : sign_hex secret c ≠ [].
Proof.
  unfold sign_hex, hmac_sha256. apply hexEncode_digest_ne, sha256_length.
Qed.

Lemma canonicalRequestV3_host r u target ts n id sha c :
  canonicalRequestV3 r u target ts n id sha = Ok c →
  CanonicalWebhookRequestV3 (if is_empty (req_Host r) then url_Host u else req_Host r) (req_Method r)
    target ts n id sha = Ok c.
Proof.
  unfold canonicalRequestV3. intros Hc. inv_ok. destruct (is_empty (req_Host r)); inv_ok; [by subst |].
  destruct (negb _) eqn:En; [done |]. bool_props. inv_ok. by subst.
Qed.

(** The verifier reads back what the signer wrote. *)
Lemma signed_headers_delivered h e r r' u q secret body ms nonce id target c :
  signed_as r r' secret body (FormatUint ms) nonce u id target c → delivered r' u q →
  0 ≤ ms ≤ MaxInt64 → Z.abs (ms * Millisecond - at_headers e) ≤ h_replayWindow h →
  signed_headers h e q = Some (mkHmacHeaders (FormatUint ms) (TrimSpace nonce)
    (sign_hex (TrimSpace secret) c) (SHA256HexBytes body) target id).
Proof.
  intros Hsa [_ _ Huri Hhd _ _] Hms Hwin.
  pose proof (sa_header _ _ _ _ _ _ _ _ _ _ Hsa) as Hh. rewrite Hh in Hhd. simpl in Hhd.
  assert (TrimSpace (FormatUint ms) = FormatUint ms) as Htrim
    by (apply TrimSpace_graphic, FormatUint_graphic; lia).
  destruct (sa_time _ _ _ _ _ _ _ _ _ _ Hsa) as [Htne Hnne].
  destruct (sa_messageID _ _ _ _ _ _ _ _ _ _ Hsa) as [Hidne Hid].
  pose proof (sa_target _ _ _ _ _ _ _ _ _ _ Hsa) as Htg.
  rewrite Htrim in *.
  pose proof (signedHeader_carries (req_Header r) (FormatUint ms) (TrimSpace nonce)
    (SHA256HexBytes body) (sign_hex (TrimSpace secret) c) id) as [Cv Ct Cn Ch Cs Ci].
  repeat (apply Forall_cons in Hhd as [? Hhd]).
  unfold signed_headers, webhookSignatureVersion, signatureHeaderValues, normalizedMessageIDHeader.
  rewrite (Header_Get_Values _ HeaderIrisTimestamp (FormatUint ms)) by congruence.
  rewrite (Header_Get_Values _ HeaderIrisNonce (TrimSpace nonce)) by congruence.
  rewrite (Header_Get_Values _ HeaderIrisSignature (sign_hex (TrimSpace secret) c)) by congruence.
  rewrite (Header_Get_Values _ HeaderIrisBodySHA256 (SHA256HexBytes body)) by congruence.
  replace (Header_Values (hr_Header q) HeaderIrisSignatureVersion) with [SignatureVersionV3] by congruence.
  replace (Header_Values (hr_Header q) HeaderIrisMessageID) with [id] by congruence.
  replace (is_empty SignatureVersionV3 || negb (seqb (TrimSpace SignatureVersionV3) SignatureVersionV3))
    with false by (vm_compute; reflexivity).
  replace (seqb (ToLower SignatureVersionV3) SignatureVersionV3) with true by (vm_compute; reflexivity).
  cbn [snd]. rewrite Htrim, TrimSpace_idem, sign_hex_trim.
  rewrite (TrimSpace_graphic (SHA256HexBytes body)) by apply SHA256HexBytes_graphic.
  apply is_empty_false in Htne, Hnne.
  pose proof (proj2 (is_empty_false _) (sign_hex_ne (TrimSpace secret) c)) as Hsne.
  pose proof (proj2 (is_empty_false _) (SHA256HexBytes_ne body)) as Hbne.
  rewrite Htne, Hnne, Hsne, Hbne.
  rewrite (proj2 (window_iff _ _ _)) by (exists ms; split; [by apply ParseInt_FormatUint | done]).
  rewrite Huri, Htg, Hid, (proj2 (is_empty_false _) Hidne). done.
Qed.

Lemma signature_ok_delivered h r r' u q secret body ts nonce id target c :
  signed_as r r' secret body ts nonce u id target c → delivered r' u q → h_token h = TrimSpace secret →
  signature_ok h q (mkHmacHeaders (TrimSpace ts) (TrimSpace nonce) (sign_hex (TrimSpace secret) c)
    (SHA256HexBytes body) target id) (hr_Body q) = true.
Proof.
  intros Hsa [Hm Hhost _ _ Hbody _] Htok. unfold signature_ok. simpl.
  destruct (sa_body _ _ _ _ _ _ _ _ _ _ Hsa) as [Hb _]. rewrite Hbody, Hb, seqb_refl.
  pose proof (sa_canonical _ _ _ _ _ _ _ _ _ _ Hsa) as Hc. apply canonicalRequestV3_host in Hc.
  destruct (sa_url _ _ _ _ _ _ _ _ _ _ Hsa) as (_ & _ & HH).
  destruct (sa_method _ _ _ _ _ _ _ _ _ _ Hsa) as [Hm1 Hm2].
  rewrite Hhost, Hm, HH, Hm2, <- Hm1, Hc, Htok. apply seqb_refl.
Qed.

(** A signed and intact request is authenticated. *)
Lemma delivered_authenticated {S : Type} `{SetOnceStore S} {A : Type} h e (w : world S A) r r' u q secret body ms nonce id target c s s' :
  signed_as r r' secret body (FormatUint ms) nonce u id target c → delivered r' u q → h_token h = TrimSpace secret →
  0 ≤ ms ≤ MaxInt64 → Z.abs (ms * Millisecond - at_headers e) ≤ h_replayWindow h →
  Z.of_nat (length body) ≤ opt_maxBodyBytes (h_options h) → w_store w = Some s →
  IsDuplicate s (at_nonce e) (nonce_key MethodPost target (FormatUint ms) (TrimSpace nonce)) (2 * h_replayWindow h) = (Ok false, s') →
  authenticated h e q (abs w) (mkHmacHeaders (FormatUint ms) (TrimSpace nonce) (sign_hex (TrimSpace secret) c) (SHA256HexBytes body) target id) s s'.
Proof.
  intros Hsa Hdl Htok Hms Hwin Hlen Hst Hnew.
  pose proof (signed_headers_delivered h e r r' u q _ _ _ _ _ _ _ Hsa Hdl Hms Hwin) as Hsh.
  pose proof (signature_ok_delivered h r r' u q _ _ _ _ _ _ _ Hsa Hdl Htok) as Hso.
  destruct (sa_method _ _ _ _ _ _ _ _ _ _ Hsa) as [_ Hm]. destruct (sa_body _ _ _ _ _ _ _ _ _ _ Hsa) as [Hb _].
  destruct Hdl as [Hmq _ _ _ Hbq [He1 He2]]. rewrite Hm in Hmq. rewrite Hb in Hbq.
  rewrite (TrimSpace_graphic (FormatUint ms)) in Hso by (apply FormatUint_graphic; lia). split; try done.
  - unfold read_body. rewrite Hbq, He1, He2. by rewrite (proj2 (Z.ltb_ge _ _)).
  - unfold request_key, nonceReplayTTL. simpl. by rewrite Hmq.
Qed.

(** The message ID of a body that is the one in the header is the one that was signed. *)
Lemma signed_messageID h e q hh body x :
  signed_headers h e q = Some hh → parseWebhookRequest body = Ok x →
  Header_Values (hr_Header q) HeaderIrisMessageID = [TrimSpace (wr_MessageID x)] → wr_MessageID x = hh_messageID hh.
Proof.
  intros (_ & _ & _ & _ & _ & _ & v & Hv & Hn & Hne)%signed_headers_spec Hx Hid. rewrite Hid in Hv. simplify_eq.
  unfold NormalizeMessageID in Hn. rewrite TrimSpace_idem in Hn. apply parseWebhookRequest_ok in Hx as (x0 & idx & _ & _ & Hnx & Hxne & ->). simpl in *.
  destruct (NormalizeMessageID_some _ _ Hnx Hxne) as (Hx & _).
  assert (TrimSpace idx = idx) as Hti by (rewrite Hx; apply TrimSpace_idem). rewrite Hti in Hn.
  destruct (is_empty idx) eqn:Ee; [by simplify_eq |]. destruct (_ <? _); [done |].
  destruct (forallb _ _); [|done]. by simplify_eq.
Qed.

Lemma spec_body_not_unauthorized {S : Type} `{SetOnceStore S} {A : Type} (AdmitMessage : A → Message → gostring → option admitError * A)
    e r a hh body : ef_status (spec_body (S := S) AdmitMessage e r a hh body) ≠ StatusUnauthorized.
Proof.
  unfold spec_body. destruct (negb (isJSONContentType _)); [done |]. destruct (parseWebhookRequest body) as [req|]; [|done].
  destruct (negb (seqb _ _)); [done |]. unfold spec_admit. repeat case_match; done.
Qed.

(** C3: signing and verifying agree.  Take a request that [signRequest] signed at [ms] with the handler's secret (up to
    surrounding white space), delivered with its signing headers, effective authority (the Host if set, else the URL's),
    target and body.  If its body fits, the header check happens within the replay window and the store answers that the
    nonce is new, then the handler authenticates it: the nonce is spent and the answer is not 401, whatever the body says
    and whatever the admitter does.  If moreover the content type is JSON, the body meets the contract with the signed
    message ID, the handler is open and the caller still there, and the admitter accepts, then the answer is 200 and
    the body's message is admitted. *)
Theorem sign_then_serve {S : Type} `{SetOnceStore S} {A : Type}
    (AdmitMessage : A → Message → gostring → option admitError * A) (h : Handler) (e : arrival)
    (w : world S A) (r r' : Request) (u : URL) (q : httpRequest) (secret body nonce target : gostring)
    (ms : Z) (s s' : S) :
  signRequest (Some r) secret body (FormatUint ms) nonce = Ok r' →
  req_URL r' = Some u → delivered r' u q → h_token h = TrimSpace secret → world_ok h w →
  0 ≤ ms ≤ MaxInt64 → Z.abs (ms * Millisecond - at_headers e) ≤ h_replayWindow h →
  Z.of_nat (length body) ≤ opt_maxBodyBytes (h_options h) →
  CanonicalTarget (url_RequestURI u) = Ok target → w_store w = Some s →
  IsDuplicate s (at_nonce e) (nonce_key MethodPost target (FormatUint ms) (TrimSpace nonce))
    (2 * h_replayWindow h) = (Ok false, s') →
  let w' := (ServeHTTP AdmitMessage h e q w).2 in
  (∃ hh, authenticated h e q (abs w) hh s s') ∧ w_store w' = Some s' ∧
  (∃ code, w_status w' = w_status w ++ [code] ∧ code ≠ StatusUnauthorized) ∧
  ∀ m j,
    isJSONContentType (Header_Get (hr_Header q) (go "Content-Type")) = true →
    DecodeMessage body = Ok m → msg_JSON m = Some j →
    Header_Values (hr_Header q) HeaderIrisMessageID = [mj_MessageID j] →
    w_closed w = false → at_closing e = false → at_ctx_done e = false →
    (AdmitMessage (w_admitter w) m body).1 = None →
    w_status w' = w_status w ++ [StatusOK] ∧ w_calls w' = w_calls w ++ [(m, body)].
Proof.
  intros Hsign Hu Hdl Htok Hw Hms Hwin Hlen Htg Hst Hnew. apply signRequest_ok in Hsign as (u' & id' & target' & c & Hsa).
  destruct (sa_url _ _ _ _ _ _ _ _ _ _ Hsa) as (_ & Hu' & _). rewrite Hu in Hu'. simplify_eq.
  pose proof (sa_target _ _ _ _ _ _ _ _ _ _ Hsa) as Htg'. rewrite Htg in Htg'. simplify_eq.
  pose proof (delivered_authenticated h e w r r' u' q _ _ _ _ _ _ _ s s' Hsa Hdl Htok Hms Hwin Hlen Hst Hnew) as Hau.
  set (hh := mkHmacHeaders _ _ _ _ _ _) in *. destruct (sa_body _ _ _ _ _ _ _ _ _ _ Hsa) as [Hb _].
  assert (hr_Body q = body) as Hbq by (by rewrite <- Hb; apply Hdl).
  destruct (serve_refines AdmitMessage h e q w Hw) as (Hstat & Ha & Hc & _).
  rewrite (serve_spec_authenticated _ _ _ _ _ _ _ _ Hau), Hbq in Hstat, Ha, Hc. cbv zeta. split_and!.
  - by exists hh.
  - change (a_store (abs (ServeHTTP AdmitMessage h e q w).2) = Some s'). rewrite Ha.
    by destruct (spec_body_cases AdmitMessage e q (set_store (abs w) (Some s')) hh body) as [-> _].
  - eexists. split; [exact Hstat |]. apply spec_body_not_unauthorized.
  - intros m j Hct Hdec Hj Hid Hcl Hclosing Hctx Hadm. rewrite Hstat, Hc. unfold spec_body. rewrite Hct. cbn [negb].
    unfold DecodeMessage in Hdec. inv_ok. rewrite E. subst m. simpl in Hj. simplify_eq. simpl in Hid.
    assert (signed_headers h e q = Some hh) as Hsh by apply Hau.
    rewrite (signed_messageID h e q hh _ x Hsh E Hid), seqb_refl. cbn [negb].
    unfold spec_admit. simpl. rewrite Hcl, Hclosing, Hctx. simpl.
    by destruct (AdmitMessage (w_admitter w) (buildMessage x) _) as [[[]|] a].
Qed.

Definition demo_signed : Request :=
  match signRequest (Some demo_outgoing) (go " webhook-secret") demo_body (FormatUint 600000) (go "n-1") with
  | Ok r => r
  | Err _ => demo_outgoing
  end.

Definition demo_url : URL := mkURL (go "Hook.Example:8443") (go "/webhook/iris?b=2&a=1").

Lemma sign_then_serve_witness :
  w_status (ServeHTTP counting_admitter demo_handler (demo_arrival (7 * Minute) (8 * Minute))
    (on_wire demo_signed) demo_world).2 = [StatusOK].
Proof.
  refine (proj1 (proj2 (proj2 (proj2 (sign_then_serve counting_admitter demo_handler (demo_arrival (7 * Minute) (8 * Minute))
    demo_world demo_outgoing demo_signed demo_url (on_wire demo_signed) (go " webhook-secret") demo_body
    (go "n-1") (go "/webhook/iris?a=1&b=2") 600000 demo_valkey
    (IsDuplicate demo_valkey (8 * Minute) (nonce_key MethodPost (go "/webhook/iris?a=1&b=2")
       (go "600000") (go "n-1")) (10 * Minute)).2
    _ _ _ _ _ _ _ _ _ _ _)))
    demo_message (match msg_JSON demo_message with Some j => j | None => buildMessageJSON
       (mkWebhookRequest [] [] 0 0 None None [] [] [] [] [] [] [] [] [] None [] None [] [] [] []) end)
    _ _ _ _ _ _ _ _)).
  - vm_compute. reflexivity.
  - vm_compute. reflexivity.
  - split; [vm_compute; reflexivity.. | | vm_compute; reflexivity | split; reflexivity].
    repeat (apply Forall_cons; split; [vm_compute; reflexivity |]). done.
  - vm_compute. reflexivity.
  - exact demo_world_ok.
  - vm_compute. split; discriminate.
  - vm_compute. discriminate.
  - vm_compute. discriminate.
  - vm_compute. reflexivity.
  - reflexivity.
  - vm_compute. reflexivity.
  - vm_compute. reflexivity.
  - vm_compute. reflexivity.
  - vm_compute. reflexivity.
  - vm_compute. reflexivity.
  - reflexivity.
  - reflexivity.
  - reflexivity.
  - reflexivity.
Defined.
