(* ===== verification/Transcript.v ===== *)
(** * Transcript: what a webhook signature is bound to (internal/irishmac/hmac.go, webhooksign/sign.go, webhook/handler_validation.go)

    [CanonicalWebhookRequestV3] joins the signed fields by newlines and checks none of them but the authority.  Both its
    callers, the signer and the handler, give it fields in which a newline cannot be mistaken for a separator; here the
    transcripts they make are shown to determine the fields. *)

From S2P Require Import Prelude GoStrings GoStrconv GoCrypto GoHttp Canonical GoUrl Hmac NonceStore.
From S2P Require Import WebhookSign WebhookMessage WebhookHandler WebhookContract.

Record signedFields := mkFields {
  sf_authority : gostring;
  sf_target : gostring;
  sf_timestamp : gostring;
  sf_nonce : gostring;
  sf_messageID : gostring;
  sf_bodySHA256 : gostring;
}.

(** A request target that net/url made of a URL it parsed, with [Parse] for a client or [ParseRequestURI] for a server. *)
Definition parsed_target (target : gostring) : Prop :=
  ∃ raw u, (GoUrl.Parse raw = Some u ∨ ParseRequestURI raw = Some u) ∧ target = RequestURI u.

(** The transcript of a request and its fields, as [SignRequest] makes it and as the handler makes it: after their own
    checks, from the values those checks gave. *)
Inductive transcribes : signedFields → gostring → Prop :=
| signer_transcribes r r' u secret body nowMs random messageID timestamp nonce target authority c :
    SignRequest (Some r) secret body nowMs random = Ok r' → req_URL r = Some u → parsed_target (url_RequestURI u) →
    normalizedSigningMessageID (req_Header r) = Ok messageID →
    normalizedSigningTime (FormatInt nowMs) (randomhex_Generate random) = Ok (timestamp, nonce) →
    CanonicalTarget (url_RequestURI u) = Ok target →
    canonicalRequestV3 r u target timestamp nonce messageID (SHA256HexBytes body) = Ok c →
    canonicalWebhookAuthority (if is_empty (req_Host r) then url_Host u else req_Host r) = Ok authority →
    transcribes (mkFields authority target timestamp nonce messageID (SHA256HexBytes body)) c
| handler_transcribes h e q hh authority c :
    hr_Method q = MethodPost → parsed_target (hr_RequestURI q) → signed_headers h e q = Some hh →
    CanonicalWebhookRequestV3 (hr_Host q) (hr_Method q) (hh_target hh) (hh_timestamp hh) (hh_nonce hh) (hh_messageID hh)
      (SHA256HexBytes (hr_Body q)) = Ok c →
    canonicalWebhookAuthority (hr_Host q) = Ok authority →
    transcribes (mkFields authority (hh_target hh) (hh_timestamp hh) (hh_nonce hh) (hh_messageID hh) (SHA256HexBytes (hr_Body q))) c.

(** ** The fields are newline-free *)

Lemma encode_no_newline s : x0a ∉ EncodeQueryComponent s.
Proof.
  intros H. apply list_elem_of_In, in_flat_map in H as (c & _ & H).
  pose proof (byte_forallb (λ c, forallb (λ b, negb (beq b x0a)) (encode_byte c)) ltac:(vm_compute; reflexivity) c) as Hc.
  cbv beta in Hc. rewrite forallb_forall in Hc. by apply Hc in H.
Qed.

Lemma render_no_newline ds : x0a ∉ render_pairs (map encode_pair ds).
Proof.
  assert (∀ d, x0a ∉ render_pair (encode_pair d)) as H1.
  { intros [k [v|]]; unfold render_pair; simpl; rewrite not_elem_of_app; split; try apply encode_no_newline; [|apply not_elem_of_nil].
    apply not_elem_of_cons. split; [done | apply encode_no_newline]. }
  unfold render_pairs. induction ds as [|d [|e ds] IH]; [apply not_elem_of_nil | apply H1 |].
  cbn [map] in *. rewrite Join_cons2, !not_elem_of_app. split_and!; [apply H1 | | exact IH].
  apply not_elem_of_cons. split; [done | apply not_elem_of_nil].
Qed.

Lemma CanonicalTarget_no_newline t c : CanonicalTarget t = Ok c → x0a ∉ t → x0a ∉ c.
Proof.
  unfold CanonicalTarget. destruct (target_cases t) as [Hq|(p & q & Hp & ->)]; [rewrite canonicalTarget_plain by done; by intros [= <-] |].
  rewrite canonicalTarget_query by done. destruct (decodedPairs q) as [ds|]; [|done]. rewrite not_elem_of_app. intros H [Hn _].
  destruct (is_empty ds); [by injection H as <- |]. cbn [andb] in H. injection H as <-.
  destruct (sort_encode ds) as (ds' & _ & ->). rewrite not_elem_of_app, not_elem_of_cons.
  split_and!; [done | done | apply render_no_newline].
Qed.

Lemma parsed_target_no_newline t : parsed_target t → x0a ∉ t.
Proof.
  intros (raw & u & H & ->) Hin. apply RequestURI_clean in H. apply list_elem_of_In in Hin.
  assert (existsb is_ctl (RequestURI u) = true) as E by (apply existsb_exists; by exists x0a). congruence.
Qed.

Lemma FormatInt_no_newline n : x0a ∉ FormatInt n.
Proof.
  unfold FormatInt. destruct (n <? 0) eqn:E; bool_props.
  - apply not_elem_of_cons. split; [done |]. apply graphic_no_newline, FormatUint_graphic. lia.
  - apply graphic_no_newline, FormatUint_graphic. lia.
Qed.

Lemma ParseInt_no_newline s n : ParseInt s = Some n → x0a ∉ s.
Proof.
  unfold ParseInt. assert (∀ d, forallb is_digit d = true → x0a ∉ d) as Hd.
  { intros d Hd Hin. rewrite forallb_forall in Hd. apply list_elem_of_In, Hd in Hin. done. }
  destruct (split_sign s) as [neg digits] eqn:E. destruct (is_empty digits || negb (forallb is_digit digits)) eqn:Eg; [done |]. intros _.
  bool_props. apply Hd in H0. unfold split_sign in E. destruct s as [|b s]; [apply not_elem_of_nil |].
  destruct (beq b "+") eqn:E1; [apply beq_true in E1; simplify_eq; by apply not_elem_of_cons |].
  destruct (beq b "-") eqn:E2; [apply beq_true in E2; simplify_eq; by apply not_elem_of_cons | by simplify_eq].
Qed.

Lemma NormalizeMessageID_no_newline v id : NormalizeMessageID v = Some id → x0a ∉ id.
Proof.
  intros H Hin. destruct (decide (id = [])) as [->|Hne]; [by apply not_elem_of_nil in Hin |].
  apply NormalizeMessageID_some in H as (_ & _ & Hf); [|done]. rewrite Forall_forall in Hf. by apply Hf in Hin.
Qed.

(** What both callers give the transcript. *)
Lemma transcribes_fields f c :
  transcribes f c →
  (x0a ∉ sf_target f) ∧ (x0a ∉ sf_timestamp f) ∧ (x0a ∉ sf_messageID f) ∧
  ∃ host body, canonicalWebhookAuthority host = Ok (sf_authority f) ∧ sf_bodySHA256 f = SHA256HexBytes body ∧
    CanonicalWebhookRequestV3 host MethodPost (sf_target f) (sf_timestamp f) (sf_nonce f) (sf_messageID f) (SHA256HexBytes body) = Ok c.
Proof.
  intros [r r' u secret body nowMs random id ts nonce target authority c' Hsign Hu Ht Hid Htime Htg Hc Ha|h e q hh authority c' Hm Ht Hh Hc Ha];
    cbn [sf_target sf_timestamp sf_messageID sf_authority sf_nonce sf_bodySHA256].
  - split_and!.
    + eapply CanonicalTarget_no_newline; [exact Htg | by apply parsed_target_no_newline].
    + unfold normalizedSigningTime in Htime. destruct (_ || _); [done |]. injection Htime as <- _. intros Hin.
      pose proof (TrimSpace_Forall (λ b, b ≠ x0a) (FormatInt nowMs)) as Hf. rewrite !Forall_forall in Hf.
      eapply Hf; [|exact Hin | done]. intros b Hb ->. by apply FormatInt_no_newline in Hb.
    + unfold normalizedSigningMessageID in Hid. destruct (messageIDHeaderValues _) as [|v [|]]; try done.
      destruct (NormalizeMessageID v) as [id'|] eqn:En; [|done]. destruct (is_empty id'); [done |]. injection Hid as <-.
      by eapply NormalizeMessageID_no_newline.
    + exists (if is_empty (req_Host r) then url_Host u else req_Host r), body. split_and!; [done | done |].
      apply canonicalRequestV3_host in Hc. unfold SignRequest in Hsign. apply signRequest_ok in Hsign as (? & ? & ? & ? & Hsa).
      destruct (sa_method _ _ _ _ _ _ _ _ _ _ Hsa) as [Hm _]. by rewrite Hm in Hc.
  - rewrite Hm in Hc. apply signed_headers_spec in Hh as (_ & _ & _ & _ & (ms & Hms & _)%window_iff & Htg & v & _ & Hn & _). split_and!.
    + eapply CanonicalTarget_no_newline; [exact Htg | by apply parsed_target_no_newline].
    + by eapply ParseInt_no_newline.
    + by eapply NormalizeMessageID_no_newline.
    + exists (hr_Host q), (hr_Body q). by split_and!.
Qed.

(** C18: a signature is bound to one request.  Two requests that the signer or the handler take to the same v3 transcript
    (signer and signer, handler and handler, or signer and handler) agree on the canonical authority, the canonical
    target, the timestamp, the nonce, the message ID and the body hash, and the same fields always have the same
    transcript.  The targets are those net/url makes of URLs it parsed; nothing is asked of the nonces. *)
Theorem transcript_v3_injective (f f' : signedFields) (c c' : gostring) :
  transcribes f c → transcribes f' c' → (f = f' ↔ c = c').
Proof.
  intros (Ht & Hts & Hid & host & body & Ha & Hb & Hc)%transcribes_fields (Ht' & Hts' & Hid' & host' & body' & Ha' & Hb' & Hc')%transcribes_fields.
  destruct f as [a t ts n id b], f' as [a' t' ts' n' id' b']. cbn [sf_target sf_timestamp sf_messageID sf_authority sf_nonce sf_bodySHA256] in *.
  split.
  - intros [= <- <- <- <- <- <-]. unfold CanonicalWebhookRequestV3 in Hc, Hc'. rewrite Ha in Hc. rewrite Ha' in Hc'. cbn in Hc, Hc'. congruence.
  - intros <-. assert (x0a ∉ ToUpper MethodPost) as Hpost by (apply graphic_no_newline; by repeat constructor).
    destruct (transcript_v3_fields _ _ _ _ _ _ _ _ _ _ _ _ _ _ _ Hc Hc') as (Ea & _ & -> & -> & -> & -> & Eb);
      [by repeat (apply Forall_cons; split; [done |]) |]. congruence.
Qed.

(** A request signed at ten minutes past the epoch and what the handler makes of it two minutes later. *)
Definition demo_random : gostring := repeat x2a 16.
Definition demo_sent : Request :=
  match SignRequest (Some demo_outgoing) demo_token demo_body 600000 demo_random with Ok r => r | Err _ => demo_outgoing end.
Definition demo_received : hmacHeaders :=
  match signed_headers demo_handler (demo_arrival (12 * Minute) (12 * Minute)) (on_wire demo_sent) with
  | Some hh => hh
  | None => mkHmacHeaders [] [] [] [] [] []
  end.
Definition demo_transcript : gostring :=
  Join [x0a] [SignatureVersionV3; go "hook.example:8443"; MethodPost; go "/webhook/iris?a=1&b=2"; go "600000";
    randomhex_Generate demo_random; go "kakao-1"; SHA256HexBytes demo_body].

Lemma demo_target : parsed_target (go "/webhook/iris?b=2&a=1").
Proof.
  exists (go "/webhook/iris?b=2&a=1").
  eexists. split; [right; vm_compute; reflexivity | vm_compute; reflexivity].
Qed.

Lemma transcript_v3_injective_witness :
  mkFields (go "hook.example:8443") (go "/webhook/iris?a=1&b=2") (go "600000") (randomhex_Generate demo_random) (go "kakao-1")
    (SHA256HexBytes demo_body) =
  mkFields (go "hook.example:8443") (hh_target demo_received) (hh_timestamp demo_received) (hh_nonce demo_received)
    (hh_messageID demo_received) (SHA256HexBytes (hr_Body (on_wire demo_sent))).
Proof.
  refine (proj2 (transcript_v3_injective _ _ demo_transcript demo_transcript _ _) eq_refl).
  - refine (signer_transcribes demo_outgoing demo_sent (mkURL (go "Hook.Example:8443") (go "/webhook/iris?b=2&a=1")) demo_token demo_body
      600000 demo_random (go "kakao-1") (go "600000") _ _ _ _ _ _ demo_target _ _ _ _ _); vm_compute; reflexivity.
  - refine (handler_transcribes demo_handler (demo_arrival (12 * Minute) (12 * Minute)) (on_wire demo_sent) demo_received _ _ _ _ _ _ _).
    2: exact demo_target.
    all: vm_compute; reflexivity.
Defined.
