(* ===== verification/WebhookLifecycle.v ===== *)
(** * WebhookLifecycle: admission against close (webhook/handler.go)

    The concurrent protocol of [admitMessage], [beginClose] and [CloseContext] as a step relation over
    any number of request and closer goroutines.  Each step is one critical section, channel operation
    or wait-group operation of the source. *)

From S2P Require Import Prelude.

(** A request goroutine inside [admitMessage]. *)
Inductive admission :=
| AtEntry      (** before [admissionLock.RLock] *)
| Counted      (** [admissions.Add(1)] done, lock released, before the [closedCh] select *)
| Checked      (** past the select, before the [ctx.Err] check *)
| Admitting    (** inside [admitter.AdmitMessage] *)
| Returned (refused : bool).  (** [refused]: errClosed or a context error, the admitter not called *)

(** A goroutine inside [CloseContext]. *)
Inductive closing :=
| BeforeClose
| Selecting
| GraceOver    (** saw its context end and called [runCancel], before the last look at [closeDone] *)
| ClosedNil
| ClosedTimeout.

#[export] Instance closing_eq_dec : EqDecision closing.
Proof. solve_decision. Defined.

(** The goroutine [beginClose] starts. *)
Inductive waiter := NotStarted | Waiting | RunCancelled | ClosedDone.

Record life := mkLife {
  closed : bool;                (** also: [closedCh] is closed *)
  admissions : Z;               (** the wait group's counter *)
  wait : waiter;
  run_cancelled : bool;         (** [runCtx] is cancelled *)
  grace_over : bool;            (** some [CloseContext] saw its context end *)
  requests : list admission;
  closers : list closing;
}.

Definition NewLife : life := mkLife false 0 NotStarted false false [] [].

Definition closeDone (s : life) : bool := match wait s with ClosedDone => true | _ => false end.

(** The wait group counts these. *)
Definition in_flight (a : admission) : bool :=
  match a with Counted | Checked | Admitting => true | _ => false end.

Fixpoint inflight (l : list admission) : Z :=
  match l with
  | [] => 0
  | a :: r => Z.b2z (in_flight a) + inflight r
  end.

Definition set_request (s : life) (i : nat) (a : admission) (n : Z) : life :=
  mkLife (closed s) n (wait s) (run_cancelled s) (grace_over s) (<[i := a]> (requests s)) (closers s).

Definition set_closer (s : life) (i : nat) (c : closing) : life :=
  mkLife (closed s) (admissions s) (wait s) (run_cancelled s) (grace_over s) (requests s)
    (<[i := c]> (closers s)).

Definition set_wait (s : life) (w : waiter) (cancelled : bool) : life :=
  mkLife (closed s) (admissions s) w cancelled (grace_over s) (requests s) (closers s).

Inductive step : life → life → Prop :=
(* goroutines arrive *)
| step_request s :
    step s (mkLife (closed s) (admissions s) (wait s) (run_cancelled s) (grace_over s)
              (requests s ++ [AtEntry]) (closers s))
| step_closer s :
    step s (mkLife (closed s) (admissions s) (wait s) (run_cancelled s) (grace_over s)
              (requests s) (closers s ++ [BeforeClose]))
(* admitMessage *)
| step_refuse s i :
    requests s !! i = Some AtEntry → closed s = true →
    step s (set_request s i (Returned true) (admissions s))
| step_count s i :
    requests s !! i = Some AtEntry → closed s = false →
    step s (set_request s i Counted (admissions s + 1))
| step_recheck_closed s i :
    requests s !! i = Some Counted → closed s = true →
    step s (set_request s i (Returned true) (admissions s - 1))
| step_recheck_open s i :
    requests s !! i = Some Counted → closed s = false →
    step s (set_request s i Checked (admissions s))
| step_ctx_over s i :
    requests s !! i = Some Checked →
    step s (set_request s i (Returned true) (admissions s - 1))
| step_call s i :
    requests s !! i = Some Checked →
    step s (set_request s i Admitting (admissions s))
| step_return s i :
    requests s !! i = Some Admitting →
    step s (set_request s i (Returned false) (admissions s - 1))
(* beginClose, under closeOnce *)
| step_begin_first s i :
    closers s !! i = Some BeforeClose → closed s = false →
    step s (mkLife true (admissions s) Waiting (run_cancelled s) (grace_over s) (requests s)
              (<[i := Selecting]> (closers s)))
| step_begin_again s i :
    closers s !! i = Some BeforeClose → closed s = true →
    step s (set_closer s i Selecting)
(* the goroutine it starts *)
| step_wait s :
    wait s = Waiting → admissions s = 0 → step s (set_wait s RunCancelled true)
| step_done s :
    wait s = RunCancelled → step s (set_wait s ClosedDone (run_cancelled s))
(* CloseContext *)
| step_close_nil s i :
    closers s !! i = Some Selecting → closeDone s = true → step s (set_closer s i ClosedNil)
| step_grace_over s i :
    closers s !! i = Some Selecting →
    step s (mkLife (closed s) (admissions s) (wait s) true true (requests s)
              (<[i := GraceOver]> (closers s)))
| step_close_timeout s i :
    closers s !! i = Some GraceOver →
    step s (set_closer s i (if closeDone s then ClosedNil else ClosedTimeout)).

Inductive steps : life → life → Prop :=
| steps_refl s : steps s s
| steps_next s t u : steps s t → step t u → steps s u.

Definition reachable (s : life) : Prop := steps NewLife s.

Lemma steps_trans s t u : steps s t → steps t u → steps s u.
Proof. intros Hst Htu. induction Htu; [done |]. by econstructor; [apply IHHtu |]. Qed.

(** ** The invariant *)

Lemma inflight_app l k : inflight (l ++ k) = inflight l + inflight k.
Proof. induction l; simpl; lia. Qed.

Lemma inflight_insert l i a b :
  l !! i = Some a → inflight (<[i := b]> l) = inflight l - Z.b2z (in_flight a) + Z.b2z (in_flight b).
Proof.
  revert i. induction l as [|x l IH]; intros [|i] Hi; simplify_eq/=; [lia |].
  rewrite (IH i Hi). lia.
Qed.

Lemma inflight_nonneg l : 0 ≤ inflight l.
Proof. induction l as [|[] l IH]; simpl; lia. Qed.

Lemma inflight_zero l : inflight l = 0 → Forall (λ a, in_flight a = false) l.
Proof.
  induction l as [|a l IH]; intros Hz; [by apply Forall_nil |]. simpl in Hz.
  pose proof (inflight_nonneg l). destruct (in_flight a) eqn:E; simpl in Hz; [lia |].
  apply Forall_cons. split; [done |]. apply IH. lia.
Qed.

Definition started (w : waiter) : bool := match w with NotStarted => false | _ => true end.
Definition drained (w : waiter) : bool := match w with RunCancelled | ClosedDone => true | _ => false end.

Record life_ok (s : life) : Prop := {
  ok_count : admissions s = inflight (requests s);
  ok_started : started (wait s) = closed s;
  ok_drained : drained (wait s) = true → admissions s = 0;
  ok_cancel : run_cancelled s = true → drained (wait s) = true ∨ grace_over s = true;
  ok_nil : ClosedNil ∈ closers s → closeDone s = true;
}.

Lemma elem_of_insert_ne {A} (l : list A) i (a b : A) : a ≠ b → a ∈ <[i := b]> l → a ∈ l.
Proof.
  intros Hne Hin. apply list_elem_of_lookup in Hin as [j Hj].
  apply list_lookup_insert_Some in Hj as [(_ & -> & _)|[_ Hj]]; [done |].
  by eapply list_elem_of_lookup_2.
Qed.

Lemma set_request_ok s i a b n :
  life_ok s → requests s !! i = Some a →
  n = admissions s - Z.b2z (in_flight a) + Z.b2z (in_flight b) →
  (in_flight b = true → in_flight a = true ∨ closed s = false) → life_ok (set_request s i b n).
Proof.
  intros [Hc Hst Hd Hr Hn] Hi -> Hb. split; simpl; try done.
  - rewrite (inflight_insert _ _ _ _ Hi). lia.
  - intros Hdr. specialize (Hd Hdr). rewrite Hc in Hd.
    pose proof (proj1 (Forall_lookup _ _) (inflight_zero _ Hd) i a Hi) as Ha. simpl in Ha.
    rewrite Ha in *. destruct (in_flight b); [|simpl; lia].
    destruct Hb as [|Hcl]; [done | done |]. rewrite Hcl in Hst. by destruct (wait s).
Qed.

Lemma set_closer_ok s i c w r g :
  life_ok s → (c = ClosedNil → closeDone s = true) → wait s = w →
  (r = true → run_cancelled s = true ∨ g = true) → (grace_over s = true → g = true) →
  life_ok (mkLife (closed s) (admissions s) w r g (requests s) (<[i := c]> (closers s))).
Proof.
  intros [Hc Hst Hd Hr Hn] Hcn <- Hrg Hg. split; simpl; try done.
  - intros E. destruct (Hrg E) as [E'|E']; [|by auto]. destruct (Hr E'); auto.
  - intros Hin. destruct (decide (c = ClosedNil)) as [->|Hne]; [by auto |].
    apply Hn. eapply elem_of_insert_ne; [|exact Hin]. congruence.
Qed.

Lemma step_ok s t : life_ok s → step s t → life_ok t.
Proof.
  intros Hok Hstep. pose proof Hok as [Hc Hst Hd Hr Hn].
  destruct Hstep; try (eapply set_request_ok; [done | done | simpl; lia | simpl; by auto]).
  - split; simpl; try done. rewrite inflight_app. simpl. lia.
  - split; simpl; try done. intros [Hin|Hin]%elem_of_app; [by auto |].
    by apply list_elem_of_singleton in Hin.
  - split; simpl; try done.
    + intros E. destruct (Hr E) as [Hdr|]; [|by auto].
      match goal with H : closed _ = false |- _ => rewrite H in Hst end. by destruct (wait s).
    + intros Hin. apply elem_of_insert_ne in Hin; [|done]. apply Hn in Hin.
      match goal with H : closed _ = false |- _ => rewrite H in Hst end.
      unfold closeDone in Hin. by destruct (wait s).
  - apply set_closer_ok; by auto.
  - split; simpl; try done; [by rewrite <- Hst; match goal with H : wait _ = _ |- _ => rewrite H end | by auto |].
    intros Hin%Hn. unfold closeDone in Hin. by match goal with H : wait _ = _ |- _ => rewrite H in Hin end.
  - match goal with H : wait _ = _ |- _ => rewrite H in * end.
    split; simpl in *; try done; by auto.
  - apply set_closer_ok; by auto.
  - apply set_closer_ok; try done; by auto.
  - apply set_closer_ok; try done; [by destruct (closeDone s) | by auto].
Qed.

Lemma reachable_ok s : reachable s → life_ok s.
Proof.
  intros Hs. unfold reachable in Hs. remember NewLife as s0. induction Hs; subst.
  - split; simpl; try done. intros Hin. by apply not_elem_of_nil in Hin.
  - eapply step_ok; eauto.
Qed.

Lemma reachable_step s t : reachable s → step s t → reachable t.
Proof. intros ??. by econstructor. Qed.

(** ** Nothing enters after close *)

Lemma closed_step s t : step s t → closed s = true → closed t = true.
Proof. by destruct 1. Qed.

Lemma closed_step_entry s t i :
  step s t → closed s = true →
  requests s !! i = Some AtEntry ∨ requests s !! i = Some (Returned true) ∨ requests s !! i = None →
  requests t !! i = Some AtEntry ∨ requests t !! i = Some (Returned true) ∨ requests t !! i = None.
Proof.
  intros Hstep Hcl Hi. destruct Hstep; simpl in *; try done; try congruence;
    try (match goal with |- context [<[?j := _]> (requests s)] =>
      destruct (decide (i = j)) as [->|Hne];
        [rewrite list_lookup_insert_eq by (by eapply lookup_lt_Some); naive_solver
        |by rewrite list_lookup_insert_ne] end).
  destruct (decide (i < length (requests s))%nat) as [Hlt|Hge].
  - by rewrite lookup_app_l.
  - rewrite lookup_app_r by lia.
    destruct (i - length (requests s))%nat as [|[|]]; simpl; auto.
Qed.

(** C14: closing is a barrier.  In every execution, a request that had not been counted when the handler
    was closed is never counted and never reaches the admitter: it only ever returns an error. *)
Theorem no_admission_after_close (s t : life) (i : nat) :
  steps s t → closed s = true →
  requests s !! i = Some AtEntry ∨ requests s !! i = None →
  ∀ a, requests t !! i = Some a → a = AtEntry ∨ a = Returned true.
Proof.
  intros Hst Hcl Hi a Ha.
  assert (closed t = true ∧ (requests t !! i = Some AtEntry ∨ requests t !! i = Some (Returned true)
    ∨ requests t !! i = None)) as [_ Hfin].
  { clear a Ha. induction Hst as [|s t u Hst IH Hstep]; [naive_solver |].
    destruct (IH Hcl Hi) as [Hct Hit]. split; [by eapply closed_step |]. by eapply closed_step_entry. }
  naive_solver.
Qed.

(** A run: one request is being admitted when the handler is closed, a second one arrives after. *)
Definition busy_life : life :=
  mkLife true 1 Waiting false false [Admitting; AtEntry] [Selecting].

Lemma busy_reachable : reachable busy_life.
Proof.
  unfold reachable, busy_life.
  eapply steps_next; [|exact (step_request (mkLife true 1 Waiting false false [Admitting] [Selecting]))].
  eapply steps_next; [|exact (step_begin_first (mkLife false 1 NotStarted false false [Admitting] [BeforeClose]) 0 eq_refl eq_refl)].
  eapply steps_next; [|exact (step_closer (mkLife false 1 NotStarted false false [Admitting] []))].
  eapply steps_next; [|exact (step_call (mkLife false 1 NotStarted false false [Checked] []) 0 eq_refl)].
  eapply steps_next; [|exact (step_recheck_open (mkLife false 1 NotStarted false false [Counted] []) 0 eq_refl eq_refl)].
  eapply steps_next; [|exact (step_count (mkLife false 0 NotStarted false false [AtEntry] []) 0 eq_refl eq_refl)].
  eapply steps_next; [|exact (step_request NewLife)]. apply steps_refl.
Qed.

Lemma no_admission_after_close_witness : Returned true = AtEntry ∨ Returned true = Returned true.
Proof.
  apply (no_admission_after_close busy_life (set_request busy_life 1 (Returned true) 1) 1).
  - eapply steps_next; [apply steps_refl |]. exact (step_refuse busy_life 1 eq_refl eq_refl).
  - reflexivity.
  - left. reflexivity.
  - reflexivity.
Defined.

(** ** What a finished close means *)

Lemma closed_nil_step s t : step s t → ClosedNil ∈ closers s → ClosedNil ∈ closers t.
Proof.
  intros Hstep Hin. destruct Hstep; simpl; try done; [apply elem_of_app; by left |..];
    (apply list_elem_of_lookup in Hin as [j Hj]; eapply (list_elem_of_lookup_2 _ j);
     rewrite list_lookup_insert_ne; [done | congruence]).
Qed.

(** C16: when [CloseContext] returns nil, no request is between the wait group's [Add] and [Done], and
    none ever is again: every admission that had started has returned. *)
Theorem close_nil_quiescent (s t : life) :
  reachable s → ClosedNil ∈ closers s → steps s t → Forall (λ a, in_flight a = false) (requests t).
Proof.
  intros Hs Hnil Hst.
  assert (reachable t) as Ht by (by eapply steps_trans).
  assert (ClosedNil ∈ closers t) as Hnil'.
  { clear Hs Ht. induction Hst; [done |]. eapply closed_nil_step; eauto. }
  apply reachable_ok in Ht as [Hc _ Hd _ Hn]. apply inflight_zero. rewrite <- Hc. apply Hd.
  apply Hn in Hnil'. unfold closeDone in Hnil'. by destruct (wait t).
Qed.

(** The run goes on: the admission returns, the waiter finishes, [CloseContext] returns nil. *)
Definition quiet_life : life :=
  mkLife true 0 ClosedDone true false [Returned false; AtEntry] [ClosedNil].

Lemma busy_to_quiet : steps busy_life quiet_life.
Proof.
  unfold quiet_life.
  eapply steps_next; [|exact (step_close_nil (mkLife true 0 ClosedDone true false [Returned false; AtEntry] [Selecting]) 0 eq_refl eq_refl)].
  eapply steps_next; [|exact (step_done (mkLife true 0 RunCancelled true false [Returned false; AtEntry] [Selecting]) eq_refl)].
  eapply steps_next; [|exact (step_wait (mkLife true 0 Waiting false false [Returned false; AtEntry] [Selecting]) eq_refl eq_refl)].
  eapply steps_next; [apply steps_refl |]. exact (step_return busy_life 0 eq_refl).
Qed.

Lemma close_nil_quiescent_witness : Forall (λ a, in_flight a = false) (requests quiet_life).
Proof.
  apply (close_nil_quiescent quiet_life quiet_life).
  - exact (steps_trans _ _ _ busy_reachable busy_to_quiet).
  - left.
  - apply steps_refl.
Defined.

(** Admissions are not cut short.  The context that bounds running admissions is cancelled only
    when no admission is running, or after a caller of [CloseContext] ran out of its grace period. *)
Theorem run_context_outlives_admissions (s : life) :
  reachable s → run_cancelled s = true → grace_over s = false →
  Forall (λ a, in_flight a = false) (requests s).
Proof.
  intros [Hc _ Hd Hr _]%reachable_ok Hrc Hg. apply inflight_zero. rewrite <- Hc.
  destruct (Hr Hrc) as [|]; [by apply Hd | congruence].
Qed.

Lemma run_context_outlives_admissions_witness : Forall (λ a, in_flight a = false) (requests quiet_life).
Proof.
  apply (run_context_outlives_admissions quiet_life).
  - exact (steps_trans _ _ _ busy_reachable busy_to_quiet).
  - reflexivity.
  - reflexivity.
Defined.

(** ** Close completes *)

(** The steps of goroutines that are already there and of the waiter: no arrivals, no closers. *)
Definition internal (s t : life) : Prop :=
  step s t ∧ length (requests t) = length (requests s) ∧ closers t = closers s.

Definition weight (a : admission) : nat :=
  match a with AtEntry | Admitting => 1 | Checked => 2 | Counted => 3 | Returned _ => 0 end.

Definition waiter_weight (w : waiter) : nat :=
  match w with NotStarted => 3 | Waiting => 2 | RunCancelled => 1 | ClosedDone => 0 end.

Definition measure (s : life) : nat := sum_list_with weight (requests s) + waiter_weight (wait s).

Lemma sum_weight_insert l i a b :
  l !! i = Some a → (weight b < weight a)%nat →
  (sum_list_with weight (<[i := b]> l) < sum_list_with weight l)%nat.
Proof. intros Hi Hw. pose proof (sum_list_with_insert weight l i a b Hi). lia. Qed.

Lemma insert_same {A} (l : list A) i a b : l !! i = Some a → <[i := b]> l = l → a = b.
Proof.
  intros Hi He. apply lookup_lt_Some in Hi as Hlt. rewrite <- He in Hi.
  rewrite list_lookup_insert_eq in Hi by done. congruence.
Qed.

Lemma internal_decreases s t : closed s = true → internal s t → (measure t < measure s)%nat.
Proof.
  intros Hcl (Hstep & Hlen & Hcs). unfold measure.
  destruct Hstep; simpl in *; try congruence;
    try (match goal with H : closers _ !! _ = Some _ |- _ =>
           pose proof (insert_same _ _ _ _ H Hcs) as He; by destruct (closeDone s) end);
    try (apply Nat.add_lt_mono_r; eapply sum_weight_insert; [done | simpl; lia]).
  - rewrite length_app in Hlen. simpl in Hlen. lia.
  - apply (f_equal length) in Hcs. rewrite length_app in Hcs. simpl in Hcs. lia.
  - match goal with H : wait s = _ |- _ => rewrite H end. simpl. lia.
  - match goal with H : wait s = _ |- _ => rewrite H end. simpl. lia.
Qed.

Lemma internal_progress s :
  life_ok s → closed s = true → closeDone s = false → ∃ t, internal s t.
Proof.
  intros [Hc Hst Hd _ _] Hcl Hdone.
  destruct (decide (admissions s = 0)) as [Hz|Hz].
  - destruct (wait s) eqn:Ew; simpl in Hst; [congruence | | |unfold closeDone in Hdone; by rewrite Ew in Hdone].
    + eexists. split; [by apply step_wait | done].
    + eexists. split; [by apply step_done | done].
  - assert (∃ i a, requests s !! i = Some a ∧ in_flight a = true) as (i & a & Hi & Ha).
    { rewrite Hc in Hz. clear -Hz. induction (requests s) as [|a l IH]; [done |]. simpl in Hz.
      destruct (in_flight a) eqn:E; [by exists 0%nat, a |].
      destruct IH as (i & b & ? & ?); [simpl in Hz; lia |]. by exists (S i), b. }
    destruct a; try done; eexists; (split; [econstructor; done |]); simpl; by rewrite length_insert.
Qed.

Lemma internal_closed s t : internal s t → closed s = true → closed t = true.
Proof. intros [Hs _]. by apply closed_step. Qed.

(** C15: close completes.  From every reachable closed state, the goroutines that are there cannot run
    for ever, and they can only stop with [closeDone] closed: once the admissions in flight return,
    [Close] returns. *)
Theorem close_completes (s : life) :
  reachable s → closed s = true →
  Acc (λ t u, internal u t) s ∧
  (∀ t, rtc internal s t → (∀ u, ¬ internal t u) → closeDone t = true).
Proof.
  intros Hs Hcl. split.
  - remember (measure s) as n eqn:En. clear Hs. revert s Hcl En.
    induction (lt_wf n) as [n _ IH]. intros s Hcl ->. constructor. intros t Hst.
    eapply IH; [by eapply internal_decreases | by eapply internal_closed | done].
  - intros t Hst Hstuck.
    assert (reachable t ∧ closed t = true) as [Ht Hct].
    { clear Hstuck. induction Hst as [|s u t Hsu Hut IH]; [done |].
      apply IH; [by eapply reachable_step, Hsu | by eapply internal_closed]. }
    destruct (closeDone t) eqn:Ed; [done |].
    destruct (internal_progress t (reachable_ok t Ht) Hct Ed) as [u Hu]. by apply Hstuck in Hu.
Qed.

Lemma close_completes_witness : Acc (λ t u, internal u t) busy_life.
Proof. refine (proj1 (close_completes busy_life busy_reachable _)). reflexivity. Defined.
