(* ===== verification/Errors.v ===== *)
(** * Errors: internal/client/transport/errors.go

    The SDK's error values as a tree with [errors.Is] and [errors.AsType] as recursive functions, the
    classification methods, the machine-readable error codes, and the redaction of error bodies. *)

From S2P Require Import Prelude GoStrings GoStrconv GoJson GoHttp.

(** ** Error values *)

(** The package's error variables, and the two of package context. *)
Inductive sentinel :=
| ErrRetryable | ErrPermanent | ErrAuthFailed | ErrRateLimited | ErrTransport | ErrH3EgressDenied
| ErrNotSent | ErrResponseTooLarge | ErrResponseDrainTimeout | errUnexpectedResponseBytes
| errHTTP1ProbeOnly | Canceled | ContextDeadlineExceeded.

#[export] Instance sentinel_eq_dec : EqDecision sentinel.
Proof. solve_decision. Defined.

Record HTTPError := mkHTTPError {
  he_StatusCode : Z;
  he_URL : gostring;
  he_RetryAfter : Z;
  he_Body : gostring;
  he_code : gostring;
}.

(** Errors.  [EOther] is an error value none of the package's tests recognize (an [errors.New] text, a
    network error); [EWrap] is [fmt.Errorf] with its [%w] operands in order, or [errors.Join].  Texts
    are left out: no decision of the package reads them. *)
Inductive goerror :=
| ESentinel (s : sentinel)
| EOther (text : gostring)
| EWrap (causes : list goerror)
| EHTTP (e : HTTPError)
| ETransport (op url : gostring) (err : option goerror) (idempotent : bool)
| EStop (cause : goerror).

Definition authEpochMismatchCode : gostring := go "AUTH_EPOCH_MISMATCH".

(** [HTTPError.Is]. *)
Definition HTTPError_Is (e : HTTPError) (target : sentinel) : bool :=
  if (he_StatusCode e =? 401) && seqb (he_code e) authEpochMismatchCode then
    match target with ErrRetryable | ErrNotSent => true | _ => false end
  else
    match target with
    | ErrRetryable => (500 <=? he_StatusCode e) || (he_StatusCode e =? 429)
    | ErrPermanent =>
        (400 <=? he_StatusCode e) && (he_StatusCode e <? 500) && negb (he_StatusCode e =? 429)
    | ErrAuthFailed => (he_StatusCode e =? 401) || (he_StatusCode e =? 403)
    | ErrRateLimited => he_StatusCode e =? 429
    | _ => false
    end.

(** [TransportError.Is], from what its cause is. *)
Definition TransportError_Is (cause_is : sentinel → bool) (idempotent : bool) (target : sentinel) : bool :=
  let notSent := cause_is ErrNotSent in
  match target with
  | ErrTransport => negb notSent
  | ErrRetryable =>
      (notSent || idempotent) && negb (cause_is ErrH3EgressDenied) && negb (cause_is ErrResponseTooLarge)
  | _ => false
  end.

(** [errors.Is]: the value itself, its [Is] method, then what it unwraps to. *)
Fixpoint Is (err : goerror) (target : sentinel) : bool :=
  match err with
  | ESentinel s => bool_decide (s = target)
  | EOther _ => false
  | EWrap causes => existsb (λ e, Is e target) causes
  | EHTTP e => HTTPError_Is e target
  | ETransport _ _ cause idempotent =>
      let cause_is t := match cause with Some e => Is e t | None => false end in
      TransportError_Is cause_is idempotent target || cause_is target
  | EStop cause => Is cause target
  end.

(** [errors.AsType[*HTTPError]]: the first one in depth-first order. *)
Fixpoint AsHTTPError (err : goerror) : option HTTPError :=
  match err with
  | EHTTP e => Some e
  | EWrap causes =>
      (fix first (l : list goerror) : option HTTPError :=
         match l with
         | [] => None
         | e :: r => match AsHTTPError e with Some h => Some h | None => first r end
         end) causes
  | ETransport _ _ (Some cause) _ => AsHTTPError cause
  | EStop cause => AsHTTPError cause
  | _ => None
  end.

(** [errors.AsType[*stopReplyRetryError]] succeeds. *)
Fixpoint AsStop (err : goerror) : bool :=
  match err with
  | EStop _ => true
  | EWrap causes => existsb AsStop causes
  | ETransport _ _ (Some cause) _ => AsStop cause
  | _ => false
  end.

(** ** Error codes *)

Definition HTTPErrorCodeClientRequestIDPayloadMismatch : gostring := go "CLIENT_REQUEST_ID_PAYLOAD_MISMATCH".
Definition HTTPErrorCodeClientRequestIDFailed : gostring := go "CLIENT_REQUEST_ID_FAILED".
Definition HTTPErrorCodeClientRequestIDOutcomeUnknown : gostring := go "CLIENT_REQUEST_ID_OUTCOME_UNKNOWN".
Definition HTTPErrorCodeClientRequestIDAlreadyExists : gostring := go "CLIENT_REQUEST_ID_ALREADY_EXISTS".

Definition HTTPErrorCode (err : goerror) : gostring :=
  match AsHTTPError err with Some e => he_code e | None => [] end.

Definition conflict_codes : list gostring :=
  [HTTPErrorCodeClientRequestIDPayloadMismatch; HTTPErrorCodeClientRequestIDFailed;
   HTTPErrorCodeClientRequestIDOutcomeUnknown; HTTPErrorCodeClientRequestIDAlreadyExists].

Definition ClientRequestIDConflictCode (err : goerror) : gostring :=
  match AsHTTPError err with
  | None => []
  | Some e =>
      if negb (he_StatusCode e =? 409) then []
      else
        let code := HTTPErrorCode err in
        if bool_decide (code ∈ conflict_codes) then code else []
  end.

Definition httpErrorCodeMaxLen : Z := 128.

Definition is_code_byte (b : byte) : bool :=
  in_range "a" "z" b || in_range "A" "Z" b || in_range "0" "9" b || beq b "_" || beq b "-" || beq b ".".

Definition parseHTTPErrorCode (body : gostring) : gostring :=
  match (v ← parse_json body; l ← dec_struct v; member l (go "code") [] dec_string) with
  | None => []
  | Some payload =>
      let code := TrimSpace payload in
      if seqb code authEpochMismatchCode && negb (seqb code payload) then []
      else if is_empty code || (httpErrorCodeMaxLen <? Z.of_nat (length code)) then []
      else if forallb is_code_byte code then code
      else []
  end.

(** ** Error bodies *)

Definition httpErrorBodyMaxLen : Z := 512.
Definition httpErrorBodyParseMaxLen : Z := Z.shiftl 64 10.

(** A response body: the bytes it delivers and whether it ends in a read error. *)
Record bodyReader := mkBody { br_data : gostring; br_fails : bool }.

(** [readErrorBody] of a non-nil reader: at most one byte over the parse budget; a read error counts
    only if it is reached.  The drain that follows is bounded and its outcome is discarded. *)
Definition readErrorBody (r : bodyReader) : gostring * bool :=
  let budget := Z.to_nat (httpErrorBodyParseMaxLen + 1) in
  let payload := take budget (br_data r) in
  if br_fails r && (length (br_data r) <? budget)%nat then (payload, false)
  else (payload, Z.of_nat (length payload) <=? httpErrorBodyParseMaxLen).

(** The result of a loop that slices strings: a value, a slice out of range, or no fuel left. *)
Inductive sliced := Sliced (s : gostring) | SlicePanic | SliceFuel.

Definition is_not_space (r : Z) : bool := negb (IsSpace r).

Definition ends_line (r : Z) : bool := (r =? 13) || (r =? 10).

Definition ends_token (r : Z) : bool := IsSpace r || (r =? 44) || (r =? 59) || (r =? 34) || (r =? 39).

Definition stars : gostring := go "***".

(** The loop of [redactPrefix]: [lower] is the lower-cased text, [searchFrom] an offset into it that is
    then used to slice the text itself, as the source does. *)
Fixpoint redact_loop (fuel : nat) (s prefix : gostring) (redactLine : bool) (searchFrom : nat) : sliced :=
  match fuel with
  | O => SliceFuel
  | S fuel =>
      let lower := ToLower s in
      match Index (drop searchFrom lower) prefix with
      | None => Sliced s
      | Some idx =>
          let restStart := (searchFrom + idx + length prefix)%nat in
          if (length s <? restStart)%nat then SlicePanic
          else
            match IndexFunc (drop restStart s) is_not_space with
            | None => Sliced s
            | Some off =>
                let valueStart := (restStart + off)%nat in
                let value := drop valueStart s in
                let valueEnd :=
                  match IndexFunc value (if redactLine then ends_line else ends_token) with
                  | None => length s
                  | Some n => (valueStart + n)%nat
                  end in
                let s' := take valueStart s ++ stars ++ drop valueEnd s in
                redact_loop fuel s' prefix redactLine (Nat.min (valueStart + 3) (length (ToLower s')))
            end
      end
  end.

Definition redactPrefix (s prefix : gostring) (redactLine : bool) : sliced :=
  redact_loop (S (length s)) s prefix redactLine 0.

Definition line_prefixes : list gostring :=
  [go "authorization:"; go "x-iris-secret:"; go "x-iris-token:"; go "x-api-key:"; go "cookie:";
   go "set-cookie:"].

Definition token_prefixes : list gostring := [go "bearer "; go "signature="].

Definition sliced_bind (m : sliced) (k : gostring → sliced) : sliced :=
  match m with Sliced s => k s | _ => m end.

Definition redactSensitiveTokens (s : gostring) : sliced :=
  let m := fold_left (λ m p, sliced_bind m (λ s, redactPrefix s p true)) line_prefixes (Sliced s) in
  fold_left (λ m p, sliced_bind m (λ s, redactPrefix s p false)) token_prefixes m.

Definition truncateErrorBody (payload : gostring) : sliced :=
  let payload := if httpErrorBodyMaxLen <? Z.of_nat (length payload)
                 then take (Z.to_nat httpErrorBodyMaxLen) payload else payload in
  sliced_bind (redactSensitiveTokens payload) (λ s, Sliced (TrimSpace s)).

(** [HTTPError.Error]. *)
Definition HTTPError_Error (e : HTTPError) : sliced :=
  let target := TrimSpace (he_URL e) in
  let target := if is_empty target then go "request" else target in
  let head := go "iris " ++ target ++ go " returned " ++ FormatInt (he_StatusCode e) in
  sliced_bind (redactSensitiveTokens (he_Body e)) (λ body,
    Sliced (if negb (is_empty body) then head ++ go ": " ++ body else head)).

(** ** Classification *)

(** The two verdicts on a failed request never hold together. *)
Definition exclusive (e : goerror) : Prop := ¬ (Is e ErrTransport = true ∧ Is e ErrNotSent = true).

Lemma exclusive_HTTP e : exclusive (EHTTP e).
Proof.
  unfold exclusive. simpl. unfold HTTPError_Is. destruct (_ && _); simpl; naive_solver.
Qed.

Lemma exclusive_wrap1 e : exclusive e → exclusive (EWrap [e]).
Proof. unfold exclusive. simpl. by rewrite !orb_false_r. Qed.

Lemma exclusive_stop e : exclusive e → exclusive (EStop e).
Proof. done. Qed.

Lemma exclusive_transport op url e idem : exclusive e → exclusive (ETransport op url (Some e) idem).
Proof.
  unfold exclusive. simpl. destruct (Is e ErrNotSent); simpl; naive_solver.
Qed.

Lemma exclusive_not_sent e : Is e ErrTransport = false → exclusive e.
Proof. unfold exclusive. intros ->. naive_solver. Qed.

(** A transport error around a cause that was not sent is not an unknown outcome. *)
Lemma transport_not_sent op url e idem :
  Is e ErrNotSent = true → Is e ErrTransport = false → Is (ETransport op url (Some e) idem) ErrTransport = false.
Proof. simpl. by intros -> ->. Qed.

Lemma transport_unknown op url e idem :
  Is e ErrNotSent = false → Is (ETransport op url (Some e) idem) ErrTransport = true.
Proof. simpl. by intros ->. Qed.

(** ** Redaction: bounds *)

Lemma Index_bound s p n : Index s p = Some n → (n + length p ≤ length s)%nat.
Proof.
  revert n. induction s as [|b s IH]; intros n H; cbn [Index] in H.
  - destruct (HasPrefix [] p) eqn:E; [|done]. apply HasPrefix_spec in E as [r Hr].
    apply (f_equal length) in Hr. rewrite length_app in Hr. simplify_eq. simpl in *. lia.
  - destruct (HasPrefix (b :: s) p) eqn:E.
    + apply HasPrefix_spec in E as [r Hr]. apply (f_equal length) in Hr. rewrite length_app in Hr.
      simplify_eq. simpl in *. lia.
    + destruct (Index s p) eqn:Ei; [|done]. simplify_eq/=. specialize (IH _ eq_refl). lia.
Qed.

Lemma index_runes_bound f off l n :
  index_runes f off l = Some n → (n ≤ off + list_sum (map snd l))%nat.
Proof.
  revert off. induction l as [|[c w] l IH]; intros off H; [done |]. simpl in *.
  destruct (f c); [simplify_eq; lia |]. apply IH in H. lia.
Qed.

Lemma decode_from_widths s k :
  (list_sum (map snd (decode_from k s)) ≤ length s - k)%nat.
Proof.
  revert k. induction s as [|b s IH]; intros k; [simpl; lia |].
  destruct k as [|k]; [|simpl; apply IH]. cbn [decode_from].
  pose proof (decodeRune_width b s) as Hw. destruct (decodeRune (b :: s)) as [c n]. simpl in *.
  specialize (IH (n - 1)%nat). lia.
Qed.

Lemma IndexFunc_bound s f n : IndexFunc s f = Some n → (n ≤ length s)%nat.
Proof.
  unfold IndexFunc, decoded. intros H%index_runes_bound. pose proof (decode_from_widths s 0). lia.
Qed.

Lemma Index_nil p : p ≠ [] → Index [] p = None.
Proof. by destruct p. Qed.

(** The loop never runs out of the fuel [redactPrefix] gives it, on any bytes. *)
Lemma redact_loop_fuel fuel s p line from :
  p ≠ [] → (length (ToLower s) ≤ from ∧ 1 ≤ fuel ∨ length s - from < fuel)%nat →
  redact_loop fuel s p line from ≠ SliceFuel.
Proof.
  intros Hp. revert s from. induction fuel as [|fuel IH]; intros s from Hf; [lia |].
  cbn [redact_loop]. destruct (Index (drop from (ToLower s)) p) as [idx|] eqn:Ei; [|done].
  apply Index_bound in Ei as Hi. rewrite length_drop in Hi.
  assert (1 ≤ length p)%nat by (destruct p; [done | simpl; lia]).
  destruct (length s <? from + idx + length p)%nat eqn:El; [done |]. apply Nat.ltb_ge in El.
  destruct (IndexFunc (drop (from + idx + length p) s) is_not_space) as [off|] eqn:Eo; [|done].
  apply IndexFunc_bound in Eo. rewrite length_drop in Eo.
  set (vs := (from + idx + length p + off)%nat) in *. set (value := drop vs s) in *.
  set (ve := match IndexFunc value _ with Some n => (vs + n)%nat | None => length s end).
  assert (vs ≤ ve ≤ length s)%nat as Hve.
  { subst ve. destruct (IndexFunc value _) as [n|] eqn:En; [|lia].
    apply IndexFunc_bound in En. subst value. rewrite length_drop in En. lia. }
  clearbody ve. apply IH. destruct (decide (length (ToLower (take vs s ++ stars ++ drop ve s)) ≤ vs + 3)%nat).
  - left. split; [lia |]. destruct Hf as [[? _]|?]; lia.
  - right. rewrite !length_app, length_take, length_drop. change (length stars) with 3%nat.
    rewrite Nat.min_l by lia. destruct Hf as [[? _]|?]; lia.
Qed.

Lemma redactPrefix_fuel s p line : p ≠ [] → redactPrefix s p line ≠ SliceFuel.
Proof. intros Hp. apply redact_loop_fuel; [done | lia]. Qed.
