(* ===== verification/Redaction.v ===== *)
(** * Redaction: what is left of an error body (internal/client/transport/errors.go)

    [redactPrefix] on ASCII text against a specification of its result, and what follows for the diagnostic that
    [truncateErrorBody] makes of a response body: no value of a sensitive header or token is left in it.  On text that is
    not valid UTF-8 the offsets go wrong, as two concrete bodies show. *)

From S2P Require Import Prelude GoStrings GoStrconv GoJson GoHttp Errors.

(** ** Searching ASCII text *)

Fixpoint find_byte (P : byte → bool) (s : gostring) : option nat :=
  match s with
  | [] => None
  | b :: r => if P b then Some O else S <$> find_byte P r
  end.

Lemma index_runes_ascii f off s :
  index_runes f off (map (λ b, (bz b, 1%nat)) s) = (λ n, off + n)%nat <$> find_byte (λ b, f (bz b)) s.
Proof.
  revert off. induction s as [|b s IH]; intros off; [done |]. simpl.
  destruct (f (bz b)); [simpl; f_equal; lia |]. rewrite IH.
  destruct (find_byte _ s); simpl; [f_equal; lia | done].
Qed.

Lemma IndexFunc_ascii f s :
  Forall (λ b, is_ascii b = true) s → IndexFunc s f = find_byte (λ b, f (bz b)) s.
Proof.
  intros H. unfold IndexFunc. rewrite decoded_ascii, index_runes_ascii by done.
  by destruct (find_byte _ s).
Qed.

(** A search splits the text at the first byte that was looked for. *)
Lemma find_byte_split P s :
  match find_byte P s with
  | Some n => ∃ u c v, s = u ++ c :: v ∧ length u = n ∧ Forall (λ b, P b = false) u ∧ P c = true
  | None => Forall (λ b, P b = false) s
  end.
Proof.
  induction s as [|b s IH]; simpl; [by apply Forall_nil |].
  destruct (P b) eqn:E; [by exists [], b, s |]. destruct (find_byte P s) as [n|]; simpl; [|by apply Forall_cons].
  destruct IH as (u & c & v & -> & Hl & Hu & Hc). exists (b :: u), c, v. split_and!; [done | simpl; lia | by apply Forall_cons | done].
Qed.

Lemma HasPrefix_take s p : HasPrefix s p = true ↔ take (length p) s = p.
Proof.
  rewrite HasPrefix_spec. split; [intros [r ->]; apply take_app_length |].
  intros E. exists (drop (length p) s). rewrite <- (take_drop (length p) s) at 1. by rewrite E.
Qed.

Lemma Index_spec s p :
  match Index s p with
  | Some n => take (length p) (drop n s) = p ∧ ∀ m, (m < n)%nat → take (length p) (drop m s) ≠ p
  | None => ∀ m, take (length p) (drop m s) ≠ p
  end.
Proof.
  induction s as [|b s IH]; cbn [Index].
  - destruct (HasPrefix [] p) eqn:E; [apply HasPrefix_take in E; split; [done | lia] |].
    intros m. rewrite drop_nil. rewrite <- HasPrefix_take, E. done.
  - destruct (HasPrefix (b :: s) p) eqn:E; [apply HasPrefix_take in E; split; [done | lia] |].
    assert (take (length p) (b :: s) ≠ p) as Hn by (rewrite <- HasPrefix_take, E; done).
    destruct (Index s p) as [n|]; simpl.
    + destruct IH as [IH1 IH2]. split; [done |]. intros [|m] Hm; [done |]. apply IH2. lia.
    + intros [|m]; [done | apply IH].
Qed.

(** ** What redaction does *)

Definition space_byte (b : byte) : bool := IsSpace (bz b).

(** A byte that ends the value of a header line, or of a token. *)
Definition ends_value (redactLine : bool) (b : byte) : bool := (if redactLine then ends_line else ends_token) (bz b).

(** The value before [r] is over. *)
Definition ended (redactLine : bool) (r : gostring) : Prop :=
  match r with [] => True | b :: _ => ends_value redactLine b = true end.

(** The prefix occurs in [s] at [i], ignoring ASCII case. *)
Definition occurs (p s : gostring) (i : nat) : Prop := take (length p) (drop i (map lower_byte s)) = p.

(** [t] is [s] with the values masked.  Up to the first occurrence of the prefix the text stays; the prefix as it was
    written and the white space after it stay; the value, which begins at the first byte that is not white space and
    lasts until a byte that ends it or the end of the text, becomes the mask; and so on behind it. *)
Inductive redaction (p : gostring) (redactLine : bool) : gostring → gostring → Prop :=
| redaction_none s : (∀ i, ¬ occurs p s i) → redaction p redactLine s s
| redaction_blank before name space :
    map lower_byte name = p → (∀ i, (i < length before)%nat → ¬ occurs p (before ++ name ++ space) i) →
    Forall (λ b, space_byte b = true) space →
    redaction p redactLine (before ++ name ++ space) (before ++ name ++ space)
| redaction_value before name space value rest rest' :
    map lower_byte name = p → (∀ i, (i < length before)%nat → ¬ occurs p (before ++ name ++ space ++ value ++ rest) i) →
    Forall (λ b, space_byte b = true) space → (∃ c r, value ++ rest = c :: r ∧ space_byte c = false) →
    Forall (λ b, ends_value redactLine b = false) value → ended redactLine rest → redaction p redactLine rest rest' →
    redaction p redactLine (before ++ name ++ space ++ value ++ rest) (before ++ name ++ space ++ stars ++ rest').

Lemma occurs_app p u s i : occurs p (u ++ s) (length u + i) ↔ occurs p s i.
Proof.
  unfold occurs. rewrite map_app, <- (length_map lower_byte u), drop_app_add. done.
Qed.

(** An occurrence that ends within a common part is one of both texts. *)
Lemma occurs_within p u s s' i : (i + length p ≤ length u)%nat → occurs p (u ++ s) i → occurs p (u ++ s') i.
Proof.
  unfold occurs. intros Hi. rewrite !map_app, !skipn_app, !firstn_app, !length_drop, !length_map.
  replace (length p - (length u - i))%nat with 0%nat by lia. by rewrite !take_0.
Qed.

(** The byte of a text at an offset into an occurrence of the prefix. *)
Lemma occurs_byte p s i k : occurs p s i → (k < length p)%nat → ∃ c, s !! (i + k)%nat = Some c ∧ p !! k = Some (lower_byte c).
Proof.
  unfold occurs. intros H Hk. destruct (lookup_lt_is_Some_2 p k Hk) as [x Hx]. rewrite <- H in Hx.
  rewrite lookup_take_lt, lookup_drop in Hx by done. change (map lower_byte s) with (lower_byte <$> s) in Hx.
  rewrite list_lookup_fmap in Hx. destruct (s !! (i + k)%nat) as [c|] eqn:Ec; [|done]. exists c. split; [done |].
  rewrite <- H, lookup_take_lt, lookup_drop by done. change (map lower_byte s) with (lower_byte <$> s).
  by rewrite list_lookup_fmap, Ec.
Qed.

Lemma occurs_length p s i : p ≠ [] → occurs p s i → (i + length p ≤ length s)%nat.
Proof.
  intros Hp H. assert (1 ≤ length p)%nat by (destruct p; [done | simpl; lia]).
  destruct (occurs_byte p s i (length p - 1) H) as (c & Hc & _); [lia |]. apply lookup_lt_Some in Hc. lia.
Qed.

Abbreviation ascii := (Forall (λ b : byte, is_ascii b = true)).

(** Where the first occurrence is, with what the prefix is written as. *)
Lemma Index_occurs p s :
  match Index (map lower_byte s) p with
  | Some n => ∃ before name r, s = before ++ name ++ r ∧ length before = n ∧ map lower_byte name = p ∧
      ∀ i, (i < n)%nat → ¬ occurs p s i
  | None => ∀ i, ¬ occurs p s i
  end.
Proof.
  pose proof (Index_spec (map lower_byte s) p) as H. destruct (Index _ p) as [n|] eqn:E; [|exact H].
  destruct H as [H Hno]. apply Index_bound in E. rewrite length_map in E.
  exists (take n s), (take (length p) (drop n s)), (drop (length p) (drop n s)).
  split_and!; [by rewrite !take_drop | rewrite length_take; lia | | exact Hno].
  change (map lower_byte) with (fmap (M := list) lower_byte) in *. by rewrite fmap_take, fmap_drop.
Qed.

(** The value at the beginning of a text that does not begin with white space. *)
Lemma value_split line s :
  let value_end := match find_byte (ends_value line) s with Some n => n | None => length s end in
  Forall (λ b, ends_value line b = false) (take value_end s) ∧ ended line (drop value_end s).
Proof.
  cbv zeta. pose proof (find_byte_split (ends_value line) s) as H. destruct (find_byte _ s) as [n|].
  - destruct H as (u & c & v & -> & <- & Hu & Hc). by rewrite take_app_length, drop_app_length.
  - by rewrite take_ge, drop_ge.
Qed.

(** The slices around the value [w] of a name. *)
Lemma value_slices d before name space w n :
  let s := d ++ before ++ name ++ space ++ w in
  let valueStart := (length d + length before + length name + length space)%nat in
  drop valueStart s = w ∧ take valueStart s ++ stars ++ drop (valueStart + n) s = (d ++ before ++ name ++ space ++ stars) ++ drop n w.
Proof.
  cbv zeta. set (u := d ++ before ++ name ++ space).
  assert (d ++ before ++ name ++ space ++ w = u ++ w) as -> by (subst u; by rewrite <- !app_assoc).
  assert (length d + length before + length name + length space = length u)%nat as -> by (subst u; rewrite !length_app; lia).
  rewrite take_app_length, drop_app_length, drop_app_add. split; [done |]. subst u. by rewrite <- !app_assoc.
Qed.

Lemma not_space_spaces u : Forall (λ b, is_not_space (bz b) = false) u → Forall (λ b, space_byte b = true) u.
Proof. intros H. eapply Forall_impl; [exact H |]. intros b Hb. by apply negb_false_iff in Hb. Qed.

Lemma redact_loop_redaction p line fuel d s :
  p ≠ [] → ascii d → ascii s →
  match redact_loop fuel (d ++ s) p line (length d) with
  | Sliced out => ∃ t, out = d ++ t ∧ ascii t ∧ redaction p line s t
  | SlicePanic => False
  | SliceFuel => True
  end.
Proof.
  intros Hp. revert d s. induction fuel as [|fuel IH]; intros d s Hd Hs; [done |]. cbn [redact_loop].
  rewrite (ToLower_ascii (d ++ s)) by (by apply Forall_app). rewrite map_app, drop_app_length' by (by rewrite length_map).
  pose proof (Index_occurs p s) as Hidx. destruct (Index (map lower_byte s) p) as [n|]; [|exists s; by repeat constructor].
  destruct Hidx as (before & name & r & -> & <- & Hname & Hno).
  assert (length p = length name) as -> by (by rewrite <- Hname, length_map).
  rewrite (proj2 (Nat.ltb_ge _ _)) by (rewrite !length_app; lia). rewrite !Forall_app in Hs. destruct Hs as (Hb & Hnm & Hr).
  pose proof (proj1 (value_slices d before name [] r 0)) as H0. cbn [app length] in H0. rewrite Nat.add_0_r in H0.
  rewrite H0, IndexFunc_ascii by done. clear H0.
  pose proof (find_byte_split (λ b, is_not_space (bz b)) r) as Hsp. destruct (find_byte _ r) as [off|].
  2:{ exists (before ++ name ++ r). split_and!; [done | by rewrite !Forall_app |]. by apply redaction_blank; [| |apply not_space_spaces]. }
  destruct Hsp as (space & c & v & -> & <- & Hspace%not_space_spaces & Hc%negb_true_iff). apply Forall_app in Hr as [Hsa Hv]. cbv zeta.
  rewrite (proj1 (value_slices d before name space (c :: v) 0)), IndexFunc_ascii by done.
  pose proof (value_split line (c :: v)) as [Hval Hend].
  change (find_byte (λ b, (if line then ends_line else ends_token) (bz b)) (c :: v)) with (find_byte (ends_value line) (c :: v)).
  set (ve := match find_byte (ends_value line) (c :: v) with Some n => n | None => length (c :: v) end) in *.
  match goal with |- context [match find_byte (ends_value line) (c :: v) with Some n => ?a + n | None => ?b end%nat] =>
    assert (match find_byte (ends_value line) (c :: v) with Some n => a + n | None => b end = a + ve)%nat as -> end.
  { subst ve. destruct (find_byte _ _); [done |]. rewrite !length_app. simpl. lia. }
  rewrite (proj2 (value_slices d before name space (c :: v) ve)). set (d' := d ++ before ++ name ++ space ++ stars).
  assert (ascii d') as Hd' by (subst d'; rewrite !Forall_app; split_and!; try done; by repeat constructor).
  assert (ascii (drop ve (c :: v))) as Hrest by (by apply Forall_drop).
  rewrite (ToLower_ascii (d' ++ _)) by (by apply Forall_app).
  replace (Nat.min _ _) with (length d') by (subst d'; rewrite length_map, !length_app; change (length stars) with 3%nat; lia).
  specialize (IH d' _ Hd' Hrest). destruct (redact_loop _ _ _ _ _) as [out| |]; [|done..].
  destruct IH as (t & -> & Ht & Hred). exists (before ++ name ++ space ++ stars ++ t). subst d'. split_and!.
  - by rewrite <- !app_assoc.
  - rewrite !Forall_app in Hd' |- *. by destruct Hd' as (_ & ? & ? & ? & ?).
  - rewrite <- (take_drop ve (c :: v)) in Hno |- *. constructor; try done. rewrite take_drop. by eexists _, _.
Qed.

Lemma redactPrefix_redaction p line s :
  p ≠ [] → ascii s → ∃ out, redactPrefix s p line = Sliced out ∧ ascii out ∧ redaction p line s out.
Proof.
  intros Hp Hs. pose proof (redact_loop_redaction p line (S (length s)) [] s Hp (Forall_nil_2 _) Hs) as H.
  pose proof (redactPrefix_fuel s p line Hp) as Hf. unfold redactPrefix in *. cbn [app length] in H.
  destruct (redact_loop _ s p line 0) as [out| |]; [|done..]. destruct H as (t & -> & Ht & Hr). by exists t.
Qed.

(** ** What is left afterwards *)

(** After the name, [t] has no value, or the mask in place of one. *)
Definition sealed_after (line : bool) (t : gostring) : Prop :=
  Forall (λ b, space_byte b = true) t ∨
  ∃ space r, t = space ++ stars ++ r ∧ Forall (λ b, space_byte b = true) space ∧ ended line r.

(** Every occurrence of the prefix, in any letter case, is followed by no value or by the mask in its place. *)
Definition sealed (p : gostring) (line : bool) (s : gostring) : Prop :=
  ∀ i, occurs p s i → sealed_after line (drop (i + length p) s).

(** What the proofs ask of a prefix: it has no star, does not begin with white space, and has no border (no proper
    suffix of it is a prefix of it). *)
Definition prefix_ok (p : gostring) : bool :=
  match p with [] => false | b :: _ => negb (space_byte b) end
  && forallb (λ b, negb (beq b "*")) p
  && forallb (λ k, negb (seqb (drop k p) (take (length p - k) p))) (seq 1 (length p - 1)).

Lemma prefixes_ok : forallb prefix_ok (line_prefixes ++ token_prefixes) = true.
Proof. vm_compute. reflexivity. Qed.

Lemma ended_app line r s s' : r ≠ [] → ended line (r ++ s) → ended line (r ++ s').
Proof. by destruct r. Qed.

Lemma star_ends line : ends_value line "*" = false.
Proof. by destruct line. Qed.

Section prefix.
Context (p : gostring) (Hok : prefix_ok p = true).

Lemma prefix_ne : p ≠ [].
Proof using Hok. clear -Hok. by destruct p. Qed.

Lemma prefix_no_star : "*"%byte ∉ p.
Proof using Hok.
  clear -Hok. unfold prefix_ok in Hok. apply andb_true_iff in Hok as [H _]. apply andb_true_iff in H as [_ H].
  rewrite forallb_forall in H. intros Hin%list_elem_of_In%H. done.
Qed.

Lemma occurs_no_overlap s i j : occurs p s i → occurs p s j → (i < j < i + length p)%nat → False.
Proof using Hok.
  unfold occurs. intros Hi Hj Hij. unfold prefix_ok in Hok. apply andb_true_iff in Hok as [_ Hb].
  rewrite forallb_forall in Hb. specialize (Hb (j - i)%nat). rewrite in_seq in Hb.
  specialize (Hb ltac:(lia)). apply negb_true_iff, seqb_false in Hb. apply Hb.
  assert (drop (j - i) p = take (length p - (j - i)) (drop j (map lower_byte s))) as ->.
  { transitivity (drop (j - i) (take (length p) (drop i (map lower_byte s)))); [by rewrite Hi |].
    rewrite skipn_firstn_comm, drop_drop. do 2 f_equal. lia. }
  transitivity (take (length p - (j - i)) (take (length p) (drop j (map lower_byte s))));
    [rewrite take_take; f_equal; lia | by rewrite Hj].
Qed.

(** An occurrence does not begin with white space and has no star in it. *)
Lemma occurs_head s i c : occurs p s i → s !! i = Some c → space_byte c = false.
Proof using Hok.
  intros Hi Hc. pose proof prefix_ne as Hne. destruct (occurs_byte p s i 0 Hi) as (c' & Hc' & Hp); [destruct p; [done | simpl; lia] |].
  rewrite Nat.add_0_r, Hc in Hc'. injection Hc' as <-. unfold prefix_ok in Hok. destruct p as [|b q]; [done |]. injection Hp as ->.
  apply andb_true_iff in Hok as [H _]. apply andb_true_iff in H as [H _]. apply negb_true_iff in H.
  pose proof (byte_forallb (λ b, implb (space_byte b) (space_byte (lower_byte b))) ltac:(vm_compute; reflexivity) c) as Hs.
  cbv beta in Hs. rewrite H in Hs. by destruct (space_byte c).
Qed.

Lemma occurs_no_star s i k : occurs p s i → s !! k = Some "*"%byte → (i ≤ k < i + length p)%nat → False.
Proof using Hok.
  intros Hi Hk Hr. destruct (occurs_byte p s i (k - i) Hi) as (c & Hc & Hp); [lia |].
  replace (i + (k - i))%nat with k in Hc by lia. rewrite Hk in Hc. injection Hc as <-.
  apply prefix_no_star. by apply list_elem_of_lookup_2 in Hp.
Qed.

(** Nothing occurs across the mask. *)
Lemma occurs_beside_mask u v i :
  occurs p (u ++ stars ++ v) i → (i + length p ≤ length u)%nat ∨ ∃ j, i = (length u + 3 + j)%nat.
Proof using Hok.
  intros Hi. pose proof prefix_ne as Hne. assert (1 ≤ length p)%nat by (destruct p; [done | simpl; lia]).
  destruct (decide (i + length p ≤ length u)%nat); [by left |]. right.
  destruct (decide (length u + 3 ≤ i)%nat); [by exists (i - (length u + 3))%nat; lia |]. exfalso.
  set (k := Nat.max i (length u)). apply (occurs_no_star _ i k Hi); [|lia].
  rewrite lookup_app_r by lia. rewrite lookup_app_l by (change (length stars) with 3%nat; lia).
  destruct (k - length u)%nat as [|[|[|]]] eqn:E; [done.. | lia].
Qed.

(** Nothing occurs strictly within a name and the white space after it. *)
Lemma occurs_in_name before name space t i :
  length name = length p → occurs p (before ++ name ++ space ++ t) (length before) →
  Forall (λ b, space_byte b = true) space → occurs p (before ++ name ++ space ++ t) i →
  (length before < i)%nat → (length (before ++ name ++ space) ≤ i)%nat.
Proof using Hok.
  intros Hl Hn Hs Hi Hlt. destruct (decide (length (before ++ name ++ space) ≤ i)%nat) as [|Hge]; [done | exfalso].
  rewrite !length_app in Hge. destruct (decide (i < length before + length p)%nat) as [Hin|Hout];
    [by apply (occurs_no_overlap _ _ _ Hn Hi) |].
  assert (∃ c, space !! (i - length before - length name)%nat = Some c) as [c Hc] by (apply lookup_lt_is_Some_2; lia).
  assert ((before ++ name ++ space ++ t) !! i = Some c) as Hic.
  { rewrite lookup_app_r, lookup_app_r, lookup_app_l by lia. exact Hc. }
  apply (occurs_head _ _ _ Hi) in Hic. rewrite Forall_lookup in Hs. apply Hs in Hc. congruence.
Qed.

(** The text before the search position: what occurs in it is masked in it. *)
Definition sealed_before (line : bool) (d s : gostring) : Prop :=
  ∀ i, (i < length d)%nat → occurs p (d ++ s) i → (i + length p ≤ length d)%nat ∧
    ∃ space r, drop (i + length p) d = space ++ stars ++ r ∧ Forall (λ b, space_byte b = true) space ∧ ended line (r ++ s).

Lemma sealed_before_after line d s i :
  sealed_before line d s → (i < length d)%nat → occurs p (d ++ s) i → sealed_after line (drop (i + length p) (d ++ s)).
Proof.
  intros Hd Hlt Hi. destruct (Hd i Hlt Hi) as (Hle & space & r & E & Hs & He). right. exists space, (r ++ s).
  rewrite skipn_app, E. replace (i + length p - length d)%nat with 0%nat by lia. by rewrite drop_0, <- !app_assoc.
Qed.

Lemma name_occurs before name t : map lower_byte name = p → occurs p (before ++ name ++ t) (length before).
Proof.
  intros Hn. rewrite <- (Nat.add_0_r (length before)). apply occurs_app. unfold occurs. rewrite drop_0, map_app, Hn. apply take_app_length.
Qed.

(** An occurrence that lies before the value is a masked one or the name of the value. *)
Lemma occurs_before_value d before name space t i :
  map lower_byte name = p → (∀ k, (k < length before)%nat → ¬ occurs p (before ++ name ++ space ++ t) k) →
  Forall (λ b, space_byte b = true) space → occurs p (d ++ before ++ name ++ space ++ t) i →
  (i < length (d ++ before ++ name ++ space))%nat → (i < length d)%nat ∨ i = (length d + length before)%nat.
Proof using Hok.
  intros Hn Hno Hs Hi Hlt. destruct (decide (i < length d)%nat) as [|Hge]; [by left |]. right.
  replace i with (length d + (i - length d))%nat in Hi by lia. apply occurs_app in Hi. set (j := (i - length d)%nat) in *.
  destruct (decide (j < length before)%nat) as [Hj|Hj]; [by apply Hno in Hi |].
  destruct (decide (j = length before)) as [|Hne]; [lia |].
  apply (occurs_in_name before name space t) in Hi; [| by rewrite <- Hn, length_map | by apply name_occurs | done | lia].
  rewrite !length_app in *. lia.
Qed.

(** After a pass every value of its prefix is masked. *)
Lemma redaction_sealed line s t d : redaction p line s t → sealed_before line d s → sealed p line (d ++ t).
Proof using Hok.
  intros Hr. revert d. pose proof prefix_ne as Hne.
  induction Hr as [s Hno|before name space Hn Hno Hs|before name space value rest t Hn Hno Hs Hc Hv He _ IH]; intros d Hd.
  - intros i Hi. destruct (decide (i < length d)%nat); [by apply sealed_before_after |].
    replace i with (length d + (i - length d))%nat in Hi by lia. apply occurs_app in Hi. by apply Hno in Hi.
  - intros i Hi. destruct (decide (i < length d)%nat); [by apply sealed_before_after |]. left.
    pose proof (occurs_length p _ i Hne Hi) as Hl. rewrite <- (app_nil_r space) in Hi, Hno.
    destruct (occurs_before_value d before name space [] i Hn Hno Hs Hi) as [?| ->]; [|done|].
    { assert (1 ≤ length p)%nat by (destruct p; [done | simpl; lia]). lia. }
    assert (length name = length p) as Hl' by (by rewrite <- Hn, length_map).
    rewrite !app_assoc, drop_app_length'; [done |]. rewrite !length_app. lia.
  - assert (length name = length p) as Hl by (by rewrite <- Hn, length_map).
    replace (d ++ before ++ name ++ space ++ stars ++ t) with ((d ++ before ++ name ++ space ++ stars) ++ t) by (by rewrite <- !app_assoc).
    apply IH. clear IH. intros i Hlt Hi. set (b := d ++ before ++ name ++ space).
    replace ((d ++ before ++ name ++ space ++ stars) ++ rest) with (b ++ stars ++ rest) in Hi by (subst b; by rewrite <- !app_assoc).
    replace (d ++ before ++ name ++ space ++ stars) with (b ++ stars) in * by (subst b; by rewrite <- !app_assoc).
    rewrite length_app in Hlt |- *. change (length stars) with 3%nat in *.
    destruct (occurs_beside_mask b rest i Hi) as [Hle|[j ->]]; [|lia]. split; [lia |].
    apply (occurs_within p b (stars ++ rest) (value ++ rest) i Hle) in Hi. subst b. rewrite <- !app_assoc in Hi.
    assert (1 ≤ length p)%nat by (destruct p; [done | simpl; lia]).
    destruct (occurs_before_value d before name space (value ++ rest) i Hn Hno Hs Hi ltac:(lia)) as [Hlt'| ->].
    + destruct (Hd i Hlt' Hi) as (Hle' & sp & r & E & Hsp & Hend).
      exists sp, (r ++ before ++ name ++ space ++ stars). split_and!; [|done|].
      * rewrite <- !app_assoc, skipn_app, E. replace (i + length p - length d)%nat with 0%nat by lia. by rewrite drop_0, <- !app_assoc.
      * destruct r as [|x r]; [|done]. destruct before as [|x before]; [|done]. destruct name; [simpl in Hl; lia | done].
    + exists space, []. split_and!; [|done|done]. rewrite app_nil_r, <- !app_assoc.
      rewrite !(app_assoc d), (app_assoc (d ++ before)). apply drop_app_length'. rewrite !length_app. lia.
Qed.
End prefix.

(** ** One pass after another *)

Lemma ends_line_token b : ends_value true b = true → ends_value false b = true.
Proof.
  intros H. pose proof (byte_forallb (λ b, implb (ends_value true b) (ends_value false b)) ltac:(vm_compute; reflexivity) b) as Hb.
  cbv beta in Hb. by rewrite H in Hb.
Qed.

(** A value that is a mask already ends where the mask does, whichever the two kinds of value are. *)
Lemma ended_mask line line' value rest t :
  value ++ rest = stars ++ t → Forall (λ b, ends_value line' b = false) value → ended line' rest → ended line t → ended line rest.
Proof.
  intros E Hv Hr Ht. destruct rest as [|c rest]; [done |]. cbn [ended] in Hr |- *.
  destruct line; [|destruct line'; [by apply ends_line_token | done]]. destruct line'; [done |].
  assert (∀ u x y, u ++ c :: rest = "*"%byte :: x → Forall (λ b, ends_value false b = false) u → (∀ u', x = u' ++ c :: rest →
    Forall (λ b, ends_value false b = false) u' → y) → y) as Hpeel.
  { intros [|b u] x y Hu Hf Hk; [injection Hu as -> _; by rewrite star_ends in Hr |]. injection Hu as _ <-.
    apply Forall_cons in Hf as [_ Hf]. by apply (Hk u). }
  change (stars ++ t) with ("*"%byte :: "*"%byte :: "*"%byte :: t) in E.
  apply (Hpeel _ _ _ E Hv). intros u E1 Hu. symmetry in E1. apply (Hpeel _ _ _ E1 Hu). intros u' E2 Hu'. symmetry in E2.
  apply (Hpeel _ _ _ E2 Hu'). intros w -> Hw. destruct w as [|b w]; [done |]. apply Forall_cons in Hw as [Hb _].
  cbn [ended app] in Ht. apply ends_line_token in Ht. congruence.
Qed.

Lemma sealed_after_mask line line' y value rest :
  (∀ u, y ≠ u ++ go "*") → (∃ c r, value ++ rest = c :: r ∧ space_byte c = false) →
  Forall (λ b, ends_value line' b = false) value → ended line' rest →
  sealed_after line (y ++ value ++ rest) → sealed_after line (y ++ stars ++ rest).
Proof.
  intros Hy (c & r & Ec & Hc) Hv He. rewrite Ec. intros [Hb|(sp & t & E & Hsp & Ht)].
  { apply Forall_app in Hb as [_ Hb]. apply Forall_cons in Hb as [Hb _]. congruence. }
  right. apply app_eq_app in E as [m [[-> E]|[-> E]]].
  - destruct m as [|b m]; [exists sp, rest; rewrite app_nil_r in *; split_and!; [done | done |];
      eapply ended_mask; [|done..]; rewrite Ec; done |].
    apply app_eq_app in E as [m' [[E' E]|[E' E]]].
    + exfalso. destruct b; try discriminate E'. destruct m as [|b m]; [by apply (Hy sp) |]. destruct b; try discriminate E'.
      destruct m as [|b m]; [apply (Hy (sp ++ go "*")); by rewrite <- app_assoc |]. destruct b; try discriminate E'.
      destruct m; [apply (Hy (sp ++ go "**")); by rewrite <- app_assoc | discriminate E'].
    + destruct m' as [|b' m']; [exfalso; rewrite E', app_nil_r in Hy; apply (Hy (sp ++ go "**")); by rewrite <- app_assoc |].
      exists sp, ((b' :: m') ++ stars ++ rest). rewrite E' at 1. rewrite <- !app_assoc. split_and!; [done | done |].
      rewrite E in Ht. by eapply ended_app.
  - destruct m as [|b m].
    + exists y, rest. rewrite app_nil_r in *. split_and!; [done | done |]. eapply ended_mask; [|done..]. by rewrite Ec.
    + exfalso. injection E as -> _. apply Forall_app in Hsp as [_ Hb]. apply Forall_cons in Hb as [Hb _]. congruence.
Qed.

(** Masking a value of one prefix uncovers no value of another. *)
Lemma mask_keeps_sealed p line line' a value rest :
  prefix_ok p = true → (∀ u, a ≠ u ++ go "*") → (∃ c r, value ++ rest = c :: r ∧ space_byte c = false) →
  Forall (λ b, ends_value line' b = false) value → ended line' rest →
  sealed p line (a ++ value ++ rest) → sealed p line (a ++ stars ++ rest).
Proof.
  intros Hok Ha Hc Hv He Hs i Hi. destruct (occurs_beside_mask p Hok a rest i Hi) as [Hle|[j ->]].
  - apply (occurs_within p a _ (value ++ rest) i Hle), Hs in Hi. rewrite skipn_app in Hi |- *.
    replace (i + length p - length a)%nat with 0%nat in * by lia. rewrite drop_0 in Hi |- *.
    eapply sealed_after_mask; [|done..]. intros u E. apply (Ha (take (i + length p) a ++ u)).
    rewrite <- app_assoc, <- E. by rewrite take_drop.
  - rewrite app_assoc in Hi |- *. replace (length a + 3)%nat with (length (a ++ stars)) in * by (rewrite length_app; done).
    rewrite <- Nat.add_assoc, drop_app_add. apply occurs_app, (occurs_app p (a ++ value)) in Hi.
    rewrite <- app_assoc in Hi. apply Hs in Hi. by rewrite app_assoc, <- Nat.add_assoc, drop_app_add in Hi.
Qed.

Lemma name_end p x name space u :
  prefix_ok p = true → map lower_byte name = p → Forall (λ b, space_byte b = true) space → x ++ name ++ space ≠ u ++ go "*".
Proof.
  intros Hok Hn Hs E. destruct (exists_last (l := name ++ space)) as (z & c & Ez).
  { intros [-> _]%app_eq_nil. cbn in Hn. by subst p. }
  rewrite Ez, app_assoc in E. apply app_inj_tail in E as [_ ->].
  assert (In "*"%byte (name ++ space)) as Hin by (rewrite Ez; apply in_or_app; right; by left).
  apply in_app_or in Hin as [Hin|Hin].
  - apply (prefix_no_star p Hok). rewrite <- Hn. apply list_elem_of_In, in_map_iff. by exists "*"%byte.
  - rewrite List.Forall_forall in Hs. by apply Hs in Hin.
Qed.

Lemma redaction_keeps_sealed p line p' line' s t d :
  prefix_ok p = true → prefix_ok p' = true → redaction p' line' s t → sealed p line (d ++ s) → sealed p line (d ++ t).
Proof.
  intros Hok Hok' Hr. revert d. induction Hr as [| |before name space value rest t Hn _ Hs Hc Hv He _ IH]; intros d Hd; [done.. |].
  replace (d ++ before ++ name ++ space ++ stars ++ t) with ((d ++ before ++ name ++ space ++ stars) ++ t) by (by rewrite <- !app_assoc).
  apply IH. replace ((d ++ before ++ name ++ space ++ stars) ++ rest) with ((d ++ before ++ name ++ space) ++ stars ++ rest)
    by (by rewrite <- !app_assoc).
  eapply mask_keeps_sealed; [done | | done.. | by rewrite <- !app_assoc]. intros u. rewrite app_assoc. by apply (name_end p').
Qed.

(** The prefixes with the kind of value they have, in the order of the passes. *)
Definition sensitive : list (gostring * bool) := map (λ p, (p, true)) line_prefixes ++ map (λ p, (p, false)) token_prefixes.

Definition all_sealed (ps : list (gostring * bool)) (s : gostring) : Prop := Forall (λ q, sealed q.1 q.2 s) ps.

Lemma redact_passes ps line before s :
  Forall (λ p, prefix_ok p = true) ps → Forall (λ q, prefix_ok q.1 = true) before → ascii s → all_sealed before s →
  ∃ out, fold_left (λ m p, sliced_bind m (λ s, redactPrefix s p line)) ps (Sliced s) = Sliced out ∧ ascii out ∧
    all_sealed (before ++ map (λ p, (p, line)) ps) out.
Proof.
  intros Hps. revert before s. induction Hps as [|p ps Hp Hps IH]; intros before s Hb Hs Hd.
  { exists s. by rewrite app_nil_r. }
  cbn [fold_left sliced_bind]. destruct (redactPrefix_redaction p line s (prefix_ne p Hp) Hs) as (t & -> & Ht & Hr).
  destruct (IH (before ++ [(p, line)]) t) as (out & Hf & Ho & Hall); [| done | |].
  - apply Forall_app. split; [done | by repeat constructor].
  - apply Forall_app. split.
    + unfold all_sealed in Hd. rewrite Forall_forall in Hd, Hb |- *. intros q Hq. by eapply (redaction_keeps_sealed q.1 q.2 p line s t []); [apply Hb | | | apply Hd].
    + apply Forall_singleton, (redaction_sealed p Hp line s t [] Hr). intros i Hi. simpl in Hi. lia.
  - exists out. split_and!; [done | done |]. cbn [map]. by rewrite <- app_assoc in Hall.
Qed.

Lemma redactSensitiveTokens_sealed s :
  ascii s → ∃ out, redactSensitiveTokens s = Sliced out ∧ ascii out ∧ all_sealed sensitive out.
Proof.
  intros Hs. pose proof prefixes_ok as Ho. apply Forall_forallb, Forall_app in Ho as [Ho1 Ho2]. unfold redactSensitiveTokens.
  destruct (redact_passes line_prefixes true [] s Ho1 (Forall_nil_2 _) Hs (Forall_nil_2 _)) as (t & -> & Ht & Hd).
  apply (redact_passes token_prefixes false _ t Ho2); [|done..]. apply Forall_map. exact Ho1.
Qed.

(** ** The diagnostic *)

Lemma strip_bytes tbl n s : ∃ q, s = q ++ strip n tbl s ∧ Forall (λ b, b ∈ concat tbl) q.
Proof.
  revert s. induction n as [|n IH]; intros s; cbn [strip]; [by exists [] |].
  destruct (match_prefix tbl s) as [r|] eqn:E; [|by exists []]. destruct (IH r) as (q & Hq & Hf).
  assert (∃ e, e ∈ tbl ∧ s = e ++ r) as (e & He & ->).
  { clear -E. induction tbl as [|e tbl IH]; [done |]. cbn [match_prefix] in E. destruct (cut_prefix e s) as [r'|] eqn:Ec.
    - injection E as ->. apply cut_prefix_spec in Ec as ->. exists e. split; [by apply elem_of_cons; left | done].
    - destruct (IH E) as (e' & He & ->). exists e'. split; [by apply elem_of_cons; right | done]. }
  exists (e ++ q). split; [by rewrite <- app_assoc, <- Hq |]. apply Forall_app. split; [|done].
  apply Forall_forall. intros b Hb. apply list_elem_of_In, in_concat. exists e. by rewrite <- !list_elem_of_In.
Qed.

(** From ASCII text [TrimSpace] takes white space only. *)
Lemma TrimSpace_ascii s : ascii s → ∃ u v, s = u ++ TrimSpace s ++ v ∧ Forall (λ b, space_byte b = true) v.
Proof.
  intros Hs. destruct (strip_suffix space_encodings (length s) s) as [u Hu]. fold (TrimLeftSpace s) in Hu.
  set (t := TrimLeftSpace s) in *. destruct (strip_bytes (map (@rev byte) space_encodings) (length t) (rev t)) as (q & Hq & Hf).
  apply (f_equal (@rev byte)) in Hq as Ht. rewrite rev_involutive, rev_app_distr in Ht.
  exists u, (rev q). split; [unfold TrimSpace, TrimRightSpace; fold t; by rewrite <- Ht |].
  assert (ascii q) as Ha.
  { rewrite Hu in Hs. apply Forall_app in Hs as [_ Hs]. apply Forall_rev in Hs. fold (@rev byte) in Hs. rewrite Hq in Hs.
    by apply Forall_app in Hs as [? _]. }
  apply Forall_rev, Forall_forall. intros b Hb. rewrite Forall_forall in Ha, Hf. specialize (Ha b Hb). specialize (Hf b Hb).
  assert (existsb (beq b) (concat (map (@rev byte) space_encodings)) = true) as He
    by (apply existsb_exists; exists b; by rewrite <- list_elem_of_In, beq_true).
  pose proof (byte_forallb (λ b, implb (is_ascii b && existsb (beq b) (concat (map (@rev byte) space_encodings))) (space_byte b))
    ltac:(vm_compute; reflexivity) b) as H. cbv beta in H. by rewrite Ha, He in H.
Qed.

Lemma sealed_trim p line s : p ≠ [] → ascii s → sealed p line s → sealed p line (TrimSpace s).
Proof.
  intros Hp Ha Hs i Hi. destruct (TrimSpace_ascii s Ha) as (u & v & E & Hv). set (t := TrimSpace s) in *.
  pose proof (occurs_length p t i Hp Hi) as Hl. apply (occurs_within p t [] v i) in Hl as Hi'; [|by rewrite app_nil_r].
  apply (occurs_app p u) in Hi'. rewrite <- E in Hi'. apply Hs in Hi'. rewrite E, <- Nat.add_assoc, drop_app_add in Hi'.
  rewrite skipn_app in Hi'. replace (i + length p - length t)%nat with 0%nat in Hi' by lia. rewrite drop_0 in Hi'.
  destruct Hi' as [Hb|(sp & r & Hr & Hsp & He)]; [left; by apply Forall_app in Hb as [? _] |]. right.
  apply app_eq_app in Hr as [m [[-> Hm]|[_ Hm]]].
  - apply app_eq_app in Hm as [m' [[Hst Hm]|[-> Hm]]].
    + destruct m' as [|b m']; [exists sp, []; rewrite app_nil_r in Hst; split_and!; [by rewrite app_nil_r, Hst | done | done] |].
      exfalso. rewrite Hm in Hv. apply Forall_app in Hv as [Hv _]. apply Forall_cons in Hv as [Hb _].
      assert (In b stars) as Hin by (rewrite Hst; apply in_or_app; right; by left). by destruct Hin as [<-|[<-|[<-|[]]]].
    + exists sp, m'. split_and!; [done | done |]. subst r. by destruct m'.
  - exfalso. rewrite Hm in Hv. apply Forall_app in Hv as [_ Hv]. apply Forall_app in Hv as [Hv _]. by apply Forall_cons in Hv as [? _].
Qed.

(** C25: redaction does what it says.  For each of the eight prefixes and any ASCII text, the pass ends without a slice out
    of range, and its result is the text with exactly the values masked: up to each occurrence of the prefix, in any
    letter case, and from the end of its value on, nothing changes, and the value between, from the first byte that is
    not white space to the end of its line or token, is gone. *)
Theorem redact_prefix_exact (s p : gostring) (redactLine : bool) :
  ascii s → (p, redactLine) ∈ sensitive → ∃ out, redactPrefix s p redactLine = Sliced out ∧ redaction p redactLine s out.
Proof.
  intros Hs Hp. destruct (redactPrefix_redaction p redactLine s) as (out & H & _ & Hr); [|done|by exists out].
  intros ->. apply (bool_decide_eq_true_2 _) in Hp. destruct redactLine; vm_compute in Hp; discriminate Hp.
Qed.

Lemma redact_prefix_exact_witness :
  ∃ out, redactPrefix (go "AUTHORIZATION:  secret") (go "authorization:") true = Sliced out ∧
    redaction (go "authorization:") true (go "AUTHORIZATION:  secret") out.
Proof.
  apply (redact_prefix_exact (go "AUTHORIZATION:  secret") (go "authorization:") true).
  - apply Forall_forallb. vm_compute. reflexivity.
  - left.
Defined.

(** C26: no secret is left in the diagnostic.  [truncateErrorBody] makes of any ASCII response body, without a slice out of
    range, a text in which every occurrence of any of the eight prefixes, in any letter case, is followed by white
    space only, or by white space and the mask, behind which the line or token ends: a later pass or the final trimming
    uncovers nothing that an earlier pass masked. *)
Theorem error_body_sealed (payload : gostring) :
  ascii payload →
  ∃ out, truncateErrorBody payload = Sliced out ∧ ∀ p line, (p, line) ∈ sensitive → sealed p line out.
Proof.
  intros Hp. unfold truncateErrorBody. set (payload' := if _ <? _ then _ else _).
  assert (ascii payload') as Hp' by (subst payload'; destruct (_ <? _); [by apply Forall_take | done]).
  destruct (redactSensitiveTokens_sealed payload' Hp') as (s & -> & Hs & Hall). cbn [sliced_bind]. eexists. split; [done |].
  intros p line Hin. unfold all_sealed in Hall. rewrite Forall_forall in Hall. specialize (Hall _ Hin). apply sealed_trim; [|done..].
  intros ->. apply (bool_decide_eq_true_2 _) in Hin. destruct line; vm_compute in Hin; discriminate Hin.
Qed.

Lemma error_body_sealed_witness :
  ∃ out, truncateErrorBody (go "Set-Cookie: authorization: a, signature=b" ++ [x0a] ++ go "Bearer c;d ") = Sliced out ∧
    sealed (go "bearer ") false out.
Proof.
  destruct (error_body_sealed (go "Set-Cookie: authorization: a, signature=b" ++ [x0a] ++ go "Bearer c;d ")) as (out & H & Hs).
  - apply Forall_forallb. vm_compute. reflexivity.
  - exists out. split; [exact H |]. apply Hs. apply (bool_decide_unpack _). vm_compute. exact I.
Defined.

Example error_body_example :
  truncateErrorBody (go "Set-Cookie: authorization: a, signature=b" ++ [x0a] ++ go "Bearer c;d ")
  = Sliced (go "Set-Cookie: ***" ++ [x0a] ++ go "Bearer ***;d").
Proof. vm_compute. reflexivity. Qed.

(** On bytes that are not valid UTF-8 the redaction goes wrong.  [ToLower] turns each invalid byte into three bytes, and
    the offsets found in the lower-cased text are used on the text itself: seven such bytes before a header name make
    the slice go out of range (a panic while reading an error response), and three of them leave the first five bytes
    of the secret in clear. *)
Theorem redact_misaligned_on_invalid_utf8 :
  truncateErrorBody (repeat xff 7 ++ go " authorization:") = SlicePanic ∧
  truncateErrorBody (repeat xff 3 ++ go " authorization: hunter2-secret")
    = Sliced (repeat xff 3 ++ go " authorization: hunte***").
Proof. vm_compute. split; reflexivity. Qed.
