(* ===== verification/Retry.v ===== *)
(** * Retry: internal/client/transport/retry.go and retry_after.go

    The reply retry loop with its fail-closed handling of unknown outcomes, and the delay between
    attempts.  Durations are nanoseconds in [Z]. *)

From S2P Require Import Prelude GoStrings GoStrconv GoHttp NonceStore Errors.

(** ** Which failures are retried *)

Definition isRetryableError (err : goerror) : bool := Is err ErrRateLimited.

Definition isRetryableTransportError (err : goerror) : bool :=
  (Is err ErrTransport || Is err ErrNotSent) && negb (Is err ErrH3EgressDenied)
  && negb (Is err ErrResponseTooLarge).

Definition isRetryableReplyError (err : goerror) (hasIdempotencyKey : bool) : bool :=
  if AsStop err then false
  else negb (Is err ErrResponseTooLarge)
       && (isRetryableError err || hasIdempotencyKey && isRetryableTransportError err).

(** ** Unknown outcomes *)

Definition opRetryWait : gostring := go "retry wait".
Definition opRetryOutcomeUnknown : gostring := go "retry outcome unknown".

Definition retryWaitError (waitErr : goerror) (unknownErr : option goerror) (path : gostring)
  (idempotent : bool) : goerror :=
  match unknownErr with
  | None => waitErr
  | Some u => ETransport opRetryWait path (Some (EWrap [waitErr; u])) idempotent
  end.

(** The text of the last error, which the source puts into the message, is left out (see [ErrorText] for such texts). *)
Definition keepUnknownOutcome (finalErr : goerror) (unknownErr : option goerror) (path : gostring)
  (idempotent : bool) : goerror :=
  match unknownErr with
  | None => finalErr
  | Some u =>
      if Is finalErr ErrTransport || negb (is_empty (ClientRequestIDConflictCode finalErr)) then finalErr
      else ETransport opRetryOutcomeUnknown path (Some (EWrap [u])) idempotent
  end.

(** ** Delays *)

Definition maxReplyRetryAfterDelay : Z := 5 * Second.
Definition maxRetryAfterDuration : Z := MaxInt64.

(** [draw x] is [time.Duration(halfJitterFloat64() * float64(x))] for one random draw. *)
Definition halfJitter (draw : Z → Z) (base : Z) : Z :=
  if base <=? 0 then base
  else
    let half := base `quot` 2 in
    half + draw (base - half).

Definition clampDuration (value minValue maxValue : Z) : Z := Z.min (Z.max value minValue) maxValue.

Definition retryDelayAndRetryAfter (draw : Z → Z) (err : goerror) (fallback : Z) : Z * bool :=
  match AsHTTPError err with
  | Some e =>
      if 0 <? he_RetryAfter e
      then (clampDuration (he_RetryAfter e) fallback maxReplyRetryAfterDelay, true)
      else (halfJitter draw fallback, false)
  | None => (halfJitter draw fallback, false)
  end.

Definition isDecimalDigits (value : gostring) : bool :=
  negb (is_empty value) && forallb (λ r, (48 <=? r) && (r <=? 57)) (runes value).

(** [parseRetryAfterHeader]; [ParseTime] is [http.ParseTime], and the difference of two times saturates
    at the limits of a duration. *)
Definition parseRetryAfterHeader (ParseTime : gostring → option Z) (value : gostring) (now : Z) : Z :=
  let value := TrimSpace value in
  if is_empty value then 0
  else
    match ParseInt value with
    | Some seconds =>
        if seconds <=? 0 then 0
        else if maxRetryAfterDuration `quot` Second <? seconds then maxRetryAfterDuration
        else seconds * Second
    | None =>
        if isDecimalDigits value then maxRetryAfterDuration
        else
          match ParseTime value with
          | None => 0
          | Some when =>
              let delay := clampDuration (when - now) MinInt64 MaxInt64 in
              if delay <=? 0 then 0 else delay
          end
    end.

(** ** The loop *)

Definition PathReply : gostring := go "/reply".

(** What the world does during one attempt: the request builder, the send (which reads and sets the
    epoch-refreshed flag), the random draw, and how the wait that follows ends: by the timer, or with
    the context's error. *)
Record attemptEnv := mkAttempt {
  env_build : option goerror;
  env_send : bool → option goerror * bool;
  env_draw : Z → Z;
  env_wait : option goerror;
}.

(** What the loop does, in order. *)
Inductive retryEvent :=
| Sent (attempt : nat) (err : option goerror)
| Waited (attempt : nat) (delay : Z) (retryAfterApplied : bool).

Section retry.
Context (path : gostring) (hasIdempotencyKey : bool) (env : nat → attemptEnv).

(** [remaining] is [maxAttempts - attempt]. *)
Fixpoint retry_loop (remaining attempt : nat) (backoff : Z) (unknownErr : option goerror)
  (epochRefreshed : bool) : option goerror * list retryEvent :=
  match env_build (env attempt) with
  | Some err => (Some (keepUnknownOutcome err unknownErr path hasIdempotencyKey), [])
  | None =>
      let '(result, epochRefreshed) := env_send (env attempt) epochRefreshed in
      match result with
      | None => (None, [Sent attempt None])
      | Some err =>
          let unknownErr := if Is err ErrTransport then Some err else unknownErr in
          let stop := (Some (keepUnknownOutcome err unknownErr path hasIdempotencyKey),
                       [Sent attempt (Some err)]) in
          if negb (isRetryableReplyError err hasIdempotencyKey) then stop
          else
            match remaining with
            | O => stop
            | S remaining =>
                let '(delay, retryAfterApplied) :=
                  retryDelayAndRetryAfter (env_draw (env attempt)) err backoff in
                let events := [Sent attempt (Some err); Waited attempt delay retryAfterApplied] in
                match env_wait (env attempt) with
                | Some ctxErr =>
                    (Some (retryWaitError ctxErr unknownErr path hasIdempotencyKey), events)
                | None =>
                    let '(final, rest) :=
                      retry_loop remaining (S attempt) (Z.min (backoff * 2) Second) unknownErr
                        epochRefreshed in
                    (final, events ++ rest)
                end
            end
      end
  end.

Definition maxAttempts (ReplyRetryMax : Z) : Z :=
  if (0 <? ReplyRetryMax) && seqb path PathReply then ReplyRetryMax else 1.

Definition retryPost (ReplyRetryMax : Z) : option goerror * list retryEvent :=
  retry_loop (Z.to_nat (maxAttempts ReplyRetryMax - 1)) 1 (50 * Millisecond) None false.

(** ** Unknown outcomes are kept *)

Lemma retryWaitError_unknown w u : Is u ErrTransport = true →
  Is (retryWaitError w (Some u) path hasIdempotencyKey) ErrTransport = true.
Proof. simpl. intros ->. by rewrite !orb_true_r. Qed.

Lemma keepUnknown_unknown e u : Is u ErrTransport = true →
  let r := keepUnknownOutcome e (Some u) path hasIdempotencyKey in
  Is r ErrTransport = true ∨ ClientRequestIDConflictCode r ≠ [].
Proof.
  intros Hu. simpl. destruct (Is e ErrTransport) eqn:Ee; simpl; [by left |].
  destruct (is_empty (ClientRequestIDConflictCode e)) eqn:Ec; simpl.
  - left. rewrite Hu. by rewrite !orb_true_r.
  - right. by bool_props.
Qed.

(** The state of the loop: an unknown outcome on record is one. *)
Definition unknown_ok (u : option goerror) : Prop := ∀ e, u = Some e → Is e ErrTransport = true.

Lemma update_unknown err u :
  unknown_ok u → unknown_ok (if Is err ErrTransport then Some err else u).
Proof. intros H e. destruct (Is err ErrTransport) eqn:E; [intros [= <-]; done | apply H]. Qed.

Lemma keepUnknown_recorded e u :
  unknown_ok u → u ≠ None →
  let r := keepUnknownOutcome e u path hasIdempotencyKey in
  Is r ErrTransport = true ∨ ClientRequestIDConflictCode r ≠ [].
Proof. intros Hu Hn. destruct u as [u|]; [|done]. apply keepUnknown_unknown. by apply Hu. Qed.

Definition recorded (err : goerror) (u : option goerror) : option goerror :=
  if Is err ErrTransport then Some err else u.

(** The runs of the loop, one rule per way an attempt can end. *)
Inductive run : nat → nat → Z → option goerror → bool → option goerror → list retryEvent → Prop :=
| run_build n k bo u r b :
    env_build (env k) = Some b →
    run n k bo u r (Some (keepUnknownOutcome b u path hasIdempotencyKey)) []
| run_ok n k bo u r r' :
    env_send (env k) r = (None, r') → run n k bo u r None [Sent k None]
| run_stop n k bo u r r' err :
    env_send (env k) r = (Some err, r') →
    run n k bo u r (Some (keepUnknownOutcome err (recorded err u) path hasIdempotencyKey))
      [Sent k (Some err)]
| run_cancelled n k bo u r r' err c d a :
    env_send (env k) r = (Some err, r') → isRetryableReplyError err hasIdempotencyKey = true →
    retryDelayAndRetryAfter (env_draw (env k)) err bo = (d, a) →
    run (S n) k bo u r (Some (retryWaitError c (recorded err u) path hasIdempotencyKey))
      [Sent k (Some err); Waited k d a]
| run_again n k bo u r r' err d a res tr :
    env_send (env k) r = (Some err, r') → isRetryableReplyError err hasIdempotencyKey = true →
    retryDelayAndRetryAfter (env_draw (env k)) err bo = (d, a) →
    run n (S k) (Z.min (bo * 2) Second) (recorded err u) r' res tr →
    run (S n) k bo u r res (Sent k (Some err) :: Waited k d a :: tr).

Lemma retry_loop_run n k bo u r :
  run n k bo u r (retry_loop n k bo u r).1 (retry_loop n k bo u r).2.
Proof.
  revert k bo u r. induction n as [|n IH]; intros k bo u r; cbn [retry_loop];
    (destruct (env_build (env k)) as [b|] eqn:Eb; [by apply run_build |]);
    destruct (env_send (env k) r) as [[err|] r'] eqn:Es; try (by eapply run_ok);
    fold (recorded err u);
    destruct (isRetryableReplyError err hasIdempotencyKey) eqn:Er; simpl; try (by eapply run_stop).
  destruct (retryDelayAndRetryAfter _ err bo) as [d a] eqn:Ed.
  destruct (env_wait (env k)) as [c|]; [by eapply run_cancelled |].
  specialize (IH (S k) (Z.min (bo * 2) Second) (recorded err u) r').
  destruct (retry_loop n _ _ _ _) as [res tr]. by eapply run_again.
Qed.

Lemma recorded_some err u : Is err ErrTransport = true ∨ u ≠ None → recorded err u ≠ None.
Proof. unfold recorded. destruct (Is err ErrTransport); [done |]. intros [?|?]; done. Qed.

Lemma run_fail_closed n k bo u r res tr :
  run n k bo u r res tr → unknown_ok u →
  ∀ e, res = Some e →
  (u ≠ None ∨ ∃ j x, Sent j (Some x) ∈ tr ∧ Is x ErrTransport = true) →
  Is e ErrTransport = true ∨ ClientRequestIDConflictCode e ≠ [].
Proof.
  intros Hrun. induction Hrun; intros Hu e He Hex; simplify_eq.
  - apply keepUnknown_recorded; [done |]. destruct Hex as [|(? & ? & Hin & _)]; [done |].
    by apply not_elem_of_nil in Hin.
  - apply keepUnknown_recorded; [by apply update_unknown |]. apply recorded_some.
    destruct Hex as [|(? & ? & Hin & ?)]; [by right |]. apply list_elem_of_singleton in Hin.
    simplify_eq. by left.
  - assert (recorded err u ≠ None) as Hr.
    { apply recorded_some. destruct Hex as [|(? & ? & Hin & ?)]; [by right |].
      apply elem_of_cons in Hin as [Hin|Hin]; [simplify_eq; by left |].
      by apply list_elem_of_singleton in Hin. }
    destruct (recorded err u) as [u'|] eqn:Eu; [|done]. left. apply retryWaitError_unknown.
    by apply (update_unknown err u Hu).
  - apply IHHrun; [by apply update_unknown | done |].
    destruct Hex as [Hn|(j & x & Hin & Hx)]; [left; apply recorded_some; by right |].
    apply elem_of_cons in Hin as [Hin|Hin]; [simplify_eq; left; apply recorded_some; by left |].
    apply elem_of_cons in Hin as [Hin|Hin]; [done |]. right. by eauto.
Qed.

(** ** Attempts *)

Fixpoint sends (tr : list retryEvent) : list (nat * option goerror) :=
  match tr with
  | [] => []
  | Sent k e :: r => (k, e) :: sends r
  | Waited _ _ _ :: r => sends r
  end.

Lemma run_sends n k bo u r res tr :
  run n k bo u r res tr →
  (length (sends tr) ≤ S n)%nat ∧ map fst (sends tr) = seq k (length (sends tr)) ∧
  (∀ i err, sends tr !! i = Some (k + i, Some err)%nat → (S i < length (sends tr))%nat →
     isRetryableReplyError err hasIdempotencyKey = true) ∧
  (res = None → last (sends tr) = Some (k + pred (length (sends tr)), None)%nat).
Proof.
  intros Hrun. induction Hrun as [| | | |n k bo u r r' err d a res tr Hs Hre Hd Hrun (IH1 & IH2 & IH3 & IH4)];
    simpl; rewrite ?Nat.add_0_r; split_and!; try done; try lia; try (intros; lia).
  - by rewrite IH2.
  - intros [|i] x Hi Hlt; simpl in Hi; [by simplify_eq |]. apply (IH3 i x); [|lia].
    by replace (S k + i)%nat with (k + S i)%nat by lia.
  - intros Hres. specialize (IH4 Hres). destruct (sends tr) as [|y l]; [done |].
    rewrite last_cons_cons, IH4. simpl. f_equal. f_equal. lia.
Qed.

(** ** Delays *)

Lemma retryDelay_range draw err bo d a :
  50 * Millisecond ≤ bo ≤ Second → (∀ x, 0 ≤ x → 0 ≤ draw x ≤ x) → retryDelayAndRetryAfter draw err bo = (d, a) →
  25 * Millisecond ≤ d ≤ maxReplyRetryAfterDelay.
Proof.
  unfold retryDelayAndRetryAfter, halfJitter, clampDuration, maxReplyRetryAfterDelay, Second, Millisecond in *. intros Hbo Hdraw.
  rewrite (proj2 (Z.leb_gt bo 0)) by lia. specialize (Hdraw (bo - bo `quot` 2)).
  pose proof (Z.quot_div_nonneg bo 2 ltac:(lia) ltac:(lia)) as Hq. rewrite Hq in *.
  pose proof (Z.mul_div_le bo 2 ltac:(lia)). pose proof (Z.mul_succ_div_gt bo 2 ltac:(lia)).
  destruct (AsHTTPError err) as [h|]; [destruct (0 <? he_RetryAfter h)|]; intros; simplify_eq; lia.
Qed.

Lemma run_delays n k bo u r res tr :
  run n k bo u r res tr → 50 * Millisecond ≤ bo ≤ Second →
  (∀ j x, 0 ≤ x → 0 ≤ env_draw (env j) x ≤ x) →
  ∀ j d a, Waited j d a ∈ tr → 25 * Millisecond ≤ d ≤ maxReplyRetryAfterDelay.
Proof.
  intros Hrun. induction Hrun; intros Hbo Hdraw j d' a' Hin;
    [by apply not_elem_of_nil in Hin | by apply list_elem_of_singleton in Hin
    |by apply list_elem_of_singleton in Hin |..].
  - apply elem_of_cons in Hin as [Hin|Hin]; [done |]. apply list_elem_of_singleton in Hin. simplify_eq.
    eapply retryDelay_range; [exact Hbo | exact (Hdraw k) | done].
  - apply elem_of_cons in Hin as [Hin|Hin]; [done |].
    apply elem_of_cons in Hin as [Hin|Hin]; [simplify_eq; by eapply retryDelay_range; [exact Hbo | exact (Hdraw k) | done] |].
    eapply IHHrun; [|done | exact Hin]. unfold Second, Millisecond in *. lia.
Qed.
End retry.

(** Unknown outcomes fail closed.  If any attempt of the call ended without knowing whether the
    request was processed, the call never reports a failure as final: its error is an unknown outcome
    ([ErrTransport]) too, unless the server gave its verdict on the request ID (a 409 with one of the
    four conflict codes), whatever the later attempts, the request builder and the context did. *)
Theorem unknown_outcome_fail_closed (path : gostring) (key : bool) (env : nat → attemptEnv)
    (ReplyRetryMax : Z) (e : goerror) (tr : list retryEvent) (k : nat) (x : goerror) :
  retryPost path key env ReplyRetryMax = (Some e, tr) →
  Sent k (Some x) ∈ tr → Is x ErrTransport = true →
  Is e ErrTransport = true ∨ ClientRequestIDConflictCode e ∈ conflict_codes.
Proof.
  unfold retryPost. intros H Hin Hx.
  pose proof (retry_loop_run path key env (Z.to_nat (maxAttempts path ReplyRetryMax - 1)) 1
    (50 * Millisecond) None false) as Hrun. rewrite H in Hrun.
  apply run_fail_closed with (e := e) in Hrun; [|done | done | right; by eauto].
  destruct Hrun as [|Hc]; [by left |]. right. revert Hc. unfold ClientRequestIDConflictCode.
  destruct (AsHTTPError e); [|done]. destruct (negb _); [done |].
  destruct (bool_decide _) eqn:Eb; [|done]. by apply bool_decide_eq_true in Eb.
Qed.

(** A lost connection, then a 400 that says nothing about the first request. *)
Definition lost_then_400 (k : nat) : attemptEnv :=
  mkAttempt None
    (λ r, (Some (if Nat.eqb k 1 then ETransport (go "post") PathReply (Some (EOther (go "EOF"))) true
                 else EWrap [EHTTP (mkHTTPError 400 PathReply 0 [] [])]), r))
    (λ x, x) None.

Lemma unknown_outcome_fail_closed_witness :
  Is (match (retryPost PathReply true lost_then_400 3).1 with Some e => e | None => EOther [] end)
    ErrTransport = true.
Proof.
  destruct (unknown_outcome_fail_closed PathReply true lost_then_400 3
    (match (retryPost PathReply true lost_then_400 3).1 with Some e => e | None => EOther [] end)
    (retryPost PathReply true lost_then_400 3).2 1
    (ETransport (go "post") PathReply (Some (EOther (go "EOF"))) true)) as [H|H].
  - vm_compute. reflexivity.
  - left.
  - vm_compute. reflexivity.
  - exact H.
  - vm_compute. reflexivity.
Defined.

(** Attempts are bounded and only safe ones are repeated.  The call makes at most [ReplyRetryMax]
    attempts on the reply path and one elsewhere, numbered from 1; an attempt that another one follows
    failed with a rejection by rate limit, or, only with an idempotency key, with a transport failure or
    a failure before sending; and success is the last event. *)
Theorem retry_attempts (path : gostring) (key : bool) (env : nat → attemptEnv) (ReplyRetryMax : Z) :
  let '(res, tr) := retryPost path key env ReplyRetryMax in
  Z.of_nat (length (sends tr)) ≤ maxAttempts path ReplyRetryMax ∧
  map fst (sends tr) = seq 1 (length (sends tr)) ∧
  (∀ i k err, sends tr !! i = Some (k, Some err) → (S i < length (sends tr))%nat →
     Is err ErrRateLimited = true ∨
     key = true ∧ (Is err ErrTransport = true ∨ Is err ErrNotSent = true) ∧ Is err ErrH3EgressDenied = false) ∧
  (res = None → ∃ k, last (sends tr) = Some (k, None)).
Proof.
  unfold retryPost. set (n := Z.to_nat (maxAttempts path ReplyRetryMax - 1)).
  pose proof (retry_loop_run path key env n 1 (50 * Millisecond) None false) as Hrun.
  destruct (retry_loop path key env n 1 _ None false) as [res tr]. simpl in Hrun.
  apply run_sends in Hrun as (Hlen & Hseq & Hre & Hok).
  assert (1 ≤ maxAttempts path ReplyRetryMax) as Hmax.
  { unfold maxAttempts. destruct (_ && _) eqn:E; [|lia]. bool_props. lia. }
  split_and!; [lia | done | | intros H; eauto].
  intros i k err Hi Hlt.
  assert (k = (1 + i)%nat) as ->.
  { assert (map fst (sends tr) !! i = Some k) as Hk
      by (change (map fst (sends tr)) with (fst <$> sends tr); by rewrite list_lookup_fmap, Hi).
    rewrite Hseq in Hk. apply lookup_seq in Hk as [-> _]. done. }
  pose proof (Hre i err Hi Hlt) as Hr. unfold isRetryableReplyError in Hr.
  destruct (AsStop err); [done |]. apply andb_true_iff in Hr as [_ Hr].
  apply orb_true_iff in Hr as [Hr|Hr]; [by left |]. right. bool_props.
  unfold isRetryableTransportError in *. bool_props. split_and!; [done | | done].
  match goal with H : _ || _ = true |- _ => by apply orb_true_iff in H end.
Qed.

(** The delay before each further attempt lies between 25 milliseconds and 5 seconds, whatever
    Retry-After the server sends and whatever the random draws (which are fractions of their range). *)
Theorem retry_delay_bounds (path : gostring) (key : bool) (env : nat → attemptEnv) (ReplyRetryMax : Z)
    (k : nat) (d : Z) (applied : bool) :
  (∀ j x, 0 ≤ x → 0 ≤ env_draw (env j) x ≤ x) →
  Waited k d applied ∈ (retryPost path key env ReplyRetryMax).2 →
  25 * Millisecond ≤ d ≤ 5 * Second.
Proof.
  intros Hdraw Hin.
  pose proof (retry_loop_run path key env (Z.to_nat (maxAttempts path ReplyRetryMax - 1)) 1
    (50 * Millisecond) None false) as Hrun.
  eapply run_delays; [exact Hrun | by vm_compute | done | exact Hin].
Qed.

(** ** Retry-After *)

Lemma FormatUint_no_runes n : 0 ≤ n → Forall (λ b, is_ascii b = true) (FormatUint n).
Proof.
  intros H. eapply Forall_impl; [by apply FormatUint_graphic |]. apply graphic_ascii.
Qed.

Lemma isDecimalDigits_FormatUint n : 0 ≤ n → isDecimalDigits (FormatUint n) = true.
Proof.
  intros Hn. destruct (FormatUint_spec n Hn) as (Hne & Hd%Forall_forallb & _). unfold isDecimalDigits, runes.
  rewrite decoded_ascii by (by apply FormatUint_no_runes).
  apply andb_true_iff. split; [by destruct (FormatUint n) |].
  rewrite map_map. apply Forall_forallb, Forall_fmap. eapply Forall_impl; [exact Hd |].
  intros b Hb. simpl. apply in_range_spec in Hb. change (bz "0") with 48 in Hb. change (bz "9") with 57 in Hb.
  apply andb_true_iff. rewrite !Z.leb_le. lia.
Qed.

Lemma ParseInt_FormatUint_big n : MaxInt64 < n → ParseInt (FormatUint n) = None.
Proof.
  intros Hn. assert (0 ≤ n) as H0 by (unfold MaxInt64 in Hn; lia).
  destruct (FormatUint_spec n H0) as (Hne & Hd & Hv). unfold ParseInt, split_sign.
  destruct (FormatUint n) as [|b s] eqn:E; [done |].
  assert (is_digit b = true) as Hb by (simpl in Hd; by bool_props).
  destruct (digit_not_sign b Hb) as [-> ->]. rewrite Hd, Hv. simpl. by rewrite (proj2 (Z.leb_gt _ _)).
Qed.

(** Retry-After never yields a negative or overflowing duration; a decimal count of seconds of any
    length is that many seconds, saturated at the longest duration; blank and unreadable values are
    zero, whatever the HTTP date parser does. *)
Theorem retry_after_saturates (ParseTime : gostring → option Z) (value : gostring) (now n : Z) :
  0 ≤ parseRetryAfterHeader ParseTime value now ≤ MaxInt64 ∧
  parseRetryAfterHeader ParseTime (FormatUint (Z.abs n)) now = Z.min (Z.abs n * Second) MaxInt64.
Proof.
  split.
  - unfold parseRetryAfterHeader, clampDuration, maxRetryAfterDuration.
    destruct (is_empty _); [by vm_compute |]. destruct (ParseInt _) as [s|].
    + destruct (s <=? 0) eqn:E0; [by vm_compute |]. destruct (_ <? s) eqn:E1; [by vm_compute |].
      bool_props. change (MaxInt64 `quot` Second) with 9223372036 in E1. unfold Second, Millisecond, MaxInt64. lia.
    + destruct (isDecimalDigits _); [by vm_compute |]. destruct (ParseTime _) as [w|]; [|by vm_compute].
      destruct (_ <=? 0) eqn:E; [by vm_compute |]. bool_props. lia.
  - pose proof (Z.abs_nonneg n) as Hn. unfold parseRetryAfterHeader, maxRetryAfterDuration.
    rewrite TrimSpace_graphic by (by apply FormatUint_graphic).
    destruct (FormatUint_spec (Z.abs n) Hn) as (Hne & _). apply is_empty_false in Hne. rewrite Hne.
    change (MaxInt64 `quot` Second) with 9223372036.
    destruct (decide (Z.abs n ≤ MaxInt64)) as [Hle|Hgt].
    + rewrite ParseInt_FormatUint by done. destruct (Z.abs n <=? 0) eqn:E0; bool_props.
      { replace (Z.abs n) with 0 by lia. done. }
      destruct (9223372036 <? Z.abs n) eqn:E1; bool_props; unfold Second, Millisecond, MaxInt64 in *; lia.
    + rewrite ParseInt_FormatUint_big, isDecimalDigits_FormatUint by (done || lia).
      unfold Second, Millisecond, MaxInt64 in *. lia.
Qed.
