(* ===== verification/Execute.v ===== *)
(** * Execute: internal/client/transport/execute.go, auth_epoch.go and the request building of client.go

    Sending a signed request: discovering and caching the authentication epoch, signing, the single
    replay after a verified epoch mismatch, and reading the typed response.  The network, the clock, the
    random source and the caller's context are arguments, indexed by the number of requests sent. *)

From S2P Require Import Prelude GoStrings GoStrconv GoJson GoHttp GoCrypto Canonical Hmac Errors Retry.

(** ** Requests and responses *)

(** A request on the wire.  [wq_Body] is [None] for no body; [wq_GetBody] is what [GetBody] gives:
    nothing when it is nil, an error, or the body again. *)
Record wireRequest := mkWire {
  wq_Method : gostring;
  wq_Path : gostring;
  wq_Header : Header;
  wq_Body : option gostring;
  wq_GetBody : option (result goerror gostring);
}.

Record response := mkResponse {
  rs_StatusCode : Z;
  rs_RetryAfter : gostring;
  rs_Body : bodyReader;
  rs_CloseErr : option gostring;
}.

Definition isSuccessfulHTTPStatus (statusCode : Z) : bool := (200 <=? statusCode) && (statusCode <? 300).

Definition authEpochPath : gostring := go "/auth/epoch".
Definition authEpochResponseMaxBytes : Z := 1024.
Definition PathHealth : gostring := go "/health".
Definition PathReady : gostring := go "/ready".

Definition isHTTP1ProbeRoute (method path : gostring) : bool :=
  seqb method MethodGet && (seqb path PathHealth || seqb path PathReady).

Definition validAuthEpoch (value : gostring) : bool :=
  (length value =? 32)%nat && forallb (λ ch, in_range "0" "9" ch || in_range "a" "f" ch) value.

Definition authEpochTransportError (op : gostring) (err : goerror) : goerror :=
  if Is err errHTTP1ProbeOnly then err
  else
    let err := if negb (Is err ErrNotSent) then EWrap [ESentinel ErrNotSent; err] else err in
    ETransport op authEpochPath (Some err) false.

(** [readErrorResponse]; [None] is a panic in [truncateErrorBody]. *)
Definition readErrorResponse (ParseTime : gostring → option Z) (now : Z) (path : gostring)
  (resp : response) : option HTTPError :=
  let '(payload, complete) := readErrorBody (rs_Body resp) in
  match truncateErrorBody payload with
  | Sliced body =>
      Some (mkHTTPError (rs_StatusCode resp) path (parseRetryAfterHeader ParseTime (rs_RetryAfter resp) now)
              body (if complete then parseHTTPErrorCode payload else []))
  | _ => None
  end.

(** ** The client *)

Section client.
Context (secret : option gostring) (http1ProbeOnly : bool) (url_ok : gostring → bool).
Context (ParseTime : gostring → option Z) (now : nat → Z) (random : nat → gostring).
Context (ctx_err : nat → option goerror) (net : nat → wireRequest → result goerror response).

(** The epoch cache and the requests sent so far, in order. *)
Record cstate := mkCState { cs_epoch : gostring; cs_sent : list wireRequest }.

Definition set_epoch (s : cstate) (v : gostring) : cstate := mkCState v (cs_sent s).

(** [c.client.Do]. *)
Definition client_Do (s : cstate) (req : wireRequest) : result goerror response * cstate :=
  (net (length (cs_sent s)) req, mkCState (cs_epoch s) (cs_sent s ++ [req])).

(** A request starts without headers: the two trace headers that OpenTelemetry's propagator adds from the context, which
    no part of the SDK reads and no signature covers, are left out. *)
Definition newRequest (method path : gostring) (body : option gostring) : result goerror wireRequest :=
  if http1ProbeOnly && negb (isHTTP1ProbeRoute method path)
  then Err (EWrap [ESentinel ErrNotSent; ESentinel errHTTP1ProbeOnly])
  else if negb (url_ok path) then Err (EWrap [EOther (go "build iris request")])
  else Ok (mkWire method path ∅ body (match body with Some b => Some (Ok b) | None => None end)).

Definition fetchAuthEpoch (s : cstate) : result goerror gostring * cstate :=
  match newRequest MethodGet authEpochPath None with
  | Err err => (Err err, s)
  | Ok req =>
      let '(r, s) := client_Do s req in
      match r with
      | Err err => (Err (authEpochTransportError (go "discover authentication epoch") err), s)
      | Ok resp =>
          (if negb (rs_StatusCode resp =? 200)
           then Err (EHTTP (mkHTTPError (rs_StatusCode resp) authEpochPath
                  (parseRetryAfterHeader ParseTime (rs_RetryAfter resp) (now (length (cs_sent s)))) [] []))
           else
             let data := br_data (rs_Body resp) in
             let budget := Z.to_nat (authEpochResponseMaxBytes + 1) in
             let payload := take budget data in
             if br_fails (rs_Body resp) && (length data <? budget)%nat
             then Err (authEpochTransportError (go "read authentication epoch") (EOther (go "read")))
             else if authEpochResponseMaxBytes <? Z.of_nat (length payload)
             then Err (ESentinel ErrResponseTooLarge)
             else
               match (v ← parse_json payload; l ← dec_struct v; member l (go "epoch") [] dec_string) with
               | None => Err (EOther (go "invalid authentication epoch JSON"))
               | Some epoch =>
                   if negb (validAuthEpoch epoch) then Err (EOther (go "invalid authentication epoch format"))
                   else Ok epoch
               end, s)
      end
  end.

(** [authEpoch] as one goroutine runs it when no other load is in flight. *)
Definition authEpoch (s : cstate) : result goerror gostring * cstate :=
  match ctx_err (length (cs_sent s)) with
  | Some err => (Err (authEpochTransportError (go "discover authentication epoch") err), s)
  | None =>
      if negb (is_empty (cs_epoch s)) then (Ok (cs_epoch s), s)
      else
        let '(r, s) := fetchAuthEpoch s in
        match r with
        | Ok value => (Ok value, set_epoch s value)
        | Err err =>
            (Err (if Is err ErrNotSent then err else EWrap [ESentinel ErrNotSent; err]), s)
        end
  end.

Definition set_headers (h : Header) (l : list (gostring * gostring)) : Header :=
  fold_left (λ h kv, Header_Set kv.1 kv.2 h) l h.

Definition with_header (req : wireRequest) (h : Header) : wireRequest :=
  mkWire (wq_Method req) (wq_Path req) h (wq_Body req) (wq_GetBody req).

Definition signRequest (s : cstate) (req : wireRequest) (bodySHA256 : gostring)
  : result goerror wireRequest * cstate :=
  match secret with
  | None => (Ok req, s)
  | Some key =>
      let '(r, s) := authEpoch s in
      match r with
      | Err err => (Err err, s)
      | Ok epoch =>
          let n := length (cs_sent s) in
          (match SetIrisHMACHeaders key (wq_Method req) (wq_Path req) bodySHA256 epoch (now n) (random n) with
           | Err _ => Err (EWrap [EOther (go "sign iris request")])
           | Ok l => Ok (with_header req (set_headers (wq_Header req) l))
           end, s)
      end
  end.

Definition newSignedStreamRequest (s : cstate) (method path : gostring) (body : option gostring)
  (bodySHA256 : gostring) : result goerror wireRequest * cstate :=
  match newRequest method path body with
  | Err err => (Err err, s)
  | Ok req => signRequest s req bodySHA256
  end.

(** [newSignedRequest]: the body hash of no body is that of the empty body. *)
Definition newSignedRequest (s : cstate) (method path : gostring) (bodyBytes : option gostring)
  : result goerror wireRequest * cstate :=
  newSignedStreamRequest s method path bodyBytes (SHA256HexBytes (default [] bodyBytes)).

(** [refreshAuthEpoch]: whether to replay, the cache and the flag after it. *)
Definition refreshAuthEpoch (s : cstate) (req : wireRequest) (err : goerror) (refreshed : bool)
  : bool * cstate * bool :=
  match AsHTTPError err with
  | None => (false, s, refreshed)
  | Some e =>
      if negb (he_StatusCode e =? 401) || negb (seqb (HTTPErrorCode err) authEpochMismatchCode)
      then (false, s, refreshed)
      else
        let '(used, _, bound) := Cut "." (Header_Get (wq_Header req) HeaderIrisNonce) in
        if negb bound || negb (validAuthEpoch used) || match secret with None => true | Some _ => false end
        then (false, s, refreshed)
        else
          let s := if seqb (cs_epoch s) used then set_epoch s [] else s in
          if refreshed then (false, s, refreshed) else (true, s, true)
  end.

(** The outcome of [do]: a response, an error, a panic while reading an error body, or no fuel. *)
Inductive doResult := DoOk (resp : response) | DoErr (err : goerror) | DoPanic | DoFuel.

(** The body of the replayed request. *)
Definition replay_body (req replay : wireRequest) : result goerror wireRequest :=
  match wq_Body req with
  | None => Ok replay
  | Some _ =>
      match wq_GetBody req with
      | None => Err (EStop (EWrap [ESentinel ErrNotSent]))
      | Some (Err e) => Err (EStop (EWrap [ESentinel ErrNotSent; e]))
      | Some (Ok b) =>
          Ok (mkWire (wq_Method replay) (wq_Path replay) (wq_Header replay) (Some b) (wq_GetBody replay))
      end
  end.

Fixpoint do_loop (fuel : nat) (s : cstate) (req : wireRequest) (op path errURL : gostring)
  (idempotent epochRefreshed : bool) : doResult * cstate * bool :=
  match fuel with
  | O => (DoFuel, s, epochRefreshed)
  | S fuel =>
      let '(r, s) := client_Do s req in
      match r with
      | Err err => (DoErr (ETransport op errURL (Some err) idempotent), s, epochRefreshed)
      | Ok resp =>
          if isSuccessfulHTTPStatus (rs_StatusCode resp) then (DoOk resp, s, epochRefreshed)
          else
            match readErrorResponse ParseTime (now (length (cs_sent s))) path resp with
            | None => (DoPanic, s, epochRefreshed)
            | Some httpErr =>
                let responseErr := EHTTP httpErr in
                match rs_CloseErr resp with
                | Some t => (DoErr (EStop (EWrap [responseErr; EOther t])), s, epochRefreshed)
                | None =>
                    let '(again, s, epochRefreshed) := refreshAuthEpoch s req responseErr epochRefreshed in
                    if negb again then
                      (DoErr (if Is responseErr ErrNotSent then EStop (EWrap [responseErr])
                              else EWrap [responseErr]), s, epochRefreshed)
                    else
                      let '(signed, s) :=
                        signRequest s req (Header_Get (wq_Header req) HeaderIrisBodySHA256) in
                      match signed with
                      | Err err => (DoErr (EStop err), s, epochRefreshed)
                      | Ok replay =>
                          match replay_body req replay with
                          | Err err => (DoErr err, s, epochRefreshed)
                          | Ok replay => do_loop fuel s replay op path errURL idempotent epochRefreshed
                          end
                      end
                end
            end
      end
  end.

(** [do]: at most one replay, so two rounds are enough ([do_fuel] below). *)
Definition do (s : cstate) (req : wireRequest) (op path errURL : gostring)
  (idempotent epochRefreshed : bool) : doResult * cstate * bool :=
  do_loop 2 s req op path errURL idempotent epochRefreshed.

End client.

(** ** Reading a typed response *)

Definition typedJSONResponseMaxBytes : Z := Z.shiftl 16 20.
Definition decodedBodyDrainMaxLen : Z := httpErrorBodyMaxLen.

(** The reads of a trailer: the bytes of each and how the last one ends. *)
Record trailerReads := mkReads { tr_chunks : list gostring; tr_error : option goerror }.

Definition is_trailer_space (b : byte) : bool := beq b " " || beq b x09 || beq b x0d || beq b x0a.

Fixpoint validate_chunks (total : Z) (chunks : list gostring) (final : option goerror)
  : Z * option goerror :=
  match chunks with
  | [] => (total, match final with None => None | Some e => Some (EWrap [e]) end)
  | c :: r =>
      let total := total + Z.of_nat (length c) in
      if forallb is_trailer_space c then validate_chunks total r final
      else (total, Some (ESentinel errUnexpectedResponseBytes))
  end.

Definition validateJSONTrailer (t : trailerReads) : Z * option goerror :=
  validate_chunks 0 (tr_chunks t) (tr_error t).

(** [limit_reached] is [body.N == 0]; [cause] and [ctxErr] are the request context's. *)
Definition classifyTrailerDrain (cause ctxErr : option goerror) (limit_reached : bool) (read : Z)
  (err : option goerror) : option goerror :=
  if decodedBodyDrainMaxLen <? read then Some (EWrap [ESentinel ErrResponseTooLarge])
  else
    let err :=
      if limit_reached
      then Some (EWrap (match err with Some e => [e] | None => [] end
                        ++ [EWrap [ESentinel ErrResponseTooLarge]]))
      else err in
    match err with
    | None => None
    | Some e =>
        if Is e errUnexpectedResponseBytes || Is e ErrResponseTooLarge then Some e
        else if match cause with Some c => Is c ErrResponseDrainTimeout | None => false end
        then Some (ESentinel ErrResponseDrainTimeout)
        else match ctxErr with
             | Some c => Some (EWrap [c])
             | None => Some e
             end
    end.

(** What reading one typed body meets: the decoder's verdict and whether it exhausted the limit, then
    the trailer's reads and whether they did, the context, and [Close]. *)
Record bodyRun (T : Type) := mkBodyRun {
  bd_decoded : result goerror T;
  bd_decode_limit : bool;
  bd_trailer : trailerReads;
  bd_trailer_limit : bool;
  bd_cause : option goerror;
  bd_ctxErr : option goerror;
  bd_closeErr : option gostring;
}.
Arguments mkBodyRun {T}. Arguments bd_decoded {T}. Arguments bd_decode_limit {T}.
Arguments bd_trailer {T}. Arguments bd_trailer_limit {T}. Arguments bd_cause {T}.
Arguments bd_ctxErr {T}. Arguments bd_closeErr {T}.

(** [decodeJSONBody]; [op] is the lower-cased method. *)
Definition decodeJSONBody {T} (b : bodyRun T) (method path : gostring) (idempotent : bool)
  : result goerror T :=
  let op := ToLower method in
  let fail e := Err (ETransport op path (Some e) idempotent) in
  let decodeErr :=
    match bd_decoded b, bd_decode_limit b with
    | Err e, true => Some (EWrap [e; EWrap [ESentinel ErrResponseTooLarge]])
    | Err e, false => Some e
    | Ok _, true => Some (EWrap [EWrap [ESentinel ErrResponseTooLarge]])
    | Ok _, false => None
    end in
  let outcome :=
    match decodeErr, bd_decoded b with
    | Some e, _ =>
        let e := EWrap [e] in
        if seqb method MethodPost then fail e else Err e
    | None, Err e => Err e
    | None, Ok v =>
        let '(read, drainErr) := validateJSONTrailer (bd_trailer b) in
        match classifyTrailerDrain (bd_cause b) (bd_ctxErr b) (bd_trailer_limit b) read drainErr with
        | Some e => fail (EWrap [e])
        | None => Ok v
        end
    end in
  match bd_closeErr b with
  | None => outcome
  | Some t =>
      fail (EWrap (match outcome with Err e => [e] | Ok _ => [] end ++ [EWrap [EOther t]]))
  end.

(** ** The replay loop *)

Section facts.
Context (secret : option gostring) (http1ProbeOnly : bool) (url_ok : gostring → bool).
Context (ParseTime : gostring → option Z) (now : nat → Z) (random : nat → gostring).
Context (ctx_err : nat → option goerror) (net : nat → wireRequest → result goerror response).

Abbreviation fetch := (fetchAuthEpoch http1ProbeOnly url_ok ParseTime now net).
Abbreviation epoch_of := (authEpoch http1ProbeOnly url_ok ParseTime now ctx_err net).
Abbreviation sign := (signRequest secret http1ProbeOnly url_ok ParseTime now random ctx_err net).
Abbreviation refresh := (refreshAuthEpoch secret).
Abbreviation loop := (do_loop secret http1ProbeOnly url_ok ParseTime now random ctx_err net).

(** A verified epoch mismatch: the server refused the request before looking at it. *)
Definition epoch_mismatch (path : gostring) (n : nat) (resp : response) : Prop :=
  ∃ h, readErrorResponse ParseTime (now n) path resp = Some h ∧ he_StatusCode h = 401 ∧
    he_code h = authEpochMismatchCode.

Definition epoch_request : wireRequest := mkWire MethodGet authEpochPath ∅ None None.

Lemma newRequest_ok method path body req :
  newRequest http1ProbeOnly url_ok method path body = Ok req →
  wq_Method req = method ∧ wq_Path req = path ∧ wq_Body req = body.
Proof.
  unfold newRequest. destruct (_ && _); [done |]. destruct (negb _); [done |]. by intros [= <-].
Qed.

Lemma fetch_sent s r s' :
  fetch s = (r, s') → cs_sent s' = cs_sent s ∨ cs_sent s' = cs_sent s ++ [epoch_request].
Proof.
  unfold fetchAuthEpoch, newRequest. destruct (_ && _); [intros [= _ <-]; by left |].
  destruct (negb _); [intros [= _ <-]; by left |]. simpl.
  destruct (net _ _); intros [= _ <-]; by right.
Qed.

Lemma fetch_epoch s r s' : fetch s = (r, s') → cs_epoch s' = cs_epoch s.
Proof.
  unfold fetchAuthEpoch, newRequest. destruct (_ && _); [by intros [= _ <-] |].
  destruct (negb _); [by intros [= _ <-] |]. simpl. by destruct (net _ _); intros [= _ <-].
Qed.

Lemma fetch_valid s e s' : fetch s = (Ok e, s') → validAuthEpoch e = true.
Proof.
  unfold fetchAuthEpoch. destruct (newRequest _ _ _ _); [|done]. simpl. destruct (net _ _); [|done].
  repeat case_match; try done. intros [= <- _]. by bool_props.
Qed.

Lemma epoch_sent s r s' :
  epoch_of s = (r, s') → cs_sent s' = cs_sent s ∨ cs_sent s' = cs_sent s ++ [epoch_request].
Proof.
  unfold authEpoch. destruct (ctx_err _); [intros [= _ <-]; by left |].
  destruct (negb _); [intros [= _ <-]; by left |].
  destruct (fetch s) as [r0 s0] eqn:E. apply fetch_sent in E. destruct r0; by intros [= _ <-].
Qed.

(** What a signed request is: the same request with the four headers, the nonce naming the epoch. *)
Lemma sign_spec s req sha r s' :
  sign s req sha = (r, s') →
  (cs_sent s' = cs_sent s ∨ cs_sent s' = cs_sent s ++ [epoch_request]) ∧
  (∀ req', r = Ok req' →
     wq_Method req' = wq_Method req ∧ wq_Path req' = wq_Path req ∧ wq_Body req' = wq_Body req ∧
     wq_GetBody req' = wq_GetBody req ∧ (secret = None → req' = req)).
Proof.
  unfold signRequest. destruct secret as [key|].
  - destruct (epoch_of s) as [[e|err] s0] eqn:E; apply epoch_sent in E.
    + intros [= <- <-]. split; [done |]. intros req' Hr.
      destruct (SetIrisHMACHeaders _ _ _ _ _ _ _); [|done]. by simplify_eq.
    + intros [= <- <-]. by split.
  - intros [= <- <-]. split; [by left |]. intros req' [= <-]. done.
Qed.

Lemma refresh_true s req err rf s' rf' :
  refresh s req err rf = (true, s', rf') →
  rf = false ∧ rf' = true ∧ cs_sent s' = cs_sent s ∧
  (∃ h, AsHTTPError err = Some h ∧ he_StatusCode h = 401 ∧ he_code h = authEpochMismatchCode).
Proof.
  unfold refreshAuthEpoch, HTTPErrorCode. destruct (AsHTTPError err) as [h|]; [|done].
  destruct (_ || _) eqn:E; [done |]. destruct (Cut _ _) as [[used x] bound].
  destruct (negb bound || negb (validAuthEpoch used) || _); [done |]. destruct rf; [done |]. intros [= <- <-]. bool_props.
  split_and!; [done | done | by destruct (seqb _ _) | by exists h].
Qed.

Lemma refresh_false s req err rf s' rf' :
  refresh s req err rf = (false, s', rf') → cs_sent s' = cs_sent s.
Proof.
  unfold refreshAuthEpoch. destruct (AsHTTPError err) as [h|]; [|by intros [= <- _]].
  destruct (_ || _); [by intros [= <- _] |]. destruct (Cut _ _) as [[used x] bound].
  destruct (negb bound || negb (validAuthEpoch used) || _); [by intros [= <- _] |]. destruct rf; [|done]. intros [= <- _].
  by destruct (seqb _ _).
Qed.

Lemma replay_body_ok req replay q :
  replay_body req replay = Ok q →
  wq_Method q = wq_Method replay ∧ wq_Path q = wq_Path replay ∧ wq_Header q = wq_Header replay ∧
  (wq_Body req = None ∧ q = replay ∨ ∃ b, wq_Body req ≠ None ∧ wq_GetBody req = Some (Ok b) ∧ wq_Body q = Some b).
Proof.
  unfold replay_body. destruct (wq_Body req); [|intros [= <-]; split_and!; try done; by left].
  destruct (wq_GetBody req) as [[b|]|]; try done. intros [= <-]. simpl. split_and!; try done. right. by exists b.
Qed.

Lemma loop_fuel fuel s req op path url idem rf :
  (1 ≤ fuel)%nat → (rf = false → 2 ≤ fuel)%nat →
  (loop fuel s req op path url idem rf).1.1 ≠ DoFuel.
Proof.
  revert s req rf. induction fuel as [|fuel IH]; intros s req rf H1 H2; [lia |].
  cbn [do_loop client_Do]. destruct (net _ req) as [resp|]; [|done].
  destruct (isSuccessfulHTTPStatus _); [done |].
  destruct (readErrorResponse _ _ path resp) as [h|]; [|done].
  destruct (rs_CloseErr resp); [done |].
  destruct (refresh _ req (EHTTP h) rf) as [[[|] s1] rf1] eqn:Er; cbn [negb]; [|done].
  apply refresh_true in Er as (-> & -> & _). destruct (sign _ req _) as [[replay|] s2]; [|done].
  destruct (replay_body req replay) as [q|e]; [|done]. apply IH; [lia | done].
Qed.

(** The requests a call puts on the wire, and why there is a second one. *)
Lemma loop_sent fuel s req op path url idem rf res s' rf' :
  loop fuel s req op path url idem rf = (res, s', rf') → (1 ≤ fuel)%nat →
  (cs_sent s' = cs_sent s ++ [req]) ∨
  (rf = false ∧
   (∃ resp, net (length (cs_sent s)) req = Ok resp ∧
      epoch_mismatch path (S (length (cs_sent s))) resp) ∧
   (cs_sent s' = cs_sent s ++ [req; epoch_request] ∨
    ∃ q mid, (mid = [] ∨ mid = [epoch_request]) ∧ cs_sent s' = cs_sent s ++ [req] ++ mid ++ [q] ∧
      wq_Method q = wq_Method req ∧ wq_Path q = wq_Path req ∧
      (wq_Body req = None ∧ wq_Body q = None ∨
       ∃ b, wq_Body req ≠ None ∧ wq_GetBody req = Some (Ok b) ∧ wq_Body q = Some b))).
Proof.
  revert s req rf res s' rf'. induction fuel as [|fuel IH]; intros s req rf res s' rf' H Hf; [lia |].
  cbn [do_loop client_Do] in H. destruct (net _ req) as [resp|] eqn:En; [|simplify_eq; by left].
  destruct (isSuccessfulHTTPStatus _); [simplify_eq; by left |].
  destruct (readErrorResponse _ _ path resp) as [h|] eqn:Eh; [|simplify_eq; by left].
  destruct (rs_CloseErr resp); [simplify_eq; by left |].
  destruct (refresh _ req (EHTTP h) rf) as [[[|] s1] rf1] eqn:Er; cbn [negb] in H.
  2:{ apply refresh_false in Er. simplify_eq. by left. }
  apply refresh_true in Er as (-> & -> & Hs1 & h' & Hh & H401 & Hcode). simpl in Hh. simplify_eq.
  destruct (sign s1 req _) as [rq s2] eqn:Esg. apply sign_spec in Esg as [Hs2 Hq]. rewrite Hs1 in Hs2. simpl in Hs2.
  assert (epoch_mismatch path (S (length (cs_sent s))) resp) as Hmm.
  { exists h'. split_and!; try done. rewrite <- Eh. simpl. rewrite length_app. simpl.
    by rewrite Nat.add_1_r. }
  destruct rq as [replay|err].
  2:{ simplify_eq. destruct Hs2 as [->| ->]; [by left |]. right. split_and!; [done | by eauto |].
      left. by rewrite <- app_assoc. }
  destruct (Hq replay eq_refl) as (Hm & Hp & Hb & Hg & _).
  destruct (replay_body req replay) as [q|e] eqn:Erb.
  2:{ simplify_eq. destruct Hs2 as [->| ->]; [by left |]. right. split_and!; [done | by eauto |].
      left. by rewrite <- app_assoc. }
  apply replay_body_ok in Erb as (Hqm & Hqp & _ & Hqb).
  destruct fuel as [|fuel].
  { cbn [do_loop] in H. simplify_eq. destruct Hs2 as [->| ->]; [by left |]. right.
    split_and!; [done | by eauto |]. left. by rewrite <- app_assoc. }
  apply IH in H; [|lia]. destruct H as [H|[? _]]; [|done].
  right. split_and!; [done | by eauto |].
  right. exists q. destruct Hs2 as [Hs2|Hs2]; rewrite Hs2 in H; rewrite H;
      [exists [] | exists [epoch_request]]; rewrite <- ?app_assoc; simpl;
      (split_and!; [by auto | done | congruence | congruence |]);
      (destruct Hqb as [[? ->]|(b & ? & ? & ?)]; [left; split; congruence | right; by exists b]).
Qed.

(** The network's answer proves the request was not processed. *)
Definition not_processed (path : gostring) (n : nat) (q : wireRequest) : Prop :=
  match net n q with
  | Err ne => Is ne ErrNotSent = true
  | Ok resp => epoch_mismatch path (S n) resp
  end.

Lemma HTTPError_not_sent h :
  HTTPError_Is h ErrNotSent = true → he_StatusCode h = 401 ∧ he_code h = authEpochMismatchCode.
Proof. unfold HTTPError_Is. destruct (_ && _) eqn:E; [|done]. intros _. by bool_props. Qed.

Lemma lookup_sent (l : list wireRequest) (mid : list wireRequest) req i q :
  (mid = [] ∨ mid = [epoch_request]) → (length l ≤ i)%nat → (l ++ [req] ++ mid) !! i = Some q →
  q ≠ epoch_request → i = length l ∧ q = req.
Proof.
  intros Hmid Hi Hq Hne. rewrite lookup_app_r in Hq by done.
  destruct (i - length l)%nat as [|k] eqn:Ek; simpl in Hq; [split; [lia | congruence] |].
  destruct Hmid as [->| ->]; [done |]. by destruct k; simplify_eq/=.
Qed.

Lemma loop_not_sent fuel s req op path url idem rf e s' rf' :
  loop fuel s req op path url idem rf = (DoErr e, s', rf') → Is e ErrNotSent = true →
  ∀ i q, (length (cs_sent s) ≤ i)%nat → cs_sent s' !! i = Some q → q ≠ epoch_request →
  not_processed path i q.
Proof.
  revert s req rf e s' rf'. induction fuel as [|fuel IH]; intros s req rf e s' rf' H He i q Hi Hq Hne; [done |].
  cbn [do_loop client_Do] in H.
  assert (∀ mid, (mid = [] ∨ mid = [epoch_request]) → cs_sent s' = cs_sent s ++ [req] ++ mid →
    not_processed path (length (cs_sent s)) req → not_processed path i q) as Hdone.
  { intros mid Hmid Hs Hnp. rewrite Hs in Hq. by destruct (lookup_sent _ _ _ _ _ Hmid Hi Hq Hne) as [-> ->]. }
  unfold not_processed at 1 in Hdone. destruct (net _ req) as [resp|ne] eqn:En.
  2:{ injection H as <- <- _. apply (Hdone []); [by left | done |]. exact He. }
  destruct (isSuccessfulHTTPStatus _); [done |].
  destruct (readErrorResponse _ _ path resp) as [h|] eqn:Eh; [|done].
  assert (HTTPError_Is h ErrNotSent = true → epoch_mismatch path (S (length (cs_sent s))) resp) as Hmm.
  { intros [H401 Hc]%HTTPError_not_sent. exists h. split_and!; try done. rewrite <- Eh. simpl.
    by rewrite length_app, Nat.add_1_r. }
  destruct (rs_CloseErr resp).
  { injection H as <- <- _. apply (Hdone []); [by left | done |]. apply Hmm. simpl in He. by rewrite orb_false_r in He. }
  destruct (refresh _ req (EHTTP h) rf) as [[[|] s1] rf1] eqn:Er; cbn [negb] in H.
  2:{ apply refresh_false in Er. injection H as <- <- _. apply (Hdone []); [by left | done |]. apply Hmm.
      cbn [Is] in He. destruct (HTTPError_Is h ErrNotSent) eqn:Eis; [done |].
      cbn [Is existsb] in He. by rewrite Eis in He. }
  apply refresh_true in Er as (-> & -> & Hs1 & h' & Hh & H401 & Hcode). simpl in Hh. simplify_eq.
  assert (epoch_mismatch path (S (length (cs_sent s))) resp) as Hmis.
  { apply Hmm. unfold HTTPError_Is. by rewrite H401, Hcode, seqb_refl. }
  destruct (sign s1 req _) as [rq s2] eqn:Esg. apply sign_spec in Esg as [Hs2 _].
  rewrite Hs1 in Hs2. simpl in Hs2.
  assert (∃ mid, (mid = [] ∨ mid = [epoch_request]) ∧ cs_sent s2 = cs_sent s ++ [req] ++ mid) as (mid & Hmid & Hs2').
  { destruct Hs2 as [->| ->]; [exists [] | exists [epoch_request]]; rewrite <- ?app_assoc; auto. }
  destruct rq as [replay|err]; [|injection H as _ <- _; by apply (Hdone mid)].
  destruct (replay_body req replay) as [q'|e'] eqn:Erb; [|injection H as _ <- _; by apply (Hdone mid)].
  destruct fuel as [|fuel]; [done |].
  destruct (decide (length (cs_sent s2) ≤ i)%nat) as [Hge|Hlt]; [by eapply (IH s2 q')|].
  assert (∃ t, cs_sent s' = cs_sent s2 ++ t) as [t Ht].
  { apply loop_sent in H as [H|(? & _)]; [by eexists | done | lia]. }
  rewrite Ht, lookup_app_l in Hq by lia. rewrite Hs2' in Hq.
  destruct (lookup_sent _ _ _ _ _ Hmid Hi Hq Hne) as [-> ->]. unfold not_processed. by rewrite En.
Qed.

(** Errors of the network, the context and body replays are not the package's own verdicts. *)
Context (Hnet : ∀ n q e, net n q = Err e → Is e ErrTransport = false).
Context (Hctx : ∀ n e, ctx_err n = Some e → Is e ErrTransport = false).

Lemma authEpochTransportError_sent op e :
  Is e ErrTransport = false → Is (authEpochTransportError op e) ErrTransport = false.
Proof.
  intros He. unfold authEpochTransportError. destruct (Is e errHTTP1ProbeOnly); [done |].
  apply transport_not_sent.
  - destruct (Is e ErrNotSent) eqn:E; simpl; [done |]. done.
  - destruct (Is e ErrNotSent); simpl; [done |]. by rewrite He.
Qed.

Lemma fetch_err s e s' : fetch s = (Err e, s') → Is e ErrTransport = false.
Proof using Hnet.
  unfold fetchAuthEpoch, newRequest. destruct (_ && _); [by intros [= <- _] |].
  destruct (negb _); [by intros [= <- _] |]. simpl. destruct (net _ _) as [resp|ne] eqn:En.
  - destruct (negb _).
    { intros [= <- _]. simpl. unfold HTTPError_Is. destruct (_ && _); done. }
    destruct (_ && _). { intros [= <- _]. by apply authEpochTransportError_sent. }
    repeat case_match; intros [= <- _]; done.
  - intros [= <- _]. by eapply authEpochTransportError_sent, Hnet.
Qed.

Lemma sign_err s req sha e s' : sign s req sha = (Err e, s') → Is e ErrTransport = false.
Proof using Hnet Hctx.
  unfold signRequest, authEpoch. destruct secret as [key|]; [|done].
  destruct (ctx_err _) eqn:Ec.
  { intros [= <- _]. by eapply authEpochTransportError_sent, Hctx. }
  destruct (negb _).
  { destruct (SetIrisHMACHeaders _ _ _ _ _ _ _); intros [= <- _]. done. }
  destruct (fetch s) as [[v|err] s0] eqn:Ef.
  - simpl. destruct (SetIrisHMACHeaders _ _ _ _ _ _ _); intros [= <- _]. done.
  - apply fetch_err in Ef. intros [= <- _]. destruct (Is err ErrNotSent); [done |]. simpl. by rewrite Ef.
Qed.

Lemma loop_exclusive fuel s req op path url idem rf e s' rf' :
  (∀ b, wq_GetBody req = Some (Err b) → Is b ErrTransport = false) →
  loop fuel s req op path url idem rf = (DoErr e, s', rf') → exclusive e.
Proof using Hnet Hctx.
  revert s req rf. induction fuel as [|fuel IH]; intros s req rf Hgb H; [done |].
  cbn [do_loop client_Do] in H. destruct (net _ req) as [resp|ne] eqn:En.
  2:{ injection H as <- _ _. by eapply exclusive_transport, exclusive_not_sent, Hnet. }
  destruct (isSuccessfulHTTPStatus _); [done |].
  destruct (readErrorResponse _ _ path resp) as [h|]; [|done].
  destruct (rs_CloseErr resp).
  { injection H as <- _ _. apply exclusive_stop. pose proof (exclusive_HTTP h) as Hx.
    unfold exclusive in *. simpl in *. by rewrite !orb_false_r. }
  destruct (refresh _ req (EHTTP h) rf) as [[[|] s1] rf1]; cbn [negb] in H.
  2:{ injection H as <- _ _. pose proof (exclusive_wrap1 _ (exclusive_HTTP h)).
      cbn [Is]. destruct (HTTPError_Is h ErrNotSent); [by apply exclusive_stop | done]. }
  destruct (sign s1 req _) as [[replay|err] s2] eqn:Esg.
  2:{ injection H as <- _ _. apply exclusive_stop. by eapply exclusive_not_sent, sign_err. }
  apply sign_spec in Esg as [_ Hq]. destruct (Hq replay eq_refl) as (_ & _ & _ & Hg & _).
  unfold replay_body in H. destruct (wq_Body req).
  - destruct (wq_GetBody req) as [[b|b]|] eqn:Egb.
    + eapply IH; [|exact H]. simpl. rewrite Hg. done.
    + injection H as <- _ _. apply exclusive_not_sent. simpl. by rewrite (Hgb b).
    + injection H as <- _ _. by apply exclusive_not_sent.
  - eapply IH; [|exact H]. rewrite Hg. done.
Qed.
End facts.

(** A call makes at most one replay, and only after a verified epoch mismatch.  [do] always comes
    to an end; it puts its request on the wire once, or, if the server refused it with a 401 whose body
    is exactly an epoch-mismatch code and no replay was made before in this call, a second time, with at
    most one epoch discovery in between; the second request has the same method, path and body. *)
Theorem do_replays_once (secret : option gostring) (http1ProbeOnly : bool) (url_ok : gostring → bool)
    (ParseTime : gostring → option Z) (now : nat → Z) (random : nat → gostring)
    (ctx_err : nat → option goerror) (net : nat → wireRequest → result goerror response)
    (s : cstate) (req : wireRequest) (op path errURL : gostring) (idempotent refreshed : bool) :
  let '(res, s', _) := do secret http1ProbeOnly url_ok ParseTime now random ctx_err net s req op path
                         errURL idempotent refreshed in
  res ≠ DoFuel ∧
  (cs_sent s' = cs_sent s ++ [req] ∨
   (refreshed = false ∧
    (∃ resp, net (length (cs_sent s)) req = Ok resp ∧
       epoch_mismatch ParseTime now path (S (length (cs_sent s))) resp) ∧
    (cs_sent s' = cs_sent s ++ [req; epoch_request] ∨
     ∃ q mid, (mid = [] ∨ mid = [epoch_request]) ∧ cs_sent s' = cs_sent s ++ [req] ++ mid ++ [q] ∧
       wq_Method q = wq_Method req ∧ wq_Path q = wq_Path req ∧
       (wq_Body req = None ∧ wq_Body q = None ∨
        ∃ b, wq_Body req ≠ None ∧ wq_GetBody req = Some (Ok b) ∧ wq_Body q = Some b)))).
Proof.
  unfold do.
  pose proof (loop_fuel secret http1ProbeOnly url_ok ParseTime now random ctx_err net 2 s req op path
    errURL idempotent refreshed ltac:(lia) ltac:(lia)) as Hf.
  destruct (do_loop _ _ _ _ _ _ _ _ 2 s req op path errURL idempotent refreshed) as [[res s'] rf'] eqn:E.
  split; [exact Hf |]. eapply loop_sent; [exact E | lia].
Qed.

(** C23: "not sent" is honest.  When a call fails with an error that says the request was not sent,
    every request it put on the wire, epoch discovery apart, was answered by the network with a failure
    that says so itself, or by the server with a verified epoch mismatch, which it gives before it looks
    at the request. *)
Theorem not_sent_is_honest (secret : option gostring) (http1ProbeOnly : bool) (url_ok : gostring → bool)
    (ParseTime : gostring → option Z) (now : nat → Z) (random : nat → gostring)
    (ctx_err : nat → option goerror) (net : nat → wireRequest → result goerror response)
    (s s' : cstate) (req q : wireRequest) (op path errURL : gostring) (idempotent refreshed rf' : bool)
    (e : goerror) (i : nat) :
  do secret http1ProbeOnly url_ok ParseTime now random ctx_err net s req op path errURL idempotent
    refreshed = (DoErr e, s', rf') →
  Is e ErrNotSent = true → (length (cs_sent s) ≤ i)%nat → cs_sent s' !! i = Some q → q ≠ epoch_request →
  match net i q with
  | Err ne => Is ne ErrNotSent = true
  | Ok resp => epoch_mismatch ParseTime now path (S i) resp
  end.
Proof. intros H He Hi Hq Hne. by eapply loop_not_sent. Qed.

(** A server with a new epoch, and a network that loses the discovery request. *)
Definition demo_epoch : gostring := repeat "0"%byte 32.
Definition mismatch_response : response :=
  mkResponse 401 [] (mkBody (go "{" ++ [x22] ++ go "code" ++ [x22; x3a; x22] ++ authEpochMismatchCode
    ++ [x22] ++ go "}") false) None.
Definition lost_discovery (n : nat) (_ : wireRequest) : result goerror response :=
  match n with
  | O => Ok mismatch_response
  | _ => Err (EOther (go "EOF"))
  end.
Definition demo_post : wireRequest :=
  mkWire MethodPost PathReply {[ HeaderIrisNonce := [demo_epoch ++ go ".aa"] ]} (Some (go "{}"))
    (Some (Ok (go "{}"))).
Definition demo_do : doResult * cstate * bool :=
  do (Some (go "tok")) false (λ _, true) (λ _, None) (λ _, 500) (λ _, repeat x07 32) (λ _, None)
    lost_discovery (mkCState demo_epoch []) demo_post (go "post") PathReply PathReply true false.

Lemma not_sent_is_honest_witness :
  epoch_mismatch (λ _, None) (λ _, 500) PathReply 1 mismatch_response.
Proof.
  refine (not_sent_is_honest (Some (go "tok")) false (λ _, true) (λ _, None) (λ _, 500)
    (λ _, repeat x07 32) (λ _, None) lost_discovery (mkCState demo_epoch []) demo_do.1.2 demo_post demo_post
    (go "post") PathReply PathReply true false true
    (match demo_do.1.1 with DoErr e => e | _ => EOther [] end) 0 _ _ _ _ _).
  - vm_compute. reflexivity.
  - vm_compute. reflexivity.
  - simpl. lia.
  - vm_compute. reflexivity.
  - vm_compute. discriminate.
Defined.

(** The two verdicts exclude each other.  No error a call returns is both "not sent" and "outcome
    unknown", as long as the errors of the HTTP client, of the context and of replaying a body are not
    themselves the package's unknown-outcome error; and the retry loop keeps this: neither the error
    that keeps an earlier unknown outcome nor the one of an interrupted wait is both. *)
Theorem verdicts_exclusive (secret : option gostring) (http1ProbeOnly : bool) (url_ok : gostring → bool)
    (ParseTime : gostring → option Z) (now : nat → Z) (random : nat → gostring)
    (ctx_err : nat → option goerror) (net : nat → wireRequest → result goerror response)
    (s s' : cstate) (req : wireRequest) (op path errURL : gostring) (idempotent refreshed rf' : bool)
    (e finalErr waitErr : goerror) :
  (∀ n q e, net n q = Err e → Is e ErrTransport = false) →
  (∀ n e, ctx_err n = Some e → Is e ErrTransport = false) →
  (∀ b, wq_GetBody req = Some (Err b) → Is b ErrTransport = false) →
  do secret http1ProbeOnly url_ok ParseTime now random ctx_err net s req op path errURL idempotent
    refreshed = (DoErr e, s', rf') →
  exclusive finalErr → Is waitErr ErrNotSent = false →
  exclusive e ∧
  (Is e ErrTransport = true → exclusive (keepUnknownOutcome finalErr (Some e) path idempotent) ∧
     exclusive (retryWaitError waitErr (Some e) path idempotent)).
Proof.
  intros Hnet Hctx Hgb Hdo Hfin Hwait.
  assert (exclusive e) as He by (by eapply loop_exclusive). split; [done |]. intros Ht.
  assert (Is e ErrNotSent = false) as Hns
    by (destruct (Is e ErrNotSent) eqn:E; [by destruct He | done]).
  split.
  - unfold keepUnknownOutcome. destruct (_ || _); [done |]. unfold exclusive. simpl. rewrite Hns. simpl. naive_solver.
  - unfold exclusive. simpl. rewrite Hwait, Hns. simpl. naive_solver.
Qed.

Lemma verdicts_exclusive_witness :
  exclusive (match demo_do.1.1 with DoErr e => e | _ => EOther [] end).
Proof.
  refine (proj1 (verdicts_exclusive (Some (go "tok")) false (λ _, true) (λ _, None) (λ _, 500)
    (λ _, repeat x07 32) (λ _, None) lost_discovery (mkCState demo_epoch []) demo_do.1.2 demo_post
    (go "post") PathReply PathReply true false true
    (match demo_do.1.1 with DoErr e => e | _ => EOther [] end) (EOther []) (ESentinel Canceled)
    _ _ _ _ _ _)).
  - intros [|n] q e H; [discriminate H |]. injection H as <-. reflexivity.
  - intros n e H. discriminate H.
  - intros b H. discriminate H.
  - vm_compute. reflexivity.
  - intros [H _]. discriminate H.
  - reflexivity.
Defined.

(** ** Typed responses *)

Lemma validate_chunks_spec total chunks final read :
  validate_chunks total chunks final = (read, None) →
  forallb is_trailer_space (concat chunks) = true ∧ final = None ∧
  read = total + Z.of_nat (length (concat chunks)).
Proof.
  revert total. induction chunks as [|c chunks IH]; intros total H; cbn [validate_chunks] in H.
  - destruct final; [done |]. injection H as <-. simpl. split_and!; [done | done | lia].
  - destruct (forallb is_trailer_space c) eqn:E; [|done]. apply IH in H as (H1 & H2 & ->).
    simpl. rewrite forallb_app, E, H1, length_app. split_and!; [done | done | lia].
Qed.

Lemma classify_none cause ctxErr limit read err :
  classifyTrailerDrain cause ctxErr limit read err = None →
  read ≤ decodedBodyDrainMaxLen ∧ limit = false ∧ err = None.
Proof.
  unfold classifyTrailerDrain. destruct (_ <? read) eqn:E; [done |]. bool_props.
  destruct limit; [|destruct err as [e|]; [|done]]; repeat case_match; try done.
Qed.

(** The causes a response's reading can meet are not "not sent". *)
Definition quiet {T} (b : bodyRun T) : Prop :=
  Forall (λ e : option goerror, match e with Some e => Is e ErrNotSent = false | None => True end)
    [match bd_decoded b with Err e => Some e | Ok _ => None end; tr_error (bd_trailer b); bd_cause b;
     bd_ctxErr b].

Lemma validate_chunks_quiet total chunks final e :
  match final with Some e => Is e ErrNotSent = false | None => True end →
  (validate_chunks total chunks final).2 = Some e → Is e ErrNotSent = false.
Proof.
  intros Hf. revert total. induction chunks as [|c chunks IH]; intros total; cbn [validate_chunks].
  - destruct final as [x|]; simpl; [|done]. intros [= <-]. simpl. by rewrite Hf.
  - destruct (forallb _ _); [apply IH |]. by intros [= <-].
Qed.

Lemma classify_quiet cause ctxErr limit read err e :
  match err with Some e => Is e ErrNotSent = false | None => True end →
  match ctxErr with Some e => Is e ErrNotSent = false | None => True end →
  classifyTrailerDrain cause ctxErr limit read err = Some e → Is e ErrNotSent = false.
Proof.
  intros Herr Hctx. unfold classifyTrailerDrain. destruct (_ <? read); [by intros [= <-] |].
  set (err' := if limit then _ else err).
  assert (match err' with Some e => Is e ErrNotSent = false | None => True end) as Herr'.
  { subst err'. destruct limit; [|done]. destruct err as [x|]; simpl; [by rewrite Herr | done]. }
  destruct err' as [x|]; [|done]. destruct (_ || _); [by intros [= <-] |].
  destruct (match cause with Some c => _ | None => false end); [by intros [= <-] |].
  destruct ctxErr as [c|]; intros [= <-]; [|done]. simpl. by rewrite Hctx.
Qed.

(** A typed response is taken only when it was read to its end: the value decoded within the limit,
    and after it at most 512 bytes of white space and the end of the stream, and [Close] succeeded.  After
    a POST was answered with success, anything else is an unknown outcome, never a plain failure. *)
Theorem typed_response_complete {T : Type} (b : bodyRun T) (path : gostring) (idempotent : bool) :
  quiet b →
  match decodeJSONBody b MethodPost path idempotent with
  | Ok v =>
      bd_decoded b = Ok v ∧ bd_decode_limit b = false ∧ bd_trailer_limit b = false ∧
      forallb is_trailer_space (concat (tr_chunks (bd_trailer b))) = true ∧
      Z.of_nat (length (concat (tr_chunks (bd_trailer b)))) ≤ 512 ∧
      tr_error (bd_trailer b) = None ∧ bd_closeErr b = None
  | Err e => Is e ErrTransport = true ∧ Is e ErrNotSent = false
  end.
Proof.
  unfold quiet. intros Hq. repeat (apply Forall_cons in Hq as [? Hq]). clear Hq.
  assert (∀ x, Is x ErrNotSent = false → ∀ op, Is (ETransport op path (Some x) idempotent) ErrTransport = true
    ∧ Is (ETransport op path (Some x) idempotent) ErrNotSent = false) as Hfail
    by (intros x Hx op; simpl; by rewrite Hx).
  unfold decodeJSONBody, validateJSONTrailer. rewrite seqb_refl.
  match goal with |- context [match bd_closeErr b with Some _ => _ | None => ?o end] => set (outcome := o) end.
  assert (match outcome with
    | Ok v => bd_decoded b = Ok v ∧ bd_decode_limit b = false ∧ bd_trailer_limit b = false ∧
        forallb is_trailer_space (concat (tr_chunks (bd_trailer b))) = true ∧
        Z.of_nat (length (concat (tr_chunks (bd_trailer b)))) ≤ 512 ∧ tr_error (bd_trailer b) = None
    | Err e => Is e ErrTransport = true ∧ Is e ErrNotSent = false end) as Hout.
  { subst outcome. destruct (bd_decoded b) as [v|e], (bd_decode_limit b);
      try (apply Hfail; simpl; by rewrite ?H).
    pose proof (validate_chunks_quiet 0 (tr_chunks (bd_trailer b)) (tr_error (bd_trailer b))) as Hvq.
    destruct (validate_chunks _ _ _) as [read drainErr] eqn:Ev. simpl in Hvq.
    destruct (classifyTrailerDrain _ _ _ _ _) as [e|] eqn:Ec.
    - apply Hfail. simpl. rewrite orb_false_r. eapply classify_quiet; [|done | exact Ec].
      destruct drainErr; [by apply Hvq | done].
    - apply classify_none in Ec as (Hr & Hl & ->). apply validate_chunks_spec in Ev as (? & ? & ->).
      split_and!; try done. }
  destruct (bd_closeErr b) as [t|]; [|destruct outcome; [|done]; destruct Hout as (?&?&?&?&?&?); by split_and!].
  apply Hfail. destruct outcome as [v|e]; simpl; [done |]. by destruct Hout as [_ ->].
Qed.

Lemma typed_response_complete_witness :
  match decodeJSONBody (mkBodyRun (Ok 7) false (mkReads [[x0a]; go "x"] None) false None None None)
    MethodPost PathReply true with Ok _ => False | Err e => Is e ErrTransport = true end.
Proof.
  pose proof (typed_response_complete
    (mkBodyRun (Ok 7) false (mkReads [[x0a]; go "x"] None) false None None None) PathReply true) as H.
  assert (Is (match decodeJSONBody (mkBodyRun (Ok 7) false (mkReads [[x0a]; go "x"] None) false None None None)
    MethodPost PathReply true with Ok _ => EOther [] | Err e => e end) ErrTransport = true) as Hc
    by (vm_compute; reflexivity).
  destruct (decodeJSONBody _ _ _ _); [|exact Hc]. exfalso.
  assert (quiet (mkBodyRun (Ok 7) false (mkReads [[x0a]; go "x"] None) false None None None)) as Hq
    by (repeat (apply Forall_cons; split; [exact I |]); apply Forall_nil; exact I).
  specialize (H Hq). destruct H as (_ & _ & _ & H & _). vm_compute in H. discriminate H.
Defined.
