(* ===== verification/Stream.v ===== *)
(** * Stream: typed response bodies as they are read (internal/client/transport/execute.go)

    [decodeJSONBody] reads a body through a streaming decoder, which may read ahead of the value, then drains what
    follows.  Here its run is computed from the bytes of the body, for any read-ahead and any sizes of the reads, and
    compared with reading the whole body at once. *)

From S2P Require Import Prelude GoStrings GoStrconv GoJson GoHttp Errors Retry Execute.

(** [io.LimitedReader]: the first [n] bytes. *)
Fixpoint limited (n : Z) (s : gostring) : gostring :=
  match s with
  | [] => []
  | b :: r => if n <=? 0 then [] else b :: limited (n - 1) r
  end.

(** Bytes given out by reads of the given sizes, the last read taking the rest. *)
Fixpoint chunked (sizes : list nat) (s : gostring) : list gostring :=
  match sizes with
  | [] => if is_empty s then [] else [s]
  | n :: sizes => take n s :: chunked sizes (drop n s)
  end.

(** The reads [validateJSONTrailer] makes: it stops at the first byte that is not white space. *)
Fixpoint reads_made (chunks : list gostring) : list gostring :=
  match chunks with
  | [] => []
  | c :: r => c :: if forallb is_trailer_space c then reads_made r else []
  end.

(** How a body arrives: how far the decoder had read when it was done, the sizes of the later reads, the error of a
    failing read and the request context. *)
Record arrival := mkArrival {
  ar_ahead : Z;
  ar_sizes : list nat;
  ar_decodeErr : goerror;
  ar_readErr : goerror;
  ar_cause : option goerror;
  ar_ctxErr : option goerror;
}.

Section stream.
Context {T : Type} (dec : json → option T) (a : arrival).

(** [jsonv2.UnmarshalDecode] over the limited body, then the drain of what the decoder left unread and the rest. *)
Definition stream_run (resp : response) : bodyRun T :=
  let body := rs_Body resp in
  let limit := typedJSONResponseMaxBytes + 1 in
  let content := limited limit (br_data body) in
  let size := Z.of_nat (length content) in
  match parse_value (2 * length content + 1) maxNestingDepth (skip_ws content) with
  | None =>
      mkBodyRun (Err (ar_decodeErr a)) (Z.min (ar_ahead a) size =? limit) (mkReads [] None) false (ar_cause a) (ar_ctxErr a)
        (rs_CloseErr resp)
  | Some (v, rest) =>
      let value_end := size - Z.of_nat (length rest) in
      let ahead := Z.max value_end (Z.min (ar_ahead a) size) in
      let reads := reads_made (chunked (ar_sizes a) (limited (decodedBodyDrainMaxLen + 1) rest)) in
      let drained := Z.of_nat (length (concat reads)) in
      let failed := br_fails body && (Z.of_nat (length (br_data body)) <? limit) && (Z.of_nat (length rest) <=? decodedBodyDrainMaxLen) in
      mkBodyRun (match dec v with Some x => Ok x | None => Err (ar_decodeErr a) end) (ahead =? limit)
        (mkReads reads (if failed then Some (ar_readErr a) else None)) (Z.max ahead (value_end + drained) =? limit)
        (ar_cause a) (ar_ctxErr a) (rs_CloseErr resp)
  end.

(** The whole body at once: one value, at most 512 bytes of white space after it. *)
Definition whole_body (body : gostring) : option T :=
  if typedJSONResponseMaxBytes <? Z.of_nat (length body) then None
  else match parse_value (2 * length body + 1) maxNestingDepth (skip_ws body) with
       | Some (v, rest) =>
           if forallb is_ws rest && (Z.of_nat (length rest) <=? decodedBodyDrainMaxLen) then dec v else None
       | None => None
       end.
End stream.

(** ** Reads *)

Lemma limited_all n s : Z.of_nat (length s) ≤ n → limited n s = s.
Proof.
  revert n. induction s as [|b s IH]; intros n H; [done |]. cbn [limited length] in *.
  rewrite (proj2 (Z.leb_gt _ _)) by lia. f_equal. apply IH. lia.
Qed.

Lemma limited_length n s : 0 ≤ n → Z.of_nat (length (limited n s)) = Z.min n (Z.of_nat (length s)).
Proof.
  revert n. induction s as [|b s IH]; intros n H; cbn [limited length]; [lia |].
  destruct (Z.leb_spec n 0); cbn [length]; [lia |]. rewrite !Nat2Z.inj_succ, IH by lia. lia.
Qed.

Lemma chunked_concat sizes s : concat (chunked sizes s) = s.
Proof.
  revert s. induction sizes as [|n sizes IH]; intros s; cbn [chunked]; [|cbn [concat]; by rewrite IH, take_drop].
  destruct s; [done |]. cbn [is_empty concat]. by rewrite app_nil_r.
Qed.

Lemma reads_made_spaces chunks :
  forallb is_trailer_space (concat chunks) = true → reads_made chunks = chunks.
Proof.
  induction chunks as [|c r IH]; [done |]. cbn [concat reads_made]. rewrite forallb_app, andb_true_iff. intros [-> H].
  by rewrite IH.
Qed.

(** The reads of the trailer, however it is cut: white space to the end, or the first other byte. *)
Lemma validate_reads chunks total final :
  validate_chunks total (reads_made chunks) final =
  if forallb is_trailer_space (concat chunks)
  then (total + Z.of_nat (length (concat chunks)), match final with None => None | Some e => Some (EWrap [e]) end)
  else (total + Z.of_nat (length (concat (reads_made chunks))), Some (ESentinel errUnexpectedResponseBytes)).
Proof.
  revert total. induction chunks as [|c r IH]; intros total.
  - cbn. f_equal. lia.
  - cbn [reads_made concat validate_chunks]. rewrite forallb_app. destruct (forallb is_trailer_space c) eqn:E; cbn [andb].
    + rewrite IH. destruct (forallb is_trailer_space (concat r)); cbn [concat]; rewrite !length_app; f_equal; lia.
    + cbn [validate_chunks concat]. rewrite app_nil_r. done.
Qed.

(** ** The verdict *)

(** What a call of [decodeJSONBody] that gives a value met. *)
Lemma decodeJSONBody_ok {T} (b : bodyRun T) method path idempotent v :
  decodeJSONBody b method path idempotent = Ok v ↔
  bd_decoded b = Ok v ∧ bd_decode_limit b = false ∧ bd_closeErr b = None ∧ bd_trailer_limit b = false ∧
  ∃ read, validateJSONTrailer (bd_trailer b) = (read, None) ∧ read ≤ decodedBodyDrainMaxLen.
Proof.
  unfold decodeJSONBody. split.
  - destruct (bd_closeErr b) as [t|]; [done |]. destruct (bd_decoded b) as [x|e], (bd_decode_limit b); try (destruct (seqb _ _); done).
    destruct (validateJSONTrailer _) as [read err] eqn:Ev. destruct (classifyTrailerDrain _ _ _ _ _) eqn:Ec; [done |].
    apply classify_none in Ec as (Hr & Hl & ->). intros [= ->]. split_and!; try done. by exists read.
  - intros (-> & -> & -> & Hl & read & -> & Hr). unfold classifyTrailerDrain. rewrite Hl. by rewrite (proj2 (Z.ltb_ge _ _)).
Qed.

Lemma trailer_space_ws s : forallb is_trailer_space s = forallb is_ws s.
Proof.
  induction s as [|b s IH]; [done |]. cbn [forallb]. rewrite IH. f_equal. unfold is_trailer_space, is_ws.
  destruct (beq b x20), (beq b x09), (beq b x0a), (beq b x0d); reflexivity.
Qed.

(** The trailer of a body within the drain limit, and of one beyond it. *)
Lemma drain_spec sizes rest final read :
  validateJSONTrailer (mkReads (reads_made (chunked sizes (limited (decodedBodyDrainMaxLen + 1) rest))) final) = (read, None) →
  read ≤ decodedBodyDrainMaxLen →
  final = None ∧ forallb is_ws rest = true ∧ Z.of_nat (length rest) ≤ decodedBodyDrainMaxLen ∧
  length (concat (reads_made (chunked sizes (limited (decodedBodyDrainMaxLen + 1) rest)))) = length rest.
Proof.
  unfold validateJSONTrailer. cbn [tr_chunks tr_error]. rewrite validate_reads, chunked_concat.
  destruct (forallb is_trailer_space _) eqn:Es; [|done]. intros [= Hr Hf] Hmax. rewrite Z.add_0_l in Hr.
  rewrite limited_length in Hr by done.
  assert (Z.of_nat (length rest) ≤ decodedBodyDrainMaxLen) as Hle by lia. rewrite limited_all in * by lia.
  rewrite trailer_space_ws in Es. split_and!; [by destruct final | done | done |].
  rewrite reads_made_spaces, chunked_concat; [done |]. by rewrite chunked_concat, trailer_space_ws.
Qed.

Lemma drain_ok sizes rest :
  forallb is_ws rest = true → Z.of_nat (length rest) ≤ decodedBodyDrainMaxLen →
  reads_made (chunked sizes (limited (decodedBodyDrainMaxLen + 1) rest)) = chunked sizes rest ∧
  validateJSONTrailer (mkReads (chunked sizes rest) None) = (Z.of_nat (length rest), None).
Proof.
  intros Hs Hl. rewrite limited_all by lia. rewrite <- trailer_space_ws in Hs.
  assert (reads_made (chunked sizes rest) = chunked sizes rest) as E by (apply reads_made_spaces; by rewrite chunked_concat).
  split; [done |]. unfold validateJSONTrailer. cbn [tr_chunks tr_error]. rewrite <- E, validate_reads, chunked_concat, Hs. done.
Qed.

(** A typed response is exactly what the whole body says.  However the body arrives (how far the decoder reads
    ahead, where the reads are cut), [decodeJSONBody] gives a value exactly when the whole body, of at most 16 MiB, is
    one JSON value that decodes to it, followed by nothing but at most 512 bytes of white space, read to its end and
    closed without an error. *)
Lemma typed_body_exact {T} (dec : json → option T) (a : arrival) (resp : response) (method path : gostring)
    (idempotent : bool) (v : T) :
  decodeJSONBody (stream_run dec a resp) method path idempotent = Ok v ↔
  whole_body dec (br_data (rs_Body resp)) = Some v ∧ br_fails (rs_Body resp) = false ∧ rs_CloseErr resp = None.
Proof.
  rewrite decodeJSONBody_ok. unfold stream_run, whole_body. set (body := rs_Body resp). cbv zeta. set (L := typedJSONResponseMaxBytes).
  assert (0 < L) as HL by done. pose proof (limited_length (L + 1) (br_data body) ltac:(lia)) as Hlen.
  split.
  - set (content := limited (L + 1) (br_data body)) in *.
    destruct (parse_value _ _ (skip_ws content)) as [[j rest]|] eqn:Ep; [|intros (H & _); discriminate H].
    cbn [bd_decoded bd_decode_limit bd_closeErr bd_trailer_limit bd_trailer].
    intros (Hd & Hal & Hc & Htl & read & Hv & Hr). apply drain_spec in Hv as (Hf & Hws & Hrest & Hdr); [|done].
    rewrite Hdr in Htl. bool_props.
    assert (length rest ≤ length content)%nat.
    { destruct (parse_length (2 * length content + 1)) as (Hpl & _). apply Hpl in Ep. pose proof (skip_ws_length content). lia. }
    assert (Z.of_nat (length (br_data body)) ≤ L) as Hsmall by lia.
    assert (content = br_data body) as Econt by (apply limited_all; lia). rewrite <- Econt.
    rewrite (proj2 (Z.ltb_ge _ _)) by (rewrite Econt; lia). rewrite Ep, Hws, (proj2 (Z.leb_le _ _)) by done. cbn [andb].
    split_and!; [by destruct (dec j); [injection Hd as -> |] | | done].
    rewrite (proj2 (Z.ltb_lt _ (L + 1))) in Hf by lia. rewrite (proj2 (Z.leb_le _ decodedBodyDrainMaxLen)) in Hf by done.
    by destruct (br_fails body).
  - intros (Hw & -> & ->). destruct (Z.ltb_spec L (Z.of_nat (length (br_data body)))) as [|Hsmall]; [done |].
    rewrite !limited_all in * by lia. destruct (parse_value _ _ _) as [[j rest]|] eqn:Ep; [|done].
    destruct (forallb is_ws rest) eqn:Hws; [|done]. destruct (Z.leb_spec (Z.of_nat (length rest)) decodedBodyDrainMaxLen); [|done].
    cbn [andb] in Hw |- *. destruct (drain_ok (ar_sizes a) rest Hws) as [Er Ev]; [done |].
    assert (length rest ≤ length (br_data body))%nat.
    { destruct (parse_length (2 * length (br_data body) + 1)) as (Hpl & _). apply Hpl in Ep. pose proof (skip_ws_length (br_data body)). lia. }
    cbn [bd_decoded bd_decode_limit bd_closeErr bd_trailer_limit bd_trailer]. rewrite Er, Ev, Hw, chunked_concat.
    split_and!; [done | apply Z.eqb_neq; lia | done | apply Z.eqb_neq; lia | by eexists].
Qed.
