(* ===== verification/AuthEpoch.v ===== *)
(** * AuthEpoch: the epoch cache shared by goroutines (internal/client/transport/auth_epoch.go)

    [authEpoch] and the critical section of [refreshAuthEpoch] as a labelled step relation over any number of
    callers of one client: the mutex, the channel that ends a load, and the discovery request itself, which runs
    outside the mutex and may succeed, fail or be cut off.  Each rule is one critical section, channel operation
    or answer; a caller's own context test touches no shared state and is part of the rule that follows it. *)

From S2P Require Import Prelude GoStrings Errors Execute.

(** A goroutine inside [authEpoch]; a channel is named by the number of loads before it. *)
Inductive ecaller :=
| EStart                                   (** at the head of the loop *)
| EWaiting (k : nat)                       (** in the select on channel [k] *)
| EFetching (k : nat)                      (** made channel [k], inside [fetchAuthEpoch] *)
| EFetched (k : nat) (r : option gostring) (** before the second critical section; [None]: an error *)
| EReturned (r : option gostring).

Record ecache := mkECache {
  ec_value : gostring;
  ec_loading : option nat;
  ec_closed : list nat;          (** closed channels *)
  ec_crashed : bool;             (** a channel was closed twice *)
  ec_loads : nat;                (** channels made so far *)
  ec_callers : list ecaller;
  ec_installed : list gostring;  (** every epoch the cache ever held *)
}.

Definition new_ecache (value : gostring) : ecache :=
  mkECache value None [] false 0 [] (if is_empty value then [] else [value]).

Definition set_ecaller (s : ecache) (i : nat) (c : ecaller) : ecache :=
  mkECache (ec_value s) (ec_loading s) (ec_closed s) (ec_crashed s) (ec_loads s) (<[i := c]> (ec_callers s)) (ec_installed s).

(** Starting a load: the channel is made and recorded under the mutex. *)
Definition begin_load (s : ecache) (i : nat) : ecache :=
  mkECache (ec_value s) (Some (ec_loads s)) (ec_closed s) (ec_crashed s) (S (ec_loads s))
    (<[i := EFetching (ec_loads s)]> (ec_callers s)) (ec_installed s).

(** The second critical section: the value is installed if there is one, the channel is closed in any case. *)
Definition end_load (s : ecache) (i k : nat) (r : option gostring) : ecache :=
  mkECache (match r with Some v => v | None => ec_value s end) None (k :: ec_closed s)
    (ec_crashed s || bool_decide (k ∈ ec_closed s)) (ec_loads s) (<[i := EReturned r]> (ec_callers s))
    (match r with Some v => ec_installed s ++ [v] | None => ec_installed s end).

(** The critical section of [refreshAuthEpoch]: only the epoch the failed request was signed with is forgotten. *)
Definition forget_epoch (s : ecache) (used : gostring) : ecache :=
  if seqb (ec_value s) used
  then mkECache [] (ec_loading s) (ec_closed s) (ec_crashed s) (ec_loads s) (ec_callers s) (ec_installed s) else s.

Inductive elabel :=
| LCall                              (** a goroutine enters [authEpoch] *)
| LMove (i : nat)                    (** caller [i] moves *)
| LAnswer (i : nat) (r : option gostring)
| LCancel (i : nat)                  (** caller [i]'s context is over *)
| LForget (used : gostring).

Inductive estep : elabel → ecache → ecache → Prop :=
| estep_call s :
    estep LCall s (mkECache (ec_value s) (ec_loading s) (ec_closed s) (ec_crashed s) (ec_loads s)
                     (ec_callers s ++ [EStart]) (ec_installed s))
| estep_hit s i :
    ec_callers s !! i = Some EStart → ec_value s ≠ [] → estep (LMove i) s (set_ecaller s i (EReturned (Some (ec_value s))))
| estep_join s i k :
    ec_callers s !! i = Some EStart → ec_value s = [] → ec_loading s = Some k → estep (LMove i) s (set_ecaller s i (EWaiting k))
| estep_lead s i :
    ec_callers s !! i = Some EStart → ec_value s = [] → ec_loading s = None → estep (LMove i) s (begin_load s i)
| estep_wake s i k :
    ec_callers s !! i = Some (EWaiting k) → k ∈ ec_closed s → estep (LMove i) s (set_ecaller s i EStart)
| estep_answer s i k r :
    ec_callers s !! i = Some (EFetching k) → (∀ v, r = Some v → validAuthEpoch v = true) →
    estep (LAnswer i r) s (set_ecaller s i (EFetched k r))
| estep_end s i k r :
    ec_callers s !! i = Some (EFetched k r) → estep (LMove i) s (end_load s i k r)
| estep_cancel_start s i :
    ec_callers s !! i = Some EStart → estep (LCancel i) s (set_ecaller s i (EReturned None))
| estep_cancel_wait s i k :
    ec_callers s !! i = Some (EWaiting k) → estep (LCancel i) s (set_ecaller s i (EReturned None))
| estep_forget s used : estep (LForget used) s (forget_epoch s used).

Inductive esteps : list elabel → ecache → ecache → Prop :=
| esteps_nil s : esteps [] s s
| esteps_snoc ls l s t u : esteps ls s t → estep l t u → esteps (ls ++ [l]) s u.

(** ** The invariant *)

(** The load a caller owns. *)
Definition leads (c : ecaller) : option nat :=
  match c with EFetching k | EFetched k _ => Some k | _ => None end.

Definition epoch_value_ok (v : gostring) : Prop := v = [] ∨ validAuthEpoch v = true.

Record ecache_ok (s : ecache) : Prop := {
  eok_load k : ec_loading s = Some k ↔ ∃ i c, ec_callers s !! i = Some c ∧ leads c = Some k;
  eok_unique i j c d k k' : ec_callers s !! i = Some c → ec_callers s !! j = Some d → leads c = Some k → leads d = Some k' → i = j;
  eok_open k : ec_loading s = Some k → k ∉ ec_closed s ∧ (k < ec_loads s)%nat;
  eok_closed k : k ∈ ec_closed s → (k < ec_loads s)%nat;
  eok_wait i k : ec_callers s !! i = Some (EWaiting k) → k ∈ ec_closed s ∨ ec_loading s = Some k;
  eok_crashed : ec_crashed s = false;
  eok_value : ec_value s = [] ∨ ec_value s ∈ ec_installed s;
  eok_installed : Forall (λ v, validAuthEpoch v = true) (ec_installed s);
  eok_fetched i k v : ec_callers s !! i = Some (EFetched k (Some v)) → validAuthEpoch v = true;
  eok_returned i v : ec_callers s !! i = Some (EReturned (Some v)) → v ∈ ec_installed s;
}.

Lemma new_ecache_ok v : epoch_value_ok v → ecache_ok (new_ecache v).
Proof.
  intros Hv. unfold new_ecache. split; cbn; try done.
  - intros k. split; [done |]. by intros (i & c & H & _).
  - intros k Hk. by apply not_elem_of_nil in Hk.
  - destruct v; [by left |]. right. by left.
  - destruct Hv as [->|Hv]; [by apply Forall_nil |]. destruct v; [by apply Forall_nil |]. apply Forall_cons.
    split; [done | by apply Forall_nil].
Qed.

(** A caller that owns no load moves to a state that owns none. *)
Lemma set_ecaller_ok s i c d :
  ecache_ok s → ec_callers s !! i = Some c → leads c = leads d →
  (∀ k, d = EWaiting k → k ∈ ec_closed s ∨ ec_loading s = Some k) →
  (∀ k v, d = EFetched k (Some v) → validAuthEpoch v = true) → (∀ v, d = EReturned (Some v) → v ∈ ec_installed s) →
  ecache_ok (set_ecaller s i d).
Proof.
  intros Hok Hi Hl Hw Hf Hr.
  assert (∀ j x, <[i := d]> (ec_callers s) !! j = Some x → (j = i ∧ x = d) ∨ (j ≠ i ∧ ec_callers s !! j = Some x)) as Hlook.
  { intros j x Hj. apply list_lookup_insert_Some in Hj as [(-> & -> & _)|[? ?]]; auto. }
  assert (∀ j x, <[i := d]> (ec_callers s) !! j = Some x → ∃ y, ec_callers s !! j = Some y ∧ leads y = leads x) as Hlead.
  { intros j x Hj. destruct (Hlook j x Hj) as [[-> ->]|[_ ?]]; eauto. }
  destruct Hok as [H1 H2 H3 H4 H5 H6 H7 H8 H9 H10]. split; cbn; try done.
  - intros k. rewrite H1. split.
    + intros (j & x & Hj & Hx). destruct (decide (j = i)) as [->|Hne].
      * exists i, d. split; [by apply list_lookup_insert_eq, (lookup_lt_Some _ _ _ Hi) | congruence].
      * exists j, x. by rewrite list_lookup_insert_ne.
    + intros (j & x & Hj & Hx). destruct (Hlead j x Hj) as (y & Hy & E). exists j, y. by rewrite E.
  - intros j j' x y k k' Hx Hy Hk Hk'. destruct (Hlead j x Hx) as (x' & Hx' & Ex), (Hlead j' y Hy) as (y' & Hy' & Ey).
    eapply H2; [exact Hx' | exact Hy' | by rewrite Ex | by rewrite Ey].
  - intros j k Hj. destruct (Hlook _ _ Hj) as [[_ E]|[_ E]]; [by apply Hw | by eapply H5].
  - intros j k v Hj. destruct (Hlook _ _ Hj) as [[_ E]|[_ E]]; [by eapply Hf | by eapply H9].
  - intros j v Hj. destruct (Hlook _ _ Hj) as [[_ E]|[_ E]]; [by eapply Hr | by eapply H10].
Qed.

Lemma begin_load_ok s i :
  ecache_ok s → ec_callers s !! i = Some EStart → ec_loading s = None → ecache_ok (begin_load s i).
Proof.
  intros [H1 H2 H3 H4 H5 H6 H7 H8 H9 H10] Hi Hn.
  assert (∀ j c k, ec_callers s !! j = Some c → leads c ≠ Some k) as Hnone.
  { intros j c k Hj Hc. assert (ec_loading s = Some k) as E by (apply H1; eauto). congruence. }
  assert (∀ j x, <[i := EFetching (ec_loads s)]> (ec_callers s) !! j = Some x →
    (j = i ∧ x = EFetching (ec_loads s)) ∨ (j ≠ i ∧ ec_callers s !! j = Some x)) as Hlook.
  { intros j x Hj. apply list_lookup_insert_Some in Hj as [(-> & -> & _)|[? ?]]; auto. }
  split; cbn; try done.
  - intros k. split.
    + intros [= <-]. exists i, (EFetching (ec_loads s)). split; [by apply list_lookup_insert_eq, (lookup_lt_Some _ _ _ Hi) | done].
    + intros (j & c & Hj & Hc). destruct (Hlook _ _ Hj) as [[_ ->]|[_ E]]; [by injection Hc as -> | by apply (Hnone _ _ k) in E].
  - intros j j' c d k k' Hj Hj' Hc Hd. destruct (Hlook _ _ Hj) as [[-> _]|[_ E]]; [|by apply (Hnone _ _ k) in E].
    destruct (Hlook _ _ Hj') as [[-> _]|[_ E]]; [done | by apply (Hnone _ _ k') in E].
  - intros k [= <-]. split; [|lia]. intros Hin%H4. lia.
  - intros k Hin%H4. lia.
  - intros j k Hj. destruct (Hlook _ _ Hj) as [[_ E]|[_ E]]; [done |]. destruct (H5 _ _ E); [by left | congruence].
  - intros j k v Hj. destruct (Hlook _ _ Hj) as [[_ E]|[_ E]]; [done | by eapply H9].
  - intros j v Hj. destruct (Hlook _ _ Hj) as [[_ E]|[_ E]]; [done | by eapply H10].
Qed.

Lemma end_load_ok s i k r : ecache_ok s → ec_callers s !! i = Some (EFetched k r) → ecache_ok (end_load s i k r).
Proof.
  intros [H1 H2 H3 H4 H5 H6 H7 H8 H9 H10] Hi.
  assert (ec_loading s = Some k) as Hload by (apply H1; eauto). destruct (H3 k Hload) as [Hopen Hlt].
  assert (∀ j x, <[i := EReturned r]> (ec_callers s) !! j = Some x →
    (j = i ∧ x = EReturned r) ∨ (j ≠ i ∧ ec_callers s !! j = Some x ∧ leads x = None)) as Hlook.
  { intros j x Hj. apply list_lookup_insert_Some in Hj as [(-> & -> & _)|[Hne Hj]]; [by left |]. right. split_and!; [done | done |].
    destruct (leads x) as [k'|] eqn:E; [|done]. destruct Hne. by eapply H2. }
  split; cbn.
  - intros k'. split; [done |]. intros (j & c & Hj & Hc). destruct (Hlook _ _ Hj) as [[_ ->]|(_ & _ & E)]; [discriminate Hc | congruence].
  - intros j j' c d a b Hj Hj' Hc Hd. destruct (Hlook _ _ Hj) as [[_ ->]|(_ & _ & E)]; [discriminate Hc | congruence].
  - done.
  - intros k' [->|Hin]%elem_of_cons; [done | by apply H4].
  - intros j k' Hj. left. destruct (Hlook _ _ Hj) as [[_ E]|(_ & E & _)]; [done |].
    destruct (H5 _ _ E) as [Hc|Hc]; [by right |]. assert (k' = k) as -> by congruence. by left.
  - rewrite H6. by apply bool_decide_eq_false.
  - destruct r as [v|]; [|done]. right. apply elem_of_app. right. by left.
  - destruct r as [v|]; [|done]. apply Forall_app. split; [done |]. apply Forall_cons. split; [by eapply H9 | by apply Forall_nil].
  - intros j k' v Hj. destruct (Hlook _ _ Hj) as [[_ E]|(_ & E & _)]; [done | by eapply H9].
  - intros j v Hj. destruct (Hlook _ _ Hj) as [[_ E]|(_ & E & _)].
    + injection E as <-. apply elem_of_app. right. by left.
    + apply H10 in E. destruct r; [|done]. apply elem_of_app. by left.
Qed.

Lemma estep_ok l s t : ecache_ok s → estep l s t → ecache_ok t.
Proof.
  intros Hok Hs. destruct Hs.
  - destruct Hok as [H1 H2 H3 H4 H5 H6 H7 H8 H9 H10].
    assert (∀ j x, (ec_callers s ++ [EStart]) !! j = Some x → ec_callers s !! j = Some x ∨ x = EStart) as Hlook.
    { intros j x Hj. apply lookup_app_Some in Hj as [?|[_ Hj]]; [by left |]. right. by apply list_lookup_singleton_Some in Hj as [_ ->]. }
    split; cbn; try done.
    + intros k. rewrite H1. split.
      * intros (j & c & Hj & Hc). exists j, c. split; [by apply lookup_app_l_Some | done].
      * intros (j & c & Hj & Hc). destruct (Hlook _ _ Hj) as [?| ->]; [eauto | done].
    + intros i j c d k k' Hi Hj Hc Hd. destruct (Hlook _ _ Hi) as [?| ->]; [|done]. destruct (Hlook _ _ Hj) as [?| ->]; [|done]. by eapply H2.
    + intros i k Hi. destruct (Hlook _ _ Hi) as [?|?]; [by eapply H5 | done].
    + intros i k v Hi. destruct (Hlook _ _ Hi) as [?|?]; [by eapply H9 | done].
    + intros i v Hi. destruct (Hlook _ _ Hi) as [?|?]; [by eapply H10 | done].
  - eapply set_ecaller_ok; try done. intros v [= <-]. by destruct (eok_value _ Hok).
  - eapply set_ecaller_ok; try done. intros k' [= <-]. by right.
  - by apply begin_load_ok.
  - by eapply set_ecaller_ok.
  - eapply set_ecaller_ok; try done. intros k' v [= <- ->]. by match goal with H : ∀ v, _ |- _ => apply H end.
  - by apply end_load_ok.
  - by eapply set_ecaller_ok.
  - by eapply set_ecaller_ok.
  - unfold forget_epoch. destruct (seqb _ _); [|done]. destruct Hok. split; cbn; try done. by left.
Qed.

Lemma esteps_ok ls s t : ecache_ok s → esteps ls s t → ecache_ok t.
Proof. intros Hs H. induction H; [done |]. eapply estep_ok; [by apply IHesteps | done]. Qed.

(** One discovery at a time.  In every interleaving of any number of callers, cancellations and late refusals of
    old epochs, at most one caller is discovering, a caller that waits waits for a load that is over or in progress,
    no channel is closed twice, and the cache holds nothing or a well-formed epoch; every epoch a caller is given is
    well-formed and was installed in the cache. *)
Theorem epoch_single_flight (v : gostring) (ls : list elabel) (s : ecache) :
  epoch_value_ok v → esteps ls (new_ecache v) s →
  (∀ i j c d k k', ec_callers s !! i = Some c → ec_callers s !! j = Some d → leads c = Some k → leads d = Some k' → i = j) ∧
  (∀ i k, ec_callers s !! i = Some (EWaiting k) →
     k ∈ ec_closed s ∨ ∃ j c, ec_callers s !! j = Some c ∧ leads c = Some k) ∧
  ec_crashed s = false ∧ epoch_value_ok (ec_value s) ∧
  (∀ i e, ec_callers s !! i = Some (EReturned (Some e)) → validAuthEpoch e = true ∧ e ∈ ec_installed s).
Proof.
  intros Hv Hs. assert (ecache_ok s) as Hok by (eapply esteps_ok; [by apply new_ecache_ok | exact Hs]).
  assert (∀ e, e ∈ ec_installed s → validAuthEpoch e = true) as Hin
    by (intros e He; pose proof (eok_installed _ Hok) as H; rewrite Forall_forall in H; by apply H).
  split_and!.
  - apply (eok_unique _ Hok).
  - intros i k Hi. destruct (eok_wait _ Hok i k Hi) as [?|Hl]; [by left |]. right. by apply (eok_load _ Hok).
  - apply (eok_crashed _ Hok).
  - destruct (eok_value _ Hok) as [?|Hi]; [by left |]. right. by apply Hin.
  - intros i e Hi. pose proof (eok_returned _ Hok i e Hi). split; [by apply Hin | done].
Qed.

(** Two callers find the cache empty: one discovers, the other waits and then reads the cache. *)
Definition other_epoch : gostring := repeat "a"%byte 32.

Lemma esteps_cons l ls s t u : estep l s t → esteps ls t u → esteps (l :: ls) s u.
Proof.
  intros Hl Hs. induction Hs as [s'|ls l' s' t' u' Hst IH Hstep].
  - apply (esteps_snoc [] l s s s'); [apply esteps_nil | exact Hl].
  - rewrite app_comm_cons. eapply esteps_snoc; [by apply IH | done].
Qed.

(** Run one rule forward. *)
Ltac efire rule := eapply esteps_cons; [eapply rule; reflexivity |].

Lemma two_callers : ∃ s,
  esteps [LCall; LCall; LMove 0; LMove 1; LAnswer 0 (Some other_epoch); LMove 0; LMove 1; LMove 1] (new_ecache []) s ∧
  ec_callers s = [EReturned (Some other_epoch); EReturned (Some other_epoch)].
Proof.
  eexists. split.
  - efire estep_call. efire estep_call. efire estep_lead. efire estep_join.
    eapply esteps_cons; [eapply estep_answer; [reflexivity | by intros v [= <-]] |]. efire estep_end.
    eapply esteps_cons; [eapply estep_wake; [reflexivity | by left] |].
    eapply esteps_cons; [eapply estep_hit; [reflexivity | discriminate] |]. apply esteps_nil.
  - reflexivity.
Qed.

Lemma epoch_single_flight_witness : validAuthEpoch other_epoch = true.
Proof.
  destruct two_callers as (s & Hs & Hc).
  destruct (epoch_single_flight [] _ s (or_introl eq_refl) Hs) as (_ & _ & _ & _ & H).
  apply (H 0%nat). rewrite Hc. reflexivity.
Defined.

(** ** One discovery per change of epoch *)

Definition phase_ok (e : gostring) (s : ecache) : Prop :=
  (∀ i k r, ec_callers s !! i = Some (EFetched k r) → ∃ v, r = Some v ∧ v ≠ e ∧ validAuthEpoch v = true) ∧
  ((ec_loads s = 0%nat ∧ ec_loading s = None) ∨
   (ec_loads s = 1%nat ∧ (ec_loading s = Some 0%nat ∧ ec_value s = [] ∨ ec_loading s = None ∧ ec_value s ≠ [] ∧ ec_value s ≠ e))).

Lemma phase_step e l s t :
  e ≠ [] → ecache_ok s → phase_ok e s → estep l s t → (∀ used, l = LForget used → used = e) →
  (∀ i r, l = LAnswer i r → ∃ v, r = Some v ∧ v ≠ e) → phase_ok e t.
Proof.
  intros Hne Hok [Hf Hp] Hs Hforget Hans.
  assert (∀ j i c k r, <[i := c]> (ec_callers s) !! j = Some (EFetched k r) → c = EFetched k r ∨ ec_callers s !! j = Some (EFetched k r)) as Hlook.
  { intros j i c k r Hj. apply list_lookup_insert_Some in Hj as [(-> & -> & _)|[_ ?]]; auto. }
  destruct Hs; try (split; [|exact Hp]; cbn; intros j k' r' Hj; destruct (Hlook _ _ _ _ _ Hj); [done | by eapply Hf]).
  - split; [|exact Hp]. cbn. intros i k r Hi. apply lookup_app_Some in Hi as [Hi|[_ Hi]]; [by eapply Hf |].
    by apply list_lookup_singleton_Some in Hi as [_ ?].
  - split.
    + cbn. intros j k r Hj. destruct (Hlook _ _ _ _ _ Hj); [done | by eapply Hf].
    + cbn. right. destruct Hp as [[-> _]|(_ & [[? _]|(_ & ? & _)])]; [|congruence | done]. split; [done |]. by left.
  - split; [|exact Hp]. cbn. intros j k' r' Hj. destruct (Hlook _ _ _ _ _ Hj) as [E|]; [|by eapply Hf]. injection E as <- <-.
    destruct (Hans i r eq_refl) as (v & -> & Hv). exists v. split_and!; [done | done |]. by match goal with H : ∀ v, _ = _ → validAuthEpoch _ = _ |- _ => apply H end.
  - assert (ec_loading s = Some k) as Hload by (apply (eok_load _ Hok); eauto).
    split.
    + cbn. intros j k' r' Hj. destruct (Hlook _ _ _ _ _ Hj); [done | by eapply Hf].
    + cbn. destruct Hp as [[_ ?]|(-> & _)]; [congruence |]. right. split; [done |]. right.
      destruct (Hf _ _ _ H) as (v & -> & Hv & Hval). split_and!; [done | | done]. intros ->. discriminate Hval.
  - unfold forget_epoch. destruct (seqb _ _) eqn:Eu; [|done]. apply seqb_true in Eu. rewrite (Hforget used eq_refl) in Eu.
    split; [exact Hf |]. cbn. destruct Hp as [?|(? & [[? ?]|(? & _ & ?)])]; [by left | | done]. right. split; [done |]. by left.
Qed.

(** A change of epoch costs one discovery.  When the server moved from one epoch to others, then however many calls
    are refused with the old epoch, however late their refusals arrive, and however many callers ask for the epoch
    meanwhile, only one discovery is made, as long as it succeeds and does not give the old epoch again. *)
Theorem epoch_change_discovered_once (e : gostring) (ls : list elabel) (s : ecache) :
  validAuthEpoch e = true → esteps ls (new_ecache e) s →
  (∀ used, LForget used ∈ ls → used = e) → (∀ i r, LAnswer i r ∈ ls → ∃ v, r = Some v ∧ v ≠ e) →
  (ec_loads s ≤ 1)%nat ∧ (ec_loads s = 1%nat → ec_loading s = None → ec_value s ≠ [] ∧ ec_value s ≠ e).
Proof.
  intros He Hs Hforget Hans. assert (e ≠ []) as Hne by (intros ->; discriminate He).
  assert (phase_ok e s ∧ ecache_ok s) as [[_ Hp] _].
  { assert (ecache_ok (new_ecache e)) as Hnew by (apply new_ecache_ok; by right).
    remember (new_ecache e) as s0 eqn:E0. induction Hs as [s0|ls l s0 t u Hst IH Hstep].
    - split; [|done]. subst s0. split; [by intros i k r H | by left].
    - destruct IH as [IH1 IH2]; try done.
      + intros used Hin. apply Hforget, elem_of_app. by left.
      + intros i r Hin. apply (Hans i), elem_of_app. by left.
      + split; [|by eapply estep_ok]. eapply phase_step; try done.
        * intros used ->. apply Hforget, elem_of_app. right. by left.
        * intros i r ->. apply (Hans i), elem_of_app. right. by left. }
  split; [destruct Hp as [[-> _]|[-> _]]; lia |]. intros Hl Hn. destruct Hp as [[? _]|(_ & [[? _]|(_ & ?)])]; [lia | congruence | done].
Qed.

Lemma epoch_change_discovered_once_witness : ∃ s, (ec_loads s ≤ 1)%nat ∧ ec_value s = other_epoch.
Proof.
  assert (∃ s, esteps [LForget demo_epoch; LCall; LMove 0; LAnswer 0 (Some other_epoch); LMove 0; LForget demo_epoch]
    (new_ecache demo_epoch) s ∧ ec_value s = other_epoch) as (s & Hs & Hv).
  { eexists. split.
    - eapply esteps_cons; [apply estep_forget |]. efire estep_call. efire estep_lead.
      eapply esteps_cons; [eapply estep_answer; [reflexivity | by intros v [= <-]] |]. efire estep_end.
      eapply esteps_cons; [apply estep_forget |]. apply esteps_nil.
    - reflexivity. }
  exists s. split; [|exact Hv].
  refine (proj1 (epoch_change_discovered_once demo_epoch _ s eq_refl Hs _ _)).
  - intros used H. repeat (apply elem_of_cons in H as [H|H]; [try discriminate H; by injection H |]). by apply not_elem_of_nil in H.
  - intros i r H. repeat (apply elem_of_cons in H as [H|H]; [try discriminate H |]); [|by apply not_elem_of_nil in H].
    injection H as _ ->. exists other_epoch. split; [reflexivity | discriminate].
Defined.

(** ** Every caller returns *)

Definition is_returned (c : ecaller) : bool := match c with EReturned _ => true | _ => false end.

(** Steps a caller still has to make while no load ends. *)
Definition effort (closed : list nat) (c : ecaller) : nat :=
  match c with
  | EStart => 4
  | EWaiting k => if bool_decide (k ∈ closed) then 5 else 3
  | EFetching _ => 2
  | EFetched _ _ => 1
  | EReturned _ => 0
  end.

Definition pending (s : ecache) : nat := sum_list_with (λ c, if is_returned c then 0%nat else 1%nat) (ec_callers s).
Definition efforts (s : ecache) : nat := sum_list_with (effort (ec_closed s)) (ec_callers s).

Definition measure (s : ecache) : nat := (pending s * S (5 * length (ec_callers s)) + efforts s)%nat.

Lemma efforts_bound cl l : (sum_list_with (effort cl) l ≤ 5 * length l)%nat.
Proof. induction l as [|c l IH]; simpl; [lia |]. assert (effort cl c ≤ 5)%nat by (destruct c; simpl; try case_bool_decide; lia). lia. Qed.

Lemma pending_bound s : (pending s ≤ length (ec_callers s))%nat.
Proof. unfold pending. induction (ec_callers s) as [|c l IH]; simpl; [lia |]. destruct (is_returned c); lia. Qed.

(** A caller moves and no channel is closed. *)
Lemma measure_insert s i c d v ld cr n ins :
  ec_callers s !! i = Some c → (effort (ec_closed s) d < effort (ec_closed s) c)%nat → is_returned c = false →
  (measure (mkECache v ld (ec_closed s) cr n (<[i := d]> (ec_callers s)) ins) < measure s)%nat.
Proof.
  intros Hi Hlt Hc. unfold measure, pending, efforts. cbn [ec_callers ec_closed]. rewrite length_insert.
  pose proof (sum_list_with_insert (effort (ec_closed s)) _ i c d Hi) as H1.
  pose proof (sum_list_with_insert (λ c, if is_returned c then 0%nat else 1%nat) _ i c d Hi) as H2. cbv beta in H2. rewrite Hc in H2.
  assert (sum_list_with (λ c, if is_returned c then 0%nat else 1%nat) (<[i := d]> (ec_callers s))
    ≤ sum_list_with (λ c, if is_returned c then 0%nat else 1%nat) (ec_callers s))%nat as H3 by (destruct (is_returned d); lia).
  apply (Nat.mul_le_mono_r _ _ (S (5 * length (ec_callers s)))) in H3. lia.
Qed.

Definition is_caller_label (l : elabel) : bool := match l with LMove _ | LAnswer _ _ | LCancel _ => true | _ => false end.

Lemma measure_step l s t :
  ecache_ok s → estep l s t → l ≠ LCall →
  length (ec_callers t) = length (ec_callers s) ∧
  (measure t + (if is_caller_label l then 1 else 0) ≤ measure s)%nat.
Proof.
  intros Hok Hs Hl. destruct Hs; try done; cbn [is_caller_label].
  - split; [apply length_insert |]. rewrite Nat.add_1_r. by eapply measure_insert; [done | simpl; lia | done].
  - split; [apply length_insert |]. rewrite Nat.add_1_r. eapply measure_insert; [done | | done]. simpl.
    destruct (eok_open _ Hok k ltac:(done)) as [Ho _]. rewrite bool_decide_eq_false_2 by done. lia.
  - split; [apply length_insert |]. rewrite Nat.add_1_r. by eapply measure_insert; [done | simpl; lia | done].
  - split; [apply length_insert |]. rewrite Nat.add_1_r. eapply measure_insert; [done | | done]. simpl.
    rewrite bool_decide_eq_true_2 by done. lia.
  - split; [apply length_insert |]. rewrite Nat.add_1_r. by eapply measure_insert; [done | simpl; lia | done].
  - split; [apply length_insert |]. unfold measure, pending, efforts, end_load. cbn [ec_callers ec_closed]. rewrite length_insert.
    pose proof (sum_list_with_insert (λ c, if is_returned c then 0%nat else 1%nat) _ i _ (EReturned r) H) as H2. cbn in H2.
    pose proof (efforts_bound (k :: ec_closed s) (<[i := EReturned r]> (ec_callers s))) as H3. rewrite length_insert in H3.
    rewrite Nat.add_0_r in H2. rewrite <- H2, Nat.mul_add_distr_r. lia.
  - split; [apply length_insert |]. rewrite Nat.add_1_r. by eapply measure_insert; [done | simpl; lia | done].
  - split; [apply length_insert |]. rewrite Nat.add_1_r. eapply measure_insert; [done | | done]. simpl. case_bool_decide; lia.
  - unfold forget_epoch. destruct (seqb _ _); split; try done; unfold measure, pending, efforts; cbn; lia.
Qed.

(** Some caller can move, or its discovery can be answered. *)
Lemma ecache_progress s :
  ecache_ok s → Forall (λ c, is_returned c = true) (ec_callers s) ∨
  ∃ i, (∃ c, ec_callers s !! i = Some c ∧ is_returned c = false) ∧
    ((∃ t, estep (LMove i) s t) ∨
     ∀ answer, (∀ e, answer = Some e → validAuthEpoch e = true) → ∃ t, estep (LAnswer i answer) s t).
Proof.
  intros Hok. destruct (decide (Forall (λ c, is_returned c = true) (ec_callers s))) as [Hall|Hnot]; [by left |]. right.
  apply not_Forall_Exists in Hnot; [|apply _]. apply Exists_exists in Hnot as (c & Hin & Hc).
  apply list_elem_of_lookup in Hin as [i Hi].
  assert (∀ j d k, ec_callers s !! j = Some d → leads d = Some k → ∃ i, (∃ c, ec_callers s !! i = Some c ∧ is_returned c = false) ∧
    ((∃ t, estep (LMove i) s t) ∨
     ∀ answer, (∀ e, answer = Some e → validAuthEpoch e = true) → ∃ t, estep (LAnswer i answer) s t)) as Hlead.
  { intros j d k Hj Hd. exists j. split; [exists d; split; [done | by destruct d] |]. destruct d; try done.
    - right. intros answer Ha. eexists. by eapply estep_answer.
    - left. eexists. by eapply estep_end. }
  destruct c as [|k|k|k r|r]; [| |by eapply Hlead |by eapply Hlead |by destruct Hc].
  - exists i. split; [by eauto |]. left. destruct (decide (ec_value s = [])) as [E|E]; [|eexists; by apply estep_hit].
    destruct (ec_loading s) as [k|] eqn:El; eexists; [by eapply estep_join | by apply estep_lead].
  - destruct (eok_wait _ Hok i k Hi) as [Hcl|Hl]; [exists i; split; [by eauto | left; eexists; by eapply estep_wake] |].
    apply (eok_load _ Hok) in Hl as (j & d & Hj & Hd). by eapply Hlead.
Qed.

(** No caller is stuck, and none runs for ever.  In every reachable state in which some caller has not returned, some
    caller can move without any cancellation, or its discovery can be answered, with whatever answer; and from there,
    whatever happens in whatever order, refusals of old epochs included, the callers make at most n(5n+1)+5n steps
    altogether until all of the n callers have returned. *)
Theorem epoch_callers_return (v : gostring) (ls : list elabel) (s : ecache) (answer : option gostring) :
  epoch_value_ok v → esteps ls (new_ecache v) s → (∀ e, answer = Some e → validAuthEpoch e = true) →
  (Forall (λ c, is_returned c = true) (ec_callers s) ∨
   ∃ i t, estep (LMove i) s t ∨ estep (LAnswer i answer) s t) ∧
  (∀ ls' t, esteps ls' s t → LCall ∉ ls' →
     let n := length (ec_callers s) in
     (length (List.filter is_caller_label ls') ≤ n * S (5 * n) + 5 * n)%nat).
Proof.
  intros Hv Hs Hans. assert (ecache_ok s) as Hok by (eapply esteps_ok; [by apply new_ecache_ok | exact Hs]). split.
  - destruct (ecache_progress s Hok) as [?|(i & _ & [[t Ht]|Ht])]; [by left | right; eauto |].
    right. destruct (Ht answer Hans). by eauto.
  - intros ls' t Hrun Hno. cbv zeta.
    assert (length (ec_callers t) = length (ec_callers s) ∧ (measure t + length (List.filter is_caller_label ls') ≤ measure s)%nat) as [_ Hm].
    { clear Hs Hans Hv. induction Hrun as [s|ls' l s t u Hst IH Hstep]; [simpl; lia |].
      apply not_elem_of_app in Hno as [Hno Hl]. specialize (IH Hok Hno) as [IH1 IH2].
      assert (l ≠ LCall) as Hne by (intros ->; apply Hl; by left).
      destruct (measure_step _ _ _ (esteps_ok _ _ _ Hok Hst) Hstep Hne) as [H1 H2].
      split; [congruence |]. rewrite List.filter_app, length_app. cbn [List.filter]. destruct (is_caller_label l); simpl; lia. }
    assert (measure s ≤ length (ec_callers s) * S (5 * length (ec_callers s)) + 5 * length (ec_callers s))%nat; [|lia].
    unfold measure. pose proof (pending_bound s). pose proof (efforts_bound (ec_closed s) (ec_callers s)). unfold efforts.
    apply Nat.add_le_mono; [by apply Nat.mul_le_mono_r | done].
Qed.

Lemma epoch_callers_return_witness : ∃ s, length (ec_callers s) = 2%nat ∧
  ∀ ls' t, esteps ls' s t → LCall ∉ ls' → (length (List.filter is_caller_label ls') ≤ 32)%nat.
Proof.
  destruct two_callers as (s & Hs & Hc). exists s. split; [rewrite Hc; reflexivity |].
  destruct (epoch_callers_return [] _ s None (or_introl eq_refl) Hs) as [_ H]; [discriminate |].
  rewrite Hc in H. exact H.
Defined.

(** ** One caller alone *)

(** A caller that meets no other does what the sequential definition says: it returns the same result and leaves the
    same epoch in the cache. *)
Lemma sequential_authEpoch probe url_ok ParseTime now ctx_err net (s s' : cstate) r :
  epoch_value_ok (cs_epoch s) → authEpoch probe url_ok ParseTime now ctx_err net s = (r, s') →
  ∃ ls t, esteps (LCall :: ls) (new_ecache (cs_epoch s)) t ∧ ec_value t = cs_epoch s' ∧
    ec_callers t = [EReturned (match r with Ok v => Some v | Err _ => None end)].
Proof.
  intros Hv. unfold authEpoch. destruct (ctx_err _) as [e|].
  { intros [= <- <-]. exists [LCancel 0]. eexists. split.
    - efire estep_call. eapply esteps_cons; [by eapply estep_cancel_start |]. apply esteps_nil.
    - by split. }
  destruct (is_empty (cs_epoch s)) eqn:Ee; cbn [negb].
  - destruct (fetchAuthEpoch _ _ _ _ _ s) as [r0 s0] eqn:Ef. pose proof (fetch_epoch _ _ _ _ _ _ _ _ Ef) as Hs0. bool_props.
    assert (∀ a : option gostring, (∀ v, a = Some v → validAuthEpoch v = true) →
      ∃ t, esteps [LCall; LMove 0; LAnswer 0 a; LMove 0] (new_ecache []) t ∧
        ec_value t = match a with Some v => v | None => [] end ∧ ec_callers t = [EReturned a]) as Hrun.
    { intros a Ha. eexists. split.
      - efire estep_call. efire estep_lead. eapply esteps_cons; [eapply estep_answer; [reflexivity | done] |]. efire estep_end. apply esteps_nil.
      - by split. }
    rewrite Ee. destruct r0 as [v|err]; intros [= <- <-].
    + destruct (Hrun (Some v)) as (t & Ht & Hval & Hc); [intros x [= <-]; by eapply fetch_valid |]. by eexists _, t.
    + destruct (Hrun None) as (t & Ht & Hval & Hc); [done |]. eexists _, t. split; [exact Ht |]. split; [|done]. by rewrite Hs0, Ee, Hval.
  - intros [= <- <-]. exists [LMove 0]. eexists. split.
    + efire estep_call. eapply esteps_cons; [eapply estep_hit; [reflexivity | by apply is_empty_false] |]. apply esteps_nil.
    + by split.
Qed.
