(* ===== verification/DialGuard.v ===== *)
(** * DialGuard: the HTTP/3 egress guard (internal/client/transport/h3_dial_guard.go, http3_transport.go)

    The guard keeps the set of addresses the name server gave for the configured host and refuses
    every other address.  The set expires; the first dial that finds it expired starts one refresh in
    its own goroutine, dials to addresses still in the old set go on, and a dial that is refused waits
    for the refresh and is judged once more.  Any number of dials and refreshes interleave: the model
    is a step function on actions, one action for each critical section, channel operation, goroutine
    start or answer of the resolver, with an explicit action for a resolver that panics. *)

From S2P Require Import Prelude GoStrings GoStrconv GoNetip Errors Retry.

(** Look-ups in an updated list, one case for the updated place and one for the others. *)
Ltac upd_cases H :=
  first [ apply list_lookup_insert_Some in H as [(? & ? & ?)|[? H]]
        | apply lookup_app_Some in H as [H|[? H]] ]; simplify_eq/=.

(** ** Addresses *)

(** [net.IP] is a byte slice; a nil one is empty. *)
Abbreviation IP := gostring.

Definition v4InV6Prefix : gostring := repeat x00 10 ++ [xff; xff].

Definition To4 (ip : IP) : option IP :=
  if (length ip =? 4)%nat then Some ip
  else if (length ip =? 16)%nat && seqb (take 12 ip) v4InV6Prefix then Some (drop 12 ip)
  else None.

Definition To16 (ip : IP) : option IP :=
  if (length ip =? 4)%nat then Some (v4InV6Prefix ++ ip)
  else if (length ip =? 16)%nat then Some ip
  else None.

Definition canonicalIP (ip : IP) : gostring :=
  if is_empty ip then []
  else match To4 ip with
       | Some v4 => v4
       | None => match To16 ip with Some v6 => v6 | None => [] end
       end.

Definition ipAllowset (ips : list IP) : gset gostring :=
  foldl (λ allowed ip, let key := canonicalIP ip in if is_empty key then allowed else {[key]} ∪ allowed)
    ∅ ips.

(** [net.ParseIP]: the sixteen byte form of an address without a zone. *)
Definition ParseIP (s : gostring) : option IP :=
  match ParseAddr s with
  | Some (Addr4 octets) => Some (v4InV6Prefix ++ map zb octets)
  | Some (Addr6 hextets zone) =>
      if is_empty zone then Some (concat (map (λ h, [zb (Z.shiftr h 8); zb h]) hextets)) else None
  | None => None
  end.

(** ** The guarded dial *)

Definition IPAddr : Type := IP * gostring.

Definition selectH3DialIPAddr (first : IPAddr) (rest : list IPAddr) (addr : gostring) : IPAddr :=
  let wantIPv6 := ContainsByte "[" addr in
  default first
    (head (filter (λ a : IPAddr, Bool.eqb (match To4 a.1 with None => true | Some _ => false end) wantIPv6 = true)
       (first :: rest))).

(** What the context, the standard library and the resolver answer during one dial. *)
Record dialEnv := mkDialEnv {
  de_ctx_before : option goerror;
  de_split : result goerror unit;               (** [net.SplitHostPort] *)
  de_port : result goerror Z;                   (** [LookupPort] *)
  de_ips : result goerror (list IPAddr);        (** [LookupIPAddr] *)
  de_ctx_after : option goerror;
  de_guard : IP → option goerror;
}.

Record UDPAddr := mkUDPAddr { udp_IP : IP; udp_Port : Z; udp_Zone : gostring }.

Definition resolveH3DialUDPAddr (env : dialEnv) (addr : gostring) : result goerror UDPAddr :=
  let wrap {T} (m : result goerror T) := result_map_err (λ e, EWrap [e]) m in
  let? _ := wrap (de_split env) in
  let? port := wrap (de_port env) in
  let? ipAddrs := wrap (de_ips env) in
  match ipAddrs with
  | [] => Err (EOther (go "no addresses"))
  | first :: rest =>
      let '(ip, zone) := selectH3DialIPAddr first rest addr in
      Ok (mkUDPAddr ip port zone)
  end.

(** The dialer [guardedH3DialContext] returns, up to the call of [quic.DialAddrEarly]: [Ok] is the
    address it is called with. *)
Definition guardedH3DialContext (env : dialEnv) (addr : gostring) : result goerror UDPAddr :=
  let notSent e := EWrap [ESentinel ErrNotSent; e] in
  match de_ctx_before env with
  | Some ctxErr => Err (notSent ctxErr)
  | None =>
      let? udpAddr := result_map_err notSent (resolveH3DialUDPAddr env addr) in
      match de_ctx_after env with
      | Some ctxErr => Err (notSent ctxErr)
      | None =>
          match de_guard env (udp_IP udpAddr) with
          | Some guardErr => Err (EWrap [ESentinel ErrNotSent; ESentinel ErrH3EgressDenied; guardErr])
          | None => Ok udpAddr
          end
      end
  end.

(** ** The guard *)

(** A goroutine inside [allow]; channel [k] is the one the [k]-th refresh closes. *)
Inductive caller :=
| AtBegin (ip : IP)                        (** before [beginRefresh]'s critical section *)
| AtSpawn (ip : IP) (k : nat)              (** made the channel, before the go statement *)
| AtFirst (ip : IP) (done : option nat)    (** before the first [permits] *)
| AtWait (ip : IP) (k : nat)               (** in the select *)
| AtSecond (ip : IP) (k : nat)             (** received, before the second [permits] *)
| Allowed (ip : IP)
| Denied (ip : IP) (cancelled : bool).

(** A goroutine inside [refresh]. *)
Inductive refresher :=
| NotSpawned
| Resolving
| Resolved (answer : option (gset gostring))  (** what [resolve] returned; [None]: an error *)
| Deferred                                    (** before the critical section of the deferred function *)
| Closing (done : option nat)                 (** before [close(done)] *)
| Finished.

Record h3DialGuard := mkGuard {
  g_allowed : gset gostring;
  g_expiresAt : option Z;              (** [None]: the zero time *)
  g_refreshDone : option nat;
  g_closed : list nat;                 (** channels closed so far *)
  g_crashed : bool;                    (** a channel was closed twice *)
  g_refreshers : list refresher;
  g_callers : list caller;
  g_answers : list (list IP);          (** every accepted answer of the resolver *)
}.

(** [resolve] after the lookup: an answer without a usable address is an error. *)
Definition resolve (lookup : option (list IP)) : option (gset gostring) :=
  match lookup with
  | None => None
  | Some ips => let allowed := ipAllowset ips in
                if bool_decide (allowed = ∅) then None else Some allowed
  end.

Definition accepted (lookup : option (list IP)) (answers : list (list IP)) : list (list IP) :=
  match lookup with
  | Some ips => match resolve lookup with Some _ => answers ++ [ips] | None => answers end
  | None => answers
  end.

Definition permits (g : h3DialGuard) (key : gostring) : bool :=
  if is_empty key then false else bool_decide (key ∈ g_allowed g).

Definition set_callers (g : h3DialGuard) (cs : list caller) : h3DialGuard :=
  mkGuard (g_allowed g) (g_expiresAt g) (g_refreshDone g) (g_closed g) (g_crashed g) (g_refreshers g)
    cs (g_answers g).

Definition set_refreshers (g : h3DialGuard) (rs : list refresher) : h3DialGuard :=
  mkGuard (g_allowed g) (g_expiresAt g) (g_refreshDone g) (g_closed g) (g_crashed g) rs
    (g_callers g) (g_answers g).

Definition set_caller (g : h3DialGuard) (i : nat) (c : caller) : h3DialGuard :=
  set_callers g (<[i := c]> (g_callers g)).

Definition set_refresher (g : h3DialGuard) (k : nat) (r : refresher) : h3DialGuard :=
  set_refreshers g (<[k := r]> (g_refreshers g)).

Definition set_answers (g : h3DialGuard) (answers : list (list IP)) : h3DialGuard :=
  mkGuard (g_allowed g) (g_expiresAt g) (g_refreshDone g) (g_closed g) (g_crashed g) (g_refreshers g)
    (g_callers g) answers.

(** [beginRefresh]'s critical section for caller [i]. *)
Definition beginRefresh (g : h3DialGuard) (i : nat) (ip : IP) (now : Z) : h3DialGuard :=
  if match g_expiresAt g with None => true | Some expiresAt => now <? expiresAt end then
    set_caller g i (AtFirst ip None)
  else
    match g_refreshDone g with
    | Some done => set_caller g i (AtFirst ip (Some done))
    | None =>
        let k := length (g_refreshers g) in
        mkGuard (g_allowed g) (g_expiresAt g) (Some k) (g_closed g) (g_crashed g)
          (g_refreshers g ++ [NotSpawned]) (<[i := AtSpawn ip k]> (g_callers g)) (g_answers g)
    end.

(** The deferred function of [refresh] up to [Unlock]. *)
Definition end_refresh (g : h3DialGuard) (k : nat) (expiresAt : Z) : h3DialGuard :=
  mkGuard (g_allowed g) (Some expiresAt) None (g_closed g) (g_crashed g)
    (<[k := Closing (g_refreshDone g)]> (g_refreshers g)) (g_callers g) (g_answers g).

(** Closing a channel that is closed already panics. *)
Definition close_chan (g : h3DialGuard) (k : nat) (done : option nat) : h3DialGuard :=
  match done with
  | None => set_refresher g k Finished
  | Some c =>
      mkGuard (g_allowed g) (g_expiresAt g) (g_refreshDone g) (c :: g_closed g)
        (g_crashed g || bool_decide (c ∈ g_closed g)) (<[k := Finished]> (g_refreshers g))
        (g_callers g) (g_answers g)
  end.

Inductive action :=
| ACall (ip : IP)
| ABegin (i : nat) (now : Z)
| ASpawn (i : nat)
| AFirst (i : nat)
| AReceive (i : nat)
| ACancel (i : nat)
| ASecond (i : nat)
| ALookup (k : nat) (lookup : option (list IP))
| APanic (k : nat)
| AInstall (k : nat)
| ADeferred (k : nat) (now : Z)
| AClose (k : nat).

Section guard.
Context (ttl : Z).

(** One step; [None] when the action is not enabled. *)
Definition step (a : action) (g : h3DialGuard) : option h3DialGuard :=
  match a with
  | ACall ip => Some (set_callers g (g_callers g ++ [AtBegin ip]))
  | ABegin i now =>
      match g_callers g !! i with
      | Some (AtBegin ip) => Some (beginRefresh g i ip now)
      | _ => None
      end
  | ASpawn i =>
      match g_callers g !! i with
      | Some (AtSpawn ip k) => Some (set_caller (set_refresher g k Resolving) i (AtFirst ip (Some k)))
      | _ => None
      end
  | AFirst i =>
      match g_callers g !! i with
      | Some (AtFirst ip done) =>
          Some (set_caller g i (if permits g (canonicalIP ip) then Allowed ip
                                else match done with Some k => AtWait ip k | None => Denied ip false end))
      | _ => None
      end
  | AReceive i =>
      match g_callers g !! i with
      | Some (AtWait ip k) => if bool_decide (k ∈ g_closed g) then Some (set_caller g i (AtSecond ip k)) else None
      | _ => None
      end
  | ACancel i =>
      match g_callers g !! i with
      | Some (AtWait ip k) => Some (set_caller g i (Denied ip true))
      | _ => None
      end
  | ASecond i =>
      match g_callers g !! i with
      | Some (AtSecond ip k) =>
          Some (set_caller g i (if permits g (canonicalIP ip) then Allowed ip else Denied ip false))
      | _ => None
      end
  | ALookup k lookup =>
      match g_refreshers g !! k with
      | Some Resolving =>
          Some (set_answers (set_refresher g k (Resolved (resolve lookup)))
                  (accepted lookup (g_answers g)))
      | _ => None
      end
  | APanic k =>
      match g_refreshers g !! k with
      | Some Resolving => Some (set_refresher g k Deferred)
      | _ => None
      end
  | AInstall k =>
      match g_refreshers g !! k with
      | Some (Resolved answer) =>
          Some (mkGuard (default (g_allowed g) answer) (g_expiresAt g) (g_refreshDone g) (g_closed g)
                  (g_crashed g) (<[k := Deferred]> (g_refreshers g)) (g_callers g) (g_answers g))
      | _ => None
      end
  | ADeferred k now =>
      match g_refreshers g !! k with
      | Some Deferred => Some (end_refresh g k (now + ttl))
      | _ => None
      end
  | AClose k =>
      match g_refreshers g !! k with
      | Some (Closing done) => Some (close_chan g k done)
      | _ => None
      end
  end.

Fixpoint run (acts : list action) (g : h3DialGuard) : option h3DialGuard :=
  match acts with
  | [] => Some g
  | a :: rest => match step a g with Some g' => run rest g' | None => None end
  end.

(** [newH3DialGuardForBaseURL] once the host is known: a literal address is its own set and never
    expires; a name is resolved first, and without an answer there is no guard. *)
Definition newH3DialGuard (host : gostring) (lookup : option (list IP)) (now : Z) : option h3DialGuard :=
  match ParseIP host with
  | Some literalIP => Some (mkGuard (ipAllowset [literalIP]) None None [] false [] [] [[literalIP]])
  | None =>
      match lookup, resolve lookup with
      | Some ips, Some allowed => Some (mkGuard allowed (Some (now + ttl)) None [] false [] [] [ips])
      | _, _ => None
      end
  end.

(** ** The invariant *)

(** A refresh whose end the mutex has not recorded. *)
Definition in_progress (r : refresher) : Prop :=
  match r with NotSpawned | Resolving | Resolved _ | Deferred => True | Closing _ | Finished => False end.

(** The channel a caller holds. *)
Definition holds (c : caller) : option nat :=
  match c with
  | AtSpawn _ k | AtFirst _ (Some k) | AtWait _ k | AtSecond _ k => Some k
  | _ => None
  end.

Definition granted (answers : list (list IP)) (allowed : gset gostring) : Prop :=
  allowed ≠ ∅ ∧ ∃ ips, ips ∈ answers ∧ allowed = ipAllowset ips.

Record guard_ok (g : h3DialGuard) : Prop := {
  ok_allowed : granted (g_answers g) (g_allowed g);
  ok_resolved k s : g_refreshers g !! k = Some (Resolved (Some s)) → granted (g_answers g) s;
  ok_done k : g_refreshDone g = Some k ↔ ∃ r, g_refreshers g !! k = Some r ∧ in_progress r;
  ok_closing k done : g_refreshers g !! k = Some (Closing done) → done = Some k ∧ k ∉ g_closed g;
  ok_closed k : k ∈ g_closed g ↔ g_refreshers g !! k = Some Finished;
  ok_crashed : g_crashed g = false;
  ok_holds i c k : g_callers g !! i = Some c → holds c = Some k → is_Some (g_refreshers g !! k);
  ok_second i ip k : g_callers g !! i = Some (AtSecond ip k) → k ∈ g_closed g;
  ok_spawn i ip k : g_callers g !! i = Some (AtSpawn ip k) → g_refreshers g !! k = Some NotSpawned;
  ok_spawner k : g_refreshers g !! k = Some NotSpawned → ∃ i ip, g_callers g !! i = Some (AtSpawn ip k);
  ok_unique i j ip ip' k : g_callers g !! i = Some (AtSpawn ip k) → g_callers g !! j = Some (AtSpawn ip' k) → i = j;
  ok_verdict i ip : g_callers g !! i = Some (Allowed ip) →
    canonicalIP ip ≠ [] ∧ ∃ ips, ips ∈ g_answers g ∧ canonicalIP ip ∈ ipAllowset ips;
}.

Lemma granted_mono answers answers' allowed :
  (∀ ips, ips ∈ answers → ips ∈ answers') → granted answers allowed → granted answers' allowed.
Proof. intros Hsub (Hne & ips & Hin & ->). split; [done |]. by exists ips; auto. Qed.

Lemma resolve_granted lookup ips s answers :
  lookup = Some ips → resolve lookup = Some s → granted (answers ++ [ips]) s.
Proof.
  intros -> H. cbn [resolve] in H. destruct (bool_decide _) eqn:E; [done |]. injection H as <-.
  apply bool_decide_eq_false in E. split; [done |]. exists ips. split; [|done].
  apply elem_of_app. right. left.
Qed.

Lemma caller_ok g i c c' :
  guard_ok g → g_callers g !! i = Some c → (∀ ip k, c ≠ AtSpawn ip k) → (∀ ip k, c' ≠ AtSpawn ip k) →
  (∀ k, holds c' = Some k → is_Some (g_refreshers g !! k)) →
  (∀ ip k, c' = AtSecond ip k → k ∈ g_closed g) →
  (∀ ip, c' = Allowed ip → permits g (canonicalIP ip) = true) →
  guard_ok (set_caller g i c').
Proof.
  intros [Ha Hr Hd Hcl Hc Hcr Hh H2 Hsp Hsr Hu Hv] Hi Hc1 Hc2 Hk Hs Hal.
  split; simpl; try done.
  - intros j x k Hj Hx. upd_cases Hj; [by auto | by eapply Hh].
  - intros j ip k Hj. upd_cases Hj; [by eapply Hs | by eapply H2].
  - intros j ip k Hj. upd_cases Hj; [by destruct (Hc2 ip k) | by eapply Hsp].
  - intros k Hk'. destruct (Hsr k Hk') as (j & ip & Hj). exists j, ip.
    destruct (decide (i = j)) as [->|Hne]; [|by rewrite list_lookup_insert_ne].
    rewrite Hi in Hj. injection Hj as ->. by destruct (Hc1 ip k).
  - intros j j' ip ip' k Hj Hj'. upd_cases Hj; [by destruct (Hc2 ip k) |].
    upd_cases Hj'; [by destruct (Hc2 ip' k) | by eapply Hu].
  - intros j ip Hj. upd_cases Hj; [|by eapply Hv]. specialize (Hal _ eq_refl).
    unfold permits in Hal. destruct (is_empty _) eqn:E; [done |]. bool_props.
    apply bool_decide_eq_true in Hal. destruct Ha as (_ & ips & Hin & Heq).
    split; [done |]. exists ips. by rewrite <- Heq.
Qed.

(** A refresh that goes on, with the set and the answers it may change. *)
Lemma refresher_ok g k r r' allowed' answers' :
  guard_ok g → g_refreshers g !! k = Some r → in_progress r → r ≠ NotSpawned → in_progress r' →
  r' ≠ NotSpawned → (∀ ips, ips ∈ g_answers g → ips ∈ answers') → granted answers' allowed' →
  (∀ s, r' = Resolved (Some s) → granted answers' s) →
  guard_ok (mkGuard allowed' (g_expiresAt g) (g_refreshDone g) (g_closed g) (g_crashed g)
              (<[k := r']> (g_refreshers g)) (g_callers g) answers').
Proof.
  intros [Ha Hr Hd Hcl Hc Hcr Hh H2 Hsp Hsr Hu Hv] Hk Hp Hns Hp' Hns' Hsub Hal Hs.
  assert (k < length (g_refreshers g))%nat as Hlt by (by eapply lookup_lt_Some).
  split; simpl; try done.
  - intros k' s Hk'. upd_cases Hk'; [by auto |]. eapply granted_mono; [exact Hsub | by eapply Hr].
  - intros k'. rewrite Hd. destruct (decide (k = k')) as [->|Hne].
    + rewrite list_lookup_insert_eq by done. split; intros _; eauto.
    + by rewrite list_lookup_insert_ne.
  - intros k' done Hk'. upd_cases Hk'. by eapply Hcl.
  - intros k'. rewrite Hc. destruct (decide (k = k')) as [->|Hne].
    + rewrite list_lookup_insert_eq, Hk by done. split; intros [= ->]; done.
    + by rewrite list_lookup_insert_ne.
  - intros i c k' Hi Hc'. destruct (Hh i c k' Hi Hc') as [x Hx].
    destruct (decide (k = k')) as [->|Hne]; [rewrite list_lookup_insert_eq by done | rewrite list_lookup_insert_ne by done]; eauto.
  - intros i ip k' Hi. pose proof (Hsp i ip k' Hi) as Hx.
    rewrite list_lookup_insert_ne; [done |]. intros ->. congruence.
  - intros k' Hk'. upd_cases Hk'. by eapply Hsr.
  - intros i ip Hi. destruct (Hv i ip Hi) as (? & ips & ? & ?). split; [done |]. exists ips. auto.
Qed.

Lemma begin_ok g i ip now : guard_ok g → g_callers g !! i = Some (AtBegin ip) → guard_ok (beginRefresh g i ip now).
Proof.
  intros Hok Hi. unfold beginRefresh. destruct (match g_expiresAt g with Some _ => _ | None => _ end).
  { eapply caller_ok; done. }
  destruct (g_refreshDone g) as [d|] eqn:Ed.
  { eapply caller_ok; try done. intros k [= <-]. destruct (proj1 (ok_done _ Hok d) Ed) as (r & Hr & _). eauto. }
  pose proof Hok as [Ha Hr Hd Hcl Hc Hcr Hh H2 Hsp Hsr Hu Hv].
  assert (∀ k' r, g_refreshers g !! k' = Some r → ¬ in_progress r) as Hidle.
  { intros k' r Hk' Hp. assert (g_refreshDone g = Some k') as E by (apply Hd; eauto). congruence. }
  assert (∀ j ip' k', g_callers g !! j ≠ Some (AtSpawn ip' k')) as Hnospawn.
  { intros j ip' k' Hj. by eapply (Hidle k' NotSpawned); [eapply Hsp |]. }
  split; simpl; try done.
  - intros k' s Hk'. upd_cases Hk'; [by eapply Hr |].
    apply list_lookup_singleton_Some in Hk' as [_ E]. done.
  - intros k'. split.
    + intros [= <-]. exists NotSpawned. split; [|done]. by rewrite lookup_app_r, Nat.sub_diag by lia.
    + intros (r & Hk' & Hp). upd_cases Hk'; [by destruct (Hidle k' r) |].
      apply list_lookup_singleton_Some in Hk' as [E _]. f_equal. lia.
  - intros k' done Hk'. upd_cases Hk'; [by eapply Hcl |]. by apply list_lookup_singleton_Some in Hk' as [_ E].
  - intros k'. rewrite Hc. split; intros Hk'; [by apply lookup_app_l_Some |]. upd_cases Hk'; [done |].
    by apply list_lookup_singleton_Some in Hk' as [_ E].
  - intros j c k' Hj Hk'. apply lookup_lt_is_Some. rewrite length_app. simpl. upd_cases Hj; [lia |].
    destruct (Hh j c k' Hj Hk') as [x Hx%lookup_lt_Some]. lia.
  - intros j ip' k' Hj. upd_cases Hj. by eapply H2.
  - intros j ip' k' Hj. upd_cases Hj; [|by destruct (Hnospawn j ip' k')].
    by rewrite lookup_app_r, Nat.sub_diag by lia.
  - intros k' Hk'. upd_cases Hk'; [by destruct (Hidle k' NotSpawned) |].
    apply list_lookup_singleton_Some in Hk' as [E _]. exists i, ip.
    assert (k' = length (g_refreshers g)) as -> by lia. apply list_lookup_insert_eq. by eapply lookup_lt_Some.
  - intros j j' ip1 ip2 k' Hj Hj'. upd_cases Hj; [|by destruct (Hnospawn j ip1 k')].
    upd_cases Hj'; [done | by destruct (Hnospawn j' ip2 (length (g_refreshers g)))].
  - intros j ip' Hj. upd_cases Hj. by eapply Hv.
Qed.

Lemma spawn_ok g i ip k :
  guard_ok g → g_callers g !! i = Some (AtSpawn ip k) →
  guard_ok (set_caller (set_refresher g k Resolving) i (AtFirst ip (Some k))).
Proof.
  intros [Ha Hr Hd Hcl Hc Hcr Hh H2 Hsp Hsr Hu Hv] Hi. pose proof (Hsp i ip k Hi) as Hk.
  assert (k < length (g_refreshers g))%nat as Hlt by (by eapply lookup_lt_Some).
  assert (∀ k', is_Some (g_refreshers g !! k') → is_Some (<[k := Resolving]> (g_refreshers g) !! k')) as His.
  { intros k' [x Hx]. destruct (decide (k = k')) as [->|]; [rewrite list_lookup_insert_eq by done | rewrite list_lookup_insert_ne by done]; eauto. }
  split; simpl; try done.
  - intros k' s Hk'. upd_cases Hk'. by eapply Hr.
  - intros k'. rewrite Hd. destruct (decide (k = k')) as [->|Hne].
    + rewrite list_lookup_insert_eq by done. split; intros _; [by exists Resolving | by exists NotSpawned].
    + by rewrite list_lookup_insert_ne.
  - intros k' done Hk'. upd_cases Hk'. by eapply Hcl.
  - intros k'. rewrite Hc. destruct (decide (k = k')) as [->|Hne].
    + by rewrite list_lookup_insert_eq, Hk by done.
    + by rewrite list_lookup_insert_ne.
  - intros j c k' Hj Hk'. apply His. upd_cases Hj; [by eauto | by eapply Hh].
  - intros j ip' k' Hj. upd_cases Hj. by eapply H2.
  - intros j ip' k' Hj. upd_cases Hj. rewrite list_lookup_insert_ne; [by eapply Hsp |].
    intros ->. by assert (i = j) by (by eapply Hu).
  - intros k' Hk'. upd_cases Hk'. destruct (Hsr k' Hk') as (j & ip' & Hj). exists j, ip'.
    rewrite list_lookup_insert_ne; [done |]. intros ->. congruence.
  - intros j j' ip1 ip2 k' Hj Hj'. upd_cases Hj. upd_cases Hj'. by eapply Hu.
  - intros j ip' Hj. upd_cases Hj. by eapply Hv.
Qed.

Lemma deferred_ok g k t :
  guard_ok g → g_refreshers g !! k = Some Deferred → guard_ok (end_refresh g k t).
Proof.
  intros [Ha Hr Hd Hcl Hc Hcr Hh H2 Hsp Hsr Hu Hv] Hk.
  assert (k < length (g_refreshers g))%nat as Hlt by (by eapply lookup_lt_Some).
  assert (g_refreshDone g = Some k) as Hdone by (apply Hd; by exists Deferred).
  split; simpl; try done.
  - intros k' s Hk'. upd_cases Hk'. by eapply Hr.
  - intros k'. split; [done |]. intros (r & Hk' & Hp). upd_cases Hk'; [done |].
    assert (g_refreshDone g = Some k') as E by (apply Hd; by eauto). congruence.
  - intros k' done Hk'. upd_cases Hk'; [|by eapply Hcl]. split; [done |]. rewrite Hc. congruence.
  - intros k'. rewrite Hc. destruct (decide (k = k')) as [->|Hne].
    + by rewrite list_lookup_insert_eq, Hk by done.
    + by rewrite list_lookup_insert_ne.
  - intros j c k' Hj Hk'. destruct (Hh j c k' Hj Hk') as [x Hx%lookup_lt_Some].
    apply lookup_lt_is_Some. by rewrite length_insert.
  - intros j ip k' Hj. rewrite list_lookup_insert_ne; [by eapply Hsp |]. intros ->. apply Hsp in Hj. congruence.
  - intros k' Hk'. upd_cases Hk'. by eapply Hsr.
Qed.

Lemma close_ok g k done :
  guard_ok g → g_refreshers g !! k = Some (Closing done) → guard_ok (close_chan g k done).
Proof.
  intros [Ha Hr Hd Hcl Hc Hcr Hh H2 Hsp Hsr Hu Hv] Hk. destruct (Hcl k done Hk) as [-> Hnc].
  assert (k < length (g_refreshers g))%nat as Hlt by (by eapply lookup_lt_Some).
  split; simpl; try done.
  - intros k' s Hk'. upd_cases Hk'. by eapply Hr.
  - intros k'. rewrite Hd. destruct (decide (k = k')) as [->|Hne].
    + rewrite list_lookup_insert_eq, Hk by done. split; intros (r & [= <-] & []).
    + by rewrite list_lookup_insert_ne.
  - intros k' done Hk'. upd_cases Hk'. destruct (Hcl _ _ Hk') as [-> Hn]. split; [done |].
    rewrite elem_of_cons. by intros [->|].
  - intros k'. rewrite elem_of_cons. destruct (decide (k = k')) as [->|Hne].
    + rewrite list_lookup_insert_eq by done. split; by auto.
    + rewrite list_lookup_insert_ne by done. rewrite <- Hc. split; [by intros [->|] | by auto].
  - rewrite Hcr. simpl. by apply bool_decide_eq_false.
  - intros j c k' Hj Hk'. destruct (Hh j c k' Hj Hk') as [x Hx%lookup_lt_Some].
    apply lookup_lt_is_Some. by rewrite length_insert.
  - intros j ip k' Hj. right. by eapply H2.
  - intros j ip k' Hj. rewrite list_lookup_insert_ne; [by eapply Hsp |]. intros ->. apply Hsp in Hj. congruence.
  - intros k' Hk'. upd_cases Hk'. by eapply Hsr.
Qed.

Lemma call_ok g ip : guard_ok g → guard_ok (set_callers g (g_callers g ++ [AtBegin ip])).
Proof.
  intros [Ha Hr Hd Hcl Hc Hcr Hh H2 Hsp Hsr Hu Hv].
  assert (∀ j c, (g_callers g ++ [AtBegin ip]) !! j = Some c → c ≠ AtBegin ip → g_callers g !! j = Some c) as Hold.
  { intros j c Hj Hne. upd_cases Hj; [done |]. apply list_lookup_singleton_Some in Hj as [_ <-]. done. }
  split; simpl; try done.
  - intros j c k' Hj Hk'. apply Hold in Hj; [by eapply Hh | by intros ->].
  - intros j ip' k' Hj. apply Hold in Hj; [by eapply H2 | done].
  - intros j ip' k' Hj. apply Hold in Hj; [by eapply Hsp | done].
  - intros k' Hk'. destruct (Hsr k' Hk') as (j & ip' & Hj). exists j, ip'. by apply lookup_app_l_Some.
  - intros j j' ip1 ip2 k' Hj Hj'. apply Hold in Hj, Hj'; [by eapply Hu | done..].
  - intros j ip' Hj. apply Hold in Hj; [by eapply Hv | done].
Qed.

Lemma guard_step_ok a g g' : guard_ok g → step a g = Some g' → guard_ok g'.
Proof.
  intros Hok. destruct a as [ip|i now|i|i|i|i|i|k lk|k|k|k now|k]; cbn [step];
    try destruct (g_callers g !! i) as [[ip|ip k|ip d|ip k|ip k|ip|ip b]|] eqn:Hi; try done;
    try match goal with |- context [g_refreshers g !! ?n] => destruct (g_refreshers g !! n) as [[| |answer| |d|]|] eqn:Hk end; try done;
    try (destruct (bool_decide _) eqn:Hb; [|done]; apply bool_decide_eq_true in Hb); intros [= <-].
  - by apply call_ok.
  - by apply begin_ok.
  - by apply spawn_ok.
  - destruct (permits g (canonicalIP ip)) eqn:Ep; [|destruct d as [k|]];
      (eapply caller_ok; [done | done | done | done | |done |]); try done; [by intros ? [= <-]|].
    intros k' [= <-]. eapply ok_holds; [done | exact Hi | done].
  - eapply caller_ok; try done; [|by intros ?? [= <- <-]].
    intros k' [= <-]. eapply ok_holds; [done | exact Hi | done].
  - eapply caller_ok; done.
  - destruct (permits g (canonicalIP ip)) eqn:Ep; (eapply caller_ok; try done). by intros ? [= <-].
  - pose proof (ok_allowed _ Hok) as Hg. unfold set_answers, set_refresher, set_refreshers.
    cbn [g_allowed g_expiresAt g_refreshDone g_closed g_crashed g_refreshers g_callers g_answers].
    assert (∀ ips, ips ∈ g_answers g → ips ∈ accepted lk (g_answers g)) as Hsub.
    { intros ips Hin. unfold accepted. destruct lk; [|done]. destruct (resolve _); [|done].
      apply elem_of_app. by left. }
    apply (refresher_ok g k Resolving); try done; [exact (granted_mono _ _ _ Hsub Hg) |].
    intros s [= Hs]. unfold accepted. rewrite Hs. destruct lk; [by eapply resolve_granted | done].
  - eapply refresher_ok; try done. by apply ok_allowed.
  - eapply refresher_ok; try done. destruct answer as [s|]; [by eapply ok_resolved | by apply ok_allowed].
  - by apply deferred_ok.
  - by apply close_ok.
Qed.

Lemma guard_run_app acts acts' g : run (acts ++ acts') g = match run acts g with Some g' => run acts' g' | None => None end.
Proof. revert g. induction acts as [|a acts IH]; intros g; simpl; [done |]. by destruct (step a g). Qed.

Lemma guard_run_ok acts g g' : guard_ok g → run acts g = Some g' → guard_ok g'.
Proof.
  revert g. induction acts as [|a acts IH]; intros g Hok; cbn [run]; [by intros [= <-] |].
  destruct (step a g) as [g1|] eqn:E; [|done]. apply IH. by eapply guard_step_ok.
Qed.

(** ** Addresses *)

Lemma elem_of_ipAllowset ips key : key ∈ ipAllowset ips ↔ key ≠ [] ∧ ∃ ip, ip ∈ ips ∧ canonicalIP ip = key.
Proof.
  assert (∀ acc : gset gostring, key ∈ foldl (λ (allowed : gset gostring) ip, let key := canonicalIP ip in
    if is_empty key then allowed else {[key]} ∪ allowed) acc ips
    ↔ key ∈ acc ∨ key ≠ [] ∧ ∃ ip, ip ∈ ips ∧ canonicalIP ip = key) as H.
  { induction ips as [|ip ips IH]; intros acc; cbn [foldl].
    - split; [by left |]. intros [|(_ & ip & Hin & _)]; [done |]. by apply not_elem_of_nil in Hin.
    - rewrite IH. cbv zeta. setoid_rewrite elem_of_cons.
      destruct (is_empty (canonicalIP ip)) eqn:E; bool_props; [|rewrite elem_of_union, elem_of_singleton]; naive_solver. }
  unfold ipAllowset. rewrite H. rewrite elem_of_empty. naive_solver.
Qed.

Lemma To16_len ip x : To16 ip = Some x → length x = 16%nat.
Proof.
  unfold To16. destruct (length ip =? 4)%nat eqn:E.
  - intros [= <-]. apply Nat.eqb_eq in E. simpl. by rewrite E.
  - destruct (length ip =? 16)%nat eqn:E'; [|done]. intros [= <-]. by apply Nat.eqb_eq.
Qed.

(** The key of an address determines its sixteen byte form and is determined by it. *)
Lemma canonicalIP_To16 ip :
  canonicalIP ip ≠ [] → To16 ip = Some (if (length (canonicalIP ip) =? 4)%nat
                                        then v4InV6Prefix ++ canonicalIP ip else canonicalIP ip).
Proof.
  unfold canonicalIP. destruct (is_empty ip) eqn:Ei; [done |]. unfold To4, To16.
  destruct (length ip =? 4)%nat eqn:E4; [by rewrite E4 |].
  destruct (length ip =? 16)%nat eqn:E16; [|by rewrite andb_false_l]. apply Nat.eqb_eq in E16.
  rewrite andb_true_l. destruct (seqb _ _) eqn:Es.
  - bool_props. intros _. rewrite length_drop, E16. change (16 - 12 =? 4)%nat with true. cbv iota.
    rewrite <- Es at 1. by rewrite take_drop.
  - intros _. by rewrite E4.
Qed.

Lemma v4_fields_length s v d fs o :
  (length fs ≤ 3)%nat → v4_fields s v d fs = Some o → length o = 4%nat.
Proof.
  revert v d fs. induction s as [|c s IH]; intros v d fs Hfs; cbn [v4_fields].
  - destruct (length fs <? 3)%nat eqn:E; [done |]. apply Nat.ltb_ge in E. intros [= <-].
    rewrite length_app. simpl. lia.
  - destruct (is_digit c).
    + case_match; [done |]. case_match; [done |]. by apply IH.
    + case_match; [|done]. case_match; [done |]. destruct (length fs =? 3)%nat eqn:E; [done |].
      apply Nat.eqb_neq in E. apply IH. rewrite length_app. simpl. lia.
Qed.

Lemma v6_groups_length k s acc e g e' r :
  (length acc + k ≤ 8)%nat → v6_groups k s acc e = Some (g, e', r) → (length g ≤ 8)%nat.
Proof.
  revert s acc e. induction k as [|k IH]; intros s acc e Hacc; cbn [v6_groups]; [intros [= <- _ _]; lia |].
  destruct (scan_hex s 0 0) as [[[v off] rest]|]; [|done].
  assert (length (acc ++ [v]) = S (length acc)) as Hl by (rewrite length_app; simpl; lia).
  case_match; [done |]. destruct rest as [|c rest]; [intros [= <- _ _]; lia |].
  destruct (beq c ".").
  - destruct (_ && _); [done |]. destruct (8 <? _)%nat eqn:E8; [done |]. apply Nat.ltb_ge in E8.
    destruct (v4_fields s 0 0 []) as [o|]; [|done].
    destruct o as [|a [|b [|c' [|d [|]]]]]; try done. intros [= <- _ _]. rewrite length_app. simpl. lia.
  - destruct (_ || _); [done |]. destruct rest as [|c2 rest2]; [done |].
    destruct (beq c2 ":"); [|apply IH; lia].
    destruct e; [done |]. case_match; [intros [= <- _ _]; lia | apply IH; lia].
Qed.

Lemma parseIPv6_length s h z : parseIPv6 s = Some (Addr6 h z) → length h = 8%nat.
Proof.
  unfold parseIPv6. destruct (Cut "%" s) as [[s1 z1] hz]. destruct (_ && _); [done |].
  destruct (match s1 with [] => _ | _ => _ end) as [s2 e0].
  destruct (match e0 with Some _ => is_empty s2 | None => false end); [by intros [= <- _] |].
  destruct (v6_groups 8 s2 [] e0) as [[[g e] [|]]|] eqn:Eg; try done.
  apply v6_groups_length in Eg; [|done].
  destruct (length g <? 8)%nat eqn:E; [apply Nat.ltb_lt in E | apply Nat.ltb_ge in E].
  - destruct e as [e|]; [|done]. intros [= <- _].
    rewrite !length_app, length_take, length_drop, repeat_length. lia.
  - destruct e; [done |]. intros [= <- _]. lia.
Qed.

Lemma ParseIP_length s ip : ParseIP s = Some ip → length ip = 16%nat.
Proof.
  unfold ParseIP, ParseAddr. destruct (first_family s) as [c|]; [|done]. destruct (beq c ".").
  - destruct (v4_fields s 0 0 []) as [o|] eqn:E; [|done]. apply v4_fields_length in E; [|simpl; lia].
    simpl. intros [= <-]. simpl. by rewrite length_map, E.
  - destruct (beq c ":"); [|done]. destruct (parseIPv6 s) as [[o|h z]|] eqn:E; [|apply parseIPv6_length in E|done].
    + unfold parseIPv6 in E. exfalso. repeat (case_match; try done).
    + destruct (is_empty z); [|done]. intros [= <-].
      do 8 (destruct h as [|? h]; [done |]). by destruct h.
Qed.

Lemma literal_granted s ip : ParseIP s = Some ip → granted [[ip]] (ipAllowset [ip]).
Proof.
  intros Hl%ParseIP_length. split; [|exists [ip]; split; [left | done]]. intros He.
  assert (canonicalIP ip ≠ []) as Hne.
  { unfold canonicalIP. destruct (is_empty ip) eqn:E; [bool_props; by subst |]. unfold To4, To16. rewrite Hl.
    change (16 =? 4)%nat with false. change (16 =? 16)%nat with true. cbv iota. rewrite andb_true_l.
    destruct (seqb _ _); [|by bool_props].
    intros H%(f_equal length). rewrite length_drop, Hl in H. done. }
  assert (canonicalIP ip ∈ ipAllowset [ip]) as H
    by (apply elem_of_ipAllowset; split; [done |]; exists ip; split; [left | done]).
  rewrite He in H. by apply elem_of_empty in H.
Qed.
End guard.

(** ** Theorems *)

Lemma new_ok ttl host lookup now g : newH3DialGuard ttl host lookup now = Some g → guard_ok g.
Proof.
  unfold newH3DialGuard. intros H.
  assert (∃ allowed exp answers, g = mkGuard allowed exp None [] false [] [] answers ∧ granted answers allowed)
    as (allowed & exp & answers & -> & Hg).
  { destruct (ParseIP host) as [ip|] eqn:E.
    - injection H as <-. do 3 eexists. split; [done |]. by eapply literal_granted.
    - destruct lookup as [ips|]; [|done]. destruct (resolve (Some ips)) as [allowed|] eqn:Er; [|done].
      injection H as <-. do 3 eexists. split; [done |]. by apply (resolve_granted (Some ips) ips allowed []). }
  split; simpl; try done.
  - intros k. split; [done |]. intros (r & Hr & _). done.
  - intros k. split; [by intros ?%not_elem_of_nil | done].
Qed.

(** Every answer on record was given by the resolver, or is the literal address of the base URL. *)
Lemma step_answers ttl a g g' ips :
  step ttl a g = Some g' → ips ∈ g_answers g' → ips ∈ g_answers g ∨ ∃ k, a = ALookup k (Some ips).
Proof.
  destruct a as [ip|i now|i|i|i|i|i|k lk|k|k|k now|k]; cbn [step];
    try (destruct (g_callers g !! i) as [[]|]; try done; try (destruct (bool_decide _); [|done]);
         intros [= <-]; by left);
    try (destruct (g_refreshers g !! k) as [[]|]; try done; intros [= <-]; try (by left)).
  - intros [= <-]. by left.
  - destruct (g_callers g !! i) as [[]|]; try done. intros [= <-]. unfold beginRefresh. repeat case_match; by left.
  - cbn. unfold accepted. destruct lk as [l|]; [|by left]. destruct (resolve _); [|by left].
    rewrite elem_of_app. intros [|Hin]; [by left |]. apply list_elem_of_singleton in Hin as ->. right. by exists k.
  - unfold close_chan. case_match; by left.
Qed.

Lemma run_answers ttl acts g g' ips :
  run ttl acts g = Some g' → ips ∈ g_answers g' → ips ∈ g_answers g ∨ ∃ k, ALookup k (Some ips) ∈ acts.
Proof.
  revert g. induction acts as [|a acts IH]; intros g; cbn [run]; [intros [= <-]; by left |].
  destruct (step ttl a g) as [g1|] eqn:E; [|done]. intros Hr Hin.
  destruct (IH g1 Hr Hin) as [H|[k H]]; [|right; exists k; by right].
  destruct (step_answers _ _ _ _ _ E H) as [|[k ->]]; [by left |]. right. exists k. left.
Qed.

(** Egress is confined to the host's own addresses.  In every interleaving of dials and refreshes,
    whatever the resolver answers, however often it fails or panics, a dial that was allowed goes to an
    address which, in its sixteen byte form, is the literal of the base URL, or was in the answer with
    which the guard was built, or was in the answer of a refresh; and the set in force is never empty. *)
Lemma guard_sound (ttl now : Z) (host : gostring) (lookup : option (list IP)) (g0 g : h3DialGuard)
    (acts : list action) :
  newH3DialGuard ttl host lookup now = Some g0 → run ttl acts g0 = Some g →
  g_allowed g ≠ ∅ ∧
  ∀ i ip, g_callers g !! i = Some (Allowed ip) →
    ∃ ip', To16 ip = To16 ip' ∧ is_Some (To16 ip) ∧
      (ParseIP host = Some ip' ∨
       (∃ ips, ip' ∈ ips ∧ (lookup = Some ips ∨ ∃ k, ALookup k (Some ips) ∈ acts))).
Proof.
  intros Hnew Hrun. assert (guard_ok g) as Hok by (eapply guard_run_ok; [by eapply new_ok | exact Hrun]).
  split; [by destruct (ok_allowed _ Hok) |]. intros i ip Hi.
  destruct (ok_verdict _ Hok i ip Hi) as (Hne & ips & Hin & Hmem).
  apply elem_of_ipAllowset in Hmem as (_ & ip' & Hip' & Heq). exists ip'.
  pose proof (canonicalIP_To16 ip Hne) as H1.
  assert (To16 ip' = To16 ip) as H2 by (rewrite H1, <- Heq; apply canonicalIP_To16; by rewrite Heq).
  split; [done |]. split; [rewrite H1; eauto |].
  destruct (run_answers _ _ _ _ _ Hrun Hin) as [H0|[k Hk]]; [|right; exists ips; eauto].
  unfold newH3DialGuard in Hnew. destruct (ParseIP host) as [lit|].
  - injection Hnew as <-. simpl in H0. apply list_elem_of_singleton in H0 as ->.
    apply list_elem_of_singleton in Hip' as ->. by left.
  - right. exists ips. split; [done |]. left. destruct lookup as [l|]; [|done].
    destruct (resolve (Some l)); [|done]. injection Hnew as <-. by apply list_elem_of_singleton in H0 as ->.
Qed.

(** The host moved from one address to another, and a dial to the new one finds the set expired. *)
Definition old_ip : IP := [x0a; x00; x00; x01].
Definition new_ip : IP := [x0a; x00; x00; x02].
Definition moved_start : list action := [ACall new_ip; ABegin 0 100; ASpawn 0; AFirst 0; ALookup 0 (Some [new_ip])].
Definition moved_finish : list action := [AInstall 0; ADeferred 0 101; AClose 0; AReceive 0; ASecond 0].

Definition demo_guard : h3DialGuard :=
  default (mkGuard ∅ None None [] false [] [] []) (newH3DialGuard 60 (go "iris.test") (Some [old_ip]) 0).
Definition moved_mid : h3DialGuard := default demo_guard (run 60 moved_start demo_guard).
Definition moved_end : h3DialGuard := default demo_guard (run 60 moved_finish moved_mid).

Lemma demo_new : newH3DialGuard 60 (go "iris.test") (Some [old_ip]) 0 = Some demo_guard.
Proof. vm_compute. reflexivity. Qed.

Lemma moved_run : run 60 (moved_start ++ moved_finish) demo_guard = Some moved_end.
Proof. vm_compute. reflexivity. Qed.

(** One refresh at a time.  At most one refresh is between its start and the moment the mutex
    records its end, it is the one [refreshDone] names, and no channel is ever closed twice. *)
Theorem dial_guard_single_flight (ttl now : Z) (host : gostring) (lookup : option (list IP))
    (g0 g : h3DialGuard) (acts : list action) :
  newH3DialGuard ttl host lookup now = Some g0 → run ttl acts g0 = Some g →
  g_crashed g = false ∧
  (∀ k r, g_refreshers g !! k = Some r → in_progress r → g_refreshDone g = Some k) ∧
  (∀ k l r s, g_refreshers g !! k = Some r → g_refreshers g !! l = Some s →
     in_progress r → in_progress s → k = l).
Proof.
  intros Hnew Hrun. assert (guard_ok g) as Hok by (eapply guard_run_ok; [by eapply new_ok | exact Hrun]).
  assert (∀ k r, g_refreshers g !! k = Some r → in_progress r → g_refreshDone g = Some k) as Hone
    by (intros; apply Hok; eauto).
  split_and!; [apply Hok | exact Hone |].
  intros k l r s Hk Hl Hr Hs. pose proof (Hone k r Hk Hr). pose proof (Hone l s Hl Hs). congruence.
Qed.

Lemma dial_guard_single_flight_witness : g_crashed moved_end = false.
Proof.
  exact (proj1 (dial_guard_single_flight 60 0 (go "iris.test") (Some [old_ip]) demo_guard moved_end
    (moved_start ++ moved_finish) demo_new moved_run)).
Defined.

(** ** Waiting dials *)

(** Refresh [k] got the set [s], and unless it still has to put it in force, [s] is in force. *)
Definition settled (g : h3DialGuard) (k : nat) (s : gset gostring) : Prop :=
  match g_refreshers g !! k with
  | Some (Resolved (Some s')) => s' = s
  | Some Deferred | Some (Closing _) | Some Finished => g_allowed g = s
  | _ => False
  end.

Lemma settled_step ttl a g g' k s :
  guard_ok g → step ttl a g = Some g' → (∀ l, a = AInstall l → l = k) → settled g k s → settled g' k s.
Proof.
  intros Hok Hstep Hins. unfold settled.
  destruct a as [ip|i now|i|i|i|i|i|l lk|l|l|l now|l]; cbn [step] in Hstep;
    try (destruct (g_callers g !! i) as [[ip|ip m|ip d|ip m|ip m|ip|ip b]|] eqn:Hi; try done;
         try (destruct (bool_decide _); [|done]); injection Hstep as <-; try done);
    try (destruct (g_refreshers g !! l) as [[| |ans| |d|]|] eqn:Hl; try done; injection Hstep as <-;
         try (destruct d as [d|]); simpl; destruct (decide (l = k)) as [->|];
         [rewrite list_lookup_insert_eq by (by eapply lookup_lt_Some); rewrite Hl; try done
         |rewrite list_lookup_insert_ne by done; try done]).
  - by injection Hstep as <-.
  - unfold beginRefresh. destruct (match g_expiresAt g with Some _ => _ | None => _ end); [done |].
    destruct (g_refreshDone g); [done |]. cbn [g_refreshers g_allowed].
    destruct (g_refreshers g !! k) as [r|] eqn:E; [|done]. by rewrite (lookup_app_l_Some _ _ _ _ E).
  - pose proof (ok_spawn _ Hok i ip m Hi) as Hm. simpl. destruct (decide (m = k)) as [->|]; [by rewrite Hm |].
    by rewrite list_lookup_insert_ne.
  - by destruct ans.
  - destruct ans; [|done]. by destruct (Hins l eq_refl).
  - destruct (g_refreshers g !! l) as [[| |ans| |d|]|] eqn:Hl; try done. injection Hstep as <-.
    destruct (ok_closing _ Hok l d Hl) as [-> _]. simpl. destruct (decide (l = k)) as [->|].
    + rewrite list_lookup_insert_eq by (by eapply lookup_lt_Some). by rewrite Hl.
    + by rewrite list_lookup_insert_ne.
Qed.

(** Caller [i] is past the first look, holds channel [k], and is not refused. *)
Definition hopeful (g : h3DialGuard) (i : nat) (ip : IP) (k : nat) : Prop :=
  g_callers g !! i = Some (AtWait ip k) ∨ g_callers g !! i = Some (AtSecond ip k)
  ∨ g_callers g !! i = Some (Allowed ip).

Lemma hopeful_insert g i j ip k c c' :
  g_callers g !! j = Some c → (i = j → hopeful (set_caller g j c') i ip k) →
  hopeful g i ip k → hopeful (set_caller g j c') i ip k.
Proof.
  intros Hj Hij Hh. destruct (decide (i = j)) as [->|Hne]; [by auto |].
  unfold hopeful. simpl. by rewrite list_lookup_insert_ne by done.
Qed.

Lemma hopeful_step ttl a g g' i ip k s :
  guard_ok g → step ttl a g = Some g' → a ≠ ACancel i → settled g k s → canonicalIP ip ∈ s →
  canonicalIP ip ≠ [] → hopeful g i ip k → hopeful g' i ip k.
Proof.
  intros Hok Hstep Hnc Hset Hin Hne Hh.
  destruct a as [ip'|j now|j|j|j|j|j|l lk|l|l|l now|l]; cbn [step] in Hstep;
    try (destruct (g_callers g !! j) as [[ip'|ip' m|ip' d|ip' m|ip' m|ip'|ip' b]|] eqn:Hj; try done);
    try (destruct (g_refreshers g !! l) as [[| |ans| |d|]|] eqn:Hl; try done; injection Hstep as <-; exact Hh).
  - injection Hstep as <-. unfold hopeful in *. simpl.
    destruct Hh as [H|[H|H]]; rewrite (lookup_app_l_Some _ _ _ _ H); eauto.
  - assert (i ≠ j) as Hij by (intros ->; unfold hopeful in Hh; rewrite Hj in Hh; naive_solver).
    injection Hstep as <-. unfold beginRefresh, hopeful in *.
    destruct (match g_expiresAt g with Some _ => _ | None => _ end); [|destruct (g_refreshDone g)];
      simpl; by rewrite list_lookup_insert_ne.
  - injection Hstep as <-. eapply (hopeful_insert (set_refresher g m Resolving)); [exact Hj | | exact Hh].
    intros ->. unfold hopeful in Hh. rewrite Hj in Hh. naive_solver.
  - injection Hstep as <-. eapply hopeful_insert; [exact Hj | | exact Hh].
    intros ->. unfold hopeful in Hh. rewrite Hj in Hh. naive_solver.
  - destruct (bool_decide _); [|done]. injection Hstep as <-. eapply hopeful_insert; [exact Hj | | exact Hh].
    intros ->. unfold hopeful in *. rewrite Hj in Hh. simpl.
    rewrite list_lookup_insert_eq by (by eapply lookup_lt_Some). naive_solver.
  - injection Hstep as <-. eapply hopeful_insert; [exact Hj | | exact Hh]. intros ->. done.
  - injection Hstep as <-. eapply hopeful_insert; [exact Hj | | exact Hh]. intros ->.
    unfold hopeful in *. rewrite Hj in Hh. simpl. rewrite list_lookup_insert_eq by (by eapply lookup_lt_Some).
    assert (ip' = ip ∧ m = k) as [-> ->] by naive_solver.
    pose proof (ok_second _ Hok j ip k Hj) as Hcl. apply (ok_closed _ Hok) in Hcl.
    unfold settled in Hset. rewrite Hcl in Hset. unfold permits.
    destruct (is_empty (canonicalIP ip)) eqn:E; [by bool_props |]. rewrite Hset.
    rewrite bool_decide_eq_true_2 by done. auto.
  - destruct (g_refreshers g !! l) as [[| |ans| |d|]|] eqn:Hl; try done. injection Hstep as <-.
    unfold close_chan. by destruct d.
Qed.

(** A refused dial is given the refresh it waited for.  If the refresh a dial waits for got an
    answer with the dial's address, the dial is not refused, whatever happens until it returns, unless
    its own context ends or a later refresh replaces that answer. *)
Theorem dial_guard_refresh_helps (ttl now : Z) (host : gostring) (lookup : option (list IP))
    (g0 g g' : h3DialGuard) (acts acts' : list action) (i k : nat) (ip : IP) (s : gset gostring) :
  newH3DialGuard ttl host lookup now = Some g0 → run ttl acts g0 = Some g →
  g_callers g !! i = Some (AtWait ip k) → g_refreshers g !! k = Some (Resolved (Some s)) →
  canonicalIP ip ∈ s → run ttl acts' g = Some g' → ACancel i ∉ acts' →
  (∀ l, AInstall l ∈ acts' → l = k) →
  g_callers g' !! i = Some (AtWait ip k) ∨ g_callers g' !! i = Some (AtSecond ip k)
  ∨ g_callers g' !! i = Some (Allowed ip).
Proof.
  intros Hnew Hrun Hi Hk Hin Hrun' Hnc Hins.
  assert (guard_ok g) as Hok by (eapply guard_run_ok; [by eapply new_ok | exact Hrun]).
  assert (canonicalIP ip ≠ []) as Hne
    by (destruct (ok_resolved _ Hok k s Hk) as (_ & ips & _ & ->); by apply elem_of_ipAllowset in Hin as [? _]).
  assert (settled g k s) as Hset by (unfold settled; by rewrite Hk).
  assert (hopeful g i ip k) as Hh by (by left). fold (hopeful g' i ip k).
  clear Hi Hk Hrun Hnew. revert g Hok Hset Hh Hrun'.
  induction acts' as [|a acts' IH]; intros g Hok Hset Hh; cbn [run]; [by intros [= <-] |].
  rewrite elem_of_cons in Hnc. destruct (step ttl a g) as [g1|] eqn:Ea; [|done].
  assert (∀ l, a = AInstall l → l = k) as Hinsa by (intros l ->; apply Hins; left).
  apply IH; [naive_solver | intros l Hl; apply Hins; by right | by eapply guard_step_ok | by eapply settled_step |].
  eapply hopeful_step; [exact Hok | exact Ea | naive_solver | exact Hset | done..].
Qed.

Lemma dial_guard_refresh_helps_witness :
  g_callers moved_end !! 0%nat = Some (AtWait new_ip 0) ∨ g_callers moved_end !! 0%nat = Some (AtSecond new_ip 0)
  ∨ g_callers moved_end !! 0%nat = Some (Allowed new_ip).
Proof.
  apply (dial_guard_refresh_helps 60 0 (go "iris.test") (Some [old_ip]) demo_guard moved_mid moved_end
    moved_start moved_finish 0 0 new_ip (ipAllowset [new_ip])).
  - exact demo_new.
  - vm_compute. reflexivity.
  - vm_compute. reflexivity.
  - vm_compute. reflexivity.
  - vm_compute. reflexivity.
  - vm_compute. reflexivity.
  - intros H. repeat (apply elem_of_cons in H as [H|H]; [discriminate H |]). by apply not_elem_of_nil in H.
  - intros l H. unfold moved_finish in H. repeat (apply elem_of_cons in H as [H|H]; [try discriminate H |]).
    + by injection H as ->.
    + by apply not_elem_of_nil in H.
Defined.

(** ** Nobody waits for ever *)

Definition caller_weight (c : caller) : nat :=
  match c with
  | AtBegin _ => 11 | AtSpawn _ _ => 4 | AtFirst _ _ => 3 | AtWait _ _ => 2 | AtSecond _ _ => 1
  | Allowed _ | Denied _ _ => 0
  end.

Definition refresher_weight (r : refresher) : nat :=
  match r with
  | NotSpawned => 5 | Resolving => 4 | Resolved _ => 3 | Deferred => 2 | Closing _ => 1 | Finished => 0
  end.

Definition guard_weight (g : h3DialGuard) : nat :=
  sum_list_with caller_weight (g_callers g) + sum_list_with refresher_weight (g_refreshers g).

(** The goroutines that are there go on; no new dial arrives. *)
Definition moves (ttl : Z) (g g' : h3DialGuard) : Prop :=
  ∃ a, (∀ ip, a ≠ ACall ip) ∧ step ttl a g = Some g'.

Definition returned (c : caller) : Prop := match c with Allowed _ | Denied _ _ => True | _ => False end.

Lemma moves_decreases ttl g g' : guard_ok g → moves ttl g g' → (guard_weight g' < guard_weight g)%nat.
Proof.
  intros Hok (a & Hna & Hstep). unfold guard_weight.
  assert (∀ i c c', g_callers g !! i = Some c → (caller_weight c' < caller_weight c)%nat →
    (sum_list_with caller_weight (<[i := c']> (g_callers g)) < sum_list_with caller_weight (g_callers g))%nat) as Hc
    by (intros i c c' Hi Hw; pose proof (sum_list_with_insert caller_weight _ i c c' Hi); lia).
  assert (∀ k r r', g_refreshers g !! k = Some r → (refresher_weight r' < refresher_weight r)%nat →
    (sum_list_with refresher_weight (<[k := r']> (g_refreshers g)) < sum_list_with refresher_weight (g_refreshers g))%nat) as Hr
    by (intros k r r' Hk Hw; pose proof (sum_list_with_insert refresher_weight _ k r r' Hk); lia).
  destruct a as [ip|i now|i|i|i|i|i|k lk|k|k|k now|k]; cbn [step] in Hstep; [by destruct (Hna ip) |..];
    try (destruct (g_callers g !! i) as [[ip|ip m|ip d|ip m|ip m|ip|ip b]|] eqn:Hi; try done);
    try (destruct (g_refreshers g !! k) as [[| |ans| |d|]|] eqn:Hk; try done; injection Hstep as <-;
         cbn [set_answers set_refresher set_refreshers end_refresh g_callers g_refreshers];
         apply Nat.add_lt_mono_l; eapply Hr; [exact Hk | simpl; lia]).
  - injection Hstep as <-. unfold beginRefresh.
    destruct (match g_expiresAt g with Some _ => _ | None => _ end); [|destruct (g_refreshDone g)]; simpl.
    + apply Nat.add_lt_mono_r. eapply Hc; [exact Hi | simpl; lia].
    + apply Nat.add_lt_mono_r. eapply Hc; [exact Hi | simpl; lia].
    + rewrite sum_list_with_app. simpl.
      pose proof (sum_list_with_insert caller_weight _ i _ (AtSpawn ip (length (g_refreshers g))) Hi) as Hs.
      simpl in Hs. lia.
  - injection Hstep as <-. simpl. apply Nat.add_lt_mono; [eapply Hc; [exact Hi | simpl; lia] |].
    eapply Hr; [by eapply ok_spawn | simpl; lia].
  - injection Hstep as <-. simpl. apply Nat.add_lt_mono_r. eapply Hc; [exact Hi |].
    destruct (permits _ _); [simpl; lia |]. destruct d; simpl; lia.
  - destruct (bool_decide _); [|done]. injection Hstep as <-. simpl. apply Nat.add_lt_mono_r.
    eapply Hc; [exact Hi | simpl; lia].
  - injection Hstep as <-. simpl. apply Nat.add_lt_mono_r. eapply Hc; [exact Hi | simpl; lia].
  - injection Hstep as <-. simpl. apply Nat.add_lt_mono_r. eapply Hc; [exact Hi |].
    destruct (permits _ _); simpl; lia.
  - destruct (g_refreshers g !! k) as [[| |ans| |d|]|] eqn:Hk; try done. injection Hstep as <-.
    destruct d; simpl; (apply Nat.add_lt_mono_l; eapply Hr; [exact Hk | simpl; lia]).
Qed.

(** While some dial has not returned, some goroutine other than a cancelled one can move. *)
Lemma moves_progress ttl g i c :
  guard_ok g → g_callers g !! i = Some c → ¬ returned c →
  ∃ a g', (∀ ip, a ≠ ACall ip) ∧ (∀ j, a ≠ ACancel j) ∧ step ttl a g = Some g'.
Proof.
  intros Hok Hi Hc. destruct c as [ip|ip k|ip d|ip k|ip k|ip|ip b]; try (by destruct Hc).
  - exists (ABegin i 0). cbn [step]. rewrite Hi. eexists. by split_and!.
  - exists (ASpawn i). cbn [step]. rewrite Hi. eexists. by split_and!.
  - exists (AFirst i). cbn [step]. rewrite Hi. eexists. by split_and!.
  - destruct (ok_holds _ Hok i _ k Hi eq_refl) as [r Hk].
    destruct r as [| |ans| |d|].
    + destruct (ok_spawner _ Hok k Hk) as (j & ip' & Hj). exists (ASpawn j). cbn [step]. rewrite Hj. eexists. by split_and!.
    + exists (ALookup k None). cbn [step]. rewrite Hk. eexists. by split_and!.
    + exists (AInstall k). cbn [step]. rewrite Hk. eexists. by split_and!.
    + exists (ADeferred k 0). cbn [step]. rewrite Hk. eexists. by split_and!.
    + exists (AClose k). cbn [step]. rewrite Hk. eexists. by split_and!.
    + exists (AReceive i). cbn [step]. rewrite Hi.
      rewrite bool_decide_eq_true_2 by (by apply (ok_closed _ Hok)). eexists. by split_and!.
  - exists (ASecond i). cbn [step]. rewrite Hi. eexists. by split_and!.
Qed.

(** C33: no dial is left waiting.  From every reachable state, the goroutines that are there cannot run
    for ever, and they can only stop with every dial returned; this needs no dial to be cancelled, only
    that each lookup returns, fails or panics, which its timeout sees to. *)
Theorem dial_guard_dials_return (ttl now : Z) (host : gostring) (lookup : option (list IP))
    (g0 g : h3DialGuard) (acts : list action) :
  newH3DialGuard ttl host lookup now = Some g0 → run ttl acts g0 = Some g →
  Acc (λ t u, moves ttl u t) g ∧
  (∀ t, rtc (moves ttl) g t →
     (∀ a u, (∀ ip, a ≠ ACall ip) → (∀ j, a ≠ ACancel j) → step ttl a t ≠ Some u) →
     Forall returned (g_callers t)).
Proof.
  intros Hnew Hrun. assert (guard_ok g) as Hok by (eapply guard_run_ok; [by eapply new_ok | exact Hrun]).
  clear Hnew Hrun. split.
  - remember (guard_weight g) as n eqn:En. revert g Hok En.
    induction (lt_wf n) as [n _ IH]. intros g Hok ->. constructor. intros t Hgt.
    eapply IH; [by eapply moves_decreases | destruct Hgt as (a & _ & Ha); by eapply guard_step_ok | done].
  - intros t Hgt Hstuck. assert (guard_ok t) as Ht.
    { clear Hstuck. induction Hgt as [|g u t (a & _ & Ha) Hut IH]; [done |]. apply IH. by eapply guard_step_ok. }
    apply Forall_lookup. intros i c Hi.
    assert (returned c ∨ ¬ returned c) as [|Hc] by (destruct c; simpl; auto); [done |].
    destruct (moves_progress ttl t i c Ht Hi Hc) as (a & u & H1 & H2 & H3). by destruct (Hstuck a u).
Qed.

Lemma dial_guard_dials_return_witness : Acc (λ t u, moves 60 u t) moved_mid.
Proof.
  refine (proj1 (dial_guard_dials_return 60 0 (go "iris.test") (Some [old_ip]) demo_guard moved_mid
    moved_start demo_new _)). vm_compute. reflexivity.
Defined.

(** ** The dialer *)

Lemma selectH3DialIPAddr_in first rest addr : selectH3DialIPAddr first rest addr ∈ first :: rest.
Proof.
  unfold selectH3DialIPAddr. destruct (filter _ _) as [|a l] eqn:E; simpl; [left |].
  assert (a ∈ a :: l) as H by left. rewrite <- E in H. by apply list_elem_of_filter in H as [_ H].
Qed.

(** What is dialled was checked.  The QUIC connection is opened to an address of the resolver's
    answer that the guard allowed, and to no other; a failure before that is always "not sent", and a
    refusal by the guard (with an error that is not itself a rate limit) is an egress denial, which the
    retry loop never repeats, with or without an idempotency key. *)
Theorem guarded_dial_checked (env : dialEnv) (addr op url : gostring) (idempotent key : bool) :
  match guardedH3DialContext env addr with
  | Ok udp => de_guard env (udp_IP udp) = None ∧
      ∃ ips, de_ips env = Ok ips ∧ (udp_IP udp, udp_Zone udp) ∈ ips ∧ de_port env = Ok (udp_Port udp)
  | Err e => Is e ErrNotSent = true ∧
      (∀ udp guardErr, de_ctx_before env = None → resolveH3DialUDPAddr env addr = Ok udp →
         de_ctx_after env = None → de_guard env (udp_IP udp) = Some guardErr →
         Is guardErr ErrRateLimited = false →
         Is e ErrH3EgressDenied = true ∧ isRetryableReplyError (ETransport op url (Some e) idempotent) key = false)
  end.
Proof.
  unfold guardedH3DialContext. destruct (de_ctx_before env); [by split |].
  destruct (resolveH3DialUDPAddr env addr) as [udp|e] eqn:Er; cbn [result_map_err result_bind]; [|by split].
  destruct (de_ctx_after env); [by split |].
  destruct (de_guard env (udp_IP udp)) as [ge|] eqn:Eg.
  - split; [done |]. intros u x _ [= <-] _ Hx Hrl. rewrite Eg in Hx. injection Hx as ->. split; [done |].
    unfold isRetryableReplyError, isRetryableError, isRetryableTransportError. destruct (AsStop _); [done |].
    simpl. rewrite Hrl. simpl. by rewrite !andb_false_r.
  - split; [done |]. unfold resolveH3DialUDPAddr in Er.
    destruct (de_split env); [|done]. destruct (de_port env) as [port|]; [|done].
    destruct (de_ips env) as [[|first rest]|]; try done. simpl in Er. exists (first :: rest). split; [done |].
    destruct (selectH3DialIPAddr first rest addr) as [ip zone] eqn:Es. injection Er as <-. simpl.
    split; [|done]. rewrite <- Es. apply selectH3DialIPAddr_in.
Qed.
