(* ===== verification/GuardRefresh.v ===== *)
(** * GuardRefresh: one refresh of the egress guard, start to end (internal/client/transport/h3_dial_guard.go, background.go)

    [refresh] as it is written: a deferred function around the lookup and the critical section that follows it, in a
    goroutine that [safeGo] protects against panics, with what both of them log.  It is shown to be the sequence of
    actions that [DialGuard] interleaves, and what it leaves on each of its branches. *)

From S2P Require Import Prelude GoStrings GoStrconv GoNetip Errors Retry DialGuard.

(** ** Functions that may panic (background.go) *)

(** What [slog] is given: the level's message and the attribute that varies. *)
Inductive logRecord :=
| LogError (event panicType : gostring)
| LogWarn (message host : gostring).

(** A function on a state: the state after it, what it logged, and the type of the value it panicked with, if it did. *)
Definition proc (S : Type) : Type := S → S * list logRecord * option gostring.

(** [fn] with [deferred] deferred: it runs after [fn] in any case, and a panic goes on after it. *)
Definition with_defer {S} (deferred fn : proc S) : proc S := λ s,
  let '(s, log, panicked) := fn s in
  let '(s, log', panicked') := deferred s in
  (s, log ++ log', match panicked' with Some p => Some p | None => panicked end).

Definition runProtected {S} (event : gostring) (fn : proc S) : proc S := λ s,
  let '(s, log, panicked) := fn s in
  match panicked with
  | Some panicType => (s, log ++ [LogError event panicType], None)
  | None => (s, log, None)
  end.

(** A protected function does what it does, and its panic ends there, in the log. *)
Lemma runProtected_contains {S} event (fn : proc S) s :
  (runProtected event fn s).2 = None ∧ (runProtected event fn s).1.1 = (fn s).1.1 ∧
  (runProtected event fn s).1.2 = (fn s).1.2 ++ match (fn s).2 with Some p => [LogError event p] | None => [] end.
Proof. unfold runProtected. destruct (fn s) as [[s' log] [p|]]; cbn; [done |]. by rewrite app_nil_r. Qed.

(** ** The refresh (h3_dial_guard.go) *)

(** What the resolver does: it answers, fails or panics. *)
Inductive lookupOutcome := Answered (ips : list IP) | LookupFailed | LookupPanicked (panicType : gostring).

Section refresh.
Context (ttl : Z) (host : gostring) (k : nat) (now : Z) (outcome : lookupOutcome).

Definition logResolveFailure : logRecord := LogWarn (go "H3 dial guard DNS refresh failed; keeping stale allowset") host.

(** The deferred function: its critical section, then [close]. *)
Definition refresh_deferred : proc h3DialGuard := λ g,
  let done := g_refreshDone g in (close_chan (end_refresh g k (now + ttl)) k done, [], None).

(** The body: [resolve], the critical section, the log. *)
Definition refresh_body : proc h3DialGuard := λ g,
  let ended allowed answers :=
    mkGuard allowed (g_expiresAt g) (g_refreshDone g) (g_closed g) (g_crashed g) (<[k := Deferred]> (g_refreshers g)) (g_callers g) answers in
  match outcome with
  | LookupPanicked panicType => (ended (g_allowed g) (g_answers g), [], Some panicType)
  | LookupFailed => (ended (g_allowed g) (g_answers g), [logResolveFailure], None)
  | Answered ips =>
      match resolve (Some ips) with
      | Some allowed => (ended allowed (g_answers g ++ [ips]), [], None)
      | None => (ended (g_allowed g) (g_answers g), [logResolveFailure], None)
      end
  end.

Definition refresh : proc h3DialGuard := with_defer refresh_deferred refresh_body.

(** The goroutine that [beginRefresh] starts. *)
Definition refresh_goroutine : proc h3DialGuard := runProtected (go "H3 dial guard refresh panicked") refresh.

(** The actions it is made of. *)
Definition refresh_actions : list action :=
  match outcome with
  | LookupPanicked _ => [APanic k]
  | LookupFailed => [ALookup k None; AInstall k]
  | Answered ips => [ALookup k (Some ips); AInstall k]
  end ++ [ADeferred k now; AClose k].

(** Run without a break, the goroutine is its actions. *)
Lemma refresh_is_actions g :
  g_refreshers g !! k = Some Resolving → run ttl refresh_actions g = Some (refresh_goroutine g).1.1.
Proof.
  intros Hk. assert (k < length (g_refreshers g))%nat as Hlt by (by eapply lookup_lt_Some).
  unfold refresh_actions, refresh_goroutine, runProtected, refresh, with_defer, refresh_body, refresh_deferred.
  destruct outcome as [ips| |p].
  2: { cbn -[resolve]. rewrite Hk. cbn -[resolve]. rewrite !list_lookup_insert_eq by (rewrite ?length_insert; done). cbn.
       rewrite !list_lookup_insert_eq by (rewrite ?length_insert; done). cbn. rewrite !list_lookup_insert_eq by (rewrite ?length_insert; done).
       by rewrite !list_insert_insert_eq. }
  - cbn -[resolve]. rewrite Hk. cbn -[resolve accepted]. rewrite !list_lookup_insert_eq by (rewrite ?length_insert; done). cbn -[resolve accepted].
    rewrite !list_lookup_insert_eq by (rewrite ?length_insert; done). cbn -[resolve accepted].
    rewrite !list_lookup_insert_eq by (rewrite ?length_insert; done). rewrite !list_insert_insert_eq.
    unfold accepted. destruct (resolve (Some ips)); by rewrite ?list_insert_insert_eq.
  - cbn. rewrite Hk. cbn. rewrite !list_lookup_insert_eq by (rewrite ?length_insert; done). cbn.
    rewrite !list_lookup_insert_eq by (rewrite ?length_insert; done). by rewrite ?list_insert_insert_eq.
Qed.

(** A refresh ends well on every branch.  Whatever the resolver did, the refresh is over, its channel is closed, once, the
    set has a new lifetime and the next refresh may start; the set in force is that of an answer with addresses, and
    otherwise the one that was in force; an error is logged as a warning and a panic as an error, once, and no panic
    leaves the goroutine. *)
Theorem refresh_ends_well g :
  guard_ok g → g_refreshers g !! k = Some Resolving →
  let '(g', log, panicked) := refresh_goroutine g in
  guard_ok g' ∧ panicked = None ∧ g_refreshers g' !! k = Some Finished ∧ k ∈ g_closed g' ∧ g_crashed g' = false ∧
  g_expiresAt g' = Some (now + ttl) ∧ g_refreshDone g' = None ∧
  match outcome with
  | Answered ips =>
      match resolve (Some ips) with
      | Some allowed => g_allowed g' = allowed ∧ log = []
      | None => g_allowed g' = g_allowed g ∧ log = [logResolveFailure]
      end
  | LookupFailed => g_allowed g' = g_allowed g ∧ log = [logResolveFailure]
  | LookupPanicked p => g_allowed g' = g_allowed g ∧ log = [LogError (go "H3 dial guard refresh panicked") p]
  end.
Proof.
  intros Hok Hk. pose proof (refresh_is_actions g Hk) as Hrun.
  assert (g_refreshDone g = Some k) as Hdone by (apply (ok_done _ Hok); by exists Resolving).
  destruct (refresh_goroutine g) as [[g' log] panicked] eqn:E. apply guard_run_ok in Hrun as Hok'; [|done]. cbn [fst] in Hok'.
  split; [done |]. revert E Hok'. unfold refresh_goroutine, runProtected, refresh, with_defer, refresh_body, refresh_deferred.
  assert (k < length (g_refreshers g))%nat as Hlt by (by eapply lookup_lt_Some).
  destruct outcome as [ips| |p]; [destruct (resolve (Some ips))| |]; cbn; rewrite Hdone; cbn; intros [= <- <- <-] Hok'; pose proof (ok_crashed _ Hok') as Hc;
    cbn in Hc |- *; rewrite list_lookup_insert_eq by (by rewrite !length_insert); split_and!; try done; left.
Qed.
End refresh.
