(* ===== verification/Client.v ===== *)
(** * Client: building a client (internal/client/transport/sdk.go, options.go, transport.go, client.go,
      http3_transport.go, h3_dial_guard.go)

    The client options, the choice of transport, the redirect policy put around every HTTP client, the
    HTTP/3 transport's trust and dial settings, the guard built for a base URL, and [NewClient].  What
    comes from the file system and from x509 is a parameter. *)

From S2P Require Import Prelude GoStrings GoStrconv GoHttp GoNetip GoUrl Hmac NonceStore Errors Retry Execute DialGuard.
From S2P Require Import BaseEndpoint.

(** ** HTTP clients *)

(** A request as a redirect policy sees it. *)
Record hop := mkHop { hop_URL : URL; hop_Header : Header }.

(** [CheckRedirect]: the next request and the requests made so far, oldest first. *)
Abbreviation redirectPolicy := (hop → list hop → option goerror).

Abbreviation dialGuard := (IP → option goerror).

(** The settings of the HTTP/3 transport; [h3_RootCAs] are the certificates of its pool. *)
Record http3Transport := mkHTTP3 {
  h3_MinVersion : Z;
  h3_RootCAs : list gostring;
  h3_ServerName : gostring;
  h3_InitialPacketSize : Z;
  h3_HandshakeIdleTimeout : Z;
  h3_KeepAlivePeriod : Z;
  h3_MaxIdleTimeout : Z;
  h3_Dial : option dialGuard;
}.

(** The settings of the HTTP/1 transport for probes (options.go, transport.go). *)
Record http1Transport := mkHTTP1 {
  h1_ProxyFromEnvironment : bool;
  h1_DialTimeout : Z;
  h1_DialKeepAlive : Z;
  h1_HTTP1Only : bool;
  h1_MaxIdleConns : Z;
  h1_MaxIdleConnsPerHost : Z;
  h1_MaxConnsPerHost : Z;
  h1_IdleConnTimeout : Z;
  h1_TLSHandshakeTimeout : Z;
  h1_ResponseHeaderTimeout : Z;
}.

Definition defaultTLSHandshakeTimeout : Z := 5 * Second.
Definition defaultMaxConnsPerHost : Z := 32.
Definition defaultHTTP1DialTimeout : Z := 3 * Second.
Definition defaultHTTP1HeaderTimeout : Z := 5 * Second.
Definition defaultHTTP1IdleConnTimeout : Z := 90 * Second.
Definition defaultHTTP1MaxIdleConns : Z := 10.
Definition defaultHTTP1MaxIdleConnsPerHost : Z := 10.

Definition newHTTP1Transport : http1Transport :=
  mkHTTP1 true defaultHTTP1DialTimeout (30 * Second) true defaultHTTP1MaxIdleConns defaultHTTP1MaxIdleConnsPerHost
    defaultMaxConnsPerHost defaultHTTP1IdleConnTimeout defaultTLSHandshakeTimeout defaultHTTP1HeaderTimeout.

Inductive roundTripper :=
| CallerTransport (id : nat)
| HTTP1Transport (t : http1Transport)
| HTTP3Transport (t : http3Transport).

Record httpClient := mkHTTPClient {
  hc_Timeout : Z;
  hc_Transport : roundTripper;
  hc_CheckRedirect : option redirectPolicy;
}.

(** ** Options (options.go) *)

Record clientOptions := mkClientOptions {
  co_Transport : gostring;
  co_Timeout : Z;
  co_HTTPClient : option httpClient;
  co_Metrics : bool;                    (** metrics other than the no-op ones *)
  co_ReplyRetryMax : Z;
  co_h3ServerName : gostring;
  co_h3CACertFile : gostring;
  co_h3DialGuard : option dialGuard;
  co_baseURL : gostring;
  co_botToken : gostring;
}.

Inductive ClientOption :=
| WithTransport (transport : gostring)
| WithTimeout (d : Z)
| WithHTTPClient (c : option httpClient)
| WithTransportMetrics (given : bool)
| WithH3ServerName (serverName : gostring)
| WithH3CACertFile (path : gostring)
| WithH3DialGuard (guard : option dialGuard)
| WithReplyRetry (maxAttempts : Z)
| WithBaseURL (url : gostring)
| WithBotToken (token : gostring)
| NilClientOption.

Definition apply_client_option (o : clientOptions) (opt : ClientOption) : clientOptions :=
  let '(mkClientOptions tr ti hc me rr sn ca dg bu bt) := o in
  match opt with
  | WithTransport transport => mkClientOptions transport ti hc me rr sn ca dg bu bt
  | WithTimeout d => mkClientOptions tr d hc me rr sn ca dg bu bt
  | WithHTTPClient (Some c) => mkClientOptions tr ti (Some c) me rr sn ca dg bu bt
  | WithHTTPClient None => o
  | WithTransportMetrics given => if given then mkClientOptions tr ti hc true rr sn ca dg bu bt else o
  | WithH3ServerName serverName => mkClientOptions tr ti hc me rr (TrimSpace serverName) ca dg bu bt
  | WithH3CACertFile path => mkClientOptions tr ti hc me rr sn (TrimSpace path) dg bu bt
  | WithH3DialGuard guard => mkClientOptions tr ti hc me rr sn ca guard bu bt
  | WithReplyRetry maxAttempts => mkClientOptions tr ti hc me maxAttempts sn ca dg bu bt
  | WithBaseURL url => mkClientOptions tr ti hc me rr sn ca dg url bt
  | WithBotToken token => mkClientOptions tr ti hc me rr sn ca dg bu token
  | NilClientOption => o
  end.

Definition defaultPositiveDuration (v fallback : Z) : Z := if 0 <? v then v else fallback.

Definition applyClientOptions (opts : list ClientOption) : clientOptions :=
  let '(mkClientOptions tr ti hc me rr sn ca dg bu bt) :=
    foldl apply_client_option (mkClientOptions [] 0 None false 0 [] [] None [] []) opts in
  mkClientOptions tr (defaultPositiveDuration ti (10 * Second)) hc me (if rr <? 0 then 0 else rr) sn ca dg bu bt.

(** ** Transports (transport.go) *)

Definition TransportH3 : gostring := go "h3".
Definition TransportHTTP1 : gostring := go "http1".

Inductive clientError :=
| BaseURLRequired | BotTokenRequired | InvalidEndpoint (e : endpointError) | UnsupportedTransport | ProbeOnlyTransport
| H3RequiresHTTPS | MissingH3CACertFile | EmptyH3CACertFile | ReadCACertFile | NoPEMCertificate
| GuardRequiresHTTPS | GuardUnresolved.

Definition ParseTransport (value : gostring) : result clientError gostring :=
  let t := ToLower (TrimSpace value) in
  if seqb t TransportH3 || seqb t TransportHTTP1 then Ok t else Err UnsupportedTransport.

Definition resolveTransport (explicit : gostring) : result clientError gostring :=
  if is_empty (TrimSpace explicit) then Ok TransportH3 else ParseTransport explicit.

Definition hasIrisSigningHeaders (header : Header) : bool :=
  existsb (λ name, negb (is_empty (Header_Get header name)))
    [HeaderIrisTimestamp; HeaderIrisNonce; HeaderIrisSignature; HeaderIrisBodySHA256].

(** The policy [cloneHTTPClientWithRedirectPolicy] installs. *)
Definition redirect_policy (callerPolicy : option redirectPolicy) : redirectPolicy := λ req via,
  match via with
  | first :: _ =>
      if hasIrisSigningHeaders (hop_Header first) || HasSuffix (u_Path (hop_URL first)) authEpochPath
      then Some (EOther (go "iris: refusing redirect of signed request"))
      else match callerPolicy with
           | Some policy => policy req via
           | None => if (10 <=? length via)%nat then Some (EOther (go "iris: stopped after redirects")) else None
           end
  | [] => match callerPolicy with Some policy => policy req via | None => None end
  end.

Definition cloneHTTPClientWithRedirectPolicy (source : httpClient) : httpClient :=
  mkHTTPClient (hc_Timeout source) (hc_Transport source) (Some (redirect_policy (hc_CheckRedirect source))).

(** [net.IP.IsLoopback]. *)
Definition IsLoopback (ip : IP) : bool :=
  match To4 ip with
  | Some (b :: _) => beq b x7f
  | Some [] => false
  | None => seqb ip (repeat x00 15 ++ [x01])
  end.

Definition isLoopbackHost (host : gostring) : bool :=
  if EqualFold host (go "localhost") then true
  else match ParseIP host with Some ip => IsLoopback ip | None => false end.

(** ** HTTP/3 (http3_transport.go) *)

Definition VersionTLS13 : Z := 772.
Definition h3InitialPacketSize : Z := 1200.
Definition h3KeepAlivePeriod : Z := 10 * Second.
Definition h3MaxIdleTimeout : Z := 60 * Second.
Definition h3HandshakeIdleTimeout : Z := 10 * Second.

Section construct.
(** [os.ReadFile], and the certificates x509 finds in a PEM text. *)
Context (ReadFile : gostring → option gostring) (certs_of_pem : gostring → list gostring).

Definition newHTTP3TransportFromCA (opts : clientOptions) (pemBytes : gostring) : result clientError http3Transport :=
  if is_empty pemBytes then Err EmptyH3CACertFile
  else
    let pool := certs_of_pem pemBytes in
    if is_empty pool then Err NoPEMCertificate
    else Ok (mkHTTP3 VersionTLS13 pool (co_h3ServerName opts) h3InitialPacketSize h3HandshakeIdleTimeout
               h3KeepAlivePeriod h3MaxIdleTimeout (co_h3DialGuard opts)).

Definition newHTTP3Transport (opts : clientOptions) : result clientError http3Transport :=
  if is_empty (co_h3CACertFile opts) then Err MissingH3CACertFile
  else match ReadFile (co_h3CACertFile opts) with
       | None => Err ReadCACertFile
       | Some pemBytes => newHTTP3TransportFromCA opts pemBytes
       end.

(** [selectTransport]: the transport and whether it has a closer. *)
Definition selectTransport (baseURL : URL) (transport : gostring) (opts : clientOptions)
  : result clientError (roundTripper * bool) :=
  if seqb transport TransportHTTP1 then
    if negb (isLoopbackHost (Hostname baseURL)) then Err ProbeOnlyTransport else Ok (HTTP1Transport newHTTP1Transport, false)
  else if seqb transport TransportH3 then
    if negb (seqb (u_Scheme baseURL) (go "https")) then Err H3RequiresHTTPS
    else let? rt := newHTTP3Transport opts in Ok (HTTP3Transport rt, true)
  else Err UnsupportedTransport.

Definition newHTTPClientWithCloser (baseURL : URL) (transport : gostring) (opts : clientOptions)
  : result clientError (httpClient * bool) :=
  let? r := selectTransport baseURL transport opts in
  Ok (cloneHTTPClientWithRedirectPolicy (mkHTTPClient (co_Timeout opts) r.1 None), r.2).

(** ** The client (client.go, sdk.go) *)

Definition newBotControlSigner (botToken : gostring) : option gostring :=
  let secret := TrimSpace botToken in if is_empty secret then None else Some secret.

Record APIClient := mkAPIClient {
  ac_baseURL : gostring;
  ac_signer : option gostring;
  ac_client : httpClient;
  ac_opts : clientOptions;
  ac_http1ProbeOnly : bool;
  ac_transportCloser : bool;
}.

Definition newAPIClient (baseURL botToken : gostring) (o : clientOptions) : result clientError APIClient :=
  let? endpoint := result_map_err InvalidEndpoint (Parse baseURL) in
  let? transport := resolveTransport (co_Transport o) in
  let base := URL_String endpoint in
  let signer := newBotControlSigner botToken in
  match co_HTTPClient o with
  | Some c => Ok (mkAPIClient base signer (cloneHTTPClientWithRedirectPolicy c) o false false)
  | None =>
      let? r := newHTTPClientWithCloser endpoint transport o in
      Ok (mkAPIClient base signer r.1 o (seqb transport TransportHTTP1) r.2)
  end.

Definition NewClient (opts : list ClientOption) : result clientError APIClient :=
  let o := applyClientOptions opts in
  let baseURL := TrimSpace (co_baseURL o) in
  if is_empty baseURL then Err BaseURLRequired
  else
    let botToken := TrimSpace (co_botToken o) in
    if is_empty botToken then Err BotTokenRequired else newAPIClient baseURL botToken o.

End construct.

(** [Close] under [closeMu]: what it returns, the client after it, and whether the transport was closed. *)
Definition Close (c : APIClient) (closeErr : option goerror) : option goerror * APIClient * bool :=
  if negb (ac_transportCloser c) then (None, c, false)
  else ((λ e, EWrap [e]) <$> closeErr,
        mkAPIClient (ac_baseURL c) (ac_signer c) (ac_client c) (ac_opts c) (ac_http1ProbeOnly c) false, true).

(** ** The guard for a base URL (h3_dial_guard.go) *)

Record h3DialGuardOptions := mkGuardOptions { go_ttl : Z; go_resolveTimeout : Z }.

Inductive H3DialGuardOption :=
| WithH3DialGuardTTL (ttl : Z)
| WithH3DialGuardResolveTimeout (timeout : Z)
| WithH3DialGuardLogger
| NilGuardOption.

Definition apply_guard_option (o : h3DialGuardOptions) (opt : H3DialGuardOption) : h3DialGuardOptions :=
  match opt with
  | WithH3DialGuardTTL ttl => if 0 <? ttl then mkGuardOptions ttl (go_resolveTimeout o) else o
  | WithH3DialGuardResolveTimeout timeout => if 0 <? timeout then mkGuardOptions (go_ttl o) timeout else o
  | WithH3DialGuardLogger | NilGuardOption => o
  end.

Definition Minute : Z := 60 * Second.
Definition defaultH3DialGuardTTL : Z := Minute.
Definition defaultH3DialGuardResolveTimeout : Z := 5 * Second.

Definition applyH3DialGuardOptions (opts : list H3DialGuardOption) : h3DialGuardOptions :=
  foldl apply_guard_option (mkGuardOptions defaultH3DialGuardTTL defaultH3DialGuardResolveTimeout) opts.

Definition parseH3DialGuardHost (baseURL : gostring) : result clientError gostring :=
  let? parsed := result_map_err InvalidEndpoint (Parse baseURL) in
  if negb (seqb (u_Scheme parsed) (go "https")) then Err GuardRequiresHTTPS else Ok (Hostname parsed).

(** [lookupIP timeout host] is the answer of the resolver, [now] the clock after it. *)
Definition newH3DialGuardForBaseURL (baseURL : gostring) (lookupIP : Z → gostring → option (list IP)) (now : Z)
  (opts : list H3DialGuardOption) : result clientError (Z * h3DialGuard) :=
  let? host := parseH3DialGuardHost baseURL in
  let cfg := applyH3DialGuardOptions opts in
  match newH3DialGuard (go_ttl cfg) host (lookupIP (go_resolveTimeout cfg) host) now with
  | None => Err GuardUnresolved
  | Some guard => Ok (go_ttl cfg, guard)
  end.

(** ** What a client can be *)

Lemma applyClientOptions_bounds opts :
  0 < co_Timeout (applyClientOptions opts) ∧ 0 ≤ co_ReplyRetryMax (applyClientOptions opts).
Proof.
  unfold applyClientOptions. destruct (foldl _ _ _) as [tr ti hc me rr sn ca dg bu bt]. cbn [co_Timeout co_ReplyRetryMax].
  unfold defaultPositiveDuration. destruct (0 <? ti) eqn:E1, (rr <? 0) eqn:E2; bool_props; (split; [|lia]); [lia | lia | by vm_compute | by vm_compute].
Qed.

(** The HTTP/3 transport that trusts the certificates of the given file and nothing else. *)
Definition pinned_h3 (o : clientOptions) (roots : list gostring) : http3Transport :=
  mkHTTP3 VersionTLS13 roots (co_h3ServerName o) h3InitialPacketSize h3HandshakeIdleTimeout h3KeepAlivePeriod
    h3MaxIdleTimeout (co_h3DialGuard o).

(** The transport a client may use for an endpoint. *)
Definition transport_ok (ReadFile : gostring → option gostring) (certs_of_pem : gostring → list gostring) (u : URL)
  (c : APIClient) : Prop :=
  let o := ac_opts c in
  match co_HTTPClient o with
  | Some h =>
      ac_http1ProbeOnly c = false ∧ ac_transportCloser c = false ∧ hc_Transport (ac_client c) = hc_Transport h
  | None =>
      (ac_http1ProbeOnly c = true ∧ isLoopbackHost (Hostname u) = true ∧ hc_Transport (ac_client c) = HTTP1Transport newHTTP1Transport) ∨
      (ac_http1ProbeOnly c = false ∧ u_Scheme u = go "https" ∧ ac_transportCloser c = true ∧
       ∃ pem, ReadFile (co_h3CACertFile o) = Some pem ∧ pem ≠ [] ∧ certs_of_pem pem ≠ [] ∧
         hc_Transport (ac_client c) = HTTP3Transport (pinned_h3 o (certs_of_pem pem)))
  end.

Lemma http3_pinned ReadFile certs_of_pem o t :
  newHTTP3Transport ReadFile certs_of_pem o = Ok t →
  ∃ pem, ReadFile (co_h3CACertFile o) = Some pem ∧ pem ≠ [] ∧ certs_of_pem pem ≠ [] ∧ t = pinned_h3 o (certs_of_pem pem).
Proof.
  unfold newHTTP3Transport, newHTTP3TransportFromCA. destruct (is_empty (co_h3CACertFile o)); [done |].
  destruct (ReadFile _) as [pem|] eqn:E; [|done]. destruct (is_empty pem) eqn:E1; [done |].
  cbv zeta. destruct (is_empty (certs_of_pem pem)) eqn:E2; [done |]. intros [= <-]. bool_props. by exists pem.
Qed.

Lemma newAPIClient_ok ReadFile certs_of_pem base token o c :
  newAPIClient ReadFile certs_of_pem base token o = Ok c →
  ∃ u, Parse base = Ok u ∧ ac_baseURL c = URL_String u ∧ ac_signer c = newBotControlSigner token ∧ ac_opts c = o ∧
    transport_ok ReadFile certs_of_pem u c ∧ ∃ policy, hc_CheckRedirect (ac_client c) = Some (redirect_policy policy).
Proof.
  unfold newAPIClient. cbv zeta. intros H. inv_ok. exists x. unfold transport_ok.
  destruct (co_HTTPClient o) as [h|] eqn:Eh.
  - injection H as <-. cbn. rewrite Eh. split_and!; try done. by eexists.
  - inv_ok. subst c. cbn. rewrite Eh. unfold newHTTPClientWithCloser in *. inv_ok. subst. cbn.
    split_and!; try done; [|by eexists]. unfold selectTransport in *.
    destruct (seqb x0 TransportHTTP1).
    + destruct (isLoopbackHost _); cbn [negb] in *; [|done]. inv_ok. subst. by left.
    + destruct (seqb x0 TransportH3); [|done]. destruct (seqb (u_Scheme x) (go "https")) eqn:Es; cbn [negb] in *; [|done].
      inv_ok. subst. cbn. right. bool_props. split_and!; try done.
      match goal with H : newHTTP3Transport _ _ _ = Ok _ |- _ => destruct (http3_pinned _ _ _ _ H) as (pem & ? & ? & ? & ->) end.
      by exists pem.
Qed.

(** C27: a client is built fail closed.  If [NewClient] returns a client, its base URL was accepted, it has a
    non-empty secret to sign with, a positive timeout and a retry limit that is not negative; its HTTP client
    is the caller's, or the HTTP/1 probe transport, and then the host is a loopback host and the client is
    limited to probes, or an HTTP/3 transport for an https endpoint, with TLS 1.3 as minimum, the certificates
    of the configured file as its only roots and the configured dial guard; in each case the SDK's redirect
    policy is installed. *)
Theorem client_fail_closed (ReadFile : gostring → option gostring) (certs_of_pem : gostring → list gostring)
    (opts : list ClientOption) (c : APIClient) :
  NewClient ReadFile certs_of_pem opts = Ok c →
  let o := applyClientOptions opts in
  ac_opts c = o ∧ 0 < co_Timeout o ∧ 0 ≤ co_ReplyRetryMax o ∧
  ac_signer c = Some (TrimSpace (co_botToken o)) ∧ TrimSpace (co_botToken o) ≠ [] ∧
  ∃ u, Parse (co_baseURL o) = Ok u ∧ ac_baseURL c = URL_String u ∧ transport_ok ReadFile certs_of_pem u c ∧
    ∃ policy, hc_CheckRedirect (ac_client c) = Some (redirect_policy policy).
Proof.
  unfold NewClient. cbv zeta. set (o := applyClientOptions opts). destruct (is_empty (TrimSpace (co_baseURL o))); [done |].
  destruct (is_empty (TrimSpace (co_botToken o))) eqn:Et; [done |]. intros H.
  apply newAPIClient_ok in H as (u & Hu & Hb & Hs & Ho & Ht & Hp). pose proof (applyClientOptions_bounds opts) as [? ?].
  unfold newBotControlSigner in Hs. cbv zeta in Hs. rewrite TrimSpace_idem, Et in Hs. bool_props.
  split_and!; try done. exists u. split; [|done]. unfold Parse in Hu |- *. by rewrite TrimSpace_idem in Hu.
Qed.

Definition demo_options : list ClientOption :=
  [WithBaseURL (go "https://iris.example/"); WithBotToken (go " tok "); WithH3CACertFile (go "ca.pem"); WithReplyRetry (-3)].
Definition demo_read (path : gostring) : option gostring := if seqb path (go "ca.pem") then Some (go "PEM") else None.
Definition demo_certs (pem : gostring) : list gostring := [pem].
Definition demo_client : APIClient :=
  match NewClient demo_read demo_certs demo_options with
  | Ok c => c
  | Err _ => mkAPIClient [] None (mkHTTPClient 0 (HTTP1Transport newHTTP1Transport) None) (applyClientOptions []) false false
  end.

Lemma demo_client_built : NewClient demo_read demo_certs demo_options = Ok demo_client.
Proof.
  assert (is_ok (NewClient demo_read demo_certs demo_options) = true) as H by (vm_compute; reflexivity).
  unfold demo_client. by destruct (NewClient demo_read demo_certs demo_options).
Qed.

Lemma client_fail_closed_witness : ac_signer demo_client = Some (go "tok") ∧ ac_baseURL demo_client = go "https://iris.example".
Proof.
  destruct (client_fail_closed demo_read demo_certs demo_options demo_client) as (_ & _ & _ & Hs & _).
  - apply demo_client_built.
  - split; [rewrite Hs; vm_compute; reflexivity | vm_compute; reflexivity].
Defined.

(** ** Redirects *)

(** The requests [http.Client.Do] makes: after each answer that redirects, the policy is asked. *)
Inductive chain (policy : redirectPolicy) (server : list hop → option hop) (first : hop) : list hop → Prop :=
| chain_first : chain policy server first [first]
| chain_next via next :
    chain policy server first via → server via = Some next → policy next via = None →
    chain policy server first (via ++ [next]).

Lemma chain_head policy server first l : chain policy server first l → ∃ r, l = first :: r.
Proof. induction 1 as [|via next _ (r & ->) _ _]; [by exists [] |]. by exists (r ++ [next]). Qed.

Lemma chain_guarded callerPolicy server first l :
  chain (redirect_policy callerPolicy) server first l →
  (hasIrisSigningHeaders (hop_Header first) || HasSuffix (u_Path (hop_URL first)) authEpochPath = true → l = [first]) ∧
  (callerPolicy = None → (length l ≤ 10)%nat).
Proof.
  induction 1 as [|via next Hc [IH1 IH2] Hs Hp]; [by split; [|simpl; lia] |].
  destruct (chain_head _ _ _ _ Hc) as [r ->]. unfold redirect_policy in Hp.
  destruct (hasIrisSigningHeaders (hop_Header first) || _) eqn:E; [done |]. split; [done |]. intros ->.
  destruct (10 <=? length (first :: r))%nat eqn:El; [done |]. apply Nat.leb_gt in El. rewrite length_app. simpl in *. lia.
Qed.

Lemma Header_Get_set_headers h l k v :
  NoDup l.*1 → (k, v) ∈ l → Header_Get (set_headers h l) k = v.
Proof.
  unfold set_headers. revert h. induction l as [|[k' v'] l IH] using rev_ind; intros h Hnd Hin; [by apply not_elem_of_nil in Hin |].
  rewrite fold_left_app. cbn [fold_left fst snd]. rewrite fmap_app in Hnd. apply NoDup_app in Hnd as (Hl & Hd & _).
  apply elem_of_app in Hin as [Hin|Hin].
  - assert (k ≠ k') as Hne.
    { intros ->. apply (Hd k'); [|by left]. apply list_elem_of_fmap. by exists (k', v). }
    specialize (IH h Hl Hin). unfold Header_Get in *. by rewrite Header_Values_Set_ne.
  - apply list_elem_of_singleton in Hin as [= -> ->]. by apply Header_Get_Values, Header_Values_Set_eq.
Qed.

Lemma signing_names_nodup : NoDup [HeaderIrisTimestamp; HeaderIrisNonce; HeaderIrisSignature; HeaderIrisBodySHA256].
Proof. refine (bool_decide_unpack _ _). vm_compute. exact I. Qed.

Lemma signed_has_headers key probe url_ok ParseTime now random ctx_err net s req sha s' q :
  signRequest (Some key) probe url_ok ParseTime now random ctx_err net s req sha = (Ok q, s') →
  hasIrisSigningHeaders (wq_Header q) = true.
Proof.
  unfold signRequest. destruct (authEpoch _ _ _ _ _ _ s) as [[e|err] s0]; [|done]. intros [= H _].
  destruct (SetIrisHMACHeaders _ _ _ _ _ _ _) as [l|] eqn:El; [|done]. injection H as <-. cbn [with_header wq_Header].
  unfold SetIrisHMACHeaders in El. inv_ok.
  assert (NoDup l.*1 ∧ ∃ v, (HeaderIrisNonce, v) ∈ l ∧ v ≠ []) as (Hnd & v & Hin & Hv).
  { subst l. split; [exact signing_names_nodup |].
    eexists. split; [by right; left |]. unfold GenerateNonce. cbv zeta. intros Hnil.
    apply app_eq_nil in Hnil as [_ Hnil]. by apply app_eq_nil in Hnil as [_ Hnil]. }
  unfold hasIrisSigningHeaders. apply existsb_exists. exists HeaderIrisNonce. split; [by right; left |].
  rewrite (Header_Get_set_headers _ _ _ _ Hnd Hin). by apply negb_true_iff, is_empty_false.
Qed.

(** C28: a signed request is never redirected.  Through a client that [NewClient] returned, whatever the server
    answers and whatever policy the caller's own HTTP client has, a request signed with the client's secret is
    made once, and so is the discovery of the epoch; and when the caller has no policy, any other request leads
    to at most ten in all. *)
Theorem signed_never_redirected (ReadFile : gostring → option gostring) (certs_of_pem : gostring → list gostring)
    (opts : list ClientOption) (c : APIClient) (key : gostring) (url_ok : gostring → bool)
    (ParseTime : gostring → option Z) (now : nat → Z) (random : nat → gostring) (ctx_err : nat → option goerror)
    (net : nat → wireRequest → result goerror response) (s s' : cstate) (req q : wireRequest) (sha : gostring)
    (policy : redirectPolicy) (server : list hop → option hop) (u v : URL) (h : Header) (l l' l'' : list hop) :
  NewClient ReadFile certs_of_pem opts = Ok c → hc_CheckRedirect (ac_client c) = Some policy →
  signRequest (ac_signer c) (ac_http1ProbeOnly c) url_ok ParseTime now random ctx_err net s req sha = (Ok q, s') →
  chain policy server (mkHop u (wq_Header q)) l →
  HasSuffix (u_Path v) authEpochPath = true → chain policy server (mkHop v h) l' →
  chain policy server (mkHop u h) l'' →
  length l = 1%nat ∧ length l' = 1%nat ∧
  (match co_HTTPClient (ac_opts c) with Some hc => hc_CheckRedirect hc = None | None => True end → (length l'' ≤ 10)%nat).
Proof.
  intros Hc Hpol Hsign Hl Hep Hl' Hl''.
  unfold NewClient in Hc. cbv zeta in Hc. set (o := applyClientOptions opts) in *.
  destruct (is_empty (TrimSpace (co_baseURL o))); [done |]. destruct (is_empty (TrimSpace (co_botToken o))) eqn:Et; [done |].
  assert (ac_signer c = Some (TrimSpace (co_botToken o))) as Hs.
  { apply newAPIClient_ok in Hc as (? & _ & _ & Hs & _). unfold newBotControlSigner in Hs. cbv zeta in Hs.
    by rewrite TrimSpace_idem, Et in Hs. }
  rewrite Hs in Hsign. apply signed_has_headers in Hsign.
  assert (policy = redirect_policy (match co_HTTPClient (ac_opts c) with Some hc => hc_CheckRedirect hc | None => None end)) as ->.
  { unfold newAPIClient in Hc. cbv zeta in Hc. inv_ok. destruct (co_HTTPClient o) as [hc|] eqn:Eh.
    - injection Hc as <-. cbn in *. rewrite Eh. by injection Hpol as <-.
    - inv_ok. subst c. cbn in *. rewrite Eh. unfold newHTTPClientWithCloser in *. inv_ok. subst. cbn in Hpol.
      by injection Hpol as <-. }
  apply chain_guarded in Hl as [Hl _], Hl' as [Hl' _], Hl'' as [_ Hl''].
  rewrite Hl by (cbn [hop_Header]; by rewrite Hsign). rewrite Hl' by (cbn [hop_URL]; by rewrite Hep, orb_true_r).
  split_and!; [done | done |]. intros H. apply Hl''. by destruct (co_HTTPClient (ac_opts c)).
Qed.

Definition demo_signed : result goerror wireRequest * cstate :=
  signRequest (ac_signer demo_client) (ac_http1ProbeOnly demo_client) (λ _, true) (λ _, None) (λ _, 500)
    (λ _, repeat x07 32) (λ _, None) lost_discovery (mkCState demo_epoch []) (mkWire MethodGet (go "/rooms") ∅ None None)
    EmptyBodySHA256Hex.
Definition demo_signed_request : wireRequest :=
  match demo_signed.1 with Ok q => q | Err _ => mkWire [] [] ∅ None None end.
Definition demo_policy : redirectPolicy := default (λ _ _, None) (hc_CheckRedirect (ac_client demo_client)).

(** A server that redirects every request to the base URL. *)
Definition redirecting (_ : list hop) : option hop := Some (mkHop demo_endpoint ∅).

Lemma signed_never_redirected_witness :
  hasIrisSigningHeaders (wq_Header demo_signed_request) = true ∧
  length [mkHop demo_endpoint (wq_Header demo_signed_request)] = 1%nat ∧ (length [mkHop demo_endpoint ∅; mkHop demo_endpoint ∅] ≤ 10)%nat.
Proof.
  split; [vm_compute; reflexivity |].
  set (v := mkURL [] [] None [] authEpochPath [] false false [] []).
  destruct (signed_never_redirected demo_read demo_certs demo_options demo_client (go "tok") (λ _, true) (λ _, None)
    (λ _, 500) (λ _, repeat x07 32) (λ _, None) lost_discovery (mkCState demo_epoch []) demo_signed.2
    (mkWire MethodGet (go "/rooms") ∅ None None) demo_signed_request EmptyBodySHA256Hex demo_policy redirecting
    demo_endpoint v ∅ [mkHop demo_endpoint (wq_Header demo_signed_request)] [mkHop v ∅] [mkHop demo_endpoint ∅; mkHop demo_endpoint ∅]
    demo_client_built ltac:(reflexivity) ltac:(vm_compute; reflexivity) (chain_first _ _ _)
    ltac:(vm_compute; reflexivity) (chain_first _ _ _)) as (H1 & _ & H3).
  - apply (chain_next _ _ _ [mkHop demo_endpoint ∅]); [apply chain_first | reflexivity | vm_compute; reflexivity].
  - split; [exact H1 | apply H3; vm_compute; exact I].
Defined.

(** ** Probe-only clients *)

(** A client on the HTTP/1 probe transport never signs and never sends anything but a probe: building any
    signed request fails and nothing goes on the wire, not even the discovery of the epoch, and an unsigned request
    is built only for the two probe routes. *)
Theorem probe_client_sends_probes_only (key : gostring) (url_ok : gostring → bool) (ParseTime : gostring → option Z)
    (now : nat → Z) (random : nat → gostring) (ctx_err : nat → option goerror)
    (net : nat → wireRequest → result goerror response) (s : cstate) (method path sha : gostring) (body : option gostring) :
  cs_epoch s = [] →
  (∃ e, newSignedStreamRequest (Some key) true url_ok ParseTime now random ctx_err net s method path body sha = (Err e, s)) ∧
  (∀ req, newRequest true url_ok method path body = Ok req →
     wq_Method req = MethodGet ∧ (wq_Path req = PathHealth ∨ wq_Path req = PathReady) ∧ wq_Header req = ∅).
Proof.
  intros He. split.
  - unfold newSignedStreamRequest. destruct (newRequest true url_ok method path body) as [req|e]; [|by eexists].
    unfold signRequest, authEpoch. destruct (ctx_err _); [by eexists |]. rewrite He. cbn [is_empty negb].
    unfold fetchAuthEpoch, newRequest. change (true && negb (isHTTP1ProbeRoute MethodGet authEpochPath)) with true.
    cbv iota. by eexists.
  - intros req. unfold newRequest. cbn [andb]. destruct (isHTTP1ProbeRoute method path) eqn:E; cbn [negb]; [|done].
    destruct (url_ok path); [|done]. intros [= <-]. cbn. unfold isHTTP1ProbeRoute in E. bool_props.
    apply orb_true_iff in H0 as [H0|H0]; apply seqb_true in H0; auto.
Qed.

Lemma probe_client_sends_probes_only_witness :
  ∃ e, newSignedStreamRequest (Some (go "tok")) true (λ _, true) (λ _, None) (λ _, 500) (λ _, []) (λ _, None) lost_discovery
    (mkCState [] []) MethodPost PathReply None EmptyBodySHA256Hex = (Err e, mkCState [] []).
Proof.
  exact (proj1 (probe_client_sends_probes_only (go "tok") (λ _, true) (λ _, None) (λ _, 500) (λ _, []) (λ _, None)
    lost_discovery (mkCState [] []) MethodPost PathReply EmptyBodySHA256Hex None eq_refl)).
Defined.

(** ** The guard of a base URL *)

Lemma guard_options_bounds opts : 0 < go_ttl (applyH3DialGuardOptions opts) ∧ 0 < go_resolveTimeout (applyH3DialGuardOptions opts).
Proof.
  unfold applyH3DialGuardOptions.
  assert (∀ o, 0 < go_ttl o ∧ 0 < go_resolveTimeout o →
    0 < go_ttl (foldl apply_guard_option o opts) ∧ 0 < go_resolveTimeout (foldl apply_guard_option o opts)) as H.
  { induction opts as [|opt opts IH]; intros o Ho; [done |]. apply IH. destruct opt; cbn; try done.
    - destruct (0 <? ttl) eqn:E; [|done]. bool_props. destruct Ho. by split.
    - destruct (0 <? timeout) eqn:E; [|done]. bool_props. destruct Ho. by split. }
  apply H. by vm_compute.
Qed.

(** C30: egress is confined to the addresses of the configured host.  A guard exists only for an accepted https base
    URL, and only if its host is a literal address or the resolver gave an answer with an address for it.  In every
    interleaving of dials and refreshes after that, whatever the resolver answers, however often it fails or panics, a
    dial that was allowed goes to an address which, in its sixteen byte form, is the literal of the base URL, or was in
    the answer for the host of the base URL with which the guard was built, or in the answer of a refresh; the set in
    force is never empty, and its lifetime is positive. *)
Theorem dial_guard_sound (baseURL : gostring) (lookupIP : Z → gostring → option (list IP)) (now ttl : Z)
    (opts : list H3DialGuardOption) (g0 g : h3DialGuard) (acts : list action) :
  newH3DialGuardForBaseURL baseURL lookupIP now opts = Ok (ttl, g0) → run ttl acts g0 = Some g →
  0 < ttl ∧ g_allowed g ≠ ∅ ∧
  ∃ u, Parse baseURL = Ok u ∧ u_Scheme u = go "https" ∧
  ∀ i ip, g_callers g !! i = Some (Allowed ip) →
    ∃ ip', To16 ip = To16 ip' ∧ is_Some (To16 ip) ∧
      (ParseIP (Hostname u) = Some ip' ∨
       (∃ ips timeout, ip' ∈ ips ∧ (lookupIP timeout (Hostname u) = Some ips ∨ ∃ k, ALookup k (Some ips) ∈ acts))).
Proof.
  unfold newH3DialGuardForBaseURL, parseH3DialGuardHost. intros H Hrun. inv_ok.
  destruct (seqb (u_Scheme x0) (go "https")) eqn:Es; cbn [negb] in *; [|done]. inv_ok. subst x. bool_props.
  pose proof (guard_options_bounds opts) as [Httl _]. set (cfg := applyH3DialGuardOptions opts) in *. cbv zeta in H.
  destruct (newH3DialGuard _ _ _ _) as [gg|] eqn:Eg; [|done]. injection H as <- <-.
  destruct (guard_sound _ _ _ _ _ _ _ Eg Hrun) as [Hne Hall]. split_and!; [done | done |].
  exists x0. split_and!; try done. intros i ip Hi. destruct (Hall i ip Hi) as (ip' & H1 & H2 & H3).
  exists ip'. split_and!; [done | done |]. destruct H3 as [H3|(ips & Hin & H3)]; [by left |].
  right. exists ips, (go_resolveTimeout cfg). split; [done |]. destruct H3; auto.
Qed.

Definition demo_lookup (timeout : Z) (host : gostring) : option (list IP) :=
  if seqb host (go "iris.example") then Some [old_ip] else None.
Definition demo_built : h3DialGuard :=
  match newH3DialGuardForBaseURL (go "https://iris.example:8443") demo_lookup 0 [WithH3DialGuardTTL (-1)] with
  | Ok (_, g) => g | Err _ => demo_guard end.
Definition demo_moved : h3DialGuard :=
  default demo_built (run Minute [ACall old_ip; ABegin 0 1; AFirst 0] demo_built).

Lemma dial_guard_sound_witness : 0 < Minute ∧ g_allowed demo_moved ≠ ∅ ∧ g_callers demo_moved = [Allowed old_ip].
Proof.
  destruct (dial_guard_sound (go "https://iris.example:8443") demo_lookup 0 Minute [WithH3DialGuardTTL (-1)] demo_built
    demo_moved [ACall old_ip; ABegin 0 1; AFirst 0]) as (Ht & Hne & _).
  - vm_compute. reflexivity.
  - vm_compute. reflexivity.
  - split; [exact Ht |]. split; [exact Hne | vm_compute; reflexivity].
Defined.
