(* ===== verification/GuardClock.v ===== *)
(** * GuardClock: the egress guard against the clock (internal/client/transport/h3_dial_guard.go)

    The goroutines of [DialGuard] with one clock.  A lookup runs under a context with the guard's own timeout, detached
    from the dial that started it ([context.WithoutCancel]), and the resolver is only assumed to return when that context
    is over; what the goroutines compute between two blocking operations takes no time here, so that the clock moves on
    only when every dial has returned or waits for a refresh, and every refresh has ended or waits for the resolver. *)

From S2P Require Import Prelude GoStrings GoStrconv GoNetip NonceStore Errors Retry DialGuard Client.

Section clock.
Context (ttl resolveTimeout : Z).

(** When each dial entered [allow], and when the context of each lookup is over. *)
Record timed_guard := mkTimedGuard {
  tg_guard : h3DialGuard;
  tg_now : Z;
  tg_entered : list Z;
  tg_deadline : gmap nat Z;
}.

(** What an action reads from the clock. *)
Definition reads_clock (a : action) (now : Z) : Prop :=
  match a with ABegin _ t | ADeferred _ t => t = now | _ => True end.

Definition enters (a : action) (now : Z) (entered : list Z) : list Z :=
  match a with ACall _ => entered ++ [now] | _ => entered end.

(** [context.WithTimeout] of [resolve], in the goroutine that was just started. *)
Definition starts_lookup (a : action) (g : h3DialGuard) (now : Z) (deadline : gmap nat Z) : gmap nat Z :=
  match a with
  | ASpawn i => match g_callers g !! i with Some (AtSpawn _ k) => <[k := now + resolveTimeout]> deadline | _ => deadline end
  | _ => deadline
  end.

(** Goroutines that block. *)
Definition blocked_caller (g : h3DialGuard) (c : caller) : Prop :=
  returned c ∨ ∃ ip k, c = AtWait ip k ∧ k ∉ g_closed g.
Definition blocked_refresher (r : refresher) : Prop := r = Resolving ∨ r = Finished.

Inductive clock_step : option action → timed_guard → timed_guard → Prop :=
| tg_act a g g' now entered deadline :
    step ttl a g = Some g' → reads_clock a now →
    clock_step (Some a) (mkTimedGuard g now entered deadline)
      (mkTimedGuard g' now (enters a now entered) (starts_lookup a g now deadline))
| tg_tick g now now' entered deadline :
    Forall (blocked_caller g) (g_callers g) → Forall blocked_refresher (g_refreshers g) → now ≤ now' →
    (∀ k d, g_refreshers g !! k = Some Resolving → deadline !! k = Some d → now' ≤ d) →
    clock_step None (mkTimedGuard g now entered deadline) (mkTimedGuard g now' entered deadline).

(** A run, with the time of each action. *)
Inductive clock_run : list (Z * action) → timed_guard → timed_guard → Prop :=
| tr_nil x : clock_run [] x x
| tr_act evs a x y z : clock_run evs x y → clock_step (Some a) y z → clock_run (evs ++ [(tg_now y, a)]) x z
| tr_tick evs x y z : clock_run evs x y → clock_step None y z → clock_run evs x z.

(** A guard that was made at time [now]. *)
Definition start_guard (g : h3DialGuard) (now : Z) : timed_guard := mkTimedGuard g now [] ∅.

(** ** The refreshes of a step *)

(** How a step changes when the set expires: not at all, by a first dial after its end, or by the end of a refresh. *)
Inductive expiry_step (now : Z) (g g' : h3DialGuard) : Prop :=
| ex_same : length (g_refreshers g') = length (g_refreshers g) → g_expiresAt g' = g_expiresAt g →
    g_refreshDone g' = g_refreshDone g → expiry_step now g g'
| ex_begin e : g_expiresAt g = Some e → e ≤ now → g_refreshDone g = None → length (g_refreshers g') = S (length (g_refreshers g)) →
    g_expiresAt g' = Some e → g_refreshDone g' ≠ None → expiry_step now g g'
| ex_end k : g_refreshers g !! k = Some Deferred → length (g_refreshers g') = length (g_refreshers g) →
    g_expiresAt g' = Some (now + ttl) → g_allowed g' = g_allowed g → expiry_step now g g'.

Lemma step_expiry a g g' now : step ttl a g = Some g' → reads_clock a now → expiry_step now g g'.
Proof.
  intros Hstep Hnow. destruct a as [ip|i t|i|i|i|i|i|k lk|k|k|k t|k]; cbn [step reads_clock] in *;
    try (destruct (g_callers g !! i) as [[ip|ip m|ip d|ip m|ip m|ip|ip b]|] eqn:Hi; try done);
    try (destruct (g_refreshers g !! k) as [[| |ans| |d|]|] eqn:Hk; try done);
    try (destruct (bool_decide _); [|done]); injection Hstep as <-;
    try (apply ex_same; cbn; rewrite ?length_insert; done).
  - subst t. unfold beginRefresh. destruct (g_expiresAt g) as [e|] eqn:Ee; [|by apply ex_same].
    destruct (now <? e) eqn:El; [by apply ex_same |]. bool_props. destruct (g_refreshDone g) eqn:Ed; [by apply ex_same |].
    apply (ex_begin _ _ _ e); cbn; rewrite ?length_app; try done. cbn. lia.
  - subst t. apply (ex_end _ _ _ k); cbn; [done | by rewrite length_insert | done | done].
  - unfold close_chan. destruct d; apply ex_same; cbn; rewrite ?length_insert; done.
Qed.

(** ** Lookups are rare *)

Context (t0 : Z).

(** Each refresh took a whole life of the set. *)
Record spaced (x : timed_guard) : Prop := {
  sp_now : t0 + Z.of_nat (length (g_refreshers (tg_guard x))) * ttl ≤ tg_now x;
  sp_expires e : g_refreshDone (tg_guard x) = None → g_expiresAt (tg_guard x) = Some e →
    t0 + (Z.of_nat (length (g_refreshers (tg_guard x))) + 1) * ttl ≤ e;
}.

Lemma spaced_step l x y : spaced x → clock_step l x y → spaced y.
Proof.
  intros [Hn He] Hs. destruct Hs as [a g g' now entered deadline Hs Hr|g now now' entered deadline _ _ Hle _]; cbn [tg_guard tg_now] in *.
  - apply step_expiry with (now := now) in Hs; [|done].
    destruct Hs as [Hl Hx Hd|e Hx Hle Hd Hl Hx' Hd'|k _ Hl Hx _]; split; cbn [tg_guard tg_now]; rewrite ?Hl; try done.
    + intros e Hd0 He0. apply He; congruence.
    + specialize (He e Hd Hx). lia.
    + intros e' _ He'. rewrite Hx in He'. injection He' as <-. lia.
  - split; cbn [tg_guard tg_now]; [lia | done].
Qed.

(** ** The dials of a step *)

(** How a dial goes on by a step from [g] to [g'] at time [now]. *)
Inductive advances (now : Z) (g g' : h3DialGuard) : caller → caller → Prop :=
| ad_valid ip : (∀ e, g_expiresAt g = Some e → now < e) → advances now g g' (AtBegin ip) (AtFirst ip None)
| ad_join ip k : g_refreshDone g = Some k → advances now g g' (AtBegin ip) (AtFirst ip (Some k))
| ad_refresh ip : g_refreshDone g = None → g_refreshers g' = g_refreshers g ++ [NotSpawned] →
    advances now g g' (AtBegin ip) (AtSpawn ip (length (g_refreshers g)))
| ad_spawn ip k : g_refreshers g' = <[k := Resolving]> (g_refreshers g) → advances now g g' (AtSpawn ip k) (AtFirst ip (Some k))
| ad_first ip d : permits g (canonicalIP ip) = true → advances now g g' (AtFirst ip d) (Allowed ip)
| ad_wait ip k : permits g (canonicalIP ip) = false → advances now g g' (AtFirst ip (Some k)) (AtWait ip k)
| ad_deny ip : permits g (canonicalIP ip) = false → advances now g g' (AtFirst ip None) (Denied ip false)
| ad_receive ip k : k ∈ g_closed g → advances now g g' (AtWait ip k) (AtSecond ip k)
| ad_cancel ip k : advances now g g' (AtWait ip k) (Denied ip true)
| ad_second ip k : permits g (canonicalIP ip) = true → advances now g g' (AtSecond ip k) (Allowed ip)
| ad_deny_second ip k : permits g (canonicalIP ip) = false → advances now g g' (AtSecond ip k) (Denied ip false).

Lemma step_callers a g g' now j c' :
  step ttl a g = Some g' → reads_clock a now → g_callers g' !! j = Some c' →
  g_callers g !! j = Some c' ∨
  (j = length (g_callers g) ∧ ∃ ip, a = ACall ip ∧ c' = AtBegin ip) ∨
  ∃ c, g_callers g !! j = Some c ∧ advances now g g' c c'.
Proof.
  intros Hstep Hnow Hj. destruct a as [ip|i t|i|i|i|i|i|k lk|k|k|k t|k]; cbn [step reads_clock] in *;
    try (destruct (g_callers g !! i) as [[ip|ip m|ip d|ip m|ip m|ip|ip b]|] eqn:Hi; try done);
    try (destruct (g_refreshers g !! k) as [[| |ans| |d|]|] eqn:Hk; try done; injection Hstep as <-; left; exact Hj).
  - injection Hstep as <-. cbn in Hj. apply lookup_snoc_Some in Hj as [[_ Hj]|[-> <-]]; [by left |]. right; left. eauto.
  - subst t. injection Hstep as <-. unfold beginRefresh in *. destruct (g_expiresAt g) as [e|] eqn:Ee.
    + destruct (now <? e) eqn:El; bool_props.
      { upd_cases Hj; [|by left]. right; right. eexists. split; [done |]. apply ad_valid. intros e0. rewrite Ee. by intros [= <-]. }
      destruct (g_refreshDone g) as [k|] eqn:Ed; upd_cases Hj; try (by left); right; right; (eexists; split; [done |]).
      * by apply ad_join.
      * by apply ad_refresh.
    + upd_cases Hj; [|by left]. right; right. eexists. split; [done |]. apply ad_valid. by rewrite Ee.
  - injection Hstep as <-. upd_cases Hj; [|by left]. right; right. eexists. split; [done |]. by apply ad_spawn.
  - injection Hstep as <-. upd_cases Hj; [|by left]. right; right. eexists. split; [done |].
    destruct (permits g (canonicalIP ip)) eqn:E; [by apply ad_first |]. destruct d; [by apply ad_wait | by apply ad_deny].
  - destruct (bool_decide _) eqn:Eb; [|done]. apply bool_decide_eq_true in Eb. injection Hstep as <-.
    upd_cases Hj; [|by left]. right; right. eexists. split; [done |]. by apply ad_receive.
  - injection Hstep as <-. upd_cases Hj; [|by left]. right; right. eexists. split; [done |]. apply ad_cancel.
  - injection Hstep as <-. upd_cases Hj; [|by left]. right; right. eexists. split; [done |].
    destruct (permits g (canonicalIP ip)) eqn:E; [by apply ad_second | by apply ad_deny_second].
  - destruct (g_refreshers g !! k) as [[| |ans| |d|]|] eqn:Hk; try done. injection Hstep as <-. left.
    unfold close_chan in Hj. by destruct d.
Qed.

Lemma step_callers_length a g g' entered now :
  step ttl a g = Some g' → length entered = length (g_callers g) → length (enters a now entered) = length (g_callers g').
Proof.
  intros Hstep Hl. destruct a as [ip|i t|i|i|i|i|i|k lk|k|k|k t|k]; cbn [step enters] in *;
    try (destruct (g_callers g !! i) as [[ip|ip m|ip d|ip m|ip m|ip|ip b]|] eqn:Hi; try done);
    try (destruct (g_refreshers g !! k) as [[| |ans| |d|]|] eqn:Hk; try done);
    try (destruct (bool_decide _); [|done]); injection Hstep as <-; cbn; rewrite ?length_insert; try done.
  - rewrite !length_app. cbn. lia.
  - unfold beginRefresh. destruct (match g_expiresAt g with Some _ => _ | None => _ end); [cbn; by rewrite length_insert |].
    destruct (g_refreshDone g); cbn; by rewrite length_insert.
  - unfold close_chan. by destruct d.
Qed.

(** ** Dials return in time *)

(** What is known of caller [c], which entered at [e]. *)
Record due (x : timed_guard) (c : caller) (e : Z) : Prop := {
  du_now : returned c ∨ e ≤ tg_now x ≤ e + resolveTimeout;
  du_begin ip : c = AtBegin ip → e = tg_now x;
  du_holds k : holds c = Some k →
    (g_refreshers (tg_guard x) !! k = Some NotSpawned → e = tg_now x) ∧
    (g_refreshers (tg_guard x) !! k = Some Resolving → ∃ d, tg_deadline x !! k = Some d ∧ d ≤ e + resolveTimeout);
}.

Record punctual (x : timed_guard) : Prop := {
  pu_ok : guard_ok (tg_guard x);
  pu_len : length (tg_entered x) = length (g_callers (tg_guard x));
  pu_deadline k : g_refreshers (tg_guard x) !! k = Some Resolving → ∃ d, tg_deadline x !! k = Some d ∧ d ≤ tg_now x + resolveTimeout;
  pu_caller i c e : g_callers (tg_guard x) !! i = Some c → tg_entered x !! i = Some e → due x c e;
}.

(** What a step does to the refreshes that were there: it may start one that was not, and its lookup gets a deadline. *)
Definition lookups_kept (now : Z) (g g' : h3DialGuard) (deadline deadline' : gmap nat Z) : Prop :=
  ∀ k,
    (is_Some (g_refreshers g !! k) → g_refreshers g' !! k = Some NotSpawned → g_refreshers g !! k = Some NotSpawned) ∧
    (g_refreshers g' !! k = Some Resolving →
       (g_refreshers g !! k = Some Resolving ∧ deadline' !! k = deadline !! k) ∨
       (g_refreshers g !! k = Some NotSpawned ∧ deadline' !! k = Some (now + resolveTimeout))).

Lemma step_lookups a g g' now deadline :
  guard_ok g → step ttl a g = Some g' → lookups_kept now g g' deadline (starts_lookup a g now deadline).
Proof.
  intros Hok Hstep.
  assert (∀ l r, r ≠ NotSpawned → r ≠ Resolving → g_refreshers g' = <[l := r]> (g_refreshers g) →
    lookups_kept now g g' deadline deadline) as Hgo.
  { intros l r H1 H2 H3 k. rewrite H3. split; [intros _ H | intros H]; upd_cases H; auto. }
  assert (g_refreshers g' = g_refreshers g → lookups_kept now g g' deadline deadline) as Hsame by (intros H k; rewrite H; auto).
  destruct a as [ip|i t|i|i|i|i|i|k lk|k|k|k t|k]; cbn [step starts_lookup] in *;
    try (destruct (g_callers g !! i) as [[ip|ip m|ip d|ip m|ip m|ip|ip b]|] eqn:Hi; try done);
    try (destruct (g_refreshers g !! k) as [[| |ans| |d|]|] eqn:Hk; try done; injection Hstep as <-; eapply Hgo; [| |reflexivity]; done);
    try (destruct (bool_decide _); [|done]); try (injection Hstep as <-; by apply Hsame).
  - injection Hstep as <-. unfold beginRefresh in *. destruct (match g_expiresAt g with Some _ => _ | None => _ end); [by apply Hsame |].
    destruct (g_refreshDone g); [by apply Hsame |]. intros k. cbn. split.
    + intros [r Hk]. by rewrite (lookup_app_l_Some _ _ _ _ Hk), Hk.
    + intros H. apply lookup_snoc_Some in H as [[_ H]|[_ H]]; [by auto | done].
  - injection Hstep as <-. intros k. cbn. pose proof (ok_spawn _ Hok i ip m Hi) as Hm.
    split; [intros _ H | intros H]; upd_cases H; rewrite ?lookup_insert_eq; rewrite ?lookup_insert_ne by done; auto.
  - destruct (g_refreshers g !! k) as [[| |ans| |d|]|] eqn:Hk; try done. injection Hstep as <-. unfold close_chan in *.
    destruct d; (eapply Hgo; [| |reflexivity]; done).
Qed.

Lemma due_frame g g' now entered entered' deadline deadline' c e :
  lookups_kept now g g' deadline deadline' → (∀ k, holds c = Some k → is_Some (g_refreshers g !! k)) →
  due (mkTimedGuard g now entered deadline) c e → due (mkTimedGuard g' now entered' deadline') c e.
Proof.
  intros Hl Hk [H1 H2 H3]. split; cbn [tg_guard tg_now tg_deadline] in *; [done | done |].
  intros k Hc. destruct (Hl k) as [Ha Hb]. destruct (H3 k Hc) as [Hs Hr]. split; [by auto |].
  intros H. destruct (Hb H) as [[Hold ->]|[Hnew ->]]; [by auto |]. exists (now + resolveTimeout). split; [done |].
  rewrite (Hs Hnew). lia.
Qed.

(** A dial that goes on, and holds no channel that it did not hold, unless a refresh of now. *)
Lemma due_next x c c' e :
  due x c e → ¬ returned c → (∀ ip, c' ≠ AtBegin ip) →
  (∀ k, holds c' = Some k → holds c = Some k ∨
     (e = tg_now x ∧ (g_refreshers (tg_guard x) !! k = Some Resolving → ∃ d, tg_deadline x !! k = Some d ∧ d ≤ e + resolveTimeout))) →
  due x c' e.
Proof.
  intros [H1 H2 H3] Hr Hb Hk. destruct H1 as [?|H1]; [done |]. split; [by right | intros ip Hc; by destruct (Hb ip) |].
  intros k [Hc|[Hc Hd]]%Hk; [by apply H3 | by split].
Qed.

Context (Htimeout : 0 ≤ resolveTimeout).

Lemma punctual_step l x y : punctual x → clock_step l x y → punctual y.
Proof using Htimeout.
  intros [Hok Hlen Hdl Hca] Hs.
  destruct Hs as [a g g' now entered deadline Hs Hr|g now now' entered deadline Hbc Hbr Hle Hd]; cbn [tg_guard tg_now tg_entered tg_deadline] in *.
  - pose proof (step_lookups a g g' now deadline Hok Hs) as Hlk. set (deadline' := starts_lookup a g now deadline) in *.
    assert (guard_ok g') as Hok' by (by eapply guard_step_ok).
    assert (∀ k, g_refreshers g' !! k = Some Resolving → ∃ d, deadline' !! k = Some d ∧ d ≤ now + resolveTimeout) as Hdl'.
    { intros k Hres. destruct (Hlk k) as [_ H]. destruct (H Hres) as [[Hold ->]|[_ ->]]; [by apply Hdl |]. by eexists. }
    assert (∀ j c e, g_callers g !! j = Some c → entered !! j = Some e → due (mkTimedGuard g' now (enters a now entered) deadline') c e) as Hdue.
    { intros j c e Hj He. eapply (due_frame g g' now entered); [exact Hlk | intros k; by eapply ok_holds | by eapply Hca]. }
    split; cbn [tg_guard tg_now tg_entered tg_deadline]; [done | by eapply step_callers_length | done |].
    intros j c' e Hj He. destruct (step_callers a g g' now j c' Hs Hr Hj) as [Hold|[(-> & ip & -> & ->)|(c & Hold & Had)]].
    + apply (Hdue j); [done |]. destruct a; try done. cbn [enters] in He. rewrite lookup_app_l in He; [done |].
      rewrite Hlen. by eapply lookup_lt_Some.
    + cbn [enters] in He. rewrite <- Hlen, list_lookup_middle in He by done. injection He as <-.
      split; cbn; [right; lia | done | done].
    + assert (entered !! j = Some e) as He'.
      { destruct a; try done. cbn [enters] in He. rewrite lookup_app_l in He; [done |]. rewrite Hlen. by eapply lookup_lt_Some. }
      pose proof (Hdue j c e Hold He') as Hc. eapply due_next; [exact Hc | intros Hret; by destruct Had | intros ?; by destruct Had |].
      intros k Hk. cbn [tg_guard tg_now tg_deadline]. pose proof (du_begin _ _ _ Hc) as Hb. cbn [tg_now] in Hb.
      destruct Had; cbn [holds] in Hk; try discriminate Hk; injection Hk as <-; try (by left).
      * right. rewrite (Hb ip eq_refl). split; [done |]. apply Hdl'.
      * right. rewrite (Hb ip eq_refl). split; [done |]. apply Hdl'.
  - split; cbn [tg_guard tg_now tg_entered tg_deadline]; [done | done | |].
    + intros k Hk. destruct (Hdl k Hk) as (d & H1 & H2). exists d. split; [done |]. lia.
    + intros i c e Hi He. pose proof (Hca i c e Hi He) as [H1 H2 H3]. cbn [tg_guard tg_now tg_deadline] in *.
      pose proof (Forall_lookup_1 _ _ _ _ Hbc Hi) as Hblock.
      split; cbn [tg_guard tg_now tg_deadline].
      * destruct Hblock as [?|(ip & k & -> & Hnc)]; [by left |]. right. destruct H1 as [?|H1]; [done |].
        destruct (ok_holds _ Hok i _ k Hi eq_refl) as [r Hk]. destruct (Forall_lookup_1 _ _ _ _ Hbr Hk) as [->| ->].
        -- destruct (H3 k eq_refl) as [_ Hdk]. destruct (Hdk Hk) as (d & Hkd & Hde). specialize (Hd k d Hk Hkd). lia.
        -- by apply (ok_closed _ Hok) in Hk.
      * intros ip ->. by destruct Hblock as [?|(? & ? & ? & _)].
      * intros k Hk. split; [|by apply H3]. intros Hns. by destruct (Forall_lookup_1 _ _ _ _ Hbr Hns).
Qed.

(** ** The guard follows the resolver *)

(** How a refresh goes on by an action. *)
Inductive refreshes (g g' : h3DialGuard) (k : nat) : action → refresher → refresher → Prop :=
| rf_spawn i : refreshes g g' k (ASpawn i) NotSpawned Resolving
| rf_lookup lk : refreshes g g' k (ALookup k lk) Resolving (Resolved (resolve lk))
| rf_panic : refreshes g g' k (APanic k) Resolving Deferred
| rf_install ans : g_allowed g' = default (g_allowed g) ans → refreshes g g' k (AInstall k) (Resolved ans) Deferred
| rf_end t d : refreshes g g' k (ADeferred k t) Deferred (Closing d)
| rf_close d : refreshes g g' k (AClose k) (Closing d) Finished.

Lemma step_refreshers a g g' k r' :
  guard_ok g → step ttl a g = Some g' → g_refreshers g' !! k = Some r' →
  g_refreshers g !! k = Some r' ∨ (g_refreshers g !! k = None ∧ r' = NotSpawned) ∨
  ∃ r, g_refreshers g !! k = Some r ∧ refreshes g g' k a r r'.
Proof.
  intros Hok Hstep Hk'. destruct a as [ip|i t|i|i|i|i|i|l lk|l|l|l t|l]; cbn [step] in *;
    try (destruct (g_callers g !! i) as [[ip|ip m|ip d|ip m|ip m|ip|ip b]|] eqn:Hi; try done);
    try (destruct (g_refreshers g !! l) as [[| |ans| |d|]|] eqn:Hl; try done);
    try (destruct (bool_decide _); [|done]); injection Hstep as <-; try (by left).
  - unfold beginRefresh in Hk'. destruct (match g_expiresAt g with Some _ => _ | None => _ end); [by left |].
    destruct (g_refreshDone g); [by left |]. apply lookup_snoc_Some in Hk' as [[_ H]|[-> <-]]; [by left |].
    right; left. split; [by apply lookup_ge_None | done].
  - upd_cases Hk'; [|by left]. right; right. exists NotSpawned. split; [by eapply ok_spawn | apply rf_spawn].
  - upd_cases Hk'; [|by left]. right; right. eexists. split; [done | apply rf_lookup].
  - upd_cases Hk'; [|by left]. right; right. eexists. split; [done | apply rf_panic].
  - upd_cases Hk'; [|by left]. right; right. eexists. split; [done | by apply rf_install].
  - upd_cases Hk'; [|by left]. right; right. eexists. split; [done | apply rf_end].
  - unfold close_chan in Hk'. destruct d; upd_cases Hk'; try (by left); right; right; (eexists; split; [done | apply rf_close]).
Qed.

Lemma step_allowed a g g' :
  step ttl a g = Some g' → g_allowed g' = g_allowed g ∨ ∃ k s, g_refreshers g !! k = Some (Resolved (Some s)) ∧ g_allowed g' = s.
Proof.
  intros Hstep. destruct a as [ip|i t|i|i|i|i|i|l lk|l|l|l t|l]; cbn [step] in *;
    try (destruct (g_callers g !! i) as [[ip|ip m|ip d|ip m|ip m|ip|ip b]|] eqn:Hi; try done);
    try (destruct (g_refreshers g !! l) as [[| |ans| |d|]|] eqn:Hl; try done);
    try (destruct (bool_decide _); [|done]); injection Hstep as <-; try (by left).
  - left. unfold beginRefresh. destruct (match g_expiresAt g with Some _ => _ | None => _ end); [done |]. by destruct (g_refreshDone g).
  - destruct ans as [s|]; [|by left]. right. by exists l, s.
  - left. unfold close_chan. by destruct d.
Qed.

(** A refresh in progress stays so until its deferred function ran. *)
Lemma step_progress a g g' now k r :
  guard_ok g → step ttl a g = Some g' → reads_clock a now → g_refreshers g !! k = Some r → in_progress r →
  (∃ r', g_refreshers g' !! k = Some r' ∧ in_progress r') ∨ (r = Deferred ∧ g_allowed g' = g_allowed g).
Proof.
  intros Hok Hs Hr Hk Hp. assert (is_Some (g_refreshers g' !! k)) as [r' Hk'].
  { apply lookup_lt_is_Some. apply lookup_lt_Some in Hk. destruct (step_expiry a g g' now Hs Hr); lia. }
  destruct (step_refreshers a g g' k r' Hok Hs Hk') as [H|[[H _]|(r0 & H & Hm)]]; [left; exists r' | congruence |].
  { split; [done |]. congruence. }
  rewrite Hk in H. injection H as <-. destruct Hm; try (left; eexists; by split).
  right. split; [done |]. cbn [step] in Hs. rewrite Hk in Hs. by injection Hs as <-.
Qed.

Context (Httl : 0 ≤ ttl) (since : Z) (key : gostring).

(** From [since] on the resolver answers, with the address [key] among others. *)
Definition good_answer (lk : option (list IP)) : Prop := ∃ s, resolve lk = Some s ∧ key ∈ s.
Definition good_event (ev : Z * action) : Prop :=
  since ≤ ev.1 → match ev.2 with ALookup _ lk => good_answer lk | APanic _ => False | _ => True end.

Definition address (c : caller) : IP :=
  match c with AtBegin ip | AtSpawn ip _ | AtFirst ip _ | AtWait ip _ | AtSecond ip _ | Allowed ip | Denied ip _ => ip end.

(** The address is in force, or will be when the refresh the dial waits for has ended. *)
Definition promised (g : h3DialGuard) (c : caller) : Prop :=
  match c with
  | AtFirst _ None | AtSecond _ _ => key ∈ g_allowed g
  | AtSpawn _ k | AtFirst _ (Some k) | AtWait _ k => key ∈ g_allowed g ∨ ∃ r, g_refreshers g !! k = Some r ∧ in_progress r
  | Denied _ false => False
  | AtBegin _ | Allowed _ | Denied _ true => True
  end.

Record fresh (x : timed_guard) : Prop := {
  fr_named : g_expiresAt (tg_guard x) ≠ None;
  fr_expires e : g_expiresAt (tg_guard x) = Some e → e ≤ tg_now x + ttl;
  fr_allowed e : g_expiresAt (tg_guard x) = Some e → since ≤ e - ttl → key ∈ g_allowed (tg_guard x);
  fr_resolved k ans : g_refreshers (tg_guard x) !! k = Some (Resolved ans) → since ≤ tg_now x → ∃ s, ans = Some s ∧ key ∈ s;
  fr_deferred k : g_refreshers (tg_guard x) !! k = Some Deferred → since ≤ tg_now x → key ∈ g_allowed (tg_guard x);
  fr_entered i e : tg_entered x !! i = Some e → e ≤ tg_now x;
  fr_caller i c e : g_callers (tg_guard x) !! i = Some c → tg_entered x !! i = Some e → since + ttl ≤ e →
    canonicalIP (address c) = key → promised (tg_guard x) c;
}.

(** What the address is in stays in force. *)
Lemma allowed_kept a g g' now entered deadline :
  fresh (mkTimedGuard g now entered deadline) → step ttl a g = Some g' → since ≤ now → key ∈ g_allowed g → key ∈ g_allowed g'.
Proof.
  intros Hf Hs Hnow Hin. destruct (step_allowed a g g' Hs) as [->|(k & s & Hk & ->)]; [done |].
  destruct (fr_resolved _ Hf k (Some s) Hk Hnow) as (s' & [= <-] & ?). done.
Qed.

(** ... and so does a promise. *)
Lemma promised_kept a g g' now entered deadline c :
  fresh (mkTimedGuard g now entered deadline) → guard_ok g → step ttl a g = Some g' → reads_clock a now → since ≤ now →
  promised g c → promised g' c.
Proof.
  intros Hf Hok Hs Hr Hnow. pose proof (allowed_kept a g g' now entered deadline Hf Hs Hnow) as Hin.
  assert (∀ k, (key ∈ g_allowed g ∨ ∃ r, g_refreshers g !! k = Some r ∧ in_progress r) →
    key ∈ g_allowed g' ∨ ∃ r, g_refreshers g' !! k = Some r ∧ in_progress r) as Hk.
  { intros k [?|(r & Hk & Hp)]; [by left; apply Hin |].
    destruct (step_progress a g g' now k r Hok Hs Hr Hk Hp) as [?|[-> Ha]]; [by right |].
    left. rewrite Ha. by eapply (fr_deferred _ Hf). }
  destruct c as [| |ip [k|]| | | |ip []]; cbn [promised]; auto.
Qed.

Lemma permits_key g : key ≠ [] → key ∈ g_allowed g → permits g key = true.
Proof. intros Hne Hin. unfold permits. destruct key; [done |]. cbn [is_empty]. by apply bool_decide_eq_true. Qed.

(** A dial with the address goes on with the promise. *)
Lemma promised_advances a g g' now entered deadline c c' :
  fresh (mkTimedGuard g now entered deadline) → guard_ok g → step ttl a g = Some g' → reads_clock a now →
  key ≠ [] → since + ttl ≤ now → advances now g g' c c' → canonicalIP (address c) = key → promised g c → promised g' c'.
Proof using Httl.
  intros Hf Hok Hs Hr Hne Hnow Had Hkey Hp. pose proof (allowed_kept a g g' now entered deadline Hf Hs ltac:(lia)) as Hin.
  pose proof (promised_kept a g g' now entered deadline c Hf Hok Hs Hr ltac:(lia) Hp) as Hp'.
  destruct Had as [ip Hv|ip k Hd|ip Hd Hrf|ip k Hrf|ip d Hal|ip k Hal|ip Hal|ip k Hc|ip k|ip k Hal|ip k Hal]; cbn [promised address] in *; try done.
  - destruct (g_expiresAt g) as [x|] eqn:Ex; [|by destruct (fr_named _ Hf)]. specialize (Hv x eq_refl).
    apply Hin, (fr_allowed _ Hf x Ex). lia.
  - destruct (proj1 (ok_done _ Hok k) Hd) as (r & Hk & Hpr).
    apply (promised_kept a g g' now entered deadline (AtFirst ip (Some k)) Hf Hok Hs Hr); [lia |]. right. by exists r.
  - right. exists NotSpawned. rewrite Hrf, list_lookup_middle by done. done.
  - rewrite Hkey, permits_key in Hal; done.
  - destruct Hp as [?|(r & Hk & Hpr)]; [by apply Hin |]. apply (ok_closed _ Hok) in Hc. rewrite Hk in Hc. by injection Hc as ->.
  - rewrite Hkey, permits_key in Hal; done.
Qed.

Lemma fresh_act a g g' now entered deadline :
  key ≠ [] → guard_ok g → length entered = length (g_callers g) → fresh (mkTimedGuard g now entered deadline) →
  step ttl a g = Some g' → reads_clock a now → good_event (now, a) →
  fresh (mkTimedGuard g' now (enters a now entered) (starts_lookup a g now deadline)).
Proof using Httl.
  intros Hne Hok Hlen Hf Hs Hr Hgood. pose proof Hf as [Hn He Ha Hre Hde Hen Hca]. cbn [tg_guard tg_now tg_entered] in *.
  assert (∀ j e, enters a now entered !! j = Some e → entered !! j = Some e ∨ j = length entered ∧ e = now) as Hent.
  { intros j e. destruct a; cbn [enters]; auto. intros H. apply lookup_snoc_Some in H as [[_ H]|[-> <-]]; auto. }
  pose proof (step_expiry a g g' now Hs Hr) as Hx. pose proof (allowed_kept a g g' now entered deadline Hf Hs) as Hin.
  split; cbn [tg_guard tg_now tg_entered].
  - destruct Hx; congruence.
  - intros e Hxe. destruct Hx as [_ Hx _|x Hx _ _ _ Hx' _|k _ _ Hx _].
    + apply He. congruence.
    + apply He. congruence.
    + rewrite Hx in Hxe. injection Hxe as <-. lia.
  - intros e Hxe Hsi. destruct Hx as [_ Hx _|x Hx _ _ _ Hx' _|k Hk _ Hx Hal].
    + rewrite Hx in Hxe. specialize (He e Hxe). apply Hin; [lia | by eapply Ha].
    + assert (g_expiresAt g = Some e) as Hxe' by congruence. specialize (He e Hxe'). apply Hin; [lia | by eapply Ha].
    + rewrite Hx in Hxe. injection Hxe as <-. rewrite Hal. eapply Hde; [exact Hk | lia].
  - intros k ans Hk Hsi. destruct (step_refreshers a g g' k _ Hok Hs Hk) as [H|[[_ H]|(r & H & Hm)]]; [by eapply Hre | done |].
    inversion Hm; subst. by apply Hgood.
  - intros k Hk Hsi. destruct (step_refreshers a g g' k _ Hok Hs Hk) as [H|[[_ H]|(r & H & Hm)]]; [by apply Hin; [|eapply Hde] | done |].
    inversion Hm as [| | |ans Hal| |]; subst; [by destruct (Hgood Hsi) |].
    destruct (Hre k ans H Hsi) as (s & -> & ?). by rewrite Hal.
  - intros i e Hi. destruct (Hent i e Hi) as [H|[_ ->]]; [by eapply Hen | lia].
  - intros j c' e Hj Hje Hsi Hkey. destruct (step_callers a g g' now j c' Hs Hr Hj) as [Hold|[(_ & ip & _ & ->)|(c & Hold & Had)]]; [|done |].
    + destruct (Hent j e Hje) as [H|[-> _]]; [|by apply lookup_lt_Some in Hold; lia].
      specialize (Hen j e H). eapply promised_kept; [exact Hf | done | done | done | lia | by eapply Hca].
    + destruct (Hent j e Hje) as [H|[-> _]]; [|by apply lookup_lt_Some in Hold; lia]. specialize (Hen j e H).
      assert (canonicalIP (address c) = key) as Hkc by (by destruct Had).
      eapply promised_advances; [exact Hf | done | done | done | done | lia | done | done | by eapply Hca].
Qed.

Lemma fresh_step l x y :
  key ≠ [] → punctual x → fresh x → clock_step l x y → (∀ a, l = Some a → good_event (tg_now x, a)) → fresh y.
Proof using Httl.
  intros Hne Hp Hf Hs Hgood. destruct Hs as [a g g' now entered deadline Hs Hr|g now now' entered deadline _ Hbr Hle _].
  - apply fresh_act; try done; [apply (pu_ok _ Hp) | apply (pu_len _ Hp) | by apply Hgood].
  - destruct Hf as [Hn He Ha Hre Hde Hen Hca]. cbn [tg_guard tg_now tg_entered] in *. split; cbn [tg_guard tg_now tg_entered]; try done.
    + intros e H. specialize (He e H). lia.
    + intros k ans Hk. by destruct (Forall_lookup_1 _ _ _ _ Hbr Hk).
    + intros k Hk. by destruct (Forall_lookup_1 _ _ _ _ Hbr Hk).
    + intros i e H. specialize (Hen i e H). lia.
Qed.
End clock.

(** ** Guards that were built *)

(** A run of the guard for a base URL, made at [t0] with the given options. *)
Definition guard_runs (baseURL : gostring) (lookupIP : Z → gostring → option (list IP)) (opts : list H3DialGuardOption)
    (t0 ttl : Z) (evs : list (Z * action)) (g0 : h3DialGuard) (x : timed_guard) : Prop :=
  newH3DialGuardForBaseURL baseURL lookupIP t0 opts = Ok (ttl, g0) ∧
  clock_run ttl (go_resolveTimeout (applyH3DialGuardOptions opts)) evs (start_guard g0 t0) x.

(** What the constructor gives. *)
Lemma guard_built baseURL lookupIP opts t0 ttl g0 :
  newH3DialGuardForBaseURL baseURL lookupIP t0 opts = Ok (ttl, g0) →
  0 < ttl ∧ 0 < go_resolveTimeout (applyH3DialGuardOptions opts) ∧ guard_ok g0 ∧ g_refreshers g0 = [] ∧ g_callers g0 = [] ∧
  (g_expiresAt g0 = None ∨ g_expiresAt g0 = Some (t0 + ttl)).
Proof.
  unfold newH3DialGuardForBaseURL. intros H. inv_ok. pose proof (guard_options_bounds opts) as [Httl Hto].
  destruct (newH3DialGuard _ _ _ _) as [gg|] eqn:Eg; [|done]. simplify_eq. apply new_ok in Eg as Hok.
  split_and!; try done; unfold newH3DialGuard in Eg; (destruct (ParseIP _); [simplify_eq; by auto |]);
    destruct (lookupIP _ _); try done; destruct (resolve _); try done; simplify_eq; auto.
Qed.

Lemma guard_runs_punctual baseURL lookupIP opts t0 ttl evs g0 x :
  guard_runs baseURL lookupIP opts t0 ttl evs g0 x →
  spaced ttl t0 x ∧ punctual (go_resolveTimeout (applyH3DialGuardOptions opts)) x.
Proof.
  intros [Hnew Hrun]. apply guard_built in Hnew as (Httl & Hto & Hok & Hr & Hc & Hx). set (timeout := go_resolveTimeout _) in *. clearbody timeout.
  remember (start_guard g0 t0) as x0 eqn:E. induction Hrun as [x|evs a x y z _ IH Hs|evs x y z _ IH Hs]; subst.
  - split.
    + split; cbn [start_guard tg_guard tg_now]; rewrite Hr; cbn; [lia |]. intros e _ He. destruct Hx as [Hx|Hx]; rewrite Hx in He; simplify_eq; lia.
    + split; cbn [start_guard tg_guard tg_now tg_entered tg_deadline]; rewrite ?Hr, ?Hc; done.
  - destruct (IH eq_refl). split; [by eapply spaced_step | eapply punctual_step; [lia | done | done]].
  - destruct (IH eq_refl). split; [by eapply spaced_step | eapply punctual_step; [lia | done | done]].
Qed.

(** C31: the guard keeps its times.  However many dials there are and however the resolver behaves, it is asked at most
    once for each lifetime of the set that has passed since the guard was made, also while it fails; and a dial that has
    not returned entered no longer ago than the timeout of one lookup, whatever context it has. *)
Theorem guard_keeps_time (baseURL : gostring) (lookupIP : Z → gostring → option (list IP)) (opts : list H3DialGuardOption)
    (t0 ttl : Z) (evs : list (Z * action)) (g0 : h3DialGuard) (x : timed_guard) :
  guard_runs baseURL lookupIP opts t0 ttl evs g0 x →
  Z.of_nat (length (g_refreshers (tg_guard x))) * ttl ≤ tg_now x - t0 ∧
  ∀ i c e, g_callers (tg_guard x) !! i = Some c → tg_entered x !! i = Some e → ¬ returned c →
    e ≤ tg_now x ≤ e + go_resolveTimeout (applyH3DialGuardOptions opts).
Proof.
  intros [Hs Hp]%guard_runs_punctual. split; [pose proof (sp_now _ _ _ Hs); lia |].
  intros i c e Hi He Hc. by destruct (du_now _ _ _ _ (pu_caller _ _ Hp i c e Hi He)).
Qed.

(** C32: the guard follows a server that moves.  When from some moment on every lookup succeeds with an answer that has an
    address, then a dial to that address which enters one lifetime of the set after that moment, or later, is not
    refused, unless its own context ends: it finds the address in force, or waits for the refresh that brings it. *)
Theorem guard_follows_server (baseURL : gostring) (lookupIP : Z → gostring → option (list IP)) (opts : list H3DialGuardOption)
    (t0 ttl since : Z) (evs : list (Z * action)) (g0 : h3DialGuard) (x : timed_guard) (ip : IP) :
  guard_runs baseURL lookupIP opts t0 ttl evs g0 x → g_expiresAt g0 ≠ None → t0 < since → canonicalIP ip ≠ [] →
  (∀ t a, (t, a) ∈ evs → since ≤ t →
     match a with
     | ALookup _ answer => ∃ ips y, answer = Some ips ∧ y ∈ ips ∧ canonicalIP y = canonicalIP ip
     | APanic _ => False
     | _ => True
     end) →
  ∀ i c e, g_callers (tg_guard x) !! i = Some c → tg_entered x !! i = Some e → since + ttl ≤ e →
    canonicalIP (address c) = canonicalIP ip → c ≠ Denied (address c) false.
Proof.
  intros Hruns Hname Hsince Hne Hevs. assert (fresh ttl since (canonicalIP ip) x) as Hf.
  { destruct Hruns as [Hnew Hrun]. apply guard_built in Hnew as Hb. destruct Hb as (Httl & Hto & _ & Hr & Hc & Hx).
    remember (start_guard g0 t0) as x0 eqn:E. induction Hrun as [x|evs a x y z Hrun IH Hs|evs x y z Hrun IH Hs]; subst.
    - split; cbn [start_guard tg_guard tg_now tg_entered]; rewrite ?Hr, ?Hc; try done; intros e He;
        (destruct Hx as [?|Hx]; [done |]); rewrite Hx in He; simplify_eq; lia.
    - eapply fresh_step; [lia | done | by apply (guard_runs_punctual baseURL lookupIP opts t0 ttl evs g0) | | exact Hs |].
      + apply IH; [done |]. intros t b Hb. apply Hevs. apply elem_of_app. by left.
      + intros b [= <-] Hsi. cbn [fst snd] in *. specialize (Hevs (tg_now y) a ltac:(apply elem_of_app; right; left) Hsi).
        destruct a; try done. destruct Hevs as (ips & w & -> & Hw & Hwk). exists (ipAllowset ips).
        assert (canonicalIP ip ∈ ipAllowset ips) as Hin by (apply elem_of_ipAllowset; eauto). split; [|done].
        cbn [resolve]. rewrite bool_decide_eq_false_2; [done |]. intros H0. by rewrite H0 in Hin.
    - eapply fresh_step; [lia | done | by apply (guard_runs_punctual baseURL lookupIP opts t0 ttl evs g0) | by apply IH | exact Hs | done]. }
  intros i c e Hi He Hsi Hkey Hc. pose proof (fr_caller _ _ _ _ Hf i c e Hi He Hsi Hkey) as Hp. by rewrite Hc in Hp.
Qed.

(** Actions one after the other, at the time it is. *)
Fixpoint act_all (ttl resolveTimeout : Z) (acts : list action) (x : timed_guard) : option timed_guard :=
  match acts with
  | [] => Some x
  | a :: rest =>
      if match a with ABegin _ t | ADeferred _ t => t =? tg_now x | _ => true end then
        match step ttl a (tg_guard x) with
        | Some g => act_all ttl resolveTimeout rest
            (mkTimedGuard g (tg_now x) (enters a (tg_now x) (tg_entered x)) (starts_lookup resolveTimeout a (tg_guard x) (tg_now x) (tg_deadline x)))
        | None => None
        end
      else None
  end.

Lemma act_all_run ttl timeout acts evs x y z :
  clock_run ttl timeout evs x y → act_all ttl timeout acts y = Some z → clock_run ttl timeout (evs ++ map (pair (tg_now y)) acts) x z.
Proof.
  revert evs y. induction acts as [|a acts IH]; intros evs y Hr; cbn [act_all map]; [intros [= <-]; by rewrite app_nil_r |].
  destruct (match a with ABegin _ t | ADeferred _ t => _ | _ => _ end) eqn:Et; [|done].
  destruct (step ttl a (tg_guard y)) as [g|] eqn:Es; [|done]. intros Hz. rewrite (cons_middle _ evs), (assoc_L (++)).
  apply (IH (evs ++ [(tg_now y, a)])) in Hz; [done |]. eapply tr_act; [exact Hr |]. destruct y as [g0 now en de].
  apply tg_act; [done |]. destruct a; cbn in *; bool_props; done.
Qed.

(** A server that moved: the dial waits three seconds for the lookup, and goes on. *)
Definition moved_dial : list action := [ACall new_ip; ABegin 0 (100 * Second); ASpawn 0; AFirst 0].
Definition moved_answer : list action :=
  [ALookup 0 (Some [new_ip]); AInstall 0; ADeferred 0 (103 * Second); AClose 0; AReceive 0; ASecond 0].
Definition moved_times : list (Z * action) := map (pair (100 * Second)) moved_dial ++ map (pair (103 * Second)) moved_answer.

(** The guard after the clock went on. *)
Definition later (x : timed_guard) (now : Z) : timed_guard := mkTimedGuard (tg_guard x) now (tg_entered x) (tg_deadline x).

Lemma later_step ttl timeout x now :
  Forall (blocked_caller (tg_guard x)) (g_callers (tg_guard x)) → Forall blocked_refresher (g_refreshers (tg_guard x)) → tg_now x ≤ now →
  (∀ k d, g_refreshers (tg_guard x) !! k = Some Resolving → tg_deadline x !! k = Some d → now ≤ d) →
  clock_step ttl timeout None x (later x now).
Proof. destruct x. apply tg_tick. Qed.

Definition moved_waiting : timed_guard :=
  default (start_guard demo_built 0) (act_all Minute (5 * Second) moved_dial (later (start_guard demo_built 0) (100 * Second))).
Definition moved_guard : timed_guard :=
  default (start_guard demo_built 0) (act_all Minute (5 * Second) moved_answer (later moved_waiting (103 * Second))).

Lemma moved_runs :
  guard_runs (go "https://iris.example:8443") demo_lookup [WithH3DialGuardTTL (-1)] 0 Minute moved_times demo_built moved_guard.
Proof.
  split; [vm_compute; reflexivity |].
  apply (act_all_run _ _ _ _ _ (later moved_waiting (103 * Second))); [|vm_compute; reflexivity].
  change (map (pair (100 * Second)) moved_dial) with ([] ++ map (pair (tg_now (later (start_guard demo_built 0) (100 * Second)))) moved_dial).
  eapply (tr_tick _ _ _ _ moved_waiting).
  - apply (act_all_run _ _ _ _ _ (later (start_guard demo_built 0) (100 * Second))); [|vm_compute; reflexivity].
    eapply tr_tick; [apply tr_nil |]. apply later_step; [by apply Forall_nil | by apply Forall_nil | by vm_compute | done].
  - assert (g_callers (tg_guard moved_waiting) = [AtWait new_ip 0]) as Hc by (vm_compute; reflexivity).
    assert (g_refreshers (tg_guard moved_waiting) = [Resolving]) as Hr by (vm_compute; reflexivity).
    assert (g_closed (tg_guard moved_waiting) = []) as Hcl by (vm_compute; reflexivity).
    assert (tg_deadline moved_waiting = {[0%nat := 105 * Second]}) as Hd by (vm_compute; reflexivity).
    apply later_step; [| | |].
    + rewrite Hc. apply Forall_singleton. right. exists new_ip, 0%nat. rewrite Hcl. split; [done | apply not_elem_of_nil].
    + rewrite Hr. apply Forall_singleton. by left.
    + by vm_compute.
    + rewrite Hr, Hd. intros [|k] d Hk Hkd; [|done]. rewrite lookup_singleton_eq in Hkd. injection Hkd as <-. by vm_compute.
Qed.

Lemma guard_keeps_time_witness :
  length (g_refreshers (tg_guard moved_guard)) = 1%nat ∧ 1 * Minute ≤ tg_now moved_guard - 0.
Proof. split; [vm_compute; reflexivity |]. exact (proj1 (guard_keeps_time _ _ _ _ _ _ _ _ moved_runs)). Defined.

Lemma guard_follows_server_witness :
  g_callers (tg_guard moved_guard) = [Allowed new_ip] ∧ Allowed new_ip ≠ Denied new_ip false.
Proof.
  split; [vm_compute; reflexivity |].
  refine (guard_follows_server _ _ _ _ _ Second _ _ _ new_ip moved_runs _ _ _ _ 0%nat (Allowed new_ip) (100 * Second) _ _ _ _).
  - vm_compute. discriminate.
  - vm_compute. reflexivity.
  - vm_compute. discriminate.
  - intros t a H _. repeat (apply elem_of_cons in H as [H|H]; [injection H as -> ->; first [exact I | exists [new_ip], new_ip; split; [reflexivity | split; [left | reflexivity]]] |]).
    by apply not_elem_of_nil in H.
  - vm_compute. reflexivity.
  - vm_compute. reflexivity.
  - vm_compute. discriminate.
  - reflexivity.
Defined.
