(* ===== verification/Multipart.v ===== *)
(** * Multipart: reply bodies (internal/client/multipart)

    The limits, the two body factories (images in memory, one file behind an [io.ReaderAt]), the
    readers that stream the bodies, and the digesting copy loop.  A [sha256.New] hash is the list of the
    bytes written to it. *)

From S2P Require Import Prelude GoStrings GoStrconv GoCrypto.

(** ** Limits (limits.go, file.go) *)

Definition maxReplyImagesPerRequest : Z := 8.
Definition maxReplyMultipartBodyBytes : Z := 31 * 1024 * 1024.
Definition maxReplyMetadataBytes : Z := 64 * 1024.
Definition maxReplySingleImageBytes : Z := 20 * 1024 * 1024.
Definition maxReplyTotalImageBytes : Z := 30 * 1024 * 1024.
Definition maxReplySingleFileBytes : Z := 30 * 1024 * 1024.
Definition maxReplyFileNameBytes : Z := 255.
Definition maxReplyFileMIMEBytes : Z := 127.

Abbreviation zlen s := (Z.of_nat (length s)).

Inductive multipartError :=
| NoImages | TooManyImages | EmptyImage (index : nat) | ImageTooLarge (index : nat) | ImagesTooLarge
| MetadataTooLarge | BodyTooLarge | ReaderNil | FileEmpty | FileTooLarge | InvalidFileName
| InvalidContentType | LengthOverflow
| IndexPanic  (** [contentTypes[i]] out of range *)
| NegativeLength | CopyCancelled | ReadFailed | NoProgress | ShortSource (copied : Z).

Fixpoint validate_images (index : nat) (totalBytes : Z) (images : list gostring) : option multipartError :=
  match images with
  | [] => None
  | image :: rest =>
      if zlen image =? 0 then Some (EmptyImage index)
      else if maxReplySingleImageBytes <? zlen image then Some (ImageTooLarge index)
      else let totalBytes := totalBytes + zlen image in
           if maxReplyTotalImageBytes <? totalBytes then Some ImagesTooLarge
           else validate_images (S index) totalBytes rest
  end.

Definition ValidateReplyImages (images : list gostring) : option multipartError :=
  if zlen images =? 0 then Some NoImages
  else if maxReplyImagesPerRequest <? zlen images then Some TooManyImages
  else validate_images 0 0 images.

Definition ValidateReplyMultipartEnvelope (metadataBytes : gostring) (bodyLength : Z) : option multipartError :=
  if maxReplyMetadataBytes <? zlen metadataBytes then Some MetadataTooLarge
  else if maxReplyMultipartBodyBytes <? bodyLength then Some BodyTooLarge
  else None.

(** ** File names and content types (file.go) *)

(** A rune in the literal of [strings.ContainsRune]: slash, backslash, double quote, semicolon. *)
Definition is_name_punct (ch : Z) : bool := (ch =? 47) || (ch =? 92) || (ch =? 34) || (ch =? 59).

Definition validateReplyFileName (fileName : gostring) : bool :=
  if is_empty fileName || seqb fileName (go ".") || seqb fileName (go "..") then false
  else if negb (ValidString fileName) || (maxReplyFileNameBytes <? zlen fileName) then false
  else forallb (λ ch, negb (IsControl ch || is_name_punct ch)) (runes fileName).

Definition isMIMETokenByte (value : byte) : bool :=
  if in_range "a" "z" value || in_range "0" "9" value then true
  else existsb (beq value) (go "!#$%&'*+-.^_`|~").

Definition isMIMEToken (value : gostring) : bool := forallb isMIMETokenByte value.

Definition normalizeReplyFileContentType (contentType : gostring) : option gostring :=
  let normalized := ToLower (TrimSpace contentType) in
  if is_empty normalized || (maxReplyFileMIMEBytes <? zlen normalized) || ContainsByte ";" normalized then None
  else
    let '(topLevel, subtype, ok) := Cut "/" normalized in
    if negb ok || is_empty topLevel || is_empty subtype || ContainsByte "/" subtype then None
    else if negb (isMIMEToken topLevel) || negb (isMIMEToken subtype) then None
    else Some normalized.

Definition NormalizeReplyFile (fileName contentType : gostring) (byteLength : Z) (reader_nil : bool)
  : result multipartError gostring :=
  if reader_nil then Err ReaderNil
  else if byteLength <=? 0 then Err FileEmpty
  else if maxReplySingleFileBytes <? byteLength then Err FileTooLarge
  else if negb (validateReplyFileName fileName) then Err InvalidFileName
  else match normalizeReplyFileContentType contentType with
       | None => Err InvalidContentType
       | Some normalized => Ok normalized
       end.

(** ** Images in memory (writer.go) *)

Definition crlf : gostring := [x0d; x0a].
Definition dq : gostring := [x22].

Record BodyFactory := mkBodyFactory {
  bf_contentType : gostring;
  bf_bodySHA256 : gostring;
  bf_bodyLength : Z;
  bf_chunks : list gostring;
}.

Definition metadata_header (boundary : gostring) : gostring :=
  go "--" ++ boundary ++ crlf ++ go "Content-Disposition: form-data; name=" ++ dq ++ go "metadata" ++ dq
  ++ crlf ++ crlf.

Definition image_header (boundary : gostring) (i : nat) (contentType : gostring) : gostring :=
  go "--" ++ boundary ++ crlf ++ go "Content-Disposition: form-data; name=" ++ dq ++ go "image" ++ dq
  ++ go "; filename=" ++ dq ++ go "image-" ++ FormatUint (Z.of_nat i) ++ dq ++ crlf
  ++ go "Content-Type: " ++ contentType ++ crlf ++ crlf.

(** [None]: [contentTypes[i]] is out of range. *)
Fixpoint image_chunks (boundary : gostring) (i : nat) (images contentTypes : list gostring)
  : option (list gostring) :=
  match images with
  | [] => Some []
  | img :: rest =>
      match contentTypes !! i with
      | None => None
      | Some contentType =>
          app [image_header boundary i contentType; img; crlf] <$> image_chunks boundary (S i) rest contentTypes
      end
  end.

Definition closing_line (boundary : gostring) : gostring := go "--" ++ boundary ++ go "--" ++ crlf.

Definition NewBodyFactory (boundary metadataBytes : gostring) (images contentTypes : list gostring)
  : result multipartError BodyFactory :=
  match image_chunks boundary 0 images contentTypes with
  | None => Err IndexPanic
  | Some imageChunks =>
      let chunks := [metadata_header boundary; metadataBytes; crlf] ++ imageChunks ++ [closing_line boundary] in
      let bodyLength := foldl (λ n chunk, n + zlen chunk) 0 chunks in
      match ValidateReplyMultipartEnvelope metadataBytes bodyLength with
      | Some err => Err err
      | None =>
          let hashed := foldl (λ h chunk, h ++ chunk) [] chunks in
          Ok (mkBodyFactory (go "multipart/form-data; boundary=" ++ boundary) (hexEncode (sha256 hashed))
                bodyLength chunks)
      end
  end.

(** [bodyReader]. *)
Record bodyReader := mkBodyReader { br_chunks : list gostring; br_index : nat; br_offset : nat; br_closed : bool }.

Definition NewBody (f : BodyFactory) : bodyReader := mkBodyReader (bf_chunks f) 0 0 false.

(** What one [Read] returns: the bytes put in the buffer, and the error. *)
Inductive readErr := NoErr | EOF | ErrClosedPipe.

(** The loop of [Read] over the room left in the buffer; each chunk costs at most two rounds. *)
Fixpoint read_loop (fuel : nat) (chunks : list gostring) (index offset room : nat) : gostring * nat * nat :=
  match fuel with
  | O => ([], index, offset)
  | S fuel =>
      if (room =? 0)%nat then ([], index, offset)
      else match chunks !! index with
           | None => ([], index, offset)
           | Some chunk =>
               if (length chunk <=? offset)%nat then read_loop fuel chunks (S index) 0 room
               else
                 let copied := take room (drop offset chunk) in
                 let n := length copied in
                 let '(more, index', offset') := read_loop fuel chunks index (offset + n) (room - n) in
                 (copied ++ more, index', offset')
           end
  end.

Definition Read (r : bodyReader) (n : nat) : gostring * readErr * bodyReader :=
  if br_closed r then ([], ErrClosedPipe, r)
  else if (n =? 0)%nat then ([], NoErr, r)
  else
    let '(written, index, offset) :=
      read_loop (2 * length (br_chunks r) + 1) (br_chunks r) (br_index r) (br_offset r) n in
    (written, if is_empty written then EOF else NoErr, mkBodyReader (br_chunks r) index offset false).

Definition Close (r : bodyReader) : bodyReader := mkBodyReader (br_chunks r) (br_index r) (br_offset r) true.

(** ** One file (file.go) *)

(** What one [ReadAt] call returns: the bytes and the error. *)
Inductive atErr := AtNil | AtEOF | AtOther.

(** An [io.ReaderAt]: the [n]-th call, at an offset, with a buffer length. *)
Abbreviation readerAt := (nat → Z → nat → gostring * atErr).

Definition fileCopyBufferBytes : Z := 32 * 1024.

(** [section.Read(chunk)] of a section of [limit] bytes from 0. *)
Definition section_read (ra : readerAt) (call : nat) (off limit : Z) (room : nat) : gostring * atErr :=
  if limit <=? off then ([], AtEOF)
  else ra call off (Z.to_nat (Z.min (Z.of_nat room) (limit - off))).

Inductive copied := Copied (bytes : gostring) (calls : nat) | CopyErr (e : multipartError) | CopyFuel.

(** The loop of [copyReaderAtContext]; [dst] is a hash, whose [Write] takes everything.  [out] is what
    was written, whose length is the section's offset. *)
Fixpoint copy_loop (fuel : nat) (ctx_done : nat → bool) (ra : readerAt) (byteLength : Z) (call : nat)
  (out : gostring) : copied :=
  match fuel with
  | O => CopyFuel
  | S fuel =>
      let finish out call :=
        if zlen out =? byteLength then Copied out call else CopyErr (ShortSource (zlen out)) in
      if byteLength <=? zlen out then finish out call
      else if ctx_done call then CopyErr CopyCancelled
      else
        let room := Z.to_nat (Z.min (byteLength - zlen out) fileCopyBufferBytes) in
        let '(data, readErr) := section_read ra call (zlen out) byteLength room in
        let out := out ++ data in
        match readErr with
        | AtEOF => finish out (S call)
        | AtOther => CopyErr ReadFailed
        | AtNil => if is_empty data then CopyErr NoProgress
                   else copy_loop fuel ctx_done ra byteLength (S call) out
        end
  end.

Definition copyReaderAtContext (ctx_done : nat → bool) (ra : option readerAt) (byteLength : Z) (call : nat) : copied :=
  match ra with
  | None => CopyErr ReaderNil
  | Some ra =>
      if byteLength <? 0 then CopyErr NegativeLength
      else copy_loop (S (Z.to_nat byteLength)) ctx_done ra byteLength call []
  end.

Definition DigestReaderAt (ctx_done : nat → bool) (ra : option readerAt) (byteLength : Z) (call : nat)
  : result multipartError gostring :=
  match copyReaderAtContext ctx_done ra byteLength call with
  | Copied bytes _ => Ok (hexEncode (sha256 bytes))
  | CopyErr e => Err e
  | CopyFuel => Err NoProgress
  end.

Fixpoint checkedMultipartLength (total : Z) (parts : list Z) : option Z :=
  match parts with
  | [] => Some total
  | part :: rest =>
      if (part <? 0) || (MaxInt64 - part <? total) then None else checkedMultipartLength (total + part) rest
  end.

Record FileBodyFactory := mkFileBodyFactory {
  ff_contentType : gostring;
  ff_bodySHA256 : gostring;
  ff_bodyLength : Z;
  ff_prefix : gostring;
  ff_suffix : gostring;
  ff_fileLength : Z;
}.

Definition file_prefix (boundary metadataBytes fileName contentType : gostring) : gostring :=
  metadata_header boundary ++ metadataBytes ++ crlf ++ go "--" ++ boundary ++ crlf
  ++ go "Content-Disposition: form-data; name=" ++ dq ++ go "file" ++ dq ++ go "; filename=" ++ dq
  ++ fileName ++ dq ++ crlf ++ go "Content-Type: " ++ contentType ++ crlf ++ crlf.

Definition file_suffix (boundary : gostring) : gostring := crlf ++ go "--" ++ boundary ++ go "--" ++ crlf.

Definition NewFileBodyFactory (ctx_done : nat → bool) (boundary metadataBytes fileName contentType : gostring)
  (byteLength : Z) (ra : option readerAt) (call : nat) : result multipartError FileBodyFactory :=
  let prefix := file_prefix boundary metadataBytes fileName contentType in
  let suffix := file_suffix boundary in
  match checkedMultipartLength 0 [zlen prefix; byteLength; zlen suffix] with
  | None => Err LengthOverflow
  | Some bodyLength =>
      match ValidateReplyMultipartEnvelope metadataBytes bodyLength with
      | Some err => Err err
      | None =>
          match ra with
          | None => Err ReaderNil
          | Some _ =>
              match copyReaderAtContext ctx_done ra byteLength call with
              | CopyErr e => Err e
              | CopyFuel => Err NoProgress
              | Copied bytes _ =>
                  Ok (mkFileBodyFactory (go "multipart/form-data; boundary=" ++ boundary)
                        (hexEncode (sha256 (prefix ++ bytes ++ suffix))) bodyLength prefix suffix byteLength)
              end
          end
      end
  end.

(** [fileBodyReader]: an [io.MultiReader] over the prefix, a section of the file and the suffix.  The
    stage counts the readers the multi-reader has dropped. *)
Record fileBodyReader := mkFileBodyReader {
  fr_stage : nat;
  fr_prefix : gostring;    (** not yet read *)
  fr_off : Z;
  fr_suffix : gostring;    (** not yet read *)
  fr_calls : nat;          (** [ReadAt] calls so far *)
  fr_closed : bool;
}.

Definition NewFileBody (f : FileBodyFactory) (calls : nat) : fileBodyReader :=
  mkFileBodyReader 0 (ff_prefix f) 0 (ff_suffix f) calls false.

Inductive fileErr := FNil | FEOF | FClosed | FRead.

Definition next_stage (r : fileBodyReader) : fileBodyReader :=
  mkFileBodyReader (S (fr_stage r)) (fr_prefix r) (fr_off r) (fr_suffix r) (fr_calls r) (fr_closed r).

(** The multi-reader: a reader that ends is dropped, and one that ends without data is passed over. *)
Fixpoint multi_read (fuel : nat) (ra : readerAt) (limit : Z) (r : fileBodyReader) (n : nat)
  : gostring * fileErr * fileBodyReader :=
  match fuel with
  | O => ([], FEOF, r)
  | S fuel =>
      match fr_stage r with
      | O =>
          if is_empty (fr_prefix r) then multi_read fuel ra limit (next_stage r) n
          else (take n (fr_prefix r), FNil,
                mkFileBodyReader 0 (drop n (fr_prefix r)) (fr_off r) (fr_suffix r) (fr_calls r) false)
      | S O =>
          if limit <=? fr_off r then multi_read fuel ra limit (next_stage r) n
          else
            let '(data, err) := section_read ra (fr_calls r) (fr_off r) limit n in
            let r' := mkFileBodyReader 1 (fr_prefix r) (fr_off r + zlen data) (fr_suffix r) (S (fr_calls r)) false in
            match err with
            | AtNil => (data, FNil, r')
            | AtOther => (data, FRead, r')
            | AtEOF => if is_empty data then multi_read fuel ra limit (next_stage r') n
                       else (data, FNil, next_stage r')
            end
      | S (S O) =>
          if is_empty (fr_suffix r) then multi_read fuel ra limit (next_stage r) n
          else (take n (fr_suffix r), FNil,
                mkFileBodyReader 2 (fr_prefix r) (fr_off r) (drop n (fr_suffix r)) (fr_calls r) false)
      | _ => ([], FEOF, r)
      end
  end.

Definition FileRead (ra : readerAt) (limit : Z) (r : fileBodyReader) (n : nat) : gostring * fileErr * fileBodyReader :=
  if fr_closed r then ([], FClosed, r) else multi_read 4 ra limit r n.

Definition FileClose (r : fileBodyReader) : fileBodyReader :=
  mkFileBodyReader (fr_stage r) (fr_prefix r) (fr_off r) (fr_suffix r) (fr_calls r) true.

(** A closed body gives nothing more, and stays closed. *)
Lemma FileRead_closed ra limit r n : FileRead ra limit (FileClose r) n = ([], FClosed, FileClose r).
Proof. done. Qed.

(** ** The reader of images refines a byte stream *)

(** What a reader at a position has still to give. *)
Definition unread_at (chunks : list gostring) (index offset : nat) : gostring :=
  match drop index chunks with
  | [] => []
  | c :: rest => drop offset c ++ concat rest
  end.

Definition unread (r : bodyReader) : gostring := unread_at (br_chunks r) (br_index r) (br_offset r).

(** The rounds of the loop that suffice from a position. *)
Definition rounds (chunks : list gostring) (index offset : nat) : nat :=
  match drop index chunks with
  | [] => 0
  | c :: rest => 2 * length rest + (if (length c <=? offset)%nat then 1 else 2)
  end.

Lemma drop_lookup_cons {A} (l : list A) i x : l !! i = Some x → drop i l = x :: drop (S i) l.
Proof. intros H. by apply drop_S. Qed.

Lemma rounds_next chunks i : (rounds chunks (S i) 0 ≤ 2 * length (drop (S i) chunks))%nat.
Proof. unfold rounds. destruct (drop (S i) chunks) as [|c rest]; simpl; [lia |]. case_match; lia. Qed.

Lemma read_loop_spec fuel chunks index offset room :
  (rounds chunks index offset ≤ fuel ∨ room = 0)%nat →
  let '(out, index', offset') := read_loop fuel chunks index offset room in
  out = take room (unread_at chunks index offset) ∧
  unread_at chunks index' offset' = drop room (unread_at chunks index offset).
Proof.
  revert index offset room. induction fuel as [|fuel IH]; intros index offset room Hf; cbn [read_loop].
  - assert (unread_at chunks index offset = [] ∨ room = 0%nat) as [E| ->].
    { destruct Hf as [Hf|]; [left | by right]. unfold rounds, unread_at in *.
      destruct (drop index chunks); [done |]. case_match; lia. }
    + by rewrite E, take_nil, drop_nil.
    + by rewrite take_0, drop_0.
  - destruct (room =? 0)%nat eqn:Er; [apply Nat.eqb_eq in Er as ->; by rewrite take_0, drop_0 |].
    apply Nat.eqb_neq in Er. destruct Hf as [Hf|]; [|done].
    destruct (chunks !! index) as [chunk|] eqn:Ec.
    2:{ unfold unread_at. rewrite drop_ge by (by apply lookup_ge_None). by rewrite take_nil, drop_nil. }
    pose proof (drop_lookup_cons _ _ _ Ec) as Hd.
    assert (unread_at chunks index offset = drop offset chunk ++ concat (drop (S index) chunks)) as Hu
      by (unfold unread_at; by rewrite Hd).
    unfold rounds in Hf. rewrite Hd in Hf.
    destruct (length chunk <=? offset)%nat eqn:El.
    + apply Nat.leb_le in El.
      assert (unread_at chunks index offset = unread_at chunks (S index) 0) as ->.
      { rewrite Hu, drop_ge by done. unfold unread_at. by destruct (drop (S index) chunks). }
      apply IH. left. pose proof (rounds_next chunks index). lia.
    + apply Nat.leb_gt in El. set (cp := take room (drop offset chunk)).
      assert (length cp = Nat.min room (length chunk - offset)) as Hcp by (subst cp; by rewrite length_take, length_drop).
      assert (cp ++ unread_at chunks index (offset + length cp) = unread_at chunks index offset) as Happ.
      { rewrite Hu. unfold unread_at. rewrite Hd, <- drop_drop, app_assoc. f_equal.
        assert (cp = take (length cp) (drop offset chunk)) as E.
        { rewrite Hcp. subst cp. destruct (decide (room ≤ length chunk - offset)%nat).
          - by rewrite Nat.min_l by done.
          - rewrite Nat.min_r by lia. rewrite !take_ge by (rewrite length_drop; lia). done. }
        rewrite E at 1. apply take_drop. }
      specialize (IH index (offset + length cp)%nat (room - length cp)%nat).
      destruct (read_loop fuel chunks index (offset + length cp) (room - length cp)) as [[more i'] o'].
      destruct IH as [-> ->].
      { unfold rounds. rewrite Hd. destruct (decide (room - length cp = 0)%nat) as [|Hne]; [by right | left].
        rewrite (proj2 (Nat.leb_le _ _)) by lia. lia. }
      rewrite <- Happ. split.
      * rewrite take_app, (take_ge cp) by lia. done.
      * rewrite drop_app, (drop_ge cp) by lia. done.
Qed.

Lemma Read_spec r n :
  br_closed r = false → (0 < n)%nat →
  let '(data, err, r') := Read r n in
  data = take n (unread r) ∧ unread r' = drop n (unread r) ∧ br_closed r' = false ∧
  (err = if is_empty (unread r) then EOF else NoErr).
Proof.
  intros Hc Hn. unfold Read. rewrite Hc. destruct (n =? 0)%nat eqn:E; [apply Nat.eqb_eq in E; lia |].
  pose proof (read_loop_spec (2 * length (br_chunks r) + 1) (br_chunks r) (br_index r) (br_offset r) n) as H.
  destruct (read_loop _ _ _ _ _) as [[out i'] o'].
  destruct H as [-> Hu].
  { left. unfold rounds. pose proof (length_drop (br_chunks r) (br_index r)).
    destruct (drop _ _); simpl in *; [lia |]. case_match; lia. }
  split_and!; [done | exact Hu | done |].
  fold (unread r). destruct (unread r); [by rewrite take_nil |]. destruct n; [lia | done].
Qed.

(** Successive reads with buffers of the given sizes: what they return, the last error, the reader. *)
Fixpoint read_all (r : bodyReader) (sizes : list nat) : gostring * bodyReader :=
  match sizes with
  | [] => ([], r)
  | n :: rest =>
      let '(data, _, r') := Read r n in
      let '(more, r'') := read_all r' rest in
      (data ++ more, r'')
  end.

Lemma read_all_spec r sizes :
  br_closed r = false → Forall (λ n, 0 < n)%nat sizes →
  let '(data, r') := read_all r sizes in
  data = take (sum_list sizes) (unread r) ∧ unread r' = drop (sum_list sizes) (unread r) ∧ br_closed r' = false.
Proof.
  intros Hc Hs. revert r Hc. induction Hs as [|n sizes Hn Hs IH]; intros r Hc; cbn [read_all].
  { change (sum_list []) with 0%nat. by rewrite take_0, drop_0. }
  change (sum_list (n :: sizes)) with (n + sum_list sizes)%nat.
  pose proof (Read_spec r n Hc Hn) as H. destruct (Read r n) as [[data err] r'].
  destruct H as (-> & Hu & Hc' & _). specialize (IH r' Hc'). destruct (read_all r' sizes) as [more r''].
  destruct IH as (-> & Hu' & Hc''). rewrite Hu in *.
  split_and!; [by rewrite take_take_drop | by rewrite Hu', drop_drop | done].
Qed.

Lemma foldl_len chunks n : foldl (λ n chunk, n + zlen chunk) n chunks = n + zlen (concat chunks : gostring).
Proof.
  revert n. induction chunks as [|c chunks IH]; intros n; cbn [foldl concat]; [simpl; lia |].
  rewrite IH, length_app. lia.
Qed.

Lemma foldl_bytes (chunks : list gostring) h : foldl (λ h chunk, h ++ chunk) h chunks = h ++ concat chunks.
Proof.
  revert h. induction chunks as [|c chunks IH]; intros h; cbn [foldl concat]; [by rewrite app_nil_r |].
  by rewrite IH, app_assoc.
Qed.

(** Injectivity without evaluating the two sides. *)
Lemma Ok_inj {E A} (a b : A) : @Ok E A a = Ok b → a = b.
Proof. congruence. Qed.

Lemma NewBodyFactory_ok boundary metadata images contentTypes f :
  NewBodyFactory boundary metadata images contentTypes = Ok f →
  bf_bodySHA256 f = hexEncode (sha256 (concat (bf_chunks f))) ∧
  bf_bodyLength f = zlen (concat (bf_chunks f)) ∧ bf_bodyLength f ≤ maxReplyMultipartBodyBytes ∧
  zlen metadata ≤ maxReplyMetadataBytes.
Proof.
  unfold NewBodyFactory, ValidateReplyMultipartEnvelope.
  destruct (image_chunks _ _ _ _) as [ics|]; [|done]. cbv zeta.
  destruct (_ <? zlen metadata) eqn:E1; [done |]. destruct (_ <? foldl _ _ _) eqn:E2; [done |]. bool_props.
  intros H. apply Ok_inj in H. subst f. cbn [bf_bodySHA256 bf_bodyLength bf_chunks].
  rewrite foldl_bytes, foldl_len in *. rewrite app_nil_l. split_and!; [reflexivity | lia | lia | done].
Qed.

(** What is streamed is what was signed.  For every factory that is built, every body it hands out
    gives, to any sequence of reads with non-empty buffers, the consecutive bytes of one and the same
    string, and end-of-file exactly when that string is used up; its SHA-256 is the hash that is signed
    and its length the announced content length, which is within the server's limit. *)
Theorem image_body_is_signed (boundary metadata : gostring) (images contentTypes : list gostring)
    (f : BodyFactory) (sizes : list nat) (n : nat) :
  NewBodyFactory boundary metadata images contentTypes = Ok f →
  Forall (λ n, 0 < n)%nat sizes → (0 < n)%nat →
  let body := concat (bf_chunks f) in
  let '(data, r) := read_all (NewBody f) sizes in
  data = take (sum_list sizes) body ∧
  ((Read r n).1.2 = EOF ↔ data = body) ∧
  bf_bodySHA256 f = hexEncode (sha256 body) ∧ bf_bodyLength f = zlen body ∧
  zlen body ≤ maxReplyMultipartBodyBytes.
Proof.
  intros Hf Hs Hn body. apply NewBodyFactory_ok in Hf as (Hh & Hl & Hm & _).
  assert (unread (NewBody f) = body) as Hb.
  { unfold unread, unread_at. simpl. subst body. by destruct (bf_chunks f). }
  pose proof (read_all_spec (NewBody f) sizes eq_refl Hs) as H. destruct (read_all (NewBody f) sizes) as [data r].
  destruct H as (-> & Hu & Hc). rewrite Hb in *.
  split_and!; [done | | done | done | subst body; lia].
  pose proof (Read_spec r n Hc Hn) as H. destruct (Read r n) as [[d e] r']. destruct H as (_ & _ & _ & ->). simpl.
  rewrite Hu. pose proof (take_drop (sum_list sizes) body) as Htd. split.
  - destruct (is_empty _) eqn:E; [|done]. bool_props. rewrite E, app_nil_r in Htd. done.
  - intros E. rewrite E in Htd. apply (f_equal length) in Htd. rewrite length_app in Htd.
    assert (length (drop (sum_list sizes) body) = 0%nat) as H%nil_length_inv by lia. by rewrite H.
Qed.

Lemma image_body_is_signed_witness :
  let f := match NewBodyFactory (go "b0") (go "{}") [go "GIF89a"] [go "image/gif"] with
           | Ok f => f | Err _ => mkBodyFactory [] [] 0 [] end in
  (read_all (NewBody f) [7; 300]%nat).1 = concat (bf_chunks f).
Proof.
  set (f := match NewBodyFactory _ _ _ _ with Ok f => f | Err _ => _ end). cbv zeta.
  assert (NewBodyFactory (go "b0") (go "{}") [go "GIF89a"] [go "image/gif"] = Ok f) as Hf by (vm_compute; reflexivity).
  pose proof (image_body_is_signed (go "b0") (go "{}") [go "GIF89a"] [go "image/gif"] f [7; 300]%nat 1 Hf
    ltac:(repeat constructor) ltac:(lia)) as H. cbv zeta in H.
  destruct (read_all (NewBody f) [7; 300]%nat) as [data r]. destruct H as (H & _).
  change (data = concat (bf_chunks f)). rewrite H. vm_compute. reflexivity.
Defined.

(** ** The file *)

(** The documented behaviour of [io.ReaderAt] on a file that does not change: the bytes at the offset,
    all that were asked for unless the file ends, [io.EOF] only at its end, no other error. *)
Definition stable (ra : readerAt) (content : gostring) : Prop :=
  ∀ call off m, 0 ≤ off →
    (ra call off m).1 = take m (drop (Z.to_nat off) content) ∧
    match (ra call off m).2 with
    | AtNil => length (ra call off m).1 = m
    | AtEOF => zlen content ≤ off + zlen (ra call off m).1
    | AtOther => False
    end.

(** Never more bytes than the buffer holds. *)
Definition bounded (ra : readerAt) : Prop := ∀ call off m, (length (ra call off m).1 ≤ m)%nat.

Lemma stable_bounded ra content call off m :
  stable ra content → 0 ≤ off → (length (ra call off m).1 ≤ m)%nat.
Proof. intros Hs Ho. destruct (Hs call off m Ho) as [-> _]. rewrite length_take. lia. Qed.

(** Whatever the source does, the loop ends, and what it accepts has the announced length. *)
Lemma copy_loop_total ctx_done ra byteLength fuel call out :
  bounded ra → zlen out ≤ byteLength → byteLength - zlen out < Z.of_nat fuel →
  match copy_loop fuel ctx_done ra byteLength call out with
  | CopyFuel => False
  | Copied bytes _ => zlen bytes = byteLength
  | CopyErr _ => True
  end.
Proof.
  intros Hb. revert call out. induction fuel as [|fuel IH]; intros call out Hle Hf; [lia |]. cbn [copy_loop]. cbv zeta.
  destruct (byteLength <=? zlen out) eqn:El; bool_props.
  { destruct (zlen out =? byteLength) eqn:E; bool_props; done. }
  destruct (ctx_done call); [done |]. unfold section_read. rewrite (proj2 (Z.leb_gt _ _)) by lia.
  set (m := Z.to_nat (Z.min _ (byteLength - zlen out))).
  pose proof (Hb call (zlen out) m) as Hd. destruct (ra call (zlen out) m) as [data err]. simpl in Hd.
  assert (zlen (out ++ data) ≤ byteLength) as Hle' by (rewrite length_app; lia).
  destruct err; [| |done].
  - destruct (is_empty data) eqn:Ee; [done |]. apply IH; [done |]. destruct data; [done |].
    rewrite length_app in *. cbn [length] in *. lia.
  - destruct (zlen (out ++ data) =? byteLength) eqn:E; bool_props; done.
Qed.

Lemma copy_loop_stable ra content byteLength fuel call out :
  stable ra content → out = take (length out) content → zlen out ≤ byteLength →
  byteLength - zlen out < Z.of_nat fuel →
  match copy_loop fuel (λ _, false) ra byteLength call out with
  | CopyFuel => False
  | Copied bytes _ => bytes = take (Z.to_nat byteLength) content ∧ byteLength ≤ zlen content
  | CopyErr e => e = ShortSource (zlen content) ∧ zlen content < byteLength
  end.
Proof.
  intros Hs. revert call out.
  assert (∀ data, data = take (length data) content → zlen data ≤ zlen content) as Hlen.
  { intros data E. rewrite E, length_take. lia. }
  assert (∀ data call, data = take (length data) content → zlen data ≤ byteLength →
    (zlen data = byteLength ∨ zlen content ≤ zlen data) →
    match (if zlen data =? byteLength then Copied data call else CopyErr (ShortSource (zlen data))) with
    | CopyFuel => False
    | Copied bytes _ => bytes = take (Z.to_nat byteLength) content ∧ byteLength ≤ zlen content
    | CopyErr e => e = ShortSource (zlen content) ∧ zlen content < byteLength
    end) as Hfin.
  { intros data call E Hle Hend. specialize (Hlen data E).
    destruct (zlen data =? byteLength) eqn:Eb; bool_props.
    - split; [|lia]. rewrite <- Eb, Nat2Z.id. done.
    - split; [|lia]. f_equal. lia. }
  induction fuel as [|fuel IH]; intros call out E Hle Hf; [lia |]. cbn [copy_loop]. cbv zeta.
  destruct (byteLength <=? zlen out) eqn:El; bool_props; [apply Hfin; [done | done | left; lia] |].
  unfold section_read. rewrite (proj2 (Z.leb_gt _ _)) by lia.
  set (m := Z.to_nat (Z.min _ (byteLength - zlen out))).
  assert (0 < m)%nat as Hm by (subst m; unfold fileCopyBufferBytes; lia).
  destruct (Hs call (zlen out) m ltac:(lia)) as [Hd He]. destruct (ra call (zlen out) m) as [data err].
  cbn [fst snd] in Hd, He. rewrite Nat2Z.id in Hd.
  assert (length data ≤ m)%nat as Hdm by (rewrite Hd, length_take; lia).
  assert (out ++ data = take (length (out ++ data)) content) as E'.
  { rewrite length_app, <- take_take_drop, <- E. f_equal. rewrite Hd at 2. rewrite length_take, length_drop.
    rewrite Hd. destruct (decide (m ≤ length content - length out)%nat).
    - by rewrite Nat.min_l by done.
    - rewrite Nat.min_r by lia. rewrite !take_ge by (rewrite length_drop; lia). done. }
  assert (zlen (out ++ data) ≤ byteLength) as Hle' by (rewrite length_app; lia).
  destruct err; [| |done].
  - destruct data as [|b data]; [simpl in He; lia |]. apply IH; [done | done |].
    rewrite length_app in *. cbn [length] in *. lia.
  - apply Hfin; [done | done |]. right. rewrite length_app. lia.
Qed.

(** The digest is of the announced bytes.  Over any source that keeps to its buffers, the copy loop
    comes to an end, and a digest is only given of exactly [byteLength] bytes; over a file that does not
    change it is the SHA-256 of its first [byteLength] bytes, and a file that is shorter is refused. *)
Theorem file_digest_exact (ra : readerAt) (content : gostring) (byteLength : Z) (call : nat) (ctx_done : nat → bool) :
  bounded ra → 0 ≤ byteLength →
  copyReaderAtContext ctx_done (Some ra) byteLength call ≠ CopyFuel ∧
  (∀ bytes n, copyReaderAtContext ctx_done (Some ra) byteLength call = Copied bytes n → zlen bytes = byteLength) ∧
  (stable ra content →
   DigestReaderAt (λ _, false) (Some ra) byteLength call =
     if byteLength <=? zlen content then Ok (hexEncode (sha256 (take (Z.to_nat byteLength) content)))
     else Err (ShortSource (zlen content))).
Proof.
  intros Hb Hp. unfold DigestReaderAt, copyReaderAtContext. rewrite (proj2 (Z.ltb_ge _ _)) by done.
  pose proof (copy_loop_total ctx_done ra byteLength (S (Z.to_nat byteLength)) call [] Hb ltac:(simpl; lia) ltac:(simpl; lia)) as H.
  split_and!.
  - by destruct (copy_loop _ _ _ _ _ _).
  - intros bytes n E. by rewrite E in H.
  - intros Hs. pose proof (copy_loop_stable ra content byteLength (S (Z.to_nat byteLength)) call [] Hs eq_refl
      ltac:(simpl; lia) ltac:(simpl; lia)) as H'.
    destruct (copy_loop _ (λ _, false) _ _ _ _) as [bytes n|e|]; [| |done].
    + destruct H' as [-> Hl]. rewrite (proj2 (Z.leb_le _ _)) by done. reflexivity.
    + destruct H' as [-> Hl]. by rewrite (proj2 (Z.leb_gt _ _)) by done.
Qed.

(** A byte slice as a source, as [bytes.Reader.ReadAt] serves it. *)
Definition bytes_reader (content : gostring) : readerAt := λ _ off m,
  let data := take m (drop (Z.to_nat off) content) in
  (data, if (length data <? m)%nat then AtEOF else AtNil).

Lemma bytes_reader_bounded content : bounded (bytes_reader content).
Proof. intros call off m. simpl. rewrite length_take. lia. Qed.

Lemma bytes_reader_stable content : stable (bytes_reader content) content.
Proof.
  intros call off m Ho. split; [done |]. unfold bytes_reader. cbn [fst snd]. rewrite length_take, length_drop.
  destruct (_ <? m)%nat eqn:E; [apply Nat.ltb_lt in E; lia | apply Nat.ltb_ge in E; lia].
Qed.

(** ** Streaming the file *)

Section file_stream.
Context (ra : readerAt) (content : gostring) (limit : Z).
Context (Hstable : stable ra content) (Hlimit : 0 ≤ limit ≤ zlen content).

Definition file_part (off : Z) : gostring := drop (Z.to_nat off) (take (Z.to_nat limit) content).

(** What a file reader has still to give. *)
Definition left_over (r : fileBodyReader) : gostring :=
  match fr_stage r with
  | O => fr_prefix r ++ file_part (fr_off r) ++ fr_suffix r
  | S O => file_part (fr_off r) ++ fr_suffix r
  | S (S O) => fr_suffix r
  | _ => []
  end.

Definition file_reader_ok (r : fileBodyReader) : Prop := 0 ≤ fr_off r ≤ limit ∧ fr_closed r = false ∧ (fr_stage r ≤ 3)%nat.

Ltac file_ok E := unfold file_reader_ok; simpl; rewrite ?E; split_and!; first [done | lia].

(** One read's outcome against the stream. *)
Definition reads_from (r : fileBodyReader) (res : gostring * fileErr * fileBodyReader) : Prop :=
  let '(data, err, r') := res in
  left_over r = data ++ left_over r' ∧ file_reader_ok r' ∧
  (err = FNil ∧ data ≠ [] ∨ err = FEOF ∧ data = [] ∧ left_over r = []).

Lemma take_nonempty (n : nat) (s : gostring) : (0 < n)%nat → s ≠ [] → take n s ≠ [].
Proof. by destruct n, s; try lia. Qed.

Lemma section_step off call n data err :
  0 ≤ off < limit → (0 < n)%nat → section_read ra call off limit n = (data, err) →
  file_part off = data ++ file_part (off + zlen data) ∧ off + zlen data ≤ limit ∧ data ≠ [] ∧ err ≠ AtOther ∧
  (err = AtEOF → off + zlen data = limit).
Proof.
  intros Ho Hn. unfold section_read. rewrite (proj2 (Z.leb_gt _ _)) by lia.
  set (m := Z.to_nat (Z.min _ _)). intros E. destruct (Hstable call off m ltac:(lia)) as [Hd He].
  rewrite E in Hd, He. cbn [fst snd] in Hd, He.
  assert (0 < m)%nat as Hm by (subst m; lia). assert (Z.of_nat m ≤ limit - off) as Hm' by (subst m; lia).
  assert (length data = m) as Hlen by (rewrite Hd, length_take, length_drop; lia).
  assert (file_part off = data ++ file_part (off + zlen data)) as Hpart.
  { unfold file_part. rewrite <- (take_drop m (drop _ (take _ _))). f_equal.
    - rewrite Hd, !skipn_firstn_comm, take_take. f_equal. lia.
    - rewrite drop_drop, Hlen. f_equal. lia. }
  split_and!; [exact Hpart | lia | intros ->; simpl in Hlen; lia | by destruct err |].
  intros ->. lia.
Qed.

Lemma file_part_end : file_part limit = [].
Proof. apply drop_ge. rewrite length_take. lia. Qed.

Lemma multi_read_spec fuel r n :
  file_reader_ok r → (0 < n)%nat → (4 ≤ fuel + fr_stage r)%nat → reads_from r (multi_read fuel ra limit r n).
Proof.
  revert r. induction fuel as [|fuel IH]; intros r (Ho & Hc & Hst) Hn Hf; [lia |]. cbn [multi_read].
  assert (∀ r', left_over r' = left_over r → file_reader_ok r' → (4 ≤ fuel + fr_stage r')%nat →
    reads_from r (multi_read fuel ra limit r' n)) as Hskip.
  { intros r' Hl Hok Hf'. specialize (IH r' Hok Hn Hf'). unfold reads_from in *. by rewrite <- Hl. }
  destruct (fr_stage r) as [|[|[|st]]] eqn:Es.
  - destruct (is_empty (fr_prefix r)) eqn:Ee; bool_props.
    + apply Hskip; [|file_ok Es|simpl; rewrite Es; lia].
      unfold left_over. simpl. by rewrite Es, Ee.
    + unfold reads_from. split_and!; [|file_ok Es|left; split; [done | by apply take_nonempty]].
      unfold left_over. simpl. rewrite Es. by rewrite (app_assoc (take _ _)), take_drop.
  - destruct (limit <=? fr_off r) eqn:Ee; bool_props.
    + apply Hskip; [|file_ok Es|simpl; rewrite Es; lia].
      unfold left_over. simpl. rewrite Es. assert (fr_off r = limit) as -> by lia. by rewrite file_part_end.
    + destruct (section_read ra (fr_calls r) (fr_off r) limit n) as [data err] eqn:Er.
      assert (0 ≤ fr_off r < limit) as Hoff by lia.
      destruct (section_step _ _ _ _ _ Hoff Hn Er) as (Hp & Hle & Hne & Hno & Heof).
      destruct err; [| |done].
      * unfold reads_from. split_and!; [|file_ok Es|by left].
        unfold left_over. simpl. by rewrite Es, Hp, app_assoc.
      * destruct (is_empty data) eqn:Ed; bool_props; [done |].
        unfold reads_from. split_and!; [|file_ok Es|by left].
        unfold left_over. simpl. rewrite Es, Hp, (Heof eq_refl), file_part_end. by rewrite app_nil_r.
  - destruct (is_empty (fr_suffix r)) eqn:Ee; bool_props.
    + apply Hskip; [|file_ok Es|simpl; rewrite Es; lia].
      unfold left_over. simpl. by rewrite Es, Ee.
    + unfold reads_from. split_and!; [|file_ok Es|left; split; [done | by apply take_nonempty]].
      unfold left_over. simpl. by rewrite Es, take_drop.
  - unfold reads_from. assert (left_over r = []) as Hl by (unfold left_over; by rewrite Es).
    rewrite Hl. split_and!; [done | file_ok Es | by right].
Qed.

Fixpoint file_read_all (r : fileBodyReader) (sizes : list nat) : gostring * fileBodyReader :=
  match sizes with
  | [] => ([], r)
  | n :: rest =>
      let '(data, _, r') := FileRead ra limit r n in
      let '(more, r'') := file_read_all r' rest in
      (data ++ more, r'')
  end.

Lemma file_read_all_spec r sizes :
  file_reader_ok r → Forall (λ n, 0 < n)%nat sizes →
  let '(data, r') := file_read_all r sizes in left_over r = data ++ left_over r' ∧ file_reader_ok r'.
Proof.
  intros Hok Hs. revert r Hok. induction Hs as [|n sizes Hn Hs IH]; intros r Hok; cbn [file_read_all]; [done |].
  pose proof (multi_read_spec 4 r n Hok Hn ltac:(lia)) as H. unfold FileRead.
  destruct Hok as (_ & Hc & _). rewrite Hc.
  destruct (multi_read 4 ra limit r n) as [[data err] r']. destruct H as (Hl & Hok' & _).
  specialize (IH r' Hok'). destruct (file_read_all r' sizes) as [more r'']. destruct IH as [Hl' Hok''].
  split; [|done]. by rewrite Hl, Hl', app_assoc.
Qed.
End file_stream.

Lemma checkedMultipartLength_spec total parts n :
  checkedMultipartLength total parts = Some n → n = total + foldr Z.add 0 parts ∧ Forall (λ p, 0 ≤ p) parts.
Proof.
  revert total. induction parts as [|p parts IH]; intros total; cbn [checkedMultipartLength foldr].
  - intros [= <-]. split; [lia | constructor].
  - destruct (_ || _) eqn:E; [done |]. bool_props. intros [-> Hf]%IH. split; [lia |]. by constructor.
Qed.

(** A file is streamed as it was signed.  While the file does not change, every body a file factory
    hands out gives, to any reads with non-empty buffers, consecutive pieces of the prefix, the first
    [byteLength] bytes of the file and the suffix; each read makes progress until the end, where it
    reports end-of-file; the signed hash and the content length are those of this string. *)
Theorem file_body_is_signed (ra : readerAt) (content boundary metadata fileName contentType : gostring)
    (byteLength : Z) (call call' : nat) (f : FileBodyFactory) (sizes : list nat) (n : nat) :
  stable ra content →
  NewFileBodyFactory (λ _, false) boundary metadata fileName contentType byteLength (Some ra) call = Ok f →
  Forall (λ n, 0 < n)%nat sizes → (0 < n)%nat →
  let body := file_prefix boundary metadata fileName contentType ++ take (Z.to_nat byteLength) content
              ++ file_suffix boundary in
  let '(data, r) := file_read_all ra byteLength (NewFileBody f call') sizes in
  let '(next, err, _) := FileRead ra byteLength r n in
  (∃ rest, body = data ++ rest ∧ (∃ later, rest = next ++ later) ∧
     (err = FNil ∧ next ≠ [] ∨ err = FEOF ∧ rest = [])) ∧
  ff_bodySHA256 f = hexEncode (sha256 body) ∧ ff_bodyLength f = zlen body ∧
  zlen body ≤ maxReplyMultipartBodyBytes.
Proof.
  intros Hst Hf Hs Hn body. unfold NewFileBodyFactory in Hf. cbv zeta in Hf.
  destruct (checkedMultipartLength _ _) as [len|] eqn:Ec; [|done].
  apply checkedMultipartLength_spec in Ec as [-> Hpos].
  apply Forall_cons in Hpos as [_ Hpos]. apply Forall_cons in Hpos as [Hpos _].
  destruct (ValidateReplyMultipartEnvelope _ _) eqn:Ev; [done |].
  unfold copyReaderAtContext in Hf. rewrite (proj2 (Z.ltb_ge _ _)) in Hf by done.
  pose proof (copy_loop_stable ra content byteLength (S (Z.to_nat byteLength)) call [] Hst eq_refl
    ltac:(simpl; lia) ltac:(simpl; lia)) as Hcopy.
  destruct (copy_loop _ _ _ _ _ _) as [bytes k|e|]; try done. destruct Hcopy as [-> Hlen]. apply Ok_inj in Hf. subst f.
  assert (zlen body = zlen (file_prefix boundary metadata fileName contentType) + (byteLength + (zlen (file_suffix boundary) + 0))) as Hbody.
  { subst body. rewrite !length_app, length_take. lia. }
  cbn [ff_bodySHA256 ff_bodyLength]. unfold ValidateReplyMultipartEnvelope in Ev.
  destruct (_ <? zlen metadata); [done |]. destruct (_ <? _) eqn:El in Ev; [done |]. bool_props. cbn [foldr] in *.
  set (r0 := NewFileBody _ call').
  assert (left_over content byteLength r0 = body) as H0.
  { subst r0 body. unfold left_over, file_part. cbn [NewFileBody fr_stage fr_prefix fr_off fr_suffix ff_prefix ff_suffix].
    change (Z.to_nat 0) with 0%nat. by rewrite drop_0. }
  assert (file_reader_ok byteLength r0) as Hr0 by (repeat split; simpl; lia).
  pose proof (file_read_all_spec ra content byteLength Hst ltac:(lia) r0 sizes Hr0 Hs) as Hall.
  destruct (file_read_all ra byteLength r0 sizes) as [data r]. destruct Hall as [Hl Hok].
  pose proof (multi_read_spec ra content byteLength Hst ltac:(lia) 4 r n Hok Hn ltac:(lia)) as Hnext.
  unfold FileRead. rewrite (proj1 (proj2 Hok)).
  destruct (multi_read 4 ra byteLength r n) as [[next err] r']. destruct Hnext as (Hn1 & _ & Hn2).
  split_and!; [|reflexivity | lia | lia]. exists (left_over content byteLength r). rewrite <- H0.
  split_and!; [exact Hl | by eexists |]. destruct Hn2 as [?|(? & _ & ?)]; [by left | by right].
Qed.

Definition demo_file : FileBodyFactory :=
  match NewFileBodyFactory (λ _, false) (go "b0") (go "{}") (go "a.txt") (go "text/plain") 3
          (Some (bytes_reader (go "abcdef"))) 0 with
  | Ok f => f | Err _ => mkFileBodyFactory [] [] 0 [] [] 0 end.

Lemma file_body_is_signed_witness :
  ff_bodySHA256 demo_file = hexEncode (sha256 (file_prefix (go "b0") (go "{}") (go "a.txt") (go "text/plain")
    ++ take (Z.to_nat 3) (go "abcdef") ++ file_suffix (go "b0"))).
Proof.
  assert (NewFileBodyFactory (λ _, false) (go "b0") (go "{}") (go "a.txt") (go "text/plain") 3
    (Some (bytes_reader (go "abcdef"))) 0 = Ok demo_file) as Hf by (vm_compute; reflexivity).
  pose proof (file_body_is_signed (bytes_reader (go "abcdef")) (go "abcdef") (go "b0") (go "{}") (go "a.txt")
    (go "text/plain") 3 0 0 demo_file [5; 7]%nat 9 (bytes_reader_stable _) Hf ltac:(repeat constructor) ltac:(lia)) as H.
  cbv zeta in H. destruct (file_read_all _ _ _ _) as [data r]. destruct (FileRead _ _ _ _) as [[next err] r'].
  destruct H as (_ & H & _). exact H.
Defined.
