(* ===== verification/CopyPool.v ===== *)
(** * CopyPool: file copies through the shared buffer pool (internal/client/multipart/file.go)

    [copyReaderAtContext] takes its buffer from [fileCopyBufferPool], a [sync.Pool] that every copy of every client in
    the process shares, reads the file into it piece by piece, hands each piece to the hash, clears the buffer and gives
    it back.  Buffers are places of a store here and the pool holds places, so that two copies could meet in one; the
    model is a step function on actions, over any number of copies at once. *)

From S2P Require Import Prelude GoStrings GoStrconv GoCrypto Multipart.

(** ** Buffers *)

Definition buffer_len : nat := Z.to_nat fileCopyBufferBytes.
Definition zero_buffer : gostring := repeat x00 buffer_len.

(** What a read into [chunk = buffer[:room]] leaves: the bytes read, and behind them anything up to [room], which
    [io.ReaderAt] may use as scratch space. *)
Definition read_into (buffer : gostring) (room : nat) (data scratch : gostring) : gostring :=
  take room (data ++ scratch ++ drop (length data + length scratch) buffer) ++ drop room buffer.

(** ** Copies *)

(** The arguments of a copy; [call] counts the [ReadAt] calls made before it. *)
Record job := mkJob {
  j_ctx_done : nat → bool;
  j_readerAt : option readerAt;
  j_byteLength : Z;
  j_call : nat;
}.

Definition sequential (j : job) : copied := copyReaderAtContext (j_ctx_done j) (j_readerAt j) (j_byteLength j) (j_call j).

(** A goroutine inside [copyReaderAtContext]; [b] is the place of its buffer. *)
Inductive copying :=
| AtEntry                                                              (** before the checks and [Get] *)
| AtLoop (b : nat) (call : nat) (out : gostring)                       (** at the head of the loop *)
| AtWrite (b : nat) (call : nat) (out : gostring) (n : nat) (readErr : atErr)  (** read, before [dst.Write(chunk[:n])] *)
| AtClear (b : nat) (r : copied)                                       (** in the deferred function, before [clear] *)
| AtPut (b : nat) (r : copied)                                         (** before [Put] *)
| Returned (r : copied).

Record pooled := mkPooled {
  p_store : list gostring;          (** every buffer ever made, by its place *)
  p_pool : list nat;                (** the places in the pool *)
  p_copies : list (job * copying);
}.

Definition set_copy (s : pooled) (i : nat) (j : job) (c : copying) : pooled :=
  mkPooled (p_store s) (p_pool s) (<[i := (j, c)]> (p_copies s)).

(** [fileCopyBufferPool.Get]: any buffer of the pool, or a new one. *)
Definition get_buffer (s : pooled) (choice : nat) : nat * list gostring * list nat :=
  match p_pool s !! choice with
  | Some b => (b, p_store s, delete choice (p_pool s))
  | None => (length (p_store s), p_store s ++ [zero_buffer], p_pool s)
  end.

Definition enter (s : pooled) (i : nat) (j : job) (choice : nat) : pooled :=
  match j_readerAt j with
  | None => set_copy s i j (Returned (CopyErr ReaderNil))
  | Some _ =>
      if j_byteLength j <? 0 then set_copy s i j (Returned (CopyErr NegativeLength))
      else let '(b, store, pool) := get_buffer s choice in
           mkPooled store pool (<[i := (j, AtLoop b (j_call j) [])]> (p_copies s))
  end.

(** The end of the loop. *)
Definition finished (byteLength : Z) (out : gostring) (call : nat) : copied :=
  if zlen out =? byteLength then Copied out call else CopyErr (ShortSource (zlen out)).

(** The head of the loop and the read. *)
Definition read_chunk (s : pooled) (i : nat) (j : job) (ra : readerAt) (b call : nat) (out scratch : gostring) : pooled :=
  if j_byteLength j <=? zlen out then set_copy s i j (AtClear b (finished (j_byteLength j) out call))
  else if j_ctx_done j call then set_copy s i j (AtClear b (CopyErr CopyCancelled))
  else
    let room := Z.to_nat (Z.min (j_byteLength j - zlen out) fileCopyBufferBytes) in
    let '(data, readErr) := section_read ra call (zlen out) (j_byteLength j) room in
    mkPooled (alter (λ buffer, read_into buffer room data scratch) b (p_store s)) (p_pool s)
      (<[i := (j, AtWrite b (S call) out (length data) readErr)]> (p_copies s)).

(** [dst.Write(chunk[:n])], and what the loop does with the read's error. *)
Definition write_chunk (s : pooled) (i : nat) (j : job) (b call : nat) (out : gostring) (n : nat) (readErr : atErr) : pooled :=
  let out := out ++ take n (default [] (p_store s !! b)) in
  set_copy s i j
    (match readErr with
     | AtEOF => AtClear b (finished (j_byteLength j) out call)
     | AtOther => AtClear b (CopyErr ReadFailed)
     | AtNil => if (n =? 0)%nat then AtClear b (CopyErr NoProgress) else AtLoop b call out
     end).

Inductive pool_action :=
| KCall (j : job)
| KGet (i choice : nat)
| KRead (i : nat) (scratch : gostring)
| KWrite (i : nat)
| KClear (i : nat)
| KPut (i : nat)
| KDrop (k : nat).  (** the collector takes a buffer from the pool *)

(** One step; [None] when the action is not enabled. *)
Definition pool_step (a : pool_action) (s : pooled) : option pooled :=
  match a with
  | KCall j => Some (mkPooled (p_store s) (p_pool s) (p_copies s ++ [(j, AtEntry)]))
  | KGet i choice =>
      match p_copies s !! i with Some (j, AtEntry) => Some (enter s i j choice) | _ => None end
  | KRead i scratch =>
      match p_copies s !! i with
      | Some (j, AtLoop b call out) =>
          match j_readerAt j with Some ra => Some (read_chunk s i j ra b call out scratch) | None => None end
      | _ => None
      end
  | KWrite i =>
      match p_copies s !! i with
      | Some (j, AtWrite b call out n readErr) => Some (write_chunk s i j b call out n readErr)
      | _ => None
      end
  | KClear i =>
      match p_copies s !! i with
      | Some (j, AtClear b r) =>
          Some (mkPooled (alter (λ buffer, repeat x00 (length buffer)) b (p_store s)) (p_pool s)
                  (<[i := (j, AtPut b r)]> (p_copies s)))
      | _ => None
      end
  | KPut i =>
      match p_copies s !! i with
      | Some (j, AtPut b r) => Some (mkPooled (p_store s) (b :: p_pool s) (<[i := (j, Returned r)]> (p_copies s)))
      | _ => None
      end
  | KDrop k => Some (mkPooled (p_store s) (delete k (p_pool s)) (p_copies s))
  end.

Fixpoint pool_run (acts : list pool_action) (s : pooled) : option pooled :=
  match acts with
  | [] => Some s
  | a :: rest => match pool_step a s with Some s' => pool_run rest s' | None => None end
  end.

Definition new_pool : pooled := mkPooled [] [] [].

(** ** The invariant *)

(** The buffer a copy holds. *)
Definition held (c : copying) : option nat :=
  match c with
  | AtLoop b _ _ | AtWrite b _ _ _ _ | AtClear b _ | AtPut b _ => Some b
  | AtEntry | Returned _ => None
  end.

(** What the loop does after a read, on a buffer of its own. *)
Definition after_read (j : job) (ra : readerAt) (fuel call : nat) (out data : gostring) (readErr : atErr) : copied :=
  match readErr with
  | AtEOF => finished (j_byteLength j) (out ++ data) call
  | AtOther => CopyErr ReadFailed
  | AtNil => if is_empty data then CopyErr NoProgress
             else copy_loop fuel (j_ctx_done j) ra (j_byteLength j) call (out ++ data)
  end.

(** Where a copy stands, the copy of its job on a buffer of its own stands too. *)
Definition copy_ok (store : list gostring) (j : job) (c : copying) : Prop :=
  match c with
  | AtEntry => True
  | AtLoop b call out =>
      ∃ ra fuel, j_readerAt j = Some ra ∧ zlen out ≤ j_byteLength j ∧ sequential j ≠ CopyFuel ∧
        copy_loop fuel (j_ctx_done j) ra (j_byteLength j) call out = sequential j
  | AtWrite b call out n readErr =>
      ∃ ra fuel data buffer, j_readerAt j = Some ra ∧ zlen (out ++ data) ≤ j_byteLength j ∧ sequential j ≠ CopyFuel ∧
        store !! b = Some buffer ∧ take n buffer = data ∧ length data = n ∧
        after_read j ra fuel call out data readErr = sequential j
  | AtClear _ r | AtPut _ r | Returned r => r = sequential j
  end.

Definition job_ok (j : job) : Prop := ∀ ra, j_readerAt j = Some ra → bounded ra.

Record pool_ok (s : pooled) : Prop := {
  ok_len : Forall (λ buffer, length buffer = buffer_len) (p_store s);
  ok_nodup : NoDup (p_pool s);
  ok_zero b : b ∈ p_pool s → p_store s !! b = Some zero_buffer;
  ok_held i x b : p_copies s !! i = Some x → held x.2 = Some b → b ∉ p_pool s ∧ is_Some (p_store s !! b);
  ok_alone i k x y b : p_copies s !! i = Some x → p_copies s !! k = Some y → held x.2 = Some b → held y.2 = Some b → i = k;
  ok_cleared i j b r : p_copies s !! i = Some (j, AtPut b r) → p_store s !! b = Some zero_buffer;
  ok_copy i x : p_copies s !! i = Some x → job_ok x.1 ∧ copy_ok (p_store s) x.1 x.2;
}.

Lemma copy_ok_frame store store' j c :
  (∀ b, held c = Some b → store' !! b = store !! b) → copy_ok store j c → copy_ok store' j c.
Proof. intros H. destruct c; cbn [copy_ok held] in *; try done. by rewrite (H b eq_refl). Qed.

(** A step of copy [i]: it may write its own buffer, take one from the pool or a new one, and give its own back. *)
Lemma copy_step_ok s i j c store' pool' c' :
  pool_ok s → p_copies s !! i = Some (j, c) →
  Forall (λ buffer, length buffer = buffer_len) store' →
  (∀ b, is_Some (p_store s !! b) → held c ≠ Some b → store' !! b = p_store s !! b) →
  NoDup pool' → (∀ b, b ∈ pool' → store' !! b = Some zero_buffer ∧ (b ∈ p_pool s ∨ held c = Some b)) →
  (∀ b, held c' = Some b → b ∉ pool' ∧ is_Some (store' !! b) ∧ (held c = Some b ∨ b ∈ p_pool s ∨ p_store s !! b = None)) →
  (∀ b r, c' = AtPut b r → store' !! b = Some zero_buffer) →
  copy_ok store' j c' →
  pool_ok (mkPooled store' pool' (<[i := (j, c')]> (p_copies s))).
Proof.
  intros [Hlen Hnd Hz Hh Ha Hc Hk] Hi Hlen' Hst Hnd' Hz' Hh' Hc' Hk'.
  assert (∀ k x b, p_copies s !! k = Some x → k ≠ i → held x.2 = Some b →
    held c ≠ Some b ∧ b ∉ p_pool s ∧ is_Some (p_store s !! b)) as Hother.
  { intros k x b Hx Hne Hb. destruct (Hh k x b Hx Hb). split_and!; try done. intros Hcb. by destruct Hne; eapply Ha. }
  assert (∀ k x b, p_copies s !! k = Some x → k ≠ i → held x.2 = Some b → store' !! b = p_store s !! b) as Hsame.
  { intros k x b Hx Hne Hb. destruct (Hother k x b Hx Hne Hb) as (? & _ & ?). by apply Hst. }
  assert (∀ k x b, p_copies s !! k = Some x → k ≠ i → held x.2 = Some b → held c' ≠ Some b) as Hnot.
  { intros k x b Hx Hne Hb Hcb. destruct (Hother k x b Hx Hne Hb) as (H1 & H2 & [? H3]).
    destruct (Hh' b Hcb) as (_ & _ & [?|[?|?]]); congruence || done. }
  split; cbn [p_store p_pool p_copies]; [done | done | by intros b Hb; apply Hz' | | | |].
  - intros k x b Hx Hb. apply list_lookup_insert_Some in Hx as [(-> & <- & _)|[Hne Hx]]; [by destruct (Hh' b Hb) as (? & ? & _) |].
    destruct (Hother k x b Hx (not_eq_sym Hne) Hb) as (H1 & H2 & H3). rewrite (Hsame k x b) by done. split; [|done].
    intros Hin. by destruct (Hz' b Hin) as [_ [?|?]].
  - intros k l x y b Hx Hy Hxb Hyb.
    apply list_lookup_insert_Some in Hx as [(<- & <- & _)|[Hnx Hx]]; apply list_lookup_insert_Some in Hy as [(<- & <- & _)|[Hny Hy]];
      [done | | | by eapply Ha].
    + by destruct (Hnot l y b Hy (not_eq_sym Hny) Hyb).
    + by destruct (Hnot k x b Hx (not_eq_sym Hnx) Hxb).
  - intros k j' b r Hx. apply list_lookup_insert_Some in Hx as [(<- & Hx & _)|[Hne Hx]].
    + injection Hx as -> ->. by eapply Hc'.
    + rewrite (Hsame k (j', AtPut b r) b) by done. by eapply Hc.
  - intros k x Hx. apply list_lookup_insert_Some in Hx as [(<- & <- & _)|[Hne Hx]]; [split; [by apply (Hk _ _ Hi) | done] |].
    destruct (Hk k x Hx) as [Hj Hx']. split; [done |]. eapply copy_ok_frame; [|done]. intros b Hb. by eapply Hsame.
Qed.

(** The case of a step that only writes to its own buffer, or to none. *)
Lemma own_step_ok s i j c b f c' :
  pool_ok s → p_copies s !! i = Some (j, c) → held c = Some b → held c' = Some b →
  (∀ buffer, length buffer = buffer_len → length (f buffer) = buffer_len) →
  (∀ b' r, c' = AtPut b' r → ∀ buffer, length buffer = buffer_len → f buffer = zero_buffer) →
  copy_ok (alter f b (p_store s)) j c' →
  pool_ok (mkPooled (alter f b (p_store s)) (p_pool s) (<[i := (j, c')]> (p_copies s))).
Proof.
  intros Hok Hi Hc Hc' Hf Hput Hcopy. destruct (ok_held _ Hok _ _ _ Hi Hc) as [Hnp [buffer Hb]].
  assert (length buffer = buffer_len) as Hl by (by eapply (Forall_lookup_1 _ _ _ _ (ok_len _ Hok))).
  apply (copy_step_ok s i j c); try done.
  - apply Forall_lookup. intros k x Hx. destruct (decide (k = b)) as [->|Hne].
    + rewrite list_lookup_alter_eq, Hb in Hx. injection Hx as <-. by apply Hf.
    + rewrite list_lookup_alter_ne in Hx by done. by eapply (Forall_lookup_1 _ _ _ _ (ok_len _ Hok)).
  - intros b' _ Hne. apply list_lookup_alter_ne. congruence.
  - apply (ok_nodup _ Hok).
  - intros b' Hin. split; [|by left]. rewrite list_lookup_alter_ne by congruence. by apply (ok_zero _ Hok).
  - intros b' Hb'. rewrite Hc' in Hb'. injection Hb' as <-. split_and!; [done | | by left].
    rewrite list_lookup_alter_eq, Hb. done.
  - intros b' r ->. cbn [held] in Hc'. injection Hc' as ->. rewrite list_lookup_alter_eq, Hb. cbn. f_equal. by eapply Hput.
Qed.

Lemma still_step_ok s i j c b c' :
  pool_ok s → p_copies s !! i = Some (j, c) → held c = Some b → held c' = Some b → (∀ b' r, c' ≠ AtPut b' r) →
  copy_ok (p_store s) j c' → pool_ok (set_copy s i j c').
Proof.
  intros Hok Hi Hc Hc' Hput Hcopy. unfold set_copy. rewrite <- (list_alter_id id (p_store s) b) by done.
  eapply own_step_ok; try done; [by intros b' r Hp; destruct (Hput b' r) |]. by rewrite list_alter_id.
Qed.

(** ** The steps keep it *)

Lemma read_into_length buffer room data scratch :
  length buffer = buffer_len → (room ≤ buffer_len)%nat → length (read_into buffer room data scratch) = buffer_len.
Proof. intros Hb Hr. unfold read_into. rewrite length_app, length_take, !length_app, !length_drop. lia. Qed.

Lemma read_into_data buffer room data scratch :
  (length data ≤ room)%nat → take (length data) (read_into buffer room data scratch) = data.
Proof.
  intros Hd. unfold read_into. destruct (decide (length data = room)) as [<-|Hne].
  - by rewrite take_app_length, take_app_length.
  - rewrite take_app_le, take_take, Nat.min_l, take_app_length; [done | lia |]. rewrite length_take, length_app. lia.
Qed.

(** One round of the loop. *)
Lemma copy_loop_round fuel j ra call out :
  copy_loop (S fuel) (j_ctx_done j) ra (j_byteLength j) call out =
  if j_byteLength j <=? zlen out then finished (j_byteLength j) out call
  else if j_ctx_done j call then CopyErr CopyCancelled
  else let '(data, readErr) := section_read ra call (zlen out) (j_byteLength j)
         (Z.to_nat (Z.min (j_byteLength j - zlen out) fileCopyBufferBytes)) in
       after_read j ra fuel (S call) out data readErr.
Proof. done. Qed.

(** A copy on a buffer of its own comes to an end. *)
Lemma sequential_total j : job_ok j → sequential j ≠ CopyFuel.
Proof.
  intros Hj. unfold sequential, copyReaderAtContext. destruct (j_readerAt j) as [ra|] eqn:Era; [|done]. destruct (_ <? 0) eqn:E; [done |].
  bool_props. pose proof (copy_loop_total (j_ctx_done j) ra (j_byteLength j) (S (Z.to_nat (j_byteLength j))) (j_call j) []
    (Hj ra Era) ltac:(simpl; lia) ltac:(simpl; lia)) as Ht. intros Hf. by rewrite Hf in Ht.
Qed.

Lemma enter_ok s i j choice : pool_ok s → p_copies s !! i = Some (j, AtEntry) → pool_ok (enter s i j choice).
Proof.
  intros Hok Hi. pose proof Hok as [Hlen Hnd Hz Hh Ha Hc Hk].
  assert (∀ e, CopyErr e = sequential j → pool_ok (set_copy s i j (Returned (CopyErr e)))) as Hret.
  { intros e He. apply (copy_step_ok s i j AtEntry); try done. intros b Hb. split; [by apply Hz | by left]. }
  unfold enter. destruct (j_readerAt j) as [ra|] eqn:Era; [|apply Hret; unfold sequential; by rewrite Era].
  destruct (j_byteLength j <? 0) eqn:Eb.
  { apply Hret. unfold sequential, copyReaderAtContext. by rewrite Era, Eb. }
  bool_props. assert (∀ store b, copy_ok store j (AtLoop b (j_call j) [])) as Hstart.
  { intros store b. exists ra, (S (Z.to_nat (j_byteLength j))).
    split_and!; [done | simpl; lia | by apply sequential_total, (Hk _ _ Hi) |].
    unfold sequential, copyReaderAtContext. by rewrite Era, (proj2 (Z.ltb_ge _ _)) by lia. }
  unfold get_buffer. destruct (p_pool s !! choice) as [b|] eqn:Ep.
  - assert (b ∈ p_pool s) as Hin by (by eapply list_elem_of_lookup_2).
    assert (p_pool s ≡ₚ b :: delete choice (p_pool s)) as Hperm by (by apply delete_Permutation).
    assert (b ∉ delete choice (p_pool s) ∧ NoDup (delete choice (p_pool s))) as [Hnb Hnd'].
    { rewrite Hperm in Hnd. by apply NoDup_cons in Hnd. }
    apply (copy_step_ok s i j AtEntry); try done.
    + intros b' Hb'. assert (b' ∈ p_pool s) as Hin' by (rewrite Hperm; by right). split; [by apply Hz | by left].
    + intros b' [= <-]. rewrite (Hz b Hin). split_and!; [done | done | by right; left].
  - assert (p_store s !! length (p_store s) = None) as Hnone by (by apply lookup_ge_None).
    apply (copy_step_ok s i j AtEntry); try done.
    + apply Forall_app. split; [done |]. apply Forall_singleton. apply repeat_length.
    + intros b [x Hx] _. rewrite Hx. by apply lookup_app_l_Some.
    + intros b Hb. split; [|by left]. apply lookup_app_l_Some. by apply Hz.
    + intros b [= <-]. split_and!; [| |by right; right].
      * intros Hin. apply Hz in Hin. congruence.
      * rewrite list_lookup_middle by done. done.
Qed.

Lemma read_ok s i j ra b call out scratch :
  pool_ok s → p_copies s !! i = Some (j, AtLoop b call out) → j_readerAt j = Some ra → pool_ok (read_chunk s i j ra b call out scratch).
Proof.
  intros Hok Hi Era. destruct (ok_copy _ Hok _ _ Hi) as [Hj (ra' & fuel & Era' & Hout & Hfuel & Hrun)]. cbn [fst snd] in *.
  rewrite Era in Era'. injection Era' as <-.
  destruct fuel as [|fuel]; [by destruct Hfuel; rewrite <- Hrun |]. rewrite copy_loop_round in Hrun. unfold read_chunk.
  destruct (j_byteLength j <=? zlen out) eqn:El; [by eapply still_step_ok |].
  destruct (j_ctx_done j call); [by eapply still_step_ok |]. bool_props. cbv zeta.
  set (room := Z.to_nat (Z.min (j_byteLength j - zlen out) fileCopyBufferBytes)) in *.
  assert (room ≤ buffer_len)%nat as Hroom by (unfold room, buffer_len; lia).
  assert (length (section_read ra call (zlen out) (j_byteLength j) room).1 ≤ room)%nat as Hd.
  { unfold section_read. rewrite (proj2 (Z.leb_gt _ _)) by lia. etrans; [apply (Hj ra Era) |]. lia. }
  destruct (section_read ra call (zlen out) (j_byteLength j) room) as [data err]. cbn [fst] in Hd.
  destruct (ok_held _ Hok i _ b Hi eq_refl) as [_ [buffer Hb]].
  eapply own_step_ok; try done; [by intros ?; intros; apply read_into_length |].
  exists ra, fuel, data, (read_into buffer room data scratch). rewrite list_lookup_alter_eq, Hb. cbn [fmap option_fmap option_map].
  split_and!; try done; [rewrite length_app; lia | by apply read_into_data].
Qed.

Lemma write_ok s i j b call out n err :
  pool_ok s → p_copies s !! i = Some (j, AtWrite b call out n err) → pool_ok (write_chunk s i j b call out n err).
Proof.
  intros Hok Hi. destruct (ok_copy _ Hok _ _ Hi) as [Hj (ra & fuel & data & buffer & Era & Hout & Hfuel & Hb & Hd & Hn & Hrun)].
  cbn [fst snd] in *. unfold write_chunk. rewrite Hb. change (default [] (Some buffer)) with buffer. rewrite Hd. cbv zeta.
  destruct err; cbn [after_read] in Hrun; [|by eapply still_step_ok..].
  destruct data as [|x data]; subst n; cbn [is_empty length Nat.eqb] in *; [by eapply still_step_ok |].
  eapply still_step_ok; try done. by exists ra, fuel.
Qed.

Definition action_ok (a : pool_action) : Prop := match a with KCall j => job_ok j | _ => True end.

Lemma pool_step_ok a s s' : pool_ok s → action_ok a → pool_step a s = Some s' → pool_ok s'.
Proof.
  intros Hok Ha. pose proof Hok as [Hlen Hnd Hz Hh Hal Hc Hk]. destruct a as [j|i choice|i scratch|i|i|i|k]; cbn [pool_step].
  - intros [= <-]. split; cbn; try done.
    + intros i x b Hx Hb. apply lookup_snoc_Some in Hx as [[_ Hx]|[_ <-]]; [by eapply Hh | done].
    + intros i k x y b Hx Hy Hxb Hyb. apply lookup_snoc_Some in Hx as [[_ Hx]|[_ <-]]; [|done].
      apply lookup_snoc_Some in Hy as [[_ Hy]|[_ <-]]; [|done]. by eapply Hal.
    + intros i j' b r Hx. apply lookup_snoc_Some in Hx as [[_ Hx]|[_ Hx]]; [by eapply Hc | done].
    + intros i x Hx. apply lookup_snoc_Some in Hx as [[_ Hx]|[_ <-]]; [by eapply Hk | done].
  - destruct (p_copies s !! i) as [[j []]|] eqn:Hi; try done. intros [= <-]. by apply enter_ok.
  - destruct (p_copies s !! i) as [[j []]|] eqn:Hi; try done. destruct (j_readerAt j) as [ra|] eqn:Era; [|done].
    intros [= <-]. by apply read_ok.
  - destruct (p_copies s !! i) as [[j []]|] eqn:Hi; try done. intros [= <-]. by apply write_ok.
  - destruct (p_copies s !! i) as [[j [| | |b r| |]]|] eqn:Hi; try done. intros [= <-].
    eapply own_step_ok; try done; [by intros buffer <-; apply repeat_length | by intros ? ? _ buffer -> | apply (Hk _ _ Hi)].
  - destruct (p_copies s !! i) as [[j [| | | |b r|]]|] eqn:Hi; try done. intros [= <-].
    destruct (Hh _ _ b Hi eq_refl) as [Hnb _]. apply (copy_step_ok s i j (AtPut b r)); try done; [by apply NoDup_cons | |apply (Hk _ _ Hi)].
    intros b' [->|Hin]%elem_of_cons; [split; [by eapply Hc | by right] | split; [by apply Hz | by left]].
  - intros [= <-]. assert (∀ b, b ∈ delete k (p_pool s) → b ∈ p_pool s) as Hsub.
    { intros b Hb. eapply elem_of_submseteq; [done |]. apply sublist_submseteq, sublist_delete. }
    split; cbn; try done.
    + by eapply sublist_NoDup; [|apply sublist_delete].
    + intros b Hb. by apply Hz, Hsub.
    + intros i x b Hx Hb. destruct (Hh i x b Hx Hb). split; [|done]. by intros Hin%Hsub.
Qed.

Lemma pool_run_ok acts s s' : pool_ok s → Forall action_ok acts → pool_run acts s = Some s' → pool_ok s'.
Proof.
  revert s. induction acts as [|a acts IH]; intros s Hok Ha; cbn [pool_run]; [by intros [= <-] |].
  apply Forall_cons in Ha as [Ha Has]. destruct (pool_step a s) as [t|] eqn:Es; [|done]. apply IH; [|done]. by eapply pool_step_ok.
Qed.

Lemma new_pool_ok : pool_ok new_pool.
Proof. split; cbn; try done; [by apply NoDup_nil | by intros b Hb%not_elem_of_nil]. Qed.

(** ** Copies return *)

(** The steps a copy has still to make, at most: two for each byte that is missing. *)
Definition copy_weight (x : job * copying) : nat :=
  let left out := Z.to_nat (j_byteLength x.1 - zlen out) in
  match x.2 with
  | AtEntry => 2 * left [] + 5
  | AtLoop _ _ out => 2 * left out + 4
  | AtWrite _ _ out _ _ => 2 * left out + 3
  | AtClear _ _ => 2
  | AtPut _ _ => 1
  | Returned _ => 0
  end.

Definition pool_weight (s : pooled) : nat := sum_list_with copy_weight (p_copies s).

(** The steps of the copies that have entered. *)
Definition is_copy_step (a : pool_action) : bool := match a with KCall _ | KDrop _ => false | _ => true end.
Definition copy_moves (s s' : pooled) : Prop := ∃ a, is_copy_step a = true ∧ pool_step a s = Some s'.

Lemma copy_weight_step s i j c store' pool' c' :
  p_copies s !! i = Some (j, c) → (copy_weight (j, c') < copy_weight (j, c))%nat →
  (pool_weight (mkPooled store' pool' (<[i := (j, c')]> (p_copies s))) < pool_weight s)%nat.
Proof. intros Hi Hw. unfold pool_weight. cbn [p_copies]. pose proof (sum_list_with_insert copy_weight _ _ _ (j, c') Hi). lia. Qed.

Lemma copy_moves_decrease s s' : pool_ok s → copy_moves s s' → (pool_weight s' < pool_weight s)%nat.
Proof.
  intros Hok (a & Ha & Hs). destruct a as [j|i choice|i scratch|i|i|i|k]; cbn [pool_step is_copy_step] in *; try done;
    destruct (p_copies s !! i) as [[j c]|] eqn:Hi; try done; destruct c; try done.
  - injection Hs as <-. unfold enter. destruct (j_readerAt j); [|apply (copy_weight_step s i j AtEntry); [done | cbn; lia]].
    destruct (_ <? _); [apply (copy_weight_step s i j AtEntry); [done | cbn; lia] |]. destruct (get_buffer _ _) as [[b st] po].
    apply (copy_weight_step s i j AtEntry); [done |]. cbn. lia.
  - destruct (j_readerAt j) as [ra|]; [|done]. injection Hs as <-. unfold read_chunk.
    destruct (_ <=? _); [eapply copy_weight_step; [done |]; cbn; lia |]. destruct (j_ctx_done _ _); [eapply copy_weight_step; [done |]; cbn; lia |].
    cbv zeta. destruct (section_read _ _ _ _ _) as [data err]. eapply copy_weight_step; [done |]. cbn. lia.
  - injection Hs as <-. destruct (ok_copy _ Hok _ _ Hi) as [_ (ra & fuel & data & buffer & _ & Hout & _ & Hb & Hd & Hn & _)].
    cbn [fst snd] in *. unfold write_chunk. rewrite Hb. change (default [] (Some buffer)) with buffer. rewrite Hd.
    rewrite length_app in Hout. eapply copy_weight_step; [done |]. destruct readErr; try (cbn; lia).
    destruct (n =? 0)%nat eqn:E; [cbn; lia |]. apply Nat.eqb_neq in E. cbn. rewrite length_app. lia.
  - injection Hs as <-. eapply copy_weight_step; [done |]. cbn. lia.
  - injection Hs as <-. eapply copy_weight_step; [done |]. cbn. lia.
Qed.

Lemma copies_terminate s : pool_ok s → Acc (λ t u, copy_moves u t) s.
Proof.
  remember (pool_weight s) as w eqn:Hw. revert s Hw. induction (lt_wf w) as [w _ IH]. intros s -> Hok.
  constructor. intros t Ht. apply (IH (pool_weight t)); [by apply copy_moves_decrease | done |].
  destruct Ht as (a & Ha & Hs). eapply pool_step_ok; [done | | done]. by destruct a.
Qed.

Lemma copies_progress s i j c : pool_ok s → p_copies s !! i = Some (j, c) → (∀ r, c ≠ Returned r) → ∃ s', copy_moves s s'.
Proof.
  intros Hok Hi Hc. destruct c as [|b call out|b call out n err|b r|b r|r]; [| | | | |by destruct (Hc r)].
  - eexists. exists (KGet i 0). split; [done |]. cbn [pool_step]. by rewrite Hi.
  - destruct (ok_copy _ Hok _ _ Hi) as [_ (ra & _ & Era & _)]. cbn [fst] in Era.
    eexists. exists (KRead i []). split; [done |]. cbn [pool_step]. by rewrite Hi, Era.
  - eexists. exists (KWrite i). split; [done |]. cbn [pool_step]. by rewrite Hi.
  - eexists. exists (KClear i). split; [done |]. cbn [pool_step]. by rewrite Hi.
  - eexists. exists (KPut i). split; [done |]. cbn [pool_step]. by rewrite Hi.
Qed.

(** C34: copies that share the buffer pool do not meet.  However any number of copies interleave, whatever the pool hands
    out and whatever readers leave in the rest of their chunk, a copy that returned has the result of
    [copyReaderAtContext] on a buffer of its own; no two copies ever hold one buffer; and the pool holds only cleared
    buffers, so that nothing of one file is left for the next.  The copies come to an end, and none waits for another. *)
Theorem pooled_copies_exact (acts : list pool_action) (s : pooled) :
  Forall action_ok acts → pool_run acts new_pool = Some s →
  (∀ i j r, p_copies s !! i = Some (j, Returned r) →
     r = copyReaderAtContext (j_ctx_done j) (j_readerAt j) (j_byteLength j) (j_call j) ∧ r ≠ CopyFuel) ∧
  (∀ i k x y b, p_copies s !! i = Some x → p_copies s !! k = Some y → held x.2 = Some b → held y.2 = Some b → i = k) ∧
  (∀ b, b ∈ p_pool s → p_store s !! b = Some (repeat x00 (Z.to_nat fileCopyBufferBytes))) ∧
  Acc (λ t u, copy_moves u t) s ∧
  (∀ i j c, p_copies s !! i = Some (j, c) → (∀ r, c ≠ Returned r) → ∃ s', copy_moves s s').
Proof.
  intros Ha Hr. apply pool_run_ok in Hr as Hok; [|apply new_pool_ok | done]. split_and!.
  - intros i j r Hi. destruct (ok_copy _ Hok _ _ Hi) as [Hj Hc]. cbn in Hj, Hc. split; [done |].
    rewrite Hc. by apply sequential_total.
  - apply (ok_alone _ Hok).
  - apply (ok_zero _ Hok).
  - by apply copies_terminate.
  - intros i j c. by apply copies_progress.
Qed.

(** Two files at once: the second copy gets the buffer of the first one when it was given back. *)
Definition demo_job (content : gostring) : job := mkJob (λ _, false) (Some (bytes_reader content)) (zlen content) 0.
Definition demo_copies : list pool_action :=
  [KCall (demo_job (go "abc")); KCall (demo_job (go "secret")); KGet 0 0; KGet 1 0; KRead 1 []; KRead 0 (go "xx"); KWrite 0; KWrite 1;
   KRead 1 []; KClear 1; KPut 1; KCall (demo_job (go "z")); KGet 2 0; KRead 2 []; KRead 0 []; KWrite 2; KClear 0; KPut 0].

Lemma pooled_copies_exact_witness :
  ∃ s, pool_run demo_copies new_pool = Some s ∧ p_copies s !! 1%nat = Some (demo_job (go "secret"), Returned (Copied (go "secret") 1)) ∧
    (Copied (go "secret") 1 : copied) = copyReaderAtContext (λ _, false) (Some (bytes_reader (go "secret"))) 6 0.
Proof.
  assert (option_map (λ s, p_copies s !! 1%nat) (pool_run demo_copies new_pool) =
    Some (Some (demo_job (go "secret"), Returned (Copied (go "secret") 1)))) as H by (vm_compute; reflexivity).
  destruct (pool_run demo_copies new_pool) as [s|] eqn:E; [|discriminate H]. injection H as H1.
  exists s. split; [reflexivity |]. split; [exact H1 |].
  destruct (pooled_copies_exact demo_copies s) as [Hret _]; [| exact E | by apply (Hret 1%nat _ _ H1)].
  repeat (apply Forall_cons; split; [first [exact I | intros ra [= <-]; apply bytes_reader_bounded] |]). apply Forall_nil. exact I.
Defined.
