(* ===== verification/MultipartFrame.v ===== *)
(** * MultipartFrame: the parts of a reply body can be read back

    A reference reader of multipart bodies in the sense of RFC 2046 (delimiter lines, a blank line
    between a part's headers and its content), and the theorem that it recovers from what the factories
    build the metadata and every payload, byte for byte. *)

From S2P Require Import Prelude GoStrings GoStrconv GoCrypto Multipart.

(** ** Reading a multipart body *)

Definition delimiter (boundary : gostring) : gostring := crlf ++ go "--" ++ boundary.

(** Cut at the first occurrence of a separator. *)
Definition cut_at (sep s : gostring) : option (gostring * gostring) :=
  match Index s sep with
  | Some i => Some (take i s, drop (i + length sep) s)
  | None => None
  end.

(** The text between delimiters, until the closing one. *)
Fixpoint split_parts (fuel : nat) (sep s : gostring) : option (list gostring) :=
  match fuel with
  | O => None
  | S fuel =>
      if HasPrefix s (go "--") then Some []
      else match cut_at sep s with
           | None => None
           | Some (part, rest) => cons part <$> split_parts fuel sep rest
           end
  end.

(** A part: a line break, the header lines, a blank line, the content. *)
Definition parse_part (part : gostring) : option (gostring * gostring) :=
  match cut_prefix crlf part with
  | None => None
  | Some s => cut_at (crlf ++ crlf) s
  end.

Definition parse_multipart (boundary body : gostring) : option (list (gostring * gostring)) :=
  match cut_prefix (delimiter boundary) (crlf ++ body) with
  | None => None
  | Some s =>
      match split_parts (length body) (delimiter boundary) s with
      | None => None
      | Some parts => mapM parse_part parts
      end
  end.

(** ** Searching *)

Lemma HasPrefix_false s p : HasPrefix s p = false ↔ ∀ r, s ≠ p ++ r.
Proof.
  split.
  - intros H r ->. assert (HasPrefix (p ++ r) p = true) by (apply HasPrefix_spec; eauto). congruence.
  - intros H. destruct (HasPrefix s p) eqn:E; [|done]. apply HasPrefix_spec in E as [r ->]. by destruct (H r).
Qed.

Lemma Index_head c d s x : x ≠ c → Index (x :: s) (c :: d) = option_map S (Index s (c :: d)).
Proof.
  intros Hx. cbn [Index]. assert (HasPrefix (x :: s) (c :: d) = false) as ->; [|done].
  apply HasPrefix_false. intros r [= -> _]. done.
Qed.

(** Text without the first byte of the separator is passed over. *)
Lemma Index_skip c d x s : c ∉ x → Index (x ++ s) (c :: d) = Nat.add (length x) <$> Index s (c :: d).
Proof.
  induction x as [|a x IH]; intros Hc; cbn [app length]; [by destruct (Index s _) |].
  rewrite elem_of_cons in Hc. rewrite Index_head by naive_solver. rewrite IH by naive_solver.
  by destruct (Index s (c :: d)).
Qed.

(** A separator whose first byte occurs nowhere else in it is found at the first place it is put. *)
Lemma Index_first c d s t :
  c ∉ d → Index s (c :: d) = None → Index (s ++ (c :: d) ++ t) (c :: d) = Some (length s).
Proof.
  intros Hcd. induction s as [|x s IH]; intros Hn.
  - cbn [app length]. cbn [Index]. assert (HasPrefix (c :: d ++ t) (c :: d) = true) as ->; [|done].
    apply HasPrefix_spec. by exists t.
  - cbn [Index] in Hn. destruct (HasPrefix (x :: s) (c :: d)) eqn:Ep; [done |].
    assert (Index s (c :: d) = None) as Hn' by (by destruct (Index s (c :: d))).
    specialize (IH Hn'). cbn [app]. cbn [Index].
    assert (HasPrefix (x :: s ++ c :: d ++ t) (c :: d) = false) as ->; [|simpl in IH; by rewrite IH].
    apply HasPrefix_false. intros r E. rewrite HasPrefix_false in Ep.
    injection E as -> E. destruct (decide (length d ≤ length s)%nat) as [Hl|Hl].
    + apply (Ep (drop (length d) s)). simpl. f_equal.
      rewrite <- (take_drop (length d) s) at 1. f_equal.
      apply (f_equal (take (length d))) in E. rewrite take_app_le in E by done. by rewrite take_app_length in E.
    + apply Hcd. apply (f_equal (λ l, l !! length s)) in E. cbv beta in E.
      rewrite lookup_app_r, Nat.sub_diag in E by done. rewrite lookup_app_l in E by lia.
      cbn in E. symmetry in E. by eapply list_elem_of_lookup_2.
Qed.

Lemma cut_at_first c d s t :
  c ∉ d → Index s (c :: d) = None → cut_at (c :: d) (s ++ (c :: d) ++ t) = Some (s, t).
Proof.
  intros Hcd Hn. unfold cut_at. rewrite Index_first by done. f_equal. f_equal.
  - by rewrite take_app_length.
  - rewrite app_assoc, drop_app_length'; [done |]. by rewrite length_app.
Qed.

(** ** Bodies as lists of parts *)

(** A payload that cannot be mistaken for a delimiter: not inside, nor right after its header. *)
Definition payload_ok (boundary payload : gostring) : Prop := Index (crlf ++ payload) (delimiter boundary) = None.

Definition line_ok (l : gostring) : Prop := x0d ∉ l ∧ match l with c :: _ => c ≠ "-"%byte | [] => False end.

(** Header lines, none of them empty or starting with a dash. *)
Definition header_ok (h : gostring) : Prop := ∃ l ls, h = Join crlf (l :: ls) ∧ Forall line_ok (l :: ls).

Definition part_ok (boundary : gostring) (p : gostring * gostring) : Prop :=
  header_ok p.1 ∧ payload_ok boundary p.2.

Definition part_text (p : gostring * gostring) : gostring := crlf ++ p.1 ++ crlf ++ crlf ++ p.2.

Fixpoint after_delimiter (boundary : gostring) (parts : list (gostring * gostring)) : gostring :=
  match parts with
  | [] => go "--" ++ crlf
  | p :: rest => part_text p ++ delimiter boundary ++ after_delimiter boundary rest
  end.

Section frame.
Context (boundary : gostring) (Hb : x0d ∉ boundary).

Lemma delimiter_tail : x0d ∉ x0a :: "-"%byte :: "-"%byte :: boundary.
Proof. rewrite !elem_of_cons. naive_solver. Qed.

Lemma Index_skip_delimiter x s :
  x0d ∉ x → Index (x ++ s) (delimiter boundary) = Nat.add (length x) <$> Index s (delimiter boundary).
Proof. apply (Index_skip x0d (x0a :: "-"%byte :: "-"%byte :: boundary)). Qed.

Lemma Index_crlf y s :
  y ≠ "-"%byte → Index (y :: s) (delimiter boundary) = None → Index (crlf ++ y :: s) (delimiter boundary) = None.
Proof.
  intros Hy Hn. change (crlf ++ y :: s) with (x0d :: x0a :: y :: s).
  change (delimiter boundary) with (x0d :: x0a :: "-"%byte :: "-"%byte :: boundary) in *. cbn [Index].
  assert (HasPrefix (x0d :: x0a :: y :: s) (x0d :: x0a :: "-"%byte :: "-"%byte :: boundary) = false) as ->.
  { apply HasPrefix_false. intros r [= -> _]. done. }
  cbn [Index] in Hn. rewrite Hn. done.
Qed.

Lemma header_no_delimiter l ls payload :
  Forall line_ok (l :: ls) → payload_ok boundary payload →
  Index (crlf ++ Join crlf (l :: ls) ++ crlf ++ crlf ++ payload) (delimiter boundary) = None.
Proof.
  intros Hls Hp. revert l Hls. induction ls as [|l' ls IH]; intros l Hls; apply Forall_cons in Hls as [[Hcr Hl] Hls].
  - cbn [Join]. destruct l as [|c l]; [done |]. apply (Index_crlf c); [done |].
    rewrite app_comm_cons, Index_skip_delimiter by done.
    change (crlf ++ crlf ++ payload) with (crlf ++ x0d :: x0a :: payload). by rewrite Index_crlf.
  - rewrite Join_cons2, <- !app_assoc. destruct l as [|c l]; [done |]. apply (Index_crlf c); [done |].
    rewrite app_comm_cons, Index_skip_delimiter by done. by rewrite (IH l' Hls).
Qed.

Lemma part_text_no_delimiter p : part_ok boundary p → Index (part_text p) (delimiter boundary) = None.
Proof.
  intros [(l & ls & E & Hls) Hp]. unfold part_text. rewrite E. by apply header_no_delimiter.
Qed.

Lemma split_parts_spec fuel parts :
  Forall (part_ok boundary) parts → (length parts < fuel)%nat →
  split_parts fuel (delimiter boundary) (after_delimiter boundary parts) = Some (map part_text parts).
Proof.
  intros Hp. revert fuel. induction Hp as [|p parts Hok Hp IH]; intros [|fuel] Hf; [simpl in Hf; lia | done | simpl in Hf; lia |].
  cbn [split_parts after_delimiter map].
  assert (HasPrefix (part_text p ++ delimiter boundary ++ after_delimiter boundary parts) (go "--") = false) as ->.
  { apply HasPrefix_false. intros r E. discriminate E. }
  change (delimiter boundary) with (x0d :: x0a :: "-"%byte :: "-"%byte :: boundary).
  rewrite cut_at_first; [|apply delimiter_tail | by apply part_text_no_delimiter].
  change (x0d :: x0a :: "-"%byte :: "-"%byte :: boundary) with (delimiter boundary).
  rewrite IH by (simpl in Hf; lia). done.
Qed.

Lemma header_end l ls payload :
  Forall line_ok (l :: ls) →
  Index (Join crlf (l :: ls) ++ crlf ++ crlf ++ payload) (crlf ++ crlf) = Some (length (Join crlf (l :: ls))).
Proof.
  revert l. induction ls as [|l' ls IH]; intros l Hls; apply Forall_cons in Hls as [[Hcr Hl] Hls].
  - cbn [Join]. change (crlf ++ crlf) with (x0d :: [x0a; x0d; x0a]). rewrite Index_skip by done.
    assert (Index (crlf ++ crlf ++ payload) [x0d; x0a; x0d; x0a] = Some 0%nat) as -> by (by destruct payload).
    simpl. by rewrite Nat.add_0_r.
  - rewrite Join_cons2, <- !app_assoc. specialize (IH l' Hls).
    assert (∃ c t, Join crlf (l' :: ls) ++ crlf ++ crlf ++ payload = c :: t ∧ c ≠ x0d) as (c & t & Et & Hc).
    { apply Forall_cons in Hls as [[Hcr' Hl'] _]. destruct l' as [|c l']; [done |].
      exists c, (tail (Join crlf ((c :: l') :: ls) ++ crlf ++ crlf ++ payload)). split; [by destruct ls |]. rewrite elem_of_cons in Hcr'. naive_solver. }
    rewrite Et in *. change (crlf ++ crlf) with (x0d :: [x0a; x0d; x0a]) in *. rewrite Index_skip by done.
    change (crlf ++ c :: t) with (x0d :: [x0a] ++ c :: t). cbn [Index].
    assert (HasPrefix (x0d :: [x0a] ++ c :: t) [x0d; x0a; x0d; x0a] = false) as ->.
    { apply HasPrefix_false. intros r [= -> _]. done. }
    rewrite Index_skip; [|by rewrite list_elem_of_singleton]. rewrite IH. cbn. rewrite !length_app. simpl. by f_equal.
Qed.

Lemma parse_part_text p : header_ok p.1 → parse_part (part_text p) = Some p.
Proof.
  destruct p as [h payload]. intros (l & ls & E & Hls). unfold parse_part, part_text. cbn [fst snd] in *. subst h.
  rewrite (proj2 (cut_prefix_spec crlf _ (Join crlf (l :: ls) ++ crlf ++ crlf ++ payload))) by done.
  unfold cut_at. rewrite header_end by done. rewrite take_app_length. f_equal. f_equal.
  rewrite !app_assoc, drop_app_length'; [done |]. rewrite !length_app. simpl. lia.
Qed.

Lemma after_delimiter_length parts : (length parts + 4 ≤ length (after_delimiter boundary parts))%nat.
Proof.
  induction parts as [|p parts IH]; [simpl; lia |]. cbn [after_delimiter length].
  rewrite !length_app. unfold part_text. rewrite length_app. simpl. lia.
Qed.

Lemma parse_multipart_parts body parts :
  Forall (part_ok boundary) parts → crlf ++ body = delimiter boundary ++ after_delimiter boundary parts →
  parse_multipart boundary body = Some parts.
Proof.
  intros Hp E. unfold parse_multipart.
  rewrite (proj2 (cut_prefix_spec _ _ (after_delimiter boundary parts))) by done.
  rewrite split_parts_spec; [|done|].
  - clear E. induction Hp as [|p parts [Hh _] Hp IH]; [done |]. cbn [map mapM]. rewrite parse_part_text by done.
    cbn. rewrite IH. done.
  - apply (f_equal length) in E. rewrite !length_app in E. simpl in E.
    pose proof (after_delimiter_length parts). lia.
Qed.
End frame.

(** ** Images *)

Definition metadata_head : gostring :=
  go "Content-Disposition: form-data; name=" ++ dq ++ go "metadata" ++ dq.

Definition image_head (i : nat) (contentType : gostring) : gostring :=
  go "Content-Disposition: form-data; name=" ++ dq ++ go "image" ++ dq ++ go "; filename=" ++ dq
  ++ go "image-" ++ FormatUint (Z.of_nat i) ++ dq ++ crlf ++ go "Content-Type: " ++ contentType.

Lemma no_cr (s : gostring) : forallb (λ b, negb (beq x0d b)) s = true → x0d ∉ s.
Proof.
  intros H Hin. rewrite forallb_forall in H. apply list_elem_of_In in Hin. specialize (H _ Hin).
  rewrite (proj2 (beq_true _ _)) in H by done. done.
Qed.

Lemma graphic_no_cr s : Forall (λ b, is_graphic b = true) s → x0d ∉ s.
Proof. intros H Hin. rewrite Forall_forall in H. specialize (H _ Hin). discriminate H. Qed.

Lemma metadata_head_ok : header_ok metadata_head.
Proof.
  exists metadata_head, []. split; [done |]. apply Forall_cons. split; [|by apply Forall_nil].
  split; [|done]. apply no_cr. vm_compute. reflexivity.
Qed.

Lemma content_line_ok contentType : x0d ∉ contentType → line_ok (go "Content-Type: " ++ contentType).
Proof.
  intros H. split; [|done]. rewrite elem_of_app. intros [Hin|]; [|done].
  revert Hin. apply no_cr. vm_compute. reflexivity.
Qed.

Lemma image_head_ok i contentType : x0d ∉ contentType → header_ok (image_head i contentType).
Proof.
  intros Hct. exists (go "Content-Disposition: form-data; name=" ++ dq ++ go "image" ++ dq ++ go "; filename=" ++ dq
    ++ go "image-" ++ FormatUint (Z.of_nat i) ++ dq), [go "Content-Type: " ++ contentType].
  split; [unfold image_head; cbn [Join]; by rewrite <- !app_assoc |].
  apply Forall_cons. split; [|apply Forall_cons; split; [by apply content_line_ok | by apply Forall_nil]].
  split; [|done]. rewrite !elem_of_app.
  assert (x0d ∉ FormatUint (Z.of_nat i)) as Hi by (apply graphic_no_cr, FormatUint_graphic; lia).
  assert (∀ s, forallb (λ b, negb (beq x0d b)) s = true → x0d ∈ s → False) as Hc by (intros s H Hin; by apply (no_cr s H)).
  intros H. destruct_or! H; try (by apply Hi); (eapply Hc; [|exact H]; vm_compute; reflexivity).
Qed.

Fixpoint image_parts (i : nat) (images contentTypes : list gostring) : list (gostring * gostring) :=
  match images, contentTypes with
  | img :: images, ct :: contentTypes => (image_head i ct, img) :: image_parts (S i) images contentTypes
  | _, _ => []
  end.

Lemma image_chunks_text boundary images : ∀ contentTypes cts i ics,
  image_chunks boundary i images (cts ++ contentTypes) = Some ics → length cts = i →
  crlf ++ concat ics ++ closing_line boundary
    = delimiter boundary ++ after_delimiter boundary (image_parts i images contentTypes).
Proof.
  induction images as [|img images IH]; intros contentTypes cts i ics H Hi; cbn [image_chunks] in H.
  - injection H as <-. cbn [concat image_parts after_delimiter app]. unfold closing_line, delimiter.
    by rewrite <- !app_assoc.
  - rewrite lookup_app_r in H by lia. replace (i - length cts)%nat with 0%nat in H by lia.
    destruct contentTypes as [|ct contentTypes]; [done |]. cbn [lookup list_lookup] in H.
    destruct (image_chunks boundary (S i) images _) as [ics'|] eqn:E; [|done]. injection H as <-.
    replace (cts ++ ct :: contentTypes) with ((cts ++ [ct]) ++ contentTypes) in E by (by rewrite <- app_assoc).
    apply IH in E; [|rewrite length_app; simpl; lia].
    cbn [concat image_parts after_delimiter]. rewrite <- E. unfold image_header, part_text, image_head, delimiter.
    cbn [fst snd app concat]. rewrite <- !app_assoc. done.
Qed.

Lemma image_parts_ok boundary i images contentTypes :
  Forall (payload_ok boundary) images → Forall (λ ct, x0d ∉ ct) contentTypes →
  Forall (part_ok boundary) (image_parts i images contentTypes).
Proof.
  intros Hi. revert i contentTypes. induction Hi as [|img images Hp Hi IH]; intros i [|ct cts] Hc; try by apply Forall_nil.
  cbn [image_parts]. apply Forall_cons in Hc as [Hct Hc]. apply Forall_cons. split; [|by apply IH].
  split; [by apply image_head_ok | done].
Qed.

(** Images arrive as they were given.  Reading the body a factory builds by the rules of
    multipart/form-data gives back the metadata and every image, in order and byte for byte, with the
    file name and content type of its index, as long as the boundary and the content types hold no
    carriage return and no payload contains the delimiter (the boundary is 128 random bits in hex). *)
Lemma image_body_parses (boundary metadata : gostring) (images contentTypes : list gostring) (f : BodyFactory) :
  NewBodyFactory boundary metadata images contentTypes = Ok f →
  x0d ∉ boundary → Forall (λ ct, x0d ∉ ct) contentTypes →
  Forall (payload_ok boundary) (metadata :: images) →
  parse_multipart boundary (concat (bf_chunks f))
    = Some ((metadata_head, metadata) :: image_parts 0 images contentTypes).
Proof.
  intros Hf Hb Hct Hp. apply Forall_cons in Hp as [Hm Hi]. unfold NewBodyFactory in Hf.
  destruct (image_chunks boundary 0 images contentTypes) as [ics|] eqn:E; [|done]. cbv zeta in Hf.
  destruct (ValidateReplyMultipartEnvelope _ _); [done |]. apply Ok_inj in Hf. subst f. cbn [bf_chunks].
  apply parse_multipart_parts; [done | |].
  - apply Forall_cons. split; [split; [apply metadata_head_ok | done] | by apply image_parts_ok].
  - apply (image_chunks_text boundary images contentTypes []) in E; [|done].
    cbn [app concat after_delimiter]. rewrite concat_app. cbn [concat]. rewrite app_nil_r.
    unfold part_text. cbn [fst snd]. rewrite <- !app_assoc, <- E.
    unfold metadata_header, metadata_head, delimiter. rewrite <- !app_assoc. done.
Qed.

(** ** One file *)

(** A continuation byte is not ASCII, so an ASCII byte is always a rune of its own. *)
Lemma cont_not_ascii b : is_cont b = true → is_ascii b = false.
Proof.
  intros H. pose proof (byte_forallb (λ b, implb (is_cont b) (negb (is_ascii b)))
    ltac:(vm_compute; reflexivity) b) as Hb. cbv beta in Hb. rewrite H in Hb. by apply negb_true_iff.
Qed.

Lemma decodeRune_cont b s :
  Forall (λ c, is_ascii c = false) (take ((decodeRune (b :: s)).2 - 1) s).
Proof.
  assert (∀ lo hi c, in_range lo hi c = true → 128 ≤ bz lo → is_ascii c = false) as Hr.
  { intros lo hi c H Hlo. apply in_range_spec in H. unfold is_ascii. apply Z.ltb_ge. lia. }
  assert (∀ b0 c, in_range (second3 b0).1 (second3 b0).2 c = true → is_ascii c = false) as H3.
  { intros b0 c H. eapply Hr; [exact H |]. unfold second3. repeat case_match; vm_compute; done. }
  assert (∀ b0 c, in_range (second4 b0).1 (second4 b0).2 c = true → is_ascii c = false) as H4.
  { intros b0 c H. eapply Hr; [exact H |]. unfold second4. repeat case_match; vm_compute; done. }
  unfold decodeRune.
  destruct (bz b <? 128); [apply Forall_nil; done |].
  destruct (in_range xc2 xdf b).
  { destruct s as [|b1 s]; [by apply Forall_nil |]. destruct (is_cont b1) eqn:E1; [|by apply Forall_nil].
    apply Forall_cons. split; [by apply cont_not_ascii | by apply Forall_nil]. }
  destruct (in_range xe0 xef b).
  { destruct s as [|b1 [|b2 s]]; try by apply Forall_nil.
    destruct (_ && _) eqn:E; [|by apply Forall_nil]. bool_props.
    repeat (apply Forall_cons; split; [by eauto using cont_not_ascii |]). by apply Forall_nil. }
  destruct (in_range xf0 xf4 b); [|by apply Forall_nil].
  destruct s as [|b1 [|b2 [|b3 s]]]; try by apply Forall_nil.
  destruct (_ && _) eqn:E; [|by apply Forall_nil]. bool_props.
  repeat (apply Forall_cons; split; [by eauto using cont_not_ascii |]). by apply Forall_nil.
Qed.

Lemma ascii_rune b s : b ∈ s → is_ascii b = true → bz b ∈ runes s.
Proof.
  intros Hin Ha. unfold runes, decoded.
  assert (∀ k, Forall (λ c, is_ascii c = false) (take k s) → bz b ∈ map fst (decode_from k s)) as H.
  { induction s as [|x s IH]; intros k Hk; [by apply not_elem_of_nil in Hin |].
    destruct k as [|k]; cbn [decode_from].
    - pose proof (decodeRune_cont x s) as Hc. destruct (decodeRune (x :: s)) as [c n] eqn:Ed. cbn [snd] in Hc.
      cbn [map fst]. apply elem_of_cons in Hin as [<-|Hin]; [|right; by apply IH].
      unfold decodeRune in Ed. unfold is_ascii in Ha. rewrite Ha in Ed. injection Ed as <- <-. left.
    - cbn [take] in Hk. apply Forall_cons in Hk as [Hx Hk].
      apply elem_of_cons in Hin as [<-|Hin]; [congruence |]. by apply IH. }
  apply H. rewrite take_0. by apply Forall_nil.
Qed.

(** An accepted file name cannot break out of its header: no control byte and no quote. *)
Lemma file_name_safe fileName b :
  validateReplyFileName fileName = true → is_ascii b = true → IsControl (bz b) || is_name_punct (bz b) = true → b ∉ fileName.
Proof.
  unfold validateReplyFileName. intros H Ha Hb Hin. destruct (is_empty fileName || _ || _); [done |].
  destruct (negb (ValidString fileName) || _); [done |].
  rewrite forallb_forall in H. pose proof (ascii_rune b fileName Hin Ha) as Hr.
  apply list_elem_of_In in Hr. specialize (H _ Hr). cbv beta in H. by rewrite Hb in H.
Qed.

Lemma content_type_no_cr contentType normalized :
  normalizeReplyFileContentType contentType = Some normalized → x0d ∉ normalized.
Proof.
  unfold normalizeReplyFileContentType. set (s := ToLower _). destruct (is_empty s || _ || _); [done |].
  destruct (Cut "/" s) as [[x y] f] eqn:Ec. destruct (negb f || _ || _ || _) eqn:E1; [done |].
  destruct (negb (isMIMEToken x) || _) eqn:E2; [done |]. bool_props. subst f. intros Hs. injection Hs as Hs.
  apply Cut_spec in Ec as [_ E]. cbv iota in E. rewrite <- Hs.
  assert (∀ t, isMIMEToken t = true → x0d ∉ t) as Ht.
  { intros t Hm Hin. unfold isMIMEToken in Hm. rewrite forallb_forall in Hm. apply list_elem_of_In in Hin.
    by specialize (Hm _ Hin). }
  rewrite E. rewrite elem_of_app, elem_of_cons. intros [Hx|[Hx|Hx]]; [by apply (Ht x) | discriminate Hx | by apply (Ht y)].
Qed.

Definition file_head (fileName contentType : gostring) : gostring :=
  go "Content-Disposition: form-data; name=" ++ dq ++ go "file" ++ dq ++ go "; filename=" ++ dq ++ fileName ++ dq
  ++ crlf ++ go "Content-Type: " ++ contentType.

Lemma file_head_ok fileName contentType : x0d ∉ fileName → x0d ∉ contentType → header_ok (file_head fileName contentType).
Proof.
  intros Hn Hct. exists (go "Content-Disposition: form-data; name=" ++ dq ++ go "file" ++ dq ++ go "; filename=" ++ dq
    ++ fileName ++ dq), [go "Content-Type: " ++ contentType].
  split; [unfold file_head; cbn [Join]; by rewrite <- !app_assoc |].
  apply Forall_cons. split; [|apply Forall_cons; split; [by apply content_line_ok | by apply Forall_nil]].
  split; [|done]. rewrite !elem_of_app.
  assert (∀ s, forallb (λ b, negb (beq x0d b)) s = true → x0d ∈ s → False) as Hc by (intros s H Hin; by apply (no_cr s H)).
  intros H. destruct_or! H; try (by apply Hn); (eapply Hc; [|exact H]; vm_compute; reflexivity).
Qed.

(** A file arrives as it was given, under its own name.  If the file passes [NormalizeReplyFile] and
    the factory is built over it, reading the body by the rules of multipart/form-data gives back the
    metadata and the first [byteLength] bytes of the file, under a header whose quoted file name is the
    given one, which holds no quote, so that it ends where it seems to. *)
Theorem file_body_roundtrip (ra : readerAt) (content boundary metadata fileName contentType normalized : gostring)
    (byteLength : Z) (call : nat) (f : FileBodyFactory) :
  NormalizeReplyFile fileName contentType byteLength false = Ok normalized →
  NewFileBodyFactory (λ _, false) boundary metadata fileName normalized byteLength (Some ra) call = Ok f →
  x0d ∉ boundary → payload_ok boundary metadata → payload_ok boundary (take (Z.to_nat byteLength) content) →
  parse_multipart boundary (ff_prefix f ++ take (Z.to_nat byteLength) content ++ ff_suffix f)
    = Some [(metadata_head, metadata); (file_head fileName normalized, take (Z.to_nat byteLength) content)] ∧
  x22 ∉ fileName.
Proof.
  intros Hn Hf Hb Hm Hp. unfold NormalizeReplyFile in Hn.
  destruct (byteLength <=? 0); [done |]. destruct (_ <? byteLength); [done |].
  destruct (validateReplyFileName fileName) eqn:Ev; [|done]. cbn [negb] in Hn.
  destruct (normalizeReplyFileContentType contentType) as [ct|] eqn:Ect; [|done]. injection Hn as ->.
  split; [|by apply (file_name_safe fileName)].
  assert (ff_prefix f = file_prefix boundary metadata fileName normalized ∧ ff_suffix f = file_suffix boundary) as [-> ->].
  { unfold NewFileBodyFactory in Hf. cbv zeta in Hf. destruct (checkedMultipartLength _ _); [|done].
    destruct (ValidateReplyMultipartEnvelope _ _); [done |].
    destruct (copyReaderAtContext _ _ _ _); try done. apply Ok_inj in Hf. by subst f. }
  apply parse_multipart_parts; [done | |].
  - apply Forall_cons. split; [by split; [apply metadata_head_ok |] |].
    apply Forall_cons. split; [|by apply Forall_nil]. split; [|done].
    apply file_head_ok; [by apply file_name_safe | by eapply content_type_no_cr].
  - cbn [after_delimiter]. unfold part_text, file_prefix, file_suffix, metadata_header, metadata_head, file_head, delimiter.
    cbn [fst snd]. rewrite <- !app_assoc. done.
Qed.

Lemma file_body_roundtrip_witness : x22 ∉ go "a.txt".
Proof.
  refine (proj2 (file_body_roundtrip (bytes_reader (go "abcdef")) (go "abcdef") (go "b0") (go "{}") (go "a.txt")
    (go "Text/Plain") (go "text/plain") 3 0 demo_file _ _ _ _ _)).
  - vm_compute. reflexivity.
  - vm_compute. reflexivity.
  - apply no_cr. vm_compute. reflexivity.
  - vm_compute. reflexivity.
  - vm_compute. reflexivity.
Defined.
