(* ===== verification/Path.v ===== *)
(** * Path: request paths the client builds (internal/client/transport/path.go, rooms.go, client.go)

    Path segments taken from callers, canonical query strings and the paths of the read endpoints.  A
    [url.Values] is the list of its entries in the order in which the runtime happens to range over
    the map. *)

From S2P Require Import Prelude GoStrings GoStrconv Canonical Hmac.

(** ** path.go *)

Definition maxPathSegmentTokenBytes : Z := 160.

Inductive pathError := SegmentBlank | SegmentTooLong | SegmentDots | SegmentByte.

Definition isSafePathSegmentTokenByte (b : byte) : bool :=
  in_range "a" "z" b || in_range "A" "Z" b || in_range "0" "9" b
  || beq b "." || beq b "_" || beq b ":" || beq b "-".

Definition safePathSegmentToken (value : gostring) : result pathError gostring :=
  let trimmed := TrimSpace value in
  if is_empty trimmed then Err SegmentBlank
  else if maxPathSegmentTokenBytes <? Z.of_nat (length trimmed) then Err SegmentTooLong
  else if seqb trimmed (go ".") || seqb trimmed (go "..") then Err SegmentDots
  else if forallb isSafePathSegmentTokenByte trimmed then Ok trimmed
  else Err SegmentByte.

Definition appendSafePathSegment (basePath value : gostring) : result pathError gostring :=
  let? segment := safePathSegmentToken value in
  Ok (basePath ++ "/"%byte :: segment).

Abbreviation Values := (list (gostring * list gostring)).

(** [params.Set]: the key then has this one value. *)
Definition Values_Set (params : Values) (key value : gostring) : Values :=
  filter (λ e : gostring * list gostring, e.1 ≠ key) params ++ [(key, [value])].

(** [slices.Sort] on strings. *)
Definition bytes_le (s t : gostring) : Prop := bcompare s t ≠ Gt.

#[export] Instance bytes_le_dec s t : Decision (bytes_le s t).
Proof. unfold bytes_le. solve_decision. Defined.

(** The pairs of one entry. *)
Definition entry_pairs (e : gostring * list gostring) : list gostring :=
  let encodedKey := EncodeQueryComponent e.1 in
  match e.2 with
  | [] => [encodedKey]
  | values => map (λ value, encodedKey ++ "="%byte :: EncodeQueryComponent value) values
  end.

Definition canonicalQueryString (params : Values) : gostring :=
  match params with
  | [] => []
  | _ => Join ["&"%byte] (merge_sort bytes_le (flat_map entry_pairs params))
  end.

Definition appendCanonicalQuery (path : gostring) (params : Values) : gostring :=
  let encoded := canonicalQueryString params in
  if is_empty encoded then path else path ++ "?"%byte :: encoded.

(** ** Paths of the read endpoints (rooms.go, client.go) *)

Definition PathRooms : gostring := go "/rooms".
Definition PathReplyStatus : gostring := go "/reply-status".

Definition GetReplyStatus_path (requestID : gostring) : result pathError gostring :=
  appendSafePathSegment PathReplyStatus requestID.

Definition room_path (chatID : Z) (rest : gostring) : gostring := PathRooms ++ "/"%byte :: FormatInt chatID ++ rest.

Definition GetMembers_path (chatID : Z) : gostring := room_path chatID (go "/members").

Definition GetMembersWithProfileRefresh_path (chatID profileUserID : Z) : gostring :=
  let params := if 0 <? profileUserID then Values_Set [] (go "profileUserId") (FormatInt profileUserID) else [] in
  appendCanonicalQuery (room_path chatID (go "/members")) params.

Definition set_if (c : bool) (params : Values) (key value : gostring) : Values :=
  if c then Values_Set params key value else params.

Definition getRoomEvents_params (userID : option Z) (eventType : gostring) (limit after before : Z) (order : gostring)
  : Values :=
  let params := set_if (0 <? limit) [] (go "limit") (FormatInt limit) in
  let params := set_if (0 <? after) params (go "after") (FormatInt after) in
  let params := set_if (0 <? before) params (go "before") (FormatInt before) in
  let params := set_if (negb (is_empty eventType)) params (go "eventType") eventType in
  let params := match userID with Some id => Values_Set params (go "userId") (FormatInt id) | None => params end in
  set_if (negb (is_empty order)) params (go "order") order.

Definition getRoomEvents_path (chatID : Z) (userID : option Z) (eventType : gostring) (limit after before : Z)
  (order : gostring) : gostring :=
  appendCanonicalQuery (room_path chatID (go "/events"))
    (getRoomEvents_params userID eventType limit after before order).

Definition SearchNicknameHistoryExact_path (chatID : Z) (name : gostring) (limit : Z) : gostring :=
  let params := Values_Set [] (go "match") (go "exact") in
  let params := Values_Set params (go "name") (TrimSpace name) in
  appendCanonicalQuery (room_path chatID (go "/nickname-history/search"))
    (set_if (0 <? limit) params (go "limit") (FormatInt limit)).

(** ** What the server reads *)

(** The pairs a [url.Values] stands for. *)
Definition value_pairs (e : gostring * list gostring) : list (gostring * option gostring) :=
  match e.2 with
  | [] => [(e.1, None)]
  | values => map (λ value, (e.1, Some value)) values
  end.

Definition query_pairs (params : Values) : list (gostring * option gostring) := flat_map value_pairs params.

Lemma entry_pairs_render e : entry_pairs e = map (λ d, render_pair (encode_pair d)) (value_pairs e).
Proof.
  destruct e as [k vs]. unfold entry_pairs, value_pairs. cbn [fst snd]. destruct vs as [|v vs].
  - unfold render_pair. cbn. by rewrite app_nil_r.
  - rewrite map_map. apply map_ext. intros x. done.
Qed.

Lemma flat_entry_pairs params :
  flat_map entry_pairs params = map (λ d, render_pair (encode_pair d)) (query_pairs params).
Proof.
  unfold query_pairs. induction params as [|e params IH]; [done |]. cbn [flat_map].
  by rewrite map_app, IH, entry_pairs_render.
Qed.

#[export] Instance bytes_le_trans : Transitive bytes_le.
Proof.
  intros s t u Hst Htu. unfold bytes_le in *.
  destruct (bcompare s t) eqn:E1; try done; [apply bcompare_eq in E1 as ->; done |].
  destruct (bcompare t u) eqn:E2; try done; [apply bcompare_eq in E2 as <-; by rewrite E1 |].
  by rewrite (bcompare_trans_lt _ _ _ E1 E2).
Qed.

#[export] Instance bytes_le_total : Total bytes_le.
Proof.
  intros s t. unfold bytes_le. rewrite (bcompare_antisym s t). destruct (bcompare s t); simpl; auto.
Qed.

#[export] Instance bytes_le_antisym : AntiSymm (=) bytes_le.
Proof.
  intros s t Hst Hts. unfold bytes_le in *. apply bcompare_eq. rewrite (bcompare_antisym s t) in Hts.
  by destruct (bcompare s t).
Qed.

Lemma sorted_render params :
  ∃ ds, ds ≡ₚ query_pairs params ∧
    merge_sort bytes_le (flat_map entry_pairs params) = map (λ d, render_pair (encode_pair d)) ds.
Proof.
  rewrite flat_entry_pairs.
  pose proof (merge_sort_Permutation bytes_le (map (λ d, render_pair (encode_pair d)) (query_pairs params))) as H.
  apply Permutation_map_inv in H as (ds & E & Hp). by exists ds.
Qed.

Lemma canonicalQueryString_render params :
  ∃ ds, ds ≡ₚ query_pairs params ∧ canonicalQueryString params = render_pairs (map encode_pair ds).
Proof.
  destruct (sorted_render params) as (ds & Hp & E). exists ds. split; [done |]. unfold canonicalQueryString.
  destruct params as [|e params]; [|by rewrite E; unfold render_pairs; rewrite map_map].
  apply Permutation_nil_r in Hp as ->. done.
Qed.


Lemma canonicalQueryString_proper params params' :
  params ≡ₚ params' → canonicalQueryString params = canonicalQueryString params'.
Proof.
  intros Hp. unfold canonicalQueryString.
  assert (merge_sort bytes_le (flat_map entry_pairs params) = merge_sort bytes_le (flat_map entry_pairs params')) as E.
  { apply (Sorted_unique bytes_le); [apply Sorted_merge_sort, _ | apply Sorted_merge_sort, _ |].
    rewrite !merge_sort_Permutation. induction Hp; cbn [flat_map]; [done | by f_equiv | | by etrans].
    rewrite !app_assoc. f_equiv. apply Permutation_app_comm. }
  destruct params as [|e params], params' as [|e' params']; try done.
  - by apply Permutation_nil_cons in Hp.
  - symmetry in Hp. by apply Permutation_nil_cons in Hp.
  - by rewrite E.
Qed.

(** C38: the query the server reads is the one that was asked for.  The path is the same whatever order
    the runtime ranges over the map in; and for a plain path and entries in valid UTF-8, the server's
    reading of the query gives exactly the entries, with their values, and the target that is signed is
    the canonical one of these pairs. *)
Theorem sdk_query_delivered (path : gostring) (params params' : Values) :
  "?"%byte ∉ path → params ≡ₚ params' → query_pairs params ≠ [] → Forall good_pair (query_pairs params) →
  appendCanonicalQuery path params = appendCanonicalQuery path params' ∧
  ∃ query ds, appendCanonicalQuery path params = path ++ "?"%byte :: query ∧
    decodedPairs query = Some ds ∧ ds ≡ₚ query_pairs params ∧
    canonicalTarget (appendCanonicalQuery path params) false
      = Ok (path ++ "?"%byte :: render_pairs (sort_pairs (map encode_pair (query_pairs params)))).
Proof.
  intros Hpath Hperm Hne Hgood. unfold appendCanonicalQuery.
  split; [by rewrite (canonicalQueryString_proper _ _ Hperm) |].
  destruct (canonicalQueryString_render params) as (ds & Hp & E). rewrite E.
  assert (ds ≠ []) as Hds by (intros ->; by apply Permutation_nil_l in Hp).
  assert (Forall good_pair ds) as Hg by (by rewrite Hp).
  pose proof (decodedPairs_render ds Hds Hg) as Hdec.
  assert (is_empty (render_pairs (map encode_pair ds)) = false) as Hr.
  { apply is_empty_false. intros H. rewrite H in Hdec. vm_compute in Hdec. congruence. }
  rewrite Hr. exists (render_pairs (map encode_pair ds)), ds. split_and!; [done | done | done |].
  rewrite canonicalTarget_query, Hdec by done. destruct ds as [|d ds]; [done |]. cbn [is_empty].
  rewrite andb_false_l. do 3 f_equal. f_equal. apply sort_pairs_proper. by rewrite Hp.
Qed.

Lemma sdk_query_delivered_witness :
  appendCanonicalQuery (go "/rooms/7/events") [(go "a b", [go "1"]); (go "a-", [go "x&y"])]
  = appendCanonicalQuery (go "/rooms/7/events") [(go "a-", [go "x&y"]); (go "a b", [go "1"])].
Proof.
  refine (proj1 (sdk_query_delivered (go "/rooms/7/events") [(go "a b", [go "1"]); (go "a-", [go "x&y"])]
    [(go "a-", [go "x&y"]); (go "a b", [go "1"])] _ _ _ _)).
  - intros H. apply list_elem_of_In in H. vm_compute in H. repeat (destruct H as [H|H]; [discriminate H |]). exact H.
  - apply perm_swap.
  - discriminate.
  - repeat (apply Forall_cons; split; [split; [vm_compute; reflexivity | split; [vm_compute; reflexivity | discriminate]] |]).
    by apply Forall_nil.
Defined.

(** A segment never adds to or escapes from its path: no slash, query, fragment, percent sign, and no
    dot segment; so the path of a reply status is read back as it was built. *)
Lemma safe_segment value segment :
  safePathSegmentToken value = Ok segment →
  segment = TrimSpace value ∧ segment ≠ [] ∧ segment ≠ go "." ∧ segment ≠ go ".." ∧
  Forall (λ b, isSafePathSegmentTokenByte b = true) segment ∧ ("?"%byte ∉ segment) ∧ ("/"%byte ∉ segment) ∧ "%"%byte ∉ segment.
Proof.
  unfold safePathSegmentToken. destruct (is_empty (TrimSpace value)) eqn:E1; [done |].
  destruct (_ <? _); [done |]. destruct (_ || _) eqn:E2; [done |].
  destruct (forallb _ _) eqn:E3; [|done]. intros [= <-]. bool_props. apply Forall_forallb in E3.
  assert (∀ c, isSafePathSegmentTokenByte c = false → c ∉ TrimSpace value) as Hc.
  { intros c Hb Hin. rewrite Forall_forall in E3. specialize (E3 _ Hin). congruence. }
  split_and!; try done; by apply Hc.
Qed.

Lemma reply_status_path_canonical requestID path :
  GetReplyStatus_path requestID = Ok path → canonicalTarget path true = Ok path.
Proof.
  unfold GetReplyStatus_path, appendSafePathSegment. intros H. inv_ok. subst path.
  apply safe_segment in E as (_ & _ & _ & _ & _ & Hq & _). apply canonicalTarget_plain.
  intros H. repeat (apply elem_of_cons in H as [H|H]; [discriminate H |]). done.
Qed.
