(* ===== verification/Media.v ===== *)
(** * Media: media chunks (internal/client/transport/media.go, internal/client/common/media_types.go)

    The checks of [FetchMediaChunk] on the request before it is sent and on the response before it is
    handed out, with [encoding/base64]'s standard encoding. *)

From S2P Require Import Prelude GoStrings GoStrconv GoCrypto.

(** ** encoding/base64 *)

Definition base64_alphabet : gostring := go "ABCDEFGHIJKLMNOPQRSTUVWXYZabcdefghijklmnopqrstuvwxyz0123456789+/".

Definition enc64 (n : Z) : byte := nth (Z.to_nat n) base64_alphabet x00.

(** The decode map: letters, digits, plus and slash. *)
Definition dec64 (c : byte) : option Z :=
  if in_range "A" "Z" c then Some (bz c - 65)
  else if in_range "a" "z" c then Some (bz c - 71)
  else if in_range "0" "9" c then Some (bz c + 4)
  else if beq c "+" then Some 62
  else if beq c "/" then Some 63
  else None.

(** [StdEncoding.EncodeToString]. *)
Fixpoint EncodeToString (src : gostring) : gostring :=
  match src with
  | a :: b :: c :: rest =>
      let v := bz a * 65536 + bz b * 256 + bz c in
      [enc64 (v / 262144); enc64 (v / 4096 mod 64); enc64 (v / 64 mod 64); enc64 (v mod 64)] ++ EncodeToString rest
  | [a; b] =>
      let v := bz a * 65536 + bz b * 256 in
      [enc64 (v / 262144); enc64 (v / 4096 mod 64); enc64 (v / 64 mod 64); "="%byte]
  | [a] =>
      let v := bz a * 65536 in [enc64 (v / 262144); enc64 (v / 4096 mod 64); "="%byte; "="%byte]
  | [] => []
  end.

(** The quanta of [StdEncoding.Strict().DecodeString], line breaks already removed: padding only in the
    last quantum, and the bits it leaves over must be zero. *)
Fixpoint decode_quanta (s : gostring) : option gostring :=
  match s with
  | [] => Some []
  | c1 :: c2 :: c3 :: c4 :: rest =>
      match dec64 c1, dec64 c2 with
      | Some x1, Some x2 =>
          if beq c3 "=" then
            if beq c4 "=" && is_empty rest && (x2 mod 16 =? 0) then Some [zb (x1 * 4 + x2 / 16)] else None
          else
            match dec64 c3 with
            | None => None
            | Some x3 =>
                if beq c4 "=" then
                  if is_empty rest && (x3 mod 4 =? 0)
                  then Some [zb (x1 * 4 + x2 / 16); zb (x2 mod 16 * 16 + x3 / 4)] else None
                else
                  match dec64 c4 with
                  | None => None
                  | Some x4 =>
                      app [zb (x1 * 4 + x2 / 16); zb (x2 mod 16 * 16 + x3 / 4); zb (x3 mod 4 * 64 + x4)]
                        <$> decode_quanta rest
                  end
            end
      | _, _ => None
      end
  | _ => None
  end.

Definition StrictDecodeString (s : gostring) : option gostring :=
  decode_quanta (List.filter (λ c, negb (beq c x0a || beq c x0d)) s).

(** ** Requests (media.go, media_types.go) *)

Definition mediaTypeImage : gostring := go "2".
Definition mediaTypeMultiImage : gostring := go "27".
Definition mediaTypeFile : gostring := go "18".
Definition mediaMaxIndex : Z := 9.
Definition mediaMaxCount : Z := mediaMaxIndex + 1.
Definition mediaMaxChunkBytes : Z := 512 * 1024.
Definition mediaMaxTotalBytes : Z := 30 * 1024 * 1024.
Definition mediaMaxMIMEBytes : Z := 128.

Record MediaChunkRequest := mkChunkRequest {
  mq_MessageID : gostring;
  mq_SourceGenerationID : Z;
  mq_RawSourceLogID : Z;
  mq_SourceLogID : Z;
  mq_ChatID : gostring;
  mq_ChatLogID : gostring;
  mq_Type : gostring;
  mq_MediaIndex : Z;
  mq_Offset : Z;
  mq_Length : Z;
}.

Record MediaChunkResponse := mkChunkResponse {
  mr_ChunkBase64 : gostring;
  mr_TotalLength : Z;
  mr_MIMEType : gostring;
  mr_SHA256 : gostring;
  mr_EOF : bool;
  mr_MediaCount : Z;
}.

Inductive mediaError :=
| MediaBlank | MediaNegative | MediaNotPositive | MediaNotDecimal | MediaBadType | MediaBadIndex | MediaBadOffset
| MediaBadLength | MediaOverflow | MediaBadTotal | MediaBadCount | MediaBadMIME | MediaBadSHA | ChunkTooLong
| ChunkNotCanonical | ChunkLength | RangeOverflow | RangeBeyond | EOFMismatch | ShortChunk.

Definition validatePositiveMediaIdentity (value : Z) : result mediaError unit :=
  if value <=? 0 then Err MediaNotPositive else Ok tt.

Definition normalizeMediaStringIdentity (value : gostring) : result mediaError gostring :=
  let trimmed := TrimSpace value in
  if is_empty trimmed then Err MediaBlank else Ok trimmed.

Definition normalizePositiveDecimalMediaIdentity (value : gostring) : result mediaError gostring :=
  if is_empty (TrimSpace value) then Err MediaBlank
  else if match value with c :: _ => beq c "0" | [] => false end then Err MediaNotDecimal
  else if negb (forallb (λ r, (48 <=? r) && (r <=? 57)) (runes value)) then Err MediaNotDecimal
  else match ParseInt value with
       | None => Err MediaNotDecimal
       | Some parsed => if parsed <=? 0 then Err MediaNotDecimal else Ok value
       end.

Definition normalizeMediaChunkRequest (req : MediaChunkRequest) : result mediaError MediaChunkRequest :=
  let? messageID := normalizeMediaStringIdentity (mq_MessageID req) in
  if mq_SourceGenerationID req <? 0 then Err MediaNegative
  else
    let? _ := validatePositiveMediaIdentity (mq_RawSourceLogID req) in
    let? _ := validatePositiveMediaIdentity (mq_SourceLogID req) in
    let? chatID := normalizePositiveDecimalMediaIdentity (mq_ChatID req) in
    let? chatLogID := normalizePositiveDecimalMediaIdentity (mq_ChatLogID req) in
    if negb (seqb (mq_Type req) mediaTypeImage || seqb (mq_Type req) mediaTypeMultiImage
             || seqb (mq_Type req) mediaTypeFile) then Err MediaBadType
    else if (mq_MediaIndex req <? 0) || (mediaMaxIndex <? mq_MediaIndex req) then Err MediaBadIndex
    else if mq_Offset req <? 0 then Err MediaBadOffset
    else if (mq_Length req <? 1) || (mediaMaxChunkBytes <? mq_Length req) then Err MediaBadLength
    else if MaxInt64 - mq_Length req <? mq_Offset req then Err MediaOverflow
    else Ok (mkChunkRequest messageID (mq_SourceGenerationID req) (mq_RawSourceLogID req) (mq_SourceLogID req)
               chatID chatLogID (mq_Type req) (mq_MediaIndex req) (mq_Offset req) (mq_Length req)).

(** ** Responses *)

Definition isMediaMIMEToken (value : gostring) : bool :=
  forallb (λ c, in_range "a" "z" c || in_range "A" "Z" c || in_range "0" "9" c
                || existsb (beq c) (go "!#$&^_.+-")) value.

Definition isASCII (value : gostring) : bool := forallb is_ascii value.

Definition isValidMediaMIMEType (value : gostring) : bool :=
  if is_empty value || (mediaMaxMIMEBytes <? Z.of_nat (length value)) || negb (isASCII value) then false
  else
    let '(major, minor, found) := Cut "/" value in
    if negb found || is_empty major || is_empty minor then false
    else isMediaMIMEToken major && isMediaMIMEToken minor.

Definition isLowerSHA256Hex (value : gostring) : bool :=
  (length value =? 64)%nat && forallb (λ c, in_range "0" "9" c || in_range "a" "f" c) value.

Definition validateMediaChunkMetadata (response : MediaChunkResponse) (mediaIndex : Z) : result mediaError unit :=
  if (mr_TotalLength response <? 1) || (mediaMaxTotalBytes <? mr_TotalLength response) then Err MediaBadTotal
  else if (mr_MediaCount response <? 1) || (mediaMaxCount <? mr_MediaCount response) then Err MediaBadCount
  else if (mediaIndex <? 0) || (mr_MediaCount response <=? mediaIndex) then Err MediaBadIndex
  else if negb (isValidMediaMIMEType (mr_MIMEType response)) then Err MediaBadMIME
  else if negb (isLowerSHA256Hex (mr_SHA256 response)) then Err MediaBadSHA
  else Ok tt.

Definition decodeMediaChunk (chunkBase64 : gostring) (requestedLength : Z) : result mediaError gostring :=
  let maxEncodedLength := (requestedLength + 2) `quot` 3 * 4 in
  if maxEncodedLength <? Z.of_nat (length chunkBase64) then Err ChunkTooLong
  else match StrictDecodeString chunkBase64 with
       | None => Err ChunkNotCanonical
       | Some decoded =>
           if negb (seqb (EncodeToString decoded) chunkBase64) then Err ChunkNotCanonical
           else if (Z.of_nat (length decoded) <? 1) || (requestedLength <? Z.of_nat (length decoded))
                then Err ChunkLength
                else Ok decoded
       end.

Definition validateMediaChunkRange (response : MediaChunkResponse) (request : MediaChunkRequest) (decodedLength : Z)
  : result mediaError unit :=
  let chunkLength := decodedLength in
  if (mq_Offset request <? 0) || (MaxInt64 - chunkLength <? mq_Offset request) then Err RangeOverflow
  else
    let stop := mq_Offset request + chunkLength in
    if mr_TotalLength response <? stop then Err RangeBeyond
    else if negb (Bool.eqb (mr_EOF response) (stop =? mr_TotalLength response)) then Err EOFMismatch
    else if negb (mr_EOF response) && negb (decodedLength =? mq_Length request) then Err ShortChunk
    else Ok tt.

Definition validateMediaChunkResponse (response : MediaChunkResponse) (request : MediaChunkRequest)
  : result mediaError unit :=
  let? _ := validateMediaChunkMetadata response (mq_MediaIndex request) in
  let? decoded := decodeMediaChunk (mr_ChunkBase64 response) (mq_Length request) in
  validateMediaChunkRange response request (Z.of_nat (length decoded)).

(** ** Base 64 *)

(** [lia] with division and remainder by constants. *)
#[local] Ltac Zify.zify_post_hook ::= Z.div_mod_to_equations.

Lemma dec64_enc64 n : 0 ≤ n < 64 → dec64 (enc64 n) = Some n ∧ beq (enc64 n) "=" = false ∧ beq (enc64 n) x0a || beq (enc64 n) x0d = false.
Proof.
  intros H.
  assert (forallb (λ k, let n := Z.of_nat k in
    bool_decide (dec64 (enc64 n) = Some n ∧ beq (enc64 n) "=" = false ∧ beq (enc64 n) x0a || beq (enc64 n) x0d = false))
    (seq 0 64) = true) as Hall by (vm_compute; reflexivity).
  rewrite forallb_forall in Hall. specialize (Hall (Z.to_nat n) ltac:(apply in_seq; lia)). cbv zeta beta in Hall.
  rewrite Z2Nat.id in Hall by lia. by apply bool_decide_eq_true in Hall.
Qed.

Ltac sextets :=
  repeat match goal with
  | |- context [dec64 (enc64 ?n)] => rewrite (proj1 (dec64_enc64 n ltac:(lia)))
  | |- context [beq (enc64 ?n) "="] => rewrite (proj1 (proj2 (dec64_enc64 n ltac:(lia))))
  end.

Lemma list_ind3 {A} (P : list A → Prop) :
  P [] → (∀ a, P [a]) → (∀ a b, P [a; b]) → (∀ a b c l, P l → P (a :: b :: c :: l)) → ∀ l, P l.
Proof.
  intros H0 H1 H2 H3 l. remember (length l) as n eqn:E. revert l E.
  induction (lt_wf n) as [n _ IH]. intros [|a [|b [|c l]]] ->; [done | done | done |].
  apply H3. eapply IH; [|done]. simpl. lia.
Qed.

Lemma zb_eq z b : z = bz b → zb z = b.
Proof. intros ->. apply zb_bz. Qed.

Lemma decode_encode_quanta d : decode_quanta (EncodeToString d) = Some d.
Proof.
  induction d as [|a|a b|a b c d IH] using list_ind3; cbn [EncodeToString app decode_quanta]; cbv zeta.
  - done.
  - pose proof (bz_range a). sextets. rewrite (proj2 (beq_true "=" "=")) by done. cbn [andb is_empty].
    rewrite (proj2 (Z.eqb_eq _ _)) by lia. do 2 f_equal. apply zb_eq. lia.
  - pose proof (bz_range a). pose proof (bz_range b). sextets. rewrite (proj2 (beq_true "=" "=")) by done. cbn [andb is_empty].
    rewrite (proj2 (Z.eqb_eq _ _)) by lia. f_equal. f_equal; [apply zb_eq; lia |]. f_equal. apply zb_eq. lia.
  - pose proof (bz_range a). pose proof (bz_range b). pose proof (bz_range c). sextets. rewrite IH. cbn [fmap option_fmap option_map app].
    f_equal. f_equal; [apply zb_eq; lia |]. f_equal; [apply zb_eq; lia |]. f_equal. apply zb_eq. lia.
Qed.

Lemma EncodeToString_clean d : List.filter (λ c, negb (beq c x0a || beq c x0d)) (EncodeToString d) = EncodeToString d.
Proof.
  assert (∀ n, 0 ≤ n < 64 → negb (beq (enc64 n) x0a || beq (enc64 n) x0d) = true) as He.
  { intros n Hn. by rewrite (proj2 (proj2 (dec64_enc64 n Hn))). }
  induction d as [|a|a b|a b c d IH] using list_ind3; cbn [EncodeToString app]; cbv zeta; [done |..];
    pose proof (bz_range a); try pose proof (bz_range b); try pose proof (bz_range c);
    cbn [List.filter]; rewrite !He by lia; try done; by rewrite IH.
Qed.

Lemma EncodeToString_length d : Z.of_nat (length (EncodeToString d)) = (Z.of_nat (length d) + 2) / 3 * 4.
Proof.
  induction d as [|a|a b|a b c d IH] using list_ind3; try done.
  cbn [EncodeToString app length]. cbv zeta. cbn [length]. rewrite !Nat2Z.inj_succ, IH. lia.
Qed.

(** A chunk is accepted exactly when it is canonical.  [decodeMediaChunk] gives the bytes [d] if and
    only if the text is the standard encoding of [d] and [d] has between one byte and as many as were
    asked for; in particular the length check made before decoding never refuses a good chunk. *)
Theorem decode_chunk_exact (chunkBase64 decoded : gostring) (requestedLength : Z) :
  0 ≤ requestedLength →
  decodeMediaChunk chunkBase64 requestedLength = Ok decoded ↔
  chunkBase64 = EncodeToString decoded ∧ 1 ≤ Z.of_nat (length decoded) ≤ requestedLength.
Proof.
  intros Hr. unfold decodeMediaChunk. cbv zeta. rewrite Z.quot_div_nonneg by lia. split.
  - destruct (_ <? _); [done |]. destruct (StrictDecodeString chunkBase64) as [d|]; [|done].
    destruct (seqb (EncodeToString d) chunkBase64) eqn:Es; [|done]. cbn [negb].
    destruct (_ || _) eqn:El; [done |]. intros H. injection H as ->. bool_props. split; [done | lia].
  - intros [-> Hl]. rewrite (proj2 (Z.ltb_ge _ _)).
    2:{ rewrite EncodeToString_length. apply Z.mul_le_mono_nonneg_r; [lia |]. apply Z.div_le_mono; lia. }
    unfold StrictDecodeString. rewrite EncodeToString_clean, decode_encode_quanta, seqb_refl. cbn [negb].
    rewrite (proj2 (Z.ltb_ge _ 1)), (proj2 (Z.ltb_ge requestedLength _)) by lia. done.
Qed.

Lemma decode_chunk_exact_witness : decodeMediaChunk (go "aXJpcw==") 4 = Ok (go "iris").
Proof. apply (decode_chunk_exact (go "aXJpcw==") (go "iris") 4); [lia |]. split; [vm_compute; reflexivity | simpl; lia]. Defined.

(** ** Fetching a whole medium *)

(** The bytes of a response. *)
Definition chunk_of (response : MediaChunkResponse) : gostring := default [] (StrictDecodeString (mr_ChunkBase64 response)).

Lemma accepted_chunk response request :
  validateMediaChunkResponse response request = Ok tt → 0 ≤ mq_Length request →
  mr_ChunkBase64 response = EncodeToString (chunk_of response) ∧
  1 ≤ Z.of_nat (length (chunk_of response)) ≤ mq_Length request ∧
  mq_Offset request + Z.of_nat (length (chunk_of response)) ≤ mr_TotalLength response ≤ mediaMaxTotalBytes ∧
  (mr_EOF response = true ↔ mq_Offset request + Z.of_nat (length (chunk_of response)) = mr_TotalLength response) ∧
  (mr_EOF response = false → Z.of_nat (length (chunk_of response)) = mq_Length request) ∧
  0 ≤ mq_MediaIndex request < mr_MediaCount response.
Proof.
  intros H Hl. unfold validateMediaChunkResponse in H. inv_ok. rename x0 into d.
  assert (StrictDecodeString (mr_ChunkBase64 response) = Some d) as Hd.
  { unfold decodeMediaChunk in E0. cbv zeta in E0. destruct (_ <? _); [done |].
    destruct (StrictDecodeString _) as [d'|]; [|done]. destruct (negb _); [done |].
    destruct (_ || _); [done |]. by injection E0 as ->. }
  unfold chunk_of. rewrite Hd. change (default [] (Some d)) with d. apply decode_chunk_exact in E0 as [Henc Hlen]; [|done].
  unfold validateMediaChunkMetadata in E.
  destruct (_ || (mediaMaxTotalBytes <? _)) eqn:E1; [done |].
  destruct (_ || (mediaMaxCount <? _)) eqn:E2; [done |].
  destruct (_ || (mr_MediaCount response <=? _)) eqn:E3; [done |].
  unfold validateMediaChunkRange in H. cbv zeta in H. destruct (_ || (_ <? mq_Offset request)) eqn:E4; [done |].
  destruct (mr_TotalLength response <? mq_Offset request + _) eqn:E5; [done |].
  destruct (negb (Bool.eqb _ _)) eqn:E6; [done |]. apply negb_false_iff, Bool.eqb_prop in E6.
  destruct (negb (mr_EOF response) && _) eqn:E7; [done |]. bool_props.
  split_and!; try lia; try done.
  all: try (rewrite E6; apply Z.eqb_eq).
  - intros Hf. rewrite Hf in E7. cbn [negb andb] in E7. bool_props. done.
Qed.

(** Fetches in sequence: each starts where the one before ended, each was accepted, and the caller goes on
    only after a chunk that was not the last. *)
Fixpoint consecutive (off total : Z) (l : list (MediaChunkRequest * MediaChunkResponse)) : Prop :=
  match l with
  | [] => True
  | (q, r) :: rest =>
      mq_Offset q = off ∧ 0 ≤ mq_Length q ∧ mr_TotalLength r = total ∧ validateMediaChunkResponse r q = Ok tt ∧
      (rest ≠ [] → mr_EOF r = false) ∧ consecutive (off + Z.of_nat (length (chunk_of r))) total rest
  end.

Lemma consecutive_data off total l :
  consecutive off total l → l ≠ [] →
  off + Z.of_nat (length (concat (map (λ e, chunk_of e.2) l))) ≤ total ∧
  Z.of_nat (length l) ≤ Z.of_nat (length (concat (map (λ e, chunk_of e.2) l))) ∧
  ((mr_EOF <$> (snd <$> last l)) = Some true ↔ off + Z.of_nat (length (concat (map (λ e, chunk_of e.2) l))) = total).
Proof.
  revert off. induction l as [|[q r] l IH]; intros off; [done |]. intros (Ho & Hl & Ht & Hv & Hgo & Hrest) _.
  destruct (accepted_chunk r q Hv Hl) as (_ & Hlen & Hend & Heof & _ & _). rewrite Ho, Ht in *.
  cbn [map concat snd]. rewrite length_app. cbn [length]. destruct l as [|e l].
  - cbn [map concat length last fmap option_fmap option_map snd]. rewrite Nat.add_0_r.
    split_and!; [lia | lia |]. rewrite <- Heof. split; [by intros [= ->] | by intros ->].
  - destruct (IH _ Hrest ltac:(done)) as (H1 & H2 & H3). rewrite last_cons_cons.
    split_and!; [lia | cbn [length] in *; lia |]. rewrite H3. lia.
Qed.

(** C40: a medium fetched chunk by chunk is whole.  If a caller fetches from offset zero, each time from
    where the accepted chunk before ended, it never gets past the announced length, every fetch makes
    progress (so their number is at most that length), and the chunk marked last is exactly the one
    that completes the announced number of bytes. *)
Theorem media_reassembly (total : Z) (l : list (MediaChunkRequest * MediaChunkResponse)) :
  consecutive 0 total l → l ≠ [] →
  let data := concat (map (λ e, chunk_of e.2) l) in
  Z.of_nat (length data) ≤ total ∧ Z.of_nat (length l) ≤ total ∧
  ((mr_EOF <$> (snd <$> last l)) = Some true ↔ Z.of_nat (length data) = total).
Proof.
  intros Hc Hne data. destruct (consecutive_data 0 total l Hc Hne) as (H1 & H2 & H3).
  subst data. split_and!; [lia | lia |]. rewrite H3. lia.
Qed.

Definition demo_request (off : Z) : MediaChunkRequest :=
  mkChunkRequest (go "m") 0 1 1 (go "7") (go "8") mediaTypeImage 0 off 4.
Definition demo_response (chunk : gostring) (eof : bool) : MediaChunkResponse :=
  mkChunkResponse (EncodeToString chunk) 6 (go "image/png") (repeat "0"%byte 64) eof 1.
Definition demo_fetches : list (MediaChunkRequest * MediaChunkResponse) :=
  [(demo_request 0, demo_response (go "iris") false); (demo_request 4, demo_response (go "go") true)].

Lemma media_reassembly_witness :
  (mr_EOF <$> (snd <$> last demo_fetches)) = Some true ↔
  Z.of_nat (length (concat (map (λ e, chunk_of e.2) demo_fetches))) = 6.
Proof.
  refine (proj2 (proj2 (media_reassembly 6 demo_fetches _ _))).
  - unfold demo_fetches. cbn [consecutive]. split_and!; try (vm_compute; reflexivity); try (vm_compute; discriminate);
      try (intros _; vm_compute; reflexivity); try (intros H; by destruct H).
  - discriminate.
Defined.
