(* ===== verification/StrictJson.v ===== *)
(** * StrictJson: media chunk responses (internal/client/common/media_types.go)

    [decodeStrictJSONObject] reads an object member by member from a [jsontext.Decoder]: known members only, each
    once, every value assigned as it is read, nothing after the object.  [UnmarshalJSON] of [MediaChunkResponse] is
    that with the six required members, none of them null. *)

From S2P Require Import Prelude GoStrings GoStrconv GoJson Media.

(** ** The decoder's loop *)

Inductive peeked := PeekEnd (rest : gostring) | PeekName (text : gostring) | PeekInvalid.

(** [PeekKind] inside an object: [first] says no member was read yet; a comma comes between members only. *)
Definition peek (first : bool) (s : gostring) : peeked :=
  match skip_ws s with
  | [] => PeekInvalid
  | c :: r =>
      if beq c "}" then PeekEnd r
      else if first then PeekName (c :: r)
      else if beq c "," then
        match skip_ws r with
        | [] => PeekInvalid
        | d :: _ => if beq d "}" then PeekInvalid else PeekName (skip_ws r)
        end
      else PeekInvalid
  end.

(** [ReadToken] of a name. *)
Definition read_name (s : gostring) : option (gostring * gostring) :=
  match s with
  | q :: r => if beq q x22 then parse_string (length r) r else None
  | [] => None
  end.

(** [ReadValue] after a name: the text of the value, as a [jsontext.Value]. *)
Definition read_value (fuel depth : nat) (s : gostring) : option (gostring * gostring) :=
  match skip_ws s with
  | c :: r =>
      if beq c ":" then
        let text := skip_ws r in
        match parse_value fuel depth text with
        | Some (_, r) => Some (take (length text - length r) text, r)
        | None => None
        end
      else None
  | [] => None
  end.

Lemma find_member_none n l : n ∉ map fst l → find_member n l = None.
Proof.
  induction l as [|[f v] l IH]; [done |]. cbn [map fst find_member]. intros Hn. rewrite not_elem_of_cons in Hn.
  rewrite (proj2 (seqb_false f n)) by (intros ->; by destruct Hn). apply IH, Hn.
Qed.

Lemma find_member_in n l x : find_member n l = Some x → (n, x) ∈ l.
Proof.
  induction l as [|[f v] l IH]; [done |]. cbn [find_member]. destruct (seqb f n) eqn:E.
  - apply seqb_true in E as ->. intros [= ->]. apply elem_of_cons. by left.
  - intros H. apply elem_of_cons. right. by apply IH.
Qed.

Lemma find_member_nodup n l x : NoDup (map fst l) → (n, x) ∈ l → find_member n l = Some x.
Proof.
  induction l as [|[f v] l IH]; intros Hn Hin; [by apply not_elem_of_nil in Hin |]. cbn [map fst] in Hn.
  apply NoDup_cons in Hn as [Hf Hn]. cbn [find_member]. apply elem_of_cons in Hin as [[= <- <-]|Hin]; [by rewrite seqb_refl |].
  rewrite (proj2 (seqb_false f n)); [by apply IH |]. intros ->. apply Hf. apply (list_elem_of_fmap_2 fst) in Hin. exact Hin.
Qed.

Section strict.
Context {W : Type} (knownFields : list gostring) (assign : gostring → gostring → W → option W).

Fixpoint strict_loop (fuel depth : nat) (first : bool) (seen : list gostring) (w : W) (s : gostring) : option (W * gostring) :=
  match fuel with
  | O => None
  | S fuel =>
      match peek first s with
      | PeekInvalid => None
      | PeekEnd r => Some (w, r)
      | PeekName s =>
          match read_name s with
          | None => None
          | Some (field, s) =>
              if negb (bool_decide (field ∈ knownFields)) then None
              else if bool_decide (field ∈ seen) then None
              else
                match read_value fuel depth s with
                | None => None
                | Some (value, s) =>
                    match assign field value w with
                    | None => None
                    | Some w => strict_loop fuel depth false (field :: seen) w s
                    end
                end
          end
      end
  end.

(** Every token takes a byte, so twice the length of the text is enough fuel ([strict_parse] below). *)
Definition decodeStrictJSONObject (data : gostring) (w : W) : option W :=
  match skip_ws data with
  | c :: r =>
      if beq c "{" then
        match strict_loop (2 * length data) (pred maxNestingDepth) true [] w r with
        | Some (w, r) => if is_empty (skip_ws r) then Some w else None
        | None => None
        end
      else None
  | [] => None
  end.

(** ** The loop against the parser *)

(** The members of a parsed object, assigned in order. *)
Fixpoint assign_all (seen : list gostring) (w : W) (l : list (gostring * (gostring * json))) : option W :=
  match l with
  | [] => Some w
  | (field, (value, _)) :: l =>
      if negb (bool_decide (field ∈ knownFields)) then None
      else if bool_decide (field ∈ seen) then None
      else match assign field value w with
           | None => None
           | Some w => assign_all (field :: seen) w l
           end
  end.

(** What the loop gives from a position: the members the parser finds there, assigned. *)
Definition strict_at (fuel depth : nat) (p : peeked) (seen : list gostring) (w : W) : option (W * gostring) :=
  match p with
  | PeekInvalid => None
  | PeekEnd r => Some (w, r)
  | PeekName t =>
      match parse_members fuel depth t with
      | Some (l, r) => (λ w, (w, r)) <$> assign_all seen w l
      | None => None
      end
  end.

Lemma peek_length first s t : peek first s = PeekName t → (length t ≤ length s)%nat.
Proof.
  unfold peek. pose proof (skip_ws_length s) as Hs. destruct (skip_ws s) as [|c r]; [done |].
  destruct (beq c "}"); [done |]. destruct first; [by intros [= <-] |]. destruct (beq c ","); [|done].
  pose proof (skip_ws_length r). destruct (skip_ws r) as [|d r1]; [done |]. destruct (beq d "}"); [done |].
  intros [= <-]. cbn [length] in *. lia.
Qed.

(** After a member, the parser goes on where the decoder does. *)
Lemma peek_next fuel depth seen w m r :
  strict_at fuel depth (peek false r) seen w =
  match (match skip_ws r with
         | c :: r' =>
             if beq c "}" then Some ([m], r')
             else if beq c "," then
               match parse_members fuel depth (skip_ws r') with
               | Some (l, r'') => Some (m :: l, r'')
               | None => None
               end
             else None
         | [] => None
         end) with
  | Some (_ :: l, r) => (λ w, (w, r)) <$> assign_all seen w l
  | _ => None
  end.
Proof.
  unfold peek. destruct (skip_ws r) as [|c r']; [done |]. destruct (beq c "}"); [done |]. destruct (beq c ","); [|done].
  destruct (skip_ws r') as [|d r1] eqn:E; [by destruct fuel |]. destruct (beq d "}") eqn:Ed.
  - apply beq_true in Ed as ->. by destruct fuel.
  - cbn [strict_at]. by destruct (parse_members fuel depth (d :: r1)) as [[l r2]|].
Qed.

Lemma strict_loop_parse fuel depth first seen w s :
  (2 * length s + 2 ≤ fuel)%nat → strict_loop fuel depth first seen w s = strict_at fuel depth (peek first s) seen w.
Proof.
  revert first seen w s. induction fuel as [|fuel IH]; intros first seen w s Hf; [lia |].
  cbn [strict_loop]. unfold strict_at. destruct (peek first s) as [r0|t|] eqn:Ep; [done | | done].
  apply peek_length in Ep. cbn [parse_members]. unfold read_name, read_value.
  destruct t as [|q r]; [done |]. destruct (beq q x22); cbn [negb]; [|done].
  destruct (parse_string (length r) r) as [[field r1]|] eqn:Es; [|done]. apply parse_string_length in Es.
  pose proof (skip_ws_length r1) as Hw1. destruct (skip_ws r1) as [|c r2].
  { by destruct (negb _), (bool_decide (field ∈ seen)). }
  destruct (beq c ":"); cbn [negb]; [|by destruct (negb _), (bool_decide (field ∈ seen))].
  cbv zeta. pose proof (skip_ws_length r2) as Hw2.
  destruct (parse_value fuel depth (skip_ws r2)) as [[v r3]|] eqn:Ev; [|by destruct (negb _), (bool_decide (field ∈ seen))].
  apply (proj1 (parse_length fuel)) in Ev. set (raw := take _ _). cbn [length] in *.
  pose proof (λ w, peek_next fuel depth (field :: seen) w (field, (raw, v)) r3) as Hn.
  destruct (match skip_ws r3 with [] => None | _ => _ end) as [[[|[f [x y]] l] r4]|] eqn:En.
  - exfalso. destruct (skip_ws r3) as [|c' r']; [done |]. destruct (beq c' "}"); [done |]. destruct (beq c' ","); [|done].
    destruct (parse_members fuel depth (skip_ws r')) as [[? ?]|]; done.
  - assert ((f, (x, y)) = (field, (raw, v))) as [= -> -> ->].
    { destruct (skip_ws r3) as [|c' r']; [done |]. destruct (beq c' "}"); [by simplify_eq |]. destruct (beq c' ","); [|done].
      destruct (parse_members fuel depth (skip_ws r')) as [[? ?]|]; [by simplify_eq | done]. }
    cbn [assign_all]. destruct (negb _); [done |]. destruct (bool_decide _); [done |].
    destruct (assign field raw w) as [w1|]; [|done]. rewrite IH by lia. apply Hn.
  - destruct (negb _); [done |]. destruct (bool_decide _); [done |]. destruct (assign field raw w) as [w1|]; [|done].
    rewrite IH by lia. apply Hn.
Qed.

Lemma assign_all_names seen w l w' :
  assign_all seen w l = Some w' →
  NoDup (map fst l) ∧ (∀ n, n ∈ map fst l → n ∈ knownFields) ∧ (∀ n, n ∈ map fst l → n ∈ seen → False).
Proof.
  revert seen w. induction l as [|[f [raw v]] l IH]; intros seen w H; cbn [assign_all] in H.
  - split_and!; [apply NoDup_nil_2 | |]; intros n Hn; by apply not_elem_of_nil in Hn.
  - destruct (negb _) eqn:Ek; [done |]. destruct (bool_decide (f ∈ seen)) eqn:Es; [done |].
    destruct (assign f raw w) as [w1|]; [|done]. apply IH in H as (Hn & Hk & Hs). apply negb_false_iff, bool_decide_eq_true in Ek.
    apply bool_decide_eq_false in Es. cbn [map fst].
    split_and!.
    + apply NoDup_cons_2; [|done]. intros Hin. apply (Hs f Hin). apply elem_of_cons. by left.
    + intros n [->|Hin]%elem_of_cons; [done | auto].
    + intros n [->|Hin]%elem_of_cons Hsn; [done |]. apply (Hs n Hin). apply elem_of_cons. by right.
Qed.

Lemma parse_literal_scalar s v r : parse_literal s = Some (v, r) → ∀ l, v ≠ JObject l.
Proof.
  unfold parse_literal. destruct (cut_prefix (go "null") s); [by intros [= <- _] |].
  destruct (cut_prefix (go "true") s); [by intros [= <- _] |]. destruct (cut_prefix (go "false") s); [by intros [= <- _] |].
  destruct (parse_number s) as [[n r']|]; [by intros [= <- _] | done].
Qed.

(** The decoder accepts what the parser accepts as an object, and assigns its members in order. *)
Lemma strict_parse data w :
  decodeStrictJSONObject data w = match parse_json data with Some (JObject l) => assign_all [] w l | _ => None end.
Proof.
  unfold decodeStrictJSONObject, parse_json. pose proof (skip_ws_length data) as Hl.
  replace (2 * length data + 1)%nat with (S (2 * length data)) by lia. cbn [parse_value].
  destruct (skip_ws data) as [|c r]; [done |]. cbn [length] in Hl. assert (maxNestingDepth = S (pred maxNestingDepth)) as Hd by (unfold maxNestingDepth; lia).
  destruct (beq c "{") eqn:Eb.
  2:{ destruct (beq c x22); [by destruct (parse_string _ _) as [[? ?]|]; [destruct (is_empty _) |] |].
      destruct (beq c "["); [destruct maxNestingDepth; [done |] |].
      - destruct (skip_ws r) as [|c' r']; [done |]. destruct (beq c' "]"); [by destruct (is_empty _) |].
        by destruct (parse_elems _ _ _) as [[? ?]|]; [destruct (is_empty _) |].
      - destruct (parse_literal (c :: r)) as [[v r']|] eqn:El; [|done]. pose proof (parse_literal_scalar _ _ _ El) as Hs.
        destruct (is_empty _); [|done]. destruct v as [| | | | |ms]; try done. by destruct (Hs ms). }
  apply beq_true in Eb as ->. change (beq "{" x22) with false. change (beq "{" "[") with false. cbv iota.
  rewrite Hd. cbv iota. rewrite strict_loop_parse by lia. unfold peek, strict_at.
  destruct (skip_ws r) as [|c' r'] eqn:Er; [done |]. destruct (beq c' "}"); [by destruct (is_empty _) |].
  rewrite Nat.pred_succ. destruct (parse_members _ _ _) as [[l r2]|]; [|done].
  destruct (assign_all [] w l) as [w'|] eqn:Ea; cbn [fmap option_fmap option_map].
  - apply assign_all_names in Ea as Hn. rewrite bool_decide_eq_true_2 by apply Hn. by destruct (is_empty _).
  - destruct (bool_decide _); [|done]. by destruct (is_empty _).
Qed.

Lemma assign_all_total seen w l :
  (∀ f raw v w, (f, (raw, v)) ∈ l → is_Some (assign f raw w)) → NoDup (map fst l) →
  (∀ n, n ∈ map fst l → n ∈ knownFields) → (∀ n, n ∈ map fst l → n ∈ seen → False) → is_Some (assign_all seen w l).
Proof.
  revert seen w. induction l as [|[f [raw v]] l IH]; intros seen w Ha Hn Hk Hs; [by eexists |]. cbn [assign_all].
  cbn [map fst] in *. apply NoDup_cons in Hn as [Hf Hn].
  rewrite bool_decide_eq_true_2 by (apply Hk, elem_of_cons; by left). cbn [negb].
  rewrite bool_decide_eq_false_2 by (intros Hin; apply (Hs f); [apply elem_of_cons; by left | done]).
  destruct (Ha f raw v w) as [w1 ->]; [apply elem_of_cons; by left |]. apply IH; [|done | |].
  - intros g raw' v' w' Hin. eapply Ha, elem_of_cons. by right.
  - intros n Hin. apply Hk, elem_of_cons. by right.
  - intros n Hin [->|Hseen]%elem_of_cons; [done |]. apply (Hs n); [apply elem_of_cons; by right | done].
Qed.

(** A slot that the member [n] alone sets ends as that member's value. *)
Lemma assign_slot {A} (slot : W → option A) n (dec : gostring → option A) seen w l w' :
  (∀ f raw w w', assign f raw w = Some w' → slot w' = if seqb f n then dec raw else slot w) →
  assign_all seen w l = Some w' →
  slot w' = match find_member n l with Some (raw, _) => dec raw | None => slot w end.
Proof.
  intros Ha. revert seen w. induction l as [|[f [raw v]] l IH]; intros seen w H; [by injection H as -> |].
  pose proof H as Hnames. apply assign_all_names in Hnames as (Hnd & _). cbn [map fst] in Hnd. apply NoDup_cons in Hnd as [Hf _].
  cbn [assign_all] in H. destruct (negb _); [done |]. destruct (bool_decide _); [done |].
  destruct (assign f raw w) as [w1|] eqn:E; [|done]. apply Ha in E. apply IH in H. rewrite H. cbn [find_member].
  destruct (seqb f n) eqn:Es; [|by rewrite E]. apply seqb_true in Es as ->. by rewrite (find_member_none n l Hf).
Qed.
End strict.

(** The value of a member that must be there and not be null. *)
Definition decodeRequiredJSONValue {A} (dec : json → option A) (value : gostring) : option A :=
  match (v ← parse_json value; dec_ptr dec v) with
  | Some (Some x) => Some x
  | _ => None
  end.

(** ** The response *)

Definition mediaChunkResponseFields : list gostring :=
  [go "chunkBase64"; go "totalLength"; go "mimeType"; go "sha256"; go "eof"; go "mediaCount"].

Record chunkWire := mkChunkWire {
  cw_ChunkBase64 : option gostring;
  cw_TotalLength : option Z;
  cw_MIMEType : option gostring;
  cw_SHA256 : option gostring;
  cw_EOF : option bool;
  cw_MediaCount : option Z;
}.

Definition assign_chunk (field value : gostring) (w : chunkWire) : option chunkWire :=
  let '(mkChunkWire c t m h e n) := w in
  if seqb field (go "chunkBase64") then
    (λ x, mkChunkWire (Some x) t m h e n) <$> decodeRequiredJSONValue dec_string value
  else if seqb field (go "totalLength") then
    (λ x, mkChunkWire c (Some x) m h e n) <$> decodeRequiredJSONValue dec_int64 value
  else if seqb field (go "mimeType") then
    (λ x, mkChunkWire c t (Some x) h e n) <$> decodeRequiredJSONValue dec_string value
  else if seqb field (go "sha256") then
    (λ x, mkChunkWire c t m (Some x) e n) <$> decodeRequiredJSONValue dec_string value
  else if seqb field (go "eof") then
    (λ x, mkChunkWire c t m h (Some x) n) <$> decodeRequiredJSONValue dec_bool value
  else if seqb field (go "mediaCount") then
    (λ x, mkChunkWire c t m h e (Some x)) <$> decodeRequiredJSONValue dec_int64 value
  else None.

Definition UnmarshalJSON (data : gostring) : option MediaChunkResponse :=
  match decodeStrictJSONObject mediaChunkResponseFields assign_chunk data (mkChunkWire None None None None None None) with
  | Some (mkChunkWire (Some c) (Some t) (Some m) (Some h) (Some e) (Some n)) => Some (mkChunkResponse c t m h e n)
  | _ => None
  end.

(** ** Exactly six members *)

(** The value of a required member of a parsed object. *)
Definition required {A} (l : list (gostring * (gostring * json))) (name : gostring) (dec : json → option A) : option A :=
  match find_member name l with
  | Some (value, _) => decodeRequiredJSONValue dec value
  | None => None
  end.

Lemma chunk_slots f raw w w' :
  assign_chunk f raw w = Some w' →
  cw_ChunkBase64 w' = (if seqb f (go "chunkBase64") then decodeRequiredJSONValue dec_string raw else cw_ChunkBase64 w) ∧
  cw_TotalLength w' = (if seqb f (go "totalLength") then decodeRequiredJSONValue dec_int64 raw else cw_TotalLength w) ∧
  cw_MIMEType w' = (if seqb f (go "mimeType") then decodeRequiredJSONValue dec_string raw else cw_MIMEType w) ∧
  cw_SHA256 w' = (if seqb f (go "sha256") then decodeRequiredJSONValue dec_string raw else cw_SHA256 w) ∧
  cw_EOF w' = (if seqb f (go "eof") then decodeRequiredJSONValue dec_bool raw else cw_EOF w) ∧
  cw_MediaCount w' = (if seqb f (go "mediaCount") then decodeRequiredJSONValue dec_int64 raw else cw_MediaCount w).
Proof.
  destruct w. cbn [assign_chunk]. intros H.
  repeat match type of H with
  | (if seqb f ?n then _ else _) = _ =>
      let E := fresh "E" in destruct (seqb f n) eqn:E;
      [apply seqb_true in E as ->; destruct (decodeRequiredJSONValue _ _); [|discriminate H]; injection H as <-; split_and!; reflexivity |]
  end. discriminate H.
Qed.

Definition empty_wire : chunkWire := mkChunkWire None None None None None None.

(** What the members of an object make of the wire. *)
Definition wire_of (l : list (gostring * (gostring * json))) : chunkWire :=
  mkChunkWire (required l (go "chunkBase64") dec_string) (required l (go "totalLength") dec_int64)
    (required l (go "mimeType") dec_string) (required l (go "sha256") dec_string) (required l (go "eof") dec_bool)
    (required l (go "mediaCount") dec_int64).

Lemma assign_all_wire l w :
  assign_all mediaChunkResponseFields assign_chunk [] empty_wire l = Some w → w = wire_of l.
Proof.
  intros H.
  assert (∀ A (slot : chunkWire → option A) n dec, slot empty_wire = None →
    (∀ f raw w w', assign_chunk f raw w = Some w' → slot w' = if seqb f n then decodeRequiredJSONValue dec raw else slot w) →
    slot w = required l n dec) as Hslot.
  { intros A slot n dec H0 Ha. rewrite (assign_slot _ _ _ _ _ _ _ _ _ Ha H), H0. done. }
  destruct w as [c t m h e n]. unfold wire_of. f_equal.
  - apply (Hslot _ cw_ChunkBase64); [done |]. intros; by apply chunk_slots.
  - apply (Hslot _ cw_TotalLength); [done |]. intros; by apply chunk_slots.
  - apply (Hslot _ cw_MIMEType); [done |]. intros; by apply chunk_slots.
  - apply (Hslot _ cw_SHA256); [done |]. intros; by apply chunk_slots.
  - apply (Hslot _ cw_EOF); [done |]. intros; by apply chunk_slots.
  - apply (Hslot _ cw_MediaCount); [done |]. intros; by apply chunk_slots.
Qed.

Lemma required_found {A} l n (dec : json → option A) x : required l n dec = Some x → n ∈ map fst l.
Proof.
  unfold required. destruct (find_member n l) as [y|] eqn:E; [|done]. intros _.
  apply find_member_in in E. by apply (list_elem_of_fmap_2 fst) in E.
Qed.

(** The wire is complete when every required member has a value. *)
Lemma assign_chunk_complete l c t m h e n f raw v w :
  wire_of l = mkChunkWire (Some c) (Some t) (Some m) (Some h) (Some e) (Some n) → NoDup (map fst l) →
  f ∈ mediaChunkResponseFields → (f, (raw, v)) ∈ l → is_Some (assign_chunk f raw w).
Proof.
  intros [= Hc Ht Hm Hh He Hn] Hnd Hf Hin. apply find_member_nodup in Hin as Hfind; [|done]. unfold required in *. destruct w.
  repeat (apply elem_of_cons in Hf as [->|Hf]); [..|by apply not_elem_of_nil in Hf]; rewrite Hfind in *;
    match goal with H : decodeRequiredJSONValue _ raw = Some _ |- _ =>
      cbn [assign_chunk]; repeat match goal with |- context [seqb ?a ?b] => let x := eval vm_compute in (seqb a b) in change (seqb a b) with x end;
      cbv iota; rewrite H; by eexists end.
Qed.

Lemma unmarshal_iff data resp :
  UnmarshalJSON data = Some resp ↔
  ∃ l, parse_json data = Some (JObject l) ∧ map fst l ≡ₚ mediaChunkResponseFields ∧
    wire_of l = mkChunkWire (Some (mr_ChunkBase64 resp)) (Some (mr_TotalLength resp)) (Some (mr_MIMEType resp))
                  (Some (mr_SHA256 resp)) (Some (mr_EOF resp)) (Some (mr_MediaCount resp)).
Proof.
  unfold UnmarshalJSON. rewrite strict_parse. fold empty_wire. split.
  - destruct (parse_json data) as [[| | | | |l]|]; try done.
    destruct (assign_all _ _ [] empty_wire l) as [w|] eqn:Ea; [|done]. apply assign_all_wire in Ea as Hw.
    apply assign_all_names in Ea as (Hnd & Hk & _). subst w.
    destruct (wire_of l) as [[c|] [t|] [m|] [h|] [e|] [n|]] eqn:Ew; try done. intros [= <-]. exists l.
    split_and!; [done | | done]. apply NoDup_Permutation; [done | by apply (bool_decide_unpack _); vm_compute |].
    injection Ew as Hc Ht Hm Hh He Hn. intros x. split; [apply Hk |]. intros Hx.
    repeat (apply elem_of_cons in Hx as [->|Hx]); [by eapply required_found.. | by apply not_elem_of_nil in Hx].
  - intros (l & -> & Hp & Hw).
    assert (NoDup (map fst l)) as Hnd by (rewrite Hp; by apply (bool_decide_unpack _); vm_compute).
    destruct (assign_all_total mediaChunkResponseFields assign_chunk [] empty_wire l) as [w Ha]; [| done | | |].
    + intros f raw v w Hin. eapply assign_chunk_complete; [exact Hw | done | | done].
      rewrite <- Hp. by apply (list_elem_of_fmap_2 fst) in Hin.
    + intros x. by rewrite Hp.
    + intros x _ Hx. by apply not_elem_of_nil in Hx.
    + rewrite Ha. apply assign_all_wire in Ha as ->. rewrite Hw. by destruct resp.
Qed.
