(* ===== verification/Send.v ===== *)
(** * Send: replies before they are sent (options.go, normalize.go, client.go of internal/client/transport,
    internal/client/common/types.go, iris/reply_reissue.go, iris/reply_status.go)

    Send options and their checks, the text and image requests built from them, and the reissue of client
    request IDs. *)

From S2P Require Import Prelude GoStrings GoStrconv GoCrypto GoJson GoJsonEnc Hmac Errors Multipart MultipartFrame.

(** ** Mentions (common/types.go) *)

(** [ReplyMentionUserID] is [any]: the dynamic types the code tells apart. *)
Inductive ReplyMentionUserID :=
| UserString (s : gostring)
| UserSigned (n : Z)
| UserUnsigned (n : Z)
| UserNil
| UserOther.

Inductive sendError :=
| RequestIDInvalid | ThreadBlank | ThreadNotNumeric | MentionBlank | MentionNotPositive | MentionMissing
| MentionType | MentionLen | MentionTarget | MentionAt | MentionsUnsupported | ContentTypeUnsupported
| ContentTypeSingle | ContentTypeMismatch | UnrecognizedImage (index : nat) | PayloadError (e : multipartError)
| ReissueEmpty | ReissueRange | ReissueNested | EncodeMetadata.

Definition normalizeReplyMentionUserID (value : ReplyMentionUserID) : result sendError ReplyMentionUserID :=
  match value with
  | UserString v =>
      let trimmed := TrimSpace v in if is_empty trimmed then Err MentionBlank else Ok (UserString trimmed)
  | UserSigned signed => if signed <=? 0 then Err MentionNotPositive else Ok (UserSigned signed)
  | UserUnsigned unsigned =>
      if (unsigned =? 0) || (MaxInt64 <? unsigned) then Err MentionNotPositive else Ok (UserSigned unsigned)
  | UserNil => Err MentionMissing
  | UserOther => Err MentionType
  end.

Record ReplyMention := mkReplyMention {
  rm_UserID : ReplyMentionUserID;
  rm_Nickname : gostring;
  rm_At : list Z;
  rm_Len : Z;
}.

(** [ReplyMention.MarshalJSON]: the members around the normalized user ID. *)
Definition replyMentionJSON (userID : jout) (m : ReplyMention) : jout :=
  OObject (field (go "userId") userID ++ omitempty (go "nickname") (rm_Nickname m)
           ++ omitempty_slice (go "at") (map OInt (rm_At m)) ++ omitzero (go "len") (rm_Len m)).

Definition ReplyMention_MarshalJSON (m : ReplyMention) : option jout :=
  match normalizeReplyMentionUserID (rm_UserID m) with
  | Ok (UserString s) => Some (replyMentionJSON (OString s) m)
  | Ok (UserSigned n) => Some (replyMentionJSON (OInt n) m)
  | _ => None
  end.
#[export] Instance ReplyMention_Marshaler : Marshaler ReplyMention := ReplyMention_MarshalJSON.

(** ** Options (options.go) *)

Record sendOptions := mkSendOptions {
  so_ClientRequestID : option gostring;
  so_ThreadID : option gostring;
  so_ImageContentType : option gostring;
  so_Mentions : list ReplyMention;
}.

Inductive SendOption :=
| WithThreadID (id : gostring)
| WithClientRequestID (id : gostring)
| WithImageContentType (contentType : gostring)
| WithMention (mention : ReplyMention)
| NilSendOption.

Definition apply_send_option (o : sendOptions) (opt : SendOption) : sendOptions :=
  match opt with
  | WithThreadID id => mkSendOptions (so_ClientRequestID o) (Some id) (so_ImageContentType o) (so_Mentions o)
  | WithClientRequestID id => mkSendOptions (Some id) (so_ThreadID o) (so_ImageContentType o) (so_Mentions o)
  | WithImageContentType ct => mkSendOptions (so_ClientRequestID o) (so_ThreadID o) (Some ct) (so_Mentions o)
  | WithMention m => mkSendOptions (so_ClientRequestID o) (so_ThreadID o) (so_ImageContentType o) (so_Mentions o ++ [m])
  | NilSendOption => o
  end.

Definition applySendOptions (opts : list SendOption) : sendOptions :=
  foldl apply_send_option (mkSendOptions None None None []) opts.

Definition is_request_id_rune (r : Z) : bool :=
  ((97 <=? r) && (r <=? 122)) || ((65 <=? r) && (r <=? 90)) || ((48 <=? r) && (r <=? 57))
  || (r =? 46) || (r =? 95) || (r =? 58) || (r =? 45).

(** [validateClientRequestID]; true: no error. *)
Definition validateClientRequestID (id : gostring) : bool :=
  let id := TrimSpace id in
  if (zlen id <? 8) || (160 <? zlen id) then false
  else forallb is_request_id_rune (runes id).

(** normalize.go *)
Definition normalizeReplyThreadIDValue (threadID : gostring) : result sendError gostring :=
  let trimmed := TrimSpace threadID in
  if is_empty trimmed then Err ThreadBlank
  else if negb (forallb is_digit trimmed) then Err ThreadNotNumeric
  else Ok trimmed.

Definition normalizeReplyThreadID (threadID : option gostring) : option gostring :=
  match threadID with
  | None => None
  | Some id => match normalizeReplyThreadIDValue id with Ok normalized => Some normalized | Err _ => None end
  end.

Definition validate_mention (mention : ReplyMention) : result sendError unit :=
  let? _ := normalizeReplyMentionUserID (rm_UserID mention) in
  if rm_Len mention <? 0 then Err MentionLen
  else
    let hasNickname := negb (is_empty (TrimSpace (rm_Nickname mention))) in
    let hasRange := negb (is_empty (rm_At mention)) && (0 <? rm_Len mention) in
    if negb hasNickname && negb hasRange then Err MentionTarget
    else if existsb (λ position, position <=? 0) (rm_At mention) then Err MentionAt
    else Ok tt.

Fixpoint validateReplyMentions (mentions : list ReplyMention) : result sendError unit :=
  match mentions with
  | [] => Ok tt
  | m :: rest => let? _ := validate_mention m in validateReplyMentions rest
  end.

Definition validateSendOptions (o : sendOptions) : result sendError unit :=
  let? _ := match so_ClientRequestID o with
            | Some id => if validateClientRequestID id then Ok tt else Err RequestIDInvalid
            | None => Ok tt
            end in
  let? _ := match so_ThreadID o with
            | Some id => let? _ := normalizeReplyThreadIDValue id in Ok tt
            | None => Ok tt
            end in
  validateReplyMentions (so_Mentions o).

(** ** Text replies (client.go) *)

Record ReplyRequest := mkReplyRequest {
  rr_ClientRequestID : option gostring;
  rr_Type : gostring;
  rr_Room : gostring;
  rr_Data : gostring;
  rr_ThreadID : option gostring;
  rr_Mentions : list ReplyMention;
}.

(** The members by the tags of the struct. *)
Definition ReplyRequest_json (r : ReplyRequest) : option jout :=
  (λ mentions, OObject (omitempty_ptr (go "clientRequestId") (rr_ClientRequestID r) ++ field (go "type") (OString (rr_Type r))
     ++ field (go "room") (OString (rr_Room r)) ++ field (go "data") (OString (rr_Data r))
     ++ omitempty_ptr (go "threadId") (rr_ThreadID r) ++ omitempty_slice (go "mentions") mentions))
  <$> mapM to_jout (rr_Mentions r).

#[export] Instance ReplyRequest_Marshaler : Marshaler ReplyRequest := ReplyRequest_json.
Definition normalizeClientRequestID (id : option gostring) : option gostring :=
  match id with
  | None => None
  | Some id => let trimmed := TrimSpace id in if is_empty trimmed then None else Some trimmed
  end.

Definition msgTypeText : gostring := go "text".
Definition msgTypeMarkdown : gostring := go "markdown".
Definition msgTypeRichText : gostring := go "richtext".

(** The body of a reply of the given type and whether it carries an idempotency key. *)
Definition reply_request (msgType room data : gostring) (opts : list SendOption) : result sendError (ReplyRequest * bool) :=
  let o := applySendOptions opts in
  let? _ := validateSendOptions o in
  let clientRequestID := normalizeClientRequestID (so_ClientRequestID o) in
  Ok (mkReplyRequest clientRequestID msgType room data (normalizeReplyThreadID (so_ThreadID o)) (so_Mentions o),
      match clientRequestID with Some _ => true | None => false end).

Definition SendMessageAccepted_request room message opts := reply_request msgTypeText room message opts.
Definition SendMarkdown_request room markdown opts := reply_request msgTypeMarkdown room markdown opts.
Definition SendRichText_request room markdown opts := reply_request msgTypeRichText room markdown opts.

(** ** Images (client.go, options.go) *)

Definition mimeImagePNG : gostring := go "image/png".

Definition detectImageContentType (data : gostring) : option gostring :=
  let at_ i s := seqb (take (length s) (drop i data)) s in
  let len := length data in
  if (4 <=? len)%nat && at_ 0%nat (x89 :: go "PNG") then Some mimeImagePNG
  else if (3 <=? len)%nat && at_ 0%nat [xff; xd8; xff] then Some (go "image/jpeg")
  else if (12 <=? len)%nat && at_ 0%nat (go "RIFF") && at_ 8%nat (go "WEBP") then Some (go "image/webp")
  else if (4 <=? len)%nat && at_ 0%nat (go "GIF8") then Some (go "image/gif")
  else if (12 <=? len)%nat && at_ 4%nat (go "ftyp") then Some (go "video/mp4")
  else None.

Definition isAllowedReplyMediaContentType (contentType : gostring) : bool :=
  seqb contentType mimeImagePNG || seqb contentType (go "image/jpeg") || seqb contentType (go "image/webp")
  || seqb contentType (go "image/gif") || seqb contentType (go "video/mp4").

Definition normalizeReplyMediaContentType (contentType : gostring) : option gostring :=
  let normalized := (Cut ";" (TrimSpace contentType)).1.1 in
  let normalized := ToLower (TrimSpace normalized) in
  if isAllowedReplyMediaContentType normalized then Some normalized else None.

Fixpoint detect_all (i : nat) (images : list gostring) : result sendError (list gostring) :=
  match images with
  | [] => Ok []
  | image :: rest =>
      match detectImageContentType image with
      | None => Err (UnrecognizedImage i)
      | Some detected => let? more := detect_all (S i) rest in Ok (detected :: more)
      end
  end.

Definition imageContentTypesForSend (images : list gostring) (explicitContentType : option gostring)
  : result sendError (list gostring) :=
  let? contentTypes := detect_all 0 images in
  match explicitContentType with
  | None => Ok contentTypes
  | Some explicit =>
      match normalizeReplyMediaContentType explicit with
      | None => Err ContentTypeUnsupported
      | Some contentType =>
          if negb (length images =? 1)%nat then Err ContentTypeSingle
          else match contentTypes with
               | first :: _ => if seqb contentType first then Ok contentTypes else Err ContentTypeMismatch
               | [] => Err ContentTypeSingle
               end
      end
  end.

Record imagePartSpec := mkImagePartSpec {
  ip_Index : Z;
  ip_SHA256Hex : gostring;
  ip_ByteLength : Z;
  ip_ContentType : gostring;
}.

(** [contentTypes] has one entry per image. *)
Fixpoint buildImageManifest (i : nat) (images contentTypes : list gostring) : list imagePartSpec :=
  match images, contentTypes with
  | img :: images, ct :: contentTypes =>
      mkImagePartSpec (Z.of_nat i) (hexEncode (sha256 img)) (zlen img) ct :: buildImageManifest (S i) images contentTypes
  | _, _ => []
  end.

Record replyImageMetadata := mkImageMetadata {
  im_ClientRequestID : option gostring;
  im_Type : gostring;
  im_Room : gostring;
  im_ThreadID : option gostring;
  im_Images : list imagePartSpec;
}.

Definition imagePartSpec_json (p : imagePartSpec) : jout :=
  OObject (field (go "index") (OInt (ip_Index p)) ++ field (go "sha256Hex") (OString (ip_SHA256Hex p))
           ++ field (go "byteLength") (OInt (ip_ByteLength p)) ++ field (go "contentType") (OString (ip_ContentType p))).

Definition replyImageMetadata_json (m : replyImageMetadata) : option jout :=
  Some (OObject (omitempty_ptr (go "clientRequestId") (im_ClientRequestID m) ++ field (go "type") (OString (im_Type m))
     ++ field (go "room") (OString (im_Room m)) ++ omitempty_ptr (go "threadId") (im_ThreadID m)
     ++ field (go "images") (OArray (map imagePartSpec_json (im_Images m))))).

#[export] Instance replyImageMetadata_Marshaler : Marshaler replyImageMetadata := replyImageMetadata_json.
Definition msgTypeImage : gostring := go "image".
Definition msgTypeImageMultiple : gostring := go "image_multiple".

Definition validateImageReplyOptions (o : sendOptions) : result sendError unit :=
  let? _ := match so_ImageContentType o with
            | Some ct => match normalizeReplyMediaContentType ct with Some _ => Ok tt | None => Err ContentTypeUnsupported end
            | None => Ok tt
            end in
  if is_empty (so_Mentions o) then Ok tt else Err MentionsUnsupported.

(** [SendImage] and [SendMultipleImages] up to [postMultipart]: the metadata and the content types. *)
Definition prepare_images (multiple : bool) (room : gostring) (images : list gostring) (opts : list SendOption)
  : result sendError (replyImageMetadata * list gostring) :=
  let o := applySendOptions opts in
  let? _ := validateSendOptions o in
  let? _ := validateImageReplyOptions o in
  let? _ := match ValidateReplyImages images with Some e => Err (PayloadError e) | None => Ok tt end in
  let? _ := match so_ImageContentType o with
            | Some _ => if multiple then Err ContentTypeSingle else Ok tt
            | None => Ok tt
            end in
  let? contentTypes := imageContentTypesForSend images (so_ImageContentType o) in
  Ok (mkImageMetadata (normalizeClientRequestID (so_ClientRequestID o))
        (if multiple then msgTypeImageMultiple else msgTypeImage) room (normalizeReplyThreadID (so_ThreadID o))
        (buildImageManifest 0 images contentTypes), contentTypes).

(** [postMultipart] up to the retry loop. *)
Definition prepare_multipart (boundary : gostring) (prepared : replyImageMetadata * list gostring) (images : list gostring)
  : result sendError BodyFactory :=
  let '(metadata, contentTypes) := prepared in
  match Marshal metadata with
  | None => Err EncodeMetadata
  | Some metadataBytes => result_map_err PayloadError (NewBodyFactory boundary metadataBytes images contentTypes)
  end.

(** ** Reissue (iris/reply_reissue.go) and status classes (iris/reply_status.go) *)

Definition ReplyReissueMaxGenerations : Z := 2.
Definition replyReissueSuffixPrefix : gostring := go ":r".

Fixpoint drop_digits (s : gostring) : gostring :=
  match s with
  | c :: rest => if is_digit c then drop_digits rest else s
  | [] => []
  end.

(** [replyReissueSuffixPattern]: a colon, an r and one or more digits at the end of the text. *)
Definition has_reissue_suffix (s : gostring) : bool :=
  let r := rev s in
  let rest := drop_digits r in
  (length rest <? length r)%nat && HasPrefix rest (rev replyReissueSuffixPrefix).

Definition replyReissueSuffix (generation : Z) : gostring :=
  if (generation <=? 0) || (ReplyReissueMaxGenerations <? generation) then []
  else replyReissueSuffixPrefix ++ FormatInt generation.

Definition ReissuedClientRequestID (base : gostring) (generation : Z) : result sendError gostring :=
  let base := TrimSpace base in
  if is_empty base then Err ReissueEmpty
  else if (generation <=? 0) || (ReplyReissueMaxGenerations <? generation) then Err ReissueRange
  else if has_reissue_suffix base then Err ReissueNested
  else
    let candidate := base ++ replyReissueSuffix generation in
    if validateClientRequestID candidate then Ok candidate else Err RequestIDInvalid.

Definition IsPreHandoffClientRequestIDConflict (err : goerror) : bool :=
  seqb (ClientRequestIDConflictCode err) HTTPErrorCodeClientRequestIDFailed.

Definition IsUnrecoverableClientRequestIDConflict (err : goerror) : bool :=
  negb (is_empty (ClientRequestIDConflictCode err)).

Inductive ReplyStatusClass := ReplyStatusPending | ReplyStatusHandoffCompleted | ReplyStatusFailed | ReplyStatusUnknown.

Definition ClassifyReplyStatus (state : gostring) : ReplyStatusClass :=
  if seqb state (go "queued") || seqb state (go "preparing") || seqb state (go "prepared") || seqb state (go "sending")
  then ReplyStatusPending
  else if seqb state (go "handoff_completed") then ReplyStatusHandoffCompleted
  else if seqb state (go "failed") then ReplyStatusFailed
  else ReplyStatusUnknown.

(** ** Options are kept *)

Lemma validate_id_nonempty id : validateClientRequestID id = true → is_empty (TrimSpace id) = false.
Proof.
  unfold validateClientRequestID. cbv zeta. destruct (_ || _) eqn:E; [done |]. bool_props. intros _.
  destruct (TrimSpace id); [simpl in *; lia | done].
Qed.

(** What the caller asked for is sent or refused, never dropped.  When a reply is built, a client
    request ID that was given is in the request, trimmed, 8 to 160 bytes long, and the request counts as
    idempotent; a thread ID that was given is in it, in digits; the mentions are the given ones, each
    valid; and without a client request ID the request does not count as idempotent. *)
Theorem send_options_kept (msgType room data : gostring) (opts : list SendOption) (req : ReplyRequest) (idempotent : bool) :
  reply_request msgType room data opts = Ok (req, idempotent) →
  let o := applySendOptions opts in
  rr_ClientRequestID req = TrimSpace <$> so_ClientRequestID o ∧
  idempotent = (if so_ClientRequestID o is Some _ then true else false) ∧
  (∀ id, rr_ClientRequestID req = Some id → 8 ≤ zlen id ≤ 160) ∧
  rr_ThreadID req = TrimSpace <$> so_ThreadID o ∧
  (∀ id, rr_ThreadID req = Some id → id ≠ [] ∧ forallb is_digit id = true) ∧
  rr_Mentions req = so_Mentions o ∧ Forall (λ m, validate_mention m = Ok tt) (so_Mentions o) ∧
  rr_Type req = msgType ∧ rr_Room req = room ∧ rr_Data req = data.
Proof.
  unfold reply_request. cbv zeta. set (o := applySendOptions opts). intros H. inv_ok. subst req idempotent.
  unfold validateSendOptions in E. inv_ok. cbn [rr_ClientRequestID rr_ThreadID rr_Mentions rr_Type rr_Room rr_Data].
  assert (normalizeClientRequestID (so_ClientRequestID o) = TrimSpace <$> so_ClientRequestID o ∧
    ∀ id, normalizeClientRequestID (so_ClientRequestID o) = Some id → 8 ≤ zlen id ≤ 160) as [Hid Hlen].
  { destruct (so_ClientRequestID o) as [id|]; [|done]. destruct (validateClientRequestID id) eqn:Ev; [|done].
    unfold normalizeClientRequestID. cbv zeta. rewrite (validate_id_nonempty id Ev). split; [done |].
    intros t [= <-]. unfold validateClientRequestID in Ev. cbv zeta in Ev. destruct (_ || _) eqn:El in Ev; [done |].
    bool_props. lia. }
  assert (normalizeReplyThreadID (so_ThreadID o) = TrimSpace <$> so_ThreadID o ∧
    ∀ id, normalizeReplyThreadID (so_ThreadID o) = Some id → id ≠ [] ∧ forallb is_digit id = true) as [Hth Hdig].
  { destruct (so_ThreadID o) as [id|]; [|done]. inv_ok. unfold normalizeReplyThreadID.
    unfold normalizeReplyThreadIDValue in *. cbv zeta in *.
    destruct (is_empty (TrimSpace id)) eqn:Ee; [done |]. destruct (forallb is_digit (TrimSpace id)) eqn:Ed; [|done].
    split; [done |]. intros t [= <-]. split; [by apply is_empty_false | done]. }
  assert (∀ ms, validateReplyMentions ms = Ok tt → Forall (λ m, validate_mention m = Ok tt) ms) as Hm.
  { induction ms as [|m ms IH]; intros Hv; [by apply Forall_nil |]. cbn [validateReplyMentions] in Hv. inv_ok.
    apply Forall_cons. split; [|by apply IH]. by match goal with H : validate_mention m = Ok ?x |- _ => destruct x end. }
  split_and!; try done.
  - rewrite Hid. by destruct (so_ClientRequestID o).
  - apply Hm. by match goal with H : validateReplyMentions _ = Ok ?x |- _ => destruct x end.
Qed.

(** ** Reissue *)

(** A string of printable bytes put after a trimmed one leaves it trimmed. *)
Lemma trimmed_app s t :
  trimmed s → s ≠ [] → t ≠ [] → Forall (λ b, is_graphic b = true) t → TrimSpace (s ++ t) = s ++ t.
Proof.
  intros [Hl _] Hs Ht Hg. apply TrimSpace_id. split.
  - apply match_prefix_None. intros e r He E. rewrite match_prefix_None in Hl.
    destruct (decide (length e ≤ length s)%nat) as [Hle|Hgt].
    + apply (Hl e (drop (length e) s) He). rewrite <- (take_drop (length e) s) at 1. f_equal.
      apply (f_equal (take (length e))) in E. rewrite take_app_le, take_app_length in E by done. done.
    + destruct t as [|b t]; [done |]. apply (f_equal (λ l, l !! length s)) in E. cbv beta in E.
      rewrite lookup_app_r, Nat.sub_diag in E by done. rewrite lookup_app_l in E by lia. cbn in E. symmetry in E.
      apply Forall_inv in Hg. apply list_elem_of_lookup_2 in E.
      assert (forallb (forallb (λ b, negb (is_graphic b))) space_encodings = true) as Hall by (vm_compute; reflexivity).
      rewrite forallb_forall in Hall. apply list_elem_of_In in He. specialize (Hall e He).
      rewrite forallb_forall in Hall. apply list_elem_of_In in E. specialize (Hall b E). by rewrite Hg in Hall.
  - rewrite rev_app_distr. apply match_prefix_None. intros e r He E.
    destruct (space_starts_nongraphic e (or_intror He)) as (b & r' & -> & Hb).
    destruct (rev t) as [|c u] eqn:Et; [apply (f_equal (@rev byte)) in Et; rewrite rev_involutive in Et; done |].
    cbn [app] in E. injection E as -> _. apply Forall_rev in Hg. rewrite Et in Hg. apply Forall_inv in Hg. congruence.
Qed.

Lemma reissue_ok base generation c :
  ReissuedClientRequestID base generation = Ok c →
  (generation = 1 ∨ generation = 2) ∧ c = TrimSpace base ++ go ":r" ++ FormatInt generation ∧
  TrimSpace base ≠ [] ∧ validateClientRequestID c = true ∧ has_reissue_suffix (TrimSpace base) = false.
Proof.
  unfold ReissuedClientRequestID. cbv zeta. destruct (is_empty (TrimSpace base)) eqn:E1; [done |].
  unfold replyReissueSuffix. destruct (_ || _) eqn:E2; [done |]. destruct (has_reissue_suffix _) eqn:E3; [done |].
  destruct (validateClientRequestID _) eqn:E4; [|done]. intros H. injection H as <-. bool_props.
  unfold ReplyReissueMaxGenerations in *. split_and!; [lia | done | done | done | done].
Qed.

(** C22: reissued IDs never collide and never nest.  A reissued ID is a valid client request ID, it
    determines the ID it was made from and its generation, which is 1 or 2, and it is refused as the
    base of another reissue. *)
Theorem reissue_injective (base base' : gostring) (generation generation' g : Z) (c : gostring) :
  ReissuedClientRequestID base generation = Ok c → ReissuedClientRequestID base' generation' = Ok c →
  TrimSpace base = TrimSpace base' ∧ generation = generation' ∧ 1 ≤ generation ≤ ReplyReissueMaxGenerations ∧
  validateClientRequestID c = true ∧ (1 ≤ g ≤ ReplyReissueMaxGenerations → ReissuedClientRequestID c g = Err ReissueNested).
Proof.
  intros H H'. apply reissue_ok in H as (Hg & Hc & Hne & Hv & _). apply reissue_ok in H' as (Hg' & Hc' & _ & _ & _).
  rewrite Hc in Hc'.
  assert (generation = generation' ∧ TrimSpace base = TrimSpace base') as [-> Hbase].
  { apply (f_equal (@rev byte)) in Hc'. rewrite !rev_app_distr in Hc'.
    destruct Hg as [->| ->], Hg' as [->| ->]; cbn in Hc'; try discriminate Hc'; injection Hc' as E;
      (split; [done |]); apply (f_equal (@rev byte)) in E; by rewrite !rev_involutive in E. }
  split_and!; [done | done | unfold ReplyReissueMaxGenerations; lia | unfold ReplyReissueMaxGenerations; lia | done |].
  intros Hr. unfold ReissuedClientRequestID. cbv zeta.
  assert (TrimSpace c = c) as ->.
  { rewrite Hc. apply trimmed_app; [apply TrimSpace_trimmed | done | done |].
    apply Forall_forallb. destruct Hg as [->| ->]; vm_compute; reflexivity. }
  assert (is_empty c = false) as -> by (apply is_empty_false; rewrite Hc; intros E; apply app_eq_nil in E as [? _]; done).
  rewrite (proj2 (Z.leb_gt _ _)), (proj2 (Z.ltb_ge _ _)) by lia. cbn [orb].
  assert (has_reissue_suffix c = true) as ->; [|done].
  unfold has_reissue_suffix. cbv zeta. rewrite Hc, !rev_app_distr.
  set (u := rev (TrimSpace base)).
  assert (drop_digits ((rev (FormatInt generation') ++ rev (go ":r")) ++ u) = rev (go ":r") ++ u
    ∧ length (rev (FormatInt generation')) = 1%nat) as [-> Hl] by (by destruct Hg as [->| ->]).
  rewrite !length_app, Hl. apply andb_true_iff. split; [apply Nat.ltb_lt; lia |].
  apply HasPrefix_spec. by exists u.
Qed.

Lemma reissue_injective_witness :
  TrimSpace (go "order-17") = TrimSpace (go " order-17 ") ∧ validateClientRequestID (go "order-17:r1") = true ∧
  ReissuedClientRequestID (go "order-17:r1") 2 = Err ReissueNested.
Proof.
  destruct (reissue_injective (go "order-17") (go " order-17 ") 1 1 2 (go "order-17:r1")) as (Hb & _ & _ & Hv & Hn).
  - vm_compute. reflexivity.
  - vm_compute. reflexivity.
  - split; [exact Hb |]. split; [exact Hv |]. apply Hn. vm_compute. split; discriminate.
Defined.

(** ** Images *)

Lemma detect_allowed data ct : detectImageContentType data = Some ct → isAllowedReplyMediaContentType ct = true.
Proof. unfold detectImageContentType. cbv zeta. repeat case_match; intros [= <-]; vm_compute; reflexivity. Qed.

Lemma detect_all_ok i images cts :
  detect_all i images = Ok cts → Forall2 (λ img ct, detectImageContentType img = Some ct) images cts.
Proof.
  revert i cts. induction images as [|img images IH]; intros i cts H; cbn [detect_all] in H.
  - injection H as <-. constructor.
  - destruct (detectImageContentType img) as [d|] eqn:Ed; [|done]. inv_ok. subst cts. constructor; [done |]. by eapply IH.
Qed.

Lemma content_types_detected images explicit cts :
  imageContentTypesForSend images explicit = Ok cts →
  Forall2 (λ img ct, detectImageContentType img = Some ct) images cts.
Proof.
  unfold imageContentTypesForSend. intros H. inv_ok. apply detect_all_ok in E.
  destruct explicit as [e|]; [|by injection H as <-]. destruct (normalizeReplyMediaContentType e); [|done].
  destruct (negb _); [done |]. destruct x as [|first rest]; [done |]. destruct (seqb _ _); [|done]. by injection H as <-.
Qed.

Lemma allowed_no_cr ct : isAllowedReplyMediaContentType ct = true → x0d ∉ ct.
Proof.
  unfold isAllowedReplyMediaContentType. rewrite !orb_true_iff, !seqb_true.
  intros H. destruct_or! H; subst ct; apply no_cr; vm_compute; reflexivity.
Qed.

(** How a manifest entry describes a part. *)
Definition describes (spec : imagePartSpec) (part : gostring * gostring) : Prop :=
  ip_SHA256Hex spec = hexEncode (sha256 part.2) ∧ ip_ByteLength spec = zlen part.2 ∧
  part.1 = image_head (Z.to_nat (ip_Index spec)) (ip_ContentType spec) ∧
  detectImageContentType part.2 = Some (ip_ContentType spec).

Lemma manifest_describes i images cts :
  Forall2 (λ img ct, detectImageContentType img = Some ct) images cts →
  Forall2 describes (buildImageManifest i images cts) (image_parts i images cts) ∧
  length (image_parts i images cts) = length images.
Proof.
  intros H. revert i. induction H as [|img ct images cts Hd H IH]; intros i; [by split; [constructor |] |].
  cbn [buildImageManifest image_parts length]. destruct (IH (S i)) as [IH1 IH2]. split; [|by rewrite IH2].
  constructor; [|done]. unfold describes. cbn [fst snd ip_Index ip_SHA256Hex ip_ByteLength ip_ContentType].
  rewrite Nat2Z.id. split_and!; try reflexivity. done.
Qed.
