(* ===== verification/Snapshot.v ===== *)
(** * Snapshot: slices that callers keep (webhook/context.go, context_fields.go, internal/client/transport/options.go, client.go)

    A slice is a view of an array, and whoever else has the array can write to it.  Here arrays are places of a store,
    slices name a part of one, and the callers of the package, in any goroutine, may write to every array they know, at
    any time.  The package copies what it keeps ([append([]T(nil), s...)]): [MessageContext] is a snapshot of a message,
    which stays what it was, and the mentions of a reply are sent as they were checked. *)

From S2P Require Import Prelude GoStrings GoStrconv GoJson GoJsonEnc Hmac Errors WebhookMessage Multipart MultipartFrame Send.

(** ** Arrays and slices *)

Section store.
Context {A : Type}.

Record slice := mkSlice { sl_array : nat; sl_off : nat; sl_len : nat }.

(** The arrays, and those that callers know. *)
Record world := mkWorld { w_store : list (list A); w_known : gset nat }.

(** [None] is the nil slice. *)
Definition read_slice (w : world) (s : option slice) : list A :=
  match s with
  | None => []
  | Some s => take (sl_len s) (drop (sl_off s) (default [] (w_store w !! sl_array s)))
  end.

(** A slice that Go could have made. *)
Definition slice_ok (w : world) (s : option slice) : Prop :=
  match s with
  | None => True
  | Some s => ∃ array, w_store w !! sl_array s = Some array ∧ (sl_off s + sl_len s ≤ length array)%nat
  end.

(** [append([]T(nil), s...)]: nil for an empty slice, otherwise a new array that nobody else knows. *)
Definition append_nil (w : world) (s : option slice) : option slice * world :=
  let content := read_slice w s in
  if is_empty content then (None, w)
  else (Some (mkSlice (length (w_store w)) 0 (length content)), mkWorld (w_store w ++ [content]) (w_known w)).

(** What callers do: write to an array they know, or make one. *)
Inductive caller_action := CWrite (array index : nat) (value : A) | CMake (content : list A).

(** One action; [None] when it is not possible (an array they do not know, an index out of range). *)
Definition caller_step (a : caller_action) (w : world) : option world :=
  match a with
  | CWrite array index value =>
      match w_store w !! array with
      | Some content =>
          if bool_decide (array ∈ w_known w) && (index <? length content)%nat then
            Some (mkWorld (<[array := <[index := value]> content]> (w_store w)) (w_known w))
          else None
      | None => None
      end
  | CMake content => Some (mkWorld (w_store w ++ [content]) ({[length (w_store w)]} ∪ w_known w))
  end.

Fixpoint callers_run (acts : list caller_action) (w : world) : option world :=
  match acts with
  | [] => Some w
  | a :: rest => match caller_step a w with Some w' => callers_run rest w' | None => None end
  end.

(** ** Private slices *)

(** The arrays callers know exist. *)
Definition world_ok (w : world) : Prop := ∀ l, l ∈ w_known w → (l < length (w_store w))%nat.

(** A slice of an array that callers do not know. *)
Definition private (w : world) (s : option slice) : Prop :=
  match s with
  | None => True
  | Some s => sl_len s = 0%nat ∨ ((sl_array s < length (w_store w))%nat ∧ sl_array s ∉ w_known w)
  end.

(** A later world: what was private is still private, and holds what it held. *)
Definition keeps (w w' : world) : Prop :=
  world_ok w' ∧ (length (w_store w) ≤ length (w_store w'))%nat ∧
  ∀ l, (l < length (w_store w))%nat → l ∉ w_known w → l ∉ w_known w' ∧ w_store w' !! l = w_store w !! l.

Lemma keeps_refl w : world_ok w → keeps w w.
Proof. done. Qed.

Lemma keeps_trans w w' w'' : keeps w w' → keeps w' w'' → keeps w w''.
Proof.
  intros (H1 & H2 & H3) (K1 & K2 & K3). split_and!; [done | lia |]. intros l Hl Hk. destruct (H3 l Hl Hk) as [Hk' Hs].
  destruct (K3 l ltac:(lia) Hk') as [Hk'' Hs']. split; [done | congruence].
Qed.

Lemma keeps_private w w' s : keeps w w' → private w s → private w' s ∧ read_slice w' s = read_slice w s.
Proof.
  intros (_ & Hlen & Hk) Hp. destruct s as [s|]; [|done]. destruct Hp as [H0|[Hl Hn]]; cbn [private read_slice].
  - rewrite H0, !take_0. split; [by left | done].
  - destruct (Hk _ Hl Hn) as [Hn' ->]. split; [|done]. right. split; [lia | done].
Qed.

Lemma caller_step_keeps a w w' : world_ok w → caller_step a w = Some w' → keeps w w'.
Proof.
  intros Hok. destruct a as [array index value|content]; cbn [caller_step].
  - destruct (w_store w !! array) as [content|] eqn:E; [|done]. destruct (bool_decide (array ∈ w_known w)) eqn:Ek; [|done].
    apply bool_decide_eq_true in Ek. destruct (index <? length content)%nat; [|done]. intros [= <-].
    split_and!; cbn; [intros l H%Hok; cbn in *; by rewrite length_insert | by rewrite length_insert |].
    intros l _ Hn. split; [done |]. apply list_lookup_insert_ne. by intros ->.
  - intros [= <-]. split_and!; cbn; [| rewrite length_app; lia |].
    + intros l [->%elem_of_singleton|H%Hok]%elem_of_union; cbn; rewrite length_app; cbn; lia.
    + intros l Hl Hn. split; [|by apply lookup_app_l]. intros [->%elem_of_singleton|?]%elem_of_union; [lia | done].
Qed.

Lemma callers_run_keeps acts w w' : world_ok w → callers_run acts w = Some w' → keeps w w'.
Proof.
  revert w. induction acts as [|a acts IH]; intros w Hok; cbn [callers_run]; [intros [= <-]; by apply keeps_refl |].
  destruct (caller_step a w) as [u|] eqn:E; [|done]. intros Hr. apply caller_step_keeps in E; [|done].
  eapply keeps_trans; [exact E |]. apply IH; [apply E | done].
Qed.

(** A copy has the content, and is private. *)
Lemma append_nil_spec w s s' w' :
  world_ok w → append_nil w s = (s', w') → keeps w w' ∧ private w' s' ∧ read_slice w' s' = read_slice w s.
Proof.
  intros Hok. unfold append_nil. destruct (is_empty (read_slice w s)) eqn:E; intros [= <- <-].
  - bool_props. split_and!; [by apply keeps_refl | done | done].
  - set (content := read_slice w s) in *. clearbody content. split_and!.
    + split_and!; cbn; [intros l H%Hok; cbn; rewrite length_app; lia | rewrite length_app; lia |].
      intros l Hl Hn. split; [done |]. by apply lookup_app_l.
    + right. cbn. rewrite length_app. cbn. split; [lia |]. intros H%Hok. lia.
    + cbn. rewrite list_lookup_middle by done. cbn. by rewrite drop_0, take_ge.
Qed.

(** Handing out a private array that nobody else of the package uses. *)
Definition publish (w : world) (s : option slice) : world :=
  mkWorld (w_store w) (match s with Some s => {[sl_array s]} ∪ w_known w | None => w_known w end).

Lemma copy_out_keeps w s s' w' :
  world_ok w → append_nil w s = (s', w') → keeps w (publish w' s') ∧ read_slice (publish w' s') s' = read_slice w s.
Proof.
  intros Hok H. apply append_nil_spec in H as Hs; [|done]. destruct Hs as ((Hok' & Hlen & Hk) & _ & Hread). split; [|by destruct s'].
  revert H. unfold append_nil. destruct (is_empty _); intros [= <- <-]; [done |]. cbn in *. rewrite length_app in *. cbn in *.
  split_and!; cbn; [| rewrite length_app; lia |].
  - intros l [->%elem_of_singleton|H%Hok]%elem_of_union; cbn; rewrite length_app; cbn; lia.
  - intros l Hl Hn. destruct (Hk l Hl Hn) as [_ ->]. split; [|done]. intros [->%elem_of_singleton|?]%elem_of_union; [lia | done].
Qed.
End store.

Arguments world _ : clear implicits.
Arguments caller_action _ : clear implicits.

(** ** Message contexts (context.go, context_fields.go) *)

(** [MessageContext] with its payload where it is. *)
Record shared_context := mkSharedContext {
  sc_route : gostring;
  sc_roomID : gostring;
  sc_messageType : gostring;
  sc_eventPayload : option slice;
  sc_eventType : gostring;
  sc_eventKind : gostring;
  sc_eventStatus : gostring;
  sc_eventSchemaVersion : Z;
  sc_hasEventSchemaVersion : bool;
}.

(** A message whose payload is a slice; the payload in [m] itself is not used. *)
Definition with_payload (m : Message) (payload : gostring) : Message :=
  mkMessage (msg_Msg m) (msg_Room m) (msg_Sender m)
    ((λ j, mkMessageJSON (mj_UserID j) (mj_Type j) (mj_Route j) (mj_MessageID j) (mj_ChatLogID j) (mj_RoomType j) (mj_RoomLinkID j)
       (mj_SourceLogID j) (mj_SourceCreatedAtMS j) (mj_RawSourceLogID j) (mj_SourceGenerationID j) (mj_SourceAccountID j)
       (mj_ThreadID j) (mj_ThreadScope j) (mj_IsMine j) (mj_Origin j) (mj_Attachment j) (mj_Mentions j) payload) <$> msg_JSON m).

Definition new_context (w : world byte) (message : option (Message * option slice)) : shared_context * world byte :=
  match message with
  | None => (mkSharedContext [] [] [] None [] [] [] 0 false, w)
  | Some (m, payload) =>
      let roomID := TrimSpace (msg_Room m) in
      match msg_JSON m with
      | None => (mkSharedContext [] roomID [] None [] [] [] 0 false, w)
      | Some j =>
          let '(eventPayload, w) := append_nil w payload in
          let '(type, kind, status, version, has) := semanticEventHeader (read_slice w eventPayload) in
          (mkSharedContext (TrimSpace (mj_Route j)) roomID (TrimSpace (mj_Type j)) eventPayload type kind status version has, w)
      end
  end.

(** The accessors. *)
Definition Route (c : shared_context) : gostring := sc_route c.
Definition RoomID (c : shared_context) : gostring := sc_roomID c.
Definition EventKind (c : shared_context) : gostring := sc_eventKind c.
Definition EventStatus (c : shared_context) : gostring := sc_eventStatus c.

(** [EventPayload] gives its caller an array of its own. *)
Definition EventPayload (w : world byte) (c : shared_context) : option slice * world byte :=
  let '(s, w) := append_nil w (sc_eventPayload c) in (s, publish w s).

(** What a context says, as the values of [WebhookMessage]. *)
Definition context_value (w : world byte) (c : shared_context) : MessageContext :=
  mkMessageContext (Route c) (RoomID c) (sc_messageType c) (read_slice w (sc_eventPayload c)) (sc_eventType c) (EventKind c)
    (EventStatus c) (sc_eventSchemaVersion c) (sc_hasEventSchemaVersion c).

(** The life of a context: callers act, and ask for its payload. *)
Inductive context_action := XCaller (a : caller_action byte) | XPayload.

(** The world after the actions, and the payloads as they were when they were handed out. *)
Fixpoint context_run (c : shared_context) (acts : list context_action) (w : world byte) : option (world byte * list gostring) :=
  match acts with
  | [] => Some (w, [])
  | XCaller a :: rest => match caller_step a w with Some w' => context_run c rest w' | None => None end
  | XPayload :: rest =>
      let '(s, w') := EventPayload w c in
      match context_run c rest w' with Some (w'', given) => Some (w'', read_slice w' s :: given) | None => None end
  end.

Lemma new_context_spec w message c w' :
  world_ok w → new_context w message = (c, w') →
  keeps w w' ∧ private w' (sc_eventPayload c) ∧
  context_value w' c = NewMessageContext ((λ x, with_payload x.1 (read_slice w x.2)) <$> message).
Proof.
  intros Hok. unfold new_context. destruct message as [[m payload]|]; [|intros [= <- <-]; split_and!; [by apply keeps_refl | done | done]].
  cbn [fmap option_fmap option_map fst snd]. unfold NewMessageContext, with_payload. cbn [msg_Room msg_JSON].
  destruct (msg_JSON m) as [j|]; [|intros [= <- <-]; split_and!; [by apply keeps_refl | done | done]].
  cbn [fmap option_fmap option_map mj_EventPayload mj_Route mj_Type].
  destruct (append_nil w payload) as [s w1] eqn:Ea. apply append_nil_spec in Ea as (Hk & Hp & Hr); [|done]. rewrite Hr.
  destruct (semanticEventHeader _) as [[[[ty ki] st] ve] ha]. intros [= <- <-]. split_and!; [done | done |].
  unfold context_value. cbn. by rewrite Hr.
Qed.

Lemma context_run_spec c acts w w' given :
  world_ok w → private w (sc_eventPayload c) → context_run c acts w = Some (w', given) →
  keeps w w' ∧ Forall (λ p, p = read_slice w (sc_eventPayload c)) given.
Proof.
  revert w given. induction acts as [|[a|] acts IH]; intros w given Hok Hp; cbn [context_run].
  - intros [= <- <-]. split; [by apply keeps_refl | by apply Forall_nil].
  - destruct (caller_step a w) as [u|] eqn:E; [|done]. apply caller_step_keeps in E; [|done].
    destruct (keeps_private _ _ _ E Hp) as [Hp' Hr]. intros Hrun. destruct (IH u given) as [Hk Hg]; [apply E | done | done |].
    split; [by eapply keeps_trans |]. by rewrite Hr in Hg.
  - unfold EventPayload. destruct (append_nil w (sc_eventPayload c)) as [s u] eqn:Ea.
    apply copy_out_keeps in Ea as [Hk Hread]; [|done]. destruct (context_run _ _ _) as [[w'' given']|] eqn:Er; [|done].
    intros [= <- <-]. destruct (keeps_private _ _ _ Hk Hp) as [Hp' Hr]. destruct (IH _ _ (proj1 Hk) Hp' Er) as [Hk' Hg].
    split; [by eapply keeps_trans |]. apply Forall_cons. split; [done |]. by rewrite Hr in Hg.
Qed.

(** C19: a message context is an immutable snapshot.  Whatever the callers do afterwards to the arrays they know, that of
    the message and those they were given by [EventPayload] included, in any order, the context says what
    [NewMessageContext] read from the message when it was made, and each [EventPayload] gives the payload of that time. *)
Theorem context_is_snapshot (w w1 w2 : world byte) (message : option (Message * option slice)) (c : shared_context)
    (acts : list context_action) (given : list gostring) :
  world_ok w → new_context w message = (c, w1) → context_run c acts w1 = Some (w2, given) →
  let taken := NewMessageContext ((λ x, with_payload x.1 (read_slice w x.2)) <$> message) in
  context_value w2 c = taken ∧ Forall (λ payload, payload = mc_eventPayload taken) given.
Proof.
  intros Hok Hnew Hrun taken. apply new_context_spec in Hnew as (Hk & Hp & Hv); [|done]. fold taken in Hv.
  apply context_run_spec in Hrun as [Hk' Hg]; [|apply Hk | done]. destruct (keeps_private _ _ _ Hk' Hp) as [_ Hr].
  rewrite <- Hv. split; [unfold context_value; by rewrite Hr | done].
Qed.

Definition demo_payload : gostring := go "{}".
Definition demo_world : world byte := mkWorld [demo_payload] {[0%nat]}.
Definition demo_context_message : option (Message * option slice) :=
  Some (mkMessage (go "hi") (go " room ") None
    (Some (mkMessageJSON [] (go "1") [] [] [] [] [] None 0 None None [] None None None [] [] [] [])), Some (mkSlice 0 0 2)).
(** Callers overwrite the message's array and the array they were given first. *)
Definition demo_overwrites : list context_action :=
  [XCaller (CWrite 0 0 x00); XPayload; XCaller (CWrite 2 1 x00); XPayload].

Lemma context_is_snapshot_witness :
  ∃ w2 given, context_run (new_context demo_world demo_context_message).1 demo_overwrites (new_context demo_world demo_context_message).2 = Some (w2, given) ∧
    length given = 2%nat ∧ Forall (λ payload, payload = demo_payload) given.
Proof.
  destruct (context_run (new_context demo_world demo_context_message).1 demo_overwrites (new_context demo_world demo_context_message).2)
    as [[w2 given]|] eqn:E; [|vm_compute in E; discriminate E].
  exists w2, given. split; [reflexivity |]. split; [vm_compute in E; injection E as _ <-; reflexivity |].
  refine (proj2 (context_is_snapshot demo_world _ w2 demo_context_message _ demo_overwrites given _ (surjective_pairing _) E)).
  intros l Hl. change (l ∈ ({[0%nat]} : gset nat)) in Hl. apply elem_of_singleton in Hl as ->. cbn. lia.
Defined.

(** ** Mentions of replies (options.go, client.go) *)

Record shared_mention := mkSharedMention {
  sm_UserID : ReplyMentionUserID;
  sm_Nickname : gostring;
  sm_At : option slice;
  sm_Len : Z;
}.

Definition mention_value (w : world Z) (m : shared_mention) : ReplyMention :=
  mkReplyMention (sm_UserID m) (sm_Nickname m) (read_slice w (sm_At m)) (sm_Len m).

Definition cloneReplyMention (w : world Z) (m : shared_mention) : shared_mention * world Z :=
  if is_empty (read_slice w (sm_At m)) then (m, w)
  else let '(at_, w) := append_nil w (sm_At m) in (mkSharedMention (sm_UserID m) (sm_Nickname m) at_ (sm_Len m), w).

Fixpoint cloneReplyMentions (w : world Z) (mentions : list shared_mention) : list shared_mention * world Z :=
  match mentions with
  | [] => ([], w)
  | m :: rest =>
      let '(m, w) := cloneReplyMention w m in
      let '(rest, w) := cloneReplyMentions w rest in (m :: rest, w)
  end.

(** Options whose mentions share the arrays of their callers. *)
Inductive shared_option := SPlain (o : SendOption) | SWithMention (m : shared_mention).

Definition option_value (w : world Z) (o : shared_option) : SendOption :=
  match o with SPlain o => o | SWithMention m => WithMention (mention_value w m) end.

(** [applySendOptions]: the options without their mentions, and the mentions. *)
Fixpoint apply_shared (w : world Z) (o : sendOptions) (mentions : list shared_mention) (opts : list shared_option)
  : sendOptions * list shared_mention * world Z :=
  match opts with
  | [] => (o, mentions, w)
  | SPlain opt :: rest => apply_shared w (apply_send_option o opt) mentions rest
  | SWithMention m :: rest => let '(m, w) := cloneReplyMention w m in apply_shared w o (mentions ++ [m]) rest
  end.

(** The options as a check sees them. *)
Definition with_mentions (o : sendOptions) (mentions : list ReplyMention) : sendOptions :=
  mkSendOptions (so_ClientRequestID o) (so_ThreadID o) (so_ImageContentType o) mentions.

Definition no_options : sendOptions := mkSendOptions None None None [].

(** A plain option that is not itself a mention. *)
Definition plain_ok (o : shared_option) : Prop := match o with SPlain (WithMention _) => False | _ => True end.

(** A reply from its options to the encoder: the options are applied, callers act, the options are checked, callers act,
    the request gets its own mentions, callers act, and the request is read. *)
Definition shared_reply (w : world Z) (msgType room data : gostring) (opts : list shared_option) (acts1 acts2 acts3 : list (caller_action Z))
  : option (result sendError ReplyRequest) :=
  let '(o, mentions, w) := apply_shared w no_options [] opts in
  match callers_run acts1 w with
  | None => None
  | Some w =>
      match validateSendOptions (with_mentions o (map (mention_value w) mentions)) with
      | Err e => Some (Err e)
      | Ok _ =>
          match callers_run acts2 w with
          | None => None
          | Some w =>
              let '(sent, w) := cloneReplyMentions w mentions in
              match callers_run acts3 w with
              | None => None
              | Some w => Some (Ok (mkReplyRequest (normalizeClientRequestID (so_ClientRequestID o)) msgType room data
                                      (normalizeReplyThreadID (so_ThreadID o)) (map (mention_value w) sent)))
              end
          end
      end
  end.

Definition private_mention (w : world Z) (m : shared_mention) : Prop := private w (sm_At m).

Lemma keeps_mention w w' m : keeps w w' → private_mention w m → private_mention w' m ∧ mention_value w' m = mention_value w m.
Proof. intros Hk Hp. destruct (keeps_private _ _ _ Hk Hp) as [Hp' Hr]. split; [done |]. unfold mention_value. by rewrite Hr. Qed.

Lemma keeps_mentions w w' ms :
  keeps w w' → Forall (private_mention w) ms → Forall (private_mention w') ms ∧ map (mention_value w') ms = map (mention_value w) ms.
Proof.
  intros Hk. induction 1 as [|m ms Hm _ [IH1 IH2]]; [done |]. destruct (keeps_mention _ _ _ Hk Hm) as [Hm' Hv].
  split; [by apply Forall_cons |]. cbn. by rewrite Hv, IH2.
Qed.

(** A slice of nothing that Go could have made reads as nothing for ever. *)
Lemma read_empty {A} (w : world A) s : slice_ok w s → read_slice w s = [] → private w s.
Proof.
  destruct s as [s|]; [|done]. intros (array & Hs & Hl) H. left. cbn [read_slice] in H. rewrite Hs in H.
  change (default [] (Some array)) with array in H. apply (f_equal length) in H. rewrite length_take, length_drop in H. cbn in H. lia.
Qed.

(** A world with more arrays. *)
Definition extends (w w' : world Z) : Prop := ∃ more, w_store w' = w_store w ++ more.

Lemma extends_slice w w' s : extends w w' → slice_ok w s → slice_ok w' s ∧ read_slice w' s = read_slice w s.
Proof.
  intros [more Hw] Hs. destruct s as [s|]; [|done]. destruct Hs as (array & Ha & Hl). cbn [slice_ok read_slice].
  rewrite Hw, (lookup_app_l_Some _ _ _ _ Ha), Ha. split; [by exists array | done].
Qed.

Lemma clone_spec w m m' w' :
  world_ok w → (read_slice w (sm_At m) = [] → private_mention w m) → cloneReplyMention w m = (m', w') →
  keeps w w' ∧ extends w w' ∧ private_mention w' m' ∧ mention_value w' m' = mention_value w m.
Proof.
  intros Hok Hs. unfold cloneReplyMention. destruct (is_empty (read_slice w (sm_At m))) eqn:E.
  - intros [= <- <-]. bool_props. split_and!; [by apply keeps_refl | exists []; by rewrite app_nil_r | by apply Hs | done].
  - destruct (append_nil w (sm_At m)) as [s u] eqn:Ea. apply append_nil_spec in Ea as Hspec; [|done].
    destruct Hspec as (Hk & Hp & Hr). intros [= <- <-]. split_and!; [done | | done |].
    + unfold append_nil in Ea. rewrite E in Ea. injection Ea as _ <-. by eexists.
    + unfold mention_value. cbn. by rewrite Hr.
Qed.

Lemma clones_spec w ms ms' w' :
  world_ok w → Forall (private_mention w) ms → cloneReplyMentions w ms = (ms', w') →
  keeps w w' ∧ Forall (private_mention w') ms' ∧ map (mention_value w') ms' = map (mention_value w) ms.
Proof.
  revert w ms' w'. induction ms as [|m ms IH]; intros w ms' w' Hok Hp; cbn [cloneReplyMentions].
  - intros [= <- <-]. split_and!; [by apply keeps_refl | done | done].
  - apply Forall_cons in Hp as [Hm Hms]. destruct (cloneReplyMention w m) as [c u] eqn:Ec.
    apply clone_spec in Ec as (Hk & _ & Hc & Hv); [|done | done]. destruct (keeps_mentions _ _ _ Hk Hms) as [Hms' Hvs].
    destruct (cloneReplyMentions u ms) as [cs u'] eqn:Ecs. apply IH in Ecs as (Hk' & Hcs & Hvcs); [|apply Hk | done].
    intros [= <- <-]. destruct (keeps_mention _ _ _ Hk' Hc) as [Hc' Hv']. split_and!; [by eapply keeps_trans | by apply Forall_cons |].
    cbn. by rewrite Hv', Hv, Hvcs, Hvs.
Qed.

Definition option_ok (w : world Z) (o : shared_option) : Prop :=
  plain_ok o ∧ match o with SWithMention m => slice_ok w (sm_At m) | SPlain _ => True end.

Lemma apply_shared_spec opts w o ms o' ms' w' :
  world_ok w → Forall (option_ok w) opts → Forall (private_mention w) ms → so_Mentions o = [] →
  apply_shared w o ms opts = (o', ms', w') →
  keeps w w' ∧ Forall (private_mention w') ms' ∧
  with_mentions o' (map (mention_value w') ms') = foldl apply_send_option (with_mentions o (map (mention_value w) ms)) (map (option_value w) opts).
Proof.
  revert w o ms. induction opts as [|opt opts IH]; intros w o ms Hok Hopts Hms Ho; cbn [apply_shared].
  - intros [= <- <- <-]. split_and!; [by apply keeps_refl | done | done].
  - apply Forall_cons in Hopts as [[Hplain Hopt] Hopts]. destruct opt as [p|m].
    + intros H. apply IH in H as (Hk & Hp & Hv); [| done | done | done | by destruct p]. split_and!; [done | done |].
      rewrite Hv. cbn [map foldl option_value]. f_equal. by destruct p.
    + destruct (cloneReplyMention w m) as [c u] eqn:Ec.
      apply clone_spec in Ec as (Hk & Hx & Hc & Hvc); [|done | by intros ?; apply read_empty].
      destruct (keeps_mentions _ _ _ Hk Hms) as [Hms' Hvs].
      assert (Forall (option_ok u) opts ∧ map (option_value u) opts = map (option_value w) opts) as [Hopts' Hval].
      { clear -Hx Hopts. induction Hopts as [|x opts [Hpx Hx'] _ [IH1 IH2]]; [done |]. destruct x as [p|m]; cbn [map option_value].
        - split; [by apply Forall_cons | by rewrite IH2].
        - destruct (extends_slice _ _ _ Hx Hx') as [Hs Hr]. split; [by apply Forall_cons |]. rewrite IH2. unfold mention_value. by rewrite Hr. }
      intros H. apply IH in H as (Hk' & Hp & Hv); [| apply Hk | done | apply Forall_app; split; [done | by apply Forall_singleton] | done].
      split_and!; [by eapply keeps_trans | done |]. rewrite Hv, Hval. cbn [map foldl option_value]. f_equal.
      unfold apply_send_option, with_mentions. cbn. by rewrite map_app, Hvs, <- Hvc.
Qed.

(** C37: a reply is sent with the mentions that were checked.  Whatever the callers do to the arrays of the mentions they
    passed, while the options are checked, while the request is built and until it is encoded, and however often the
    same options are used, the request is the one [reply_request] makes of the options as they were when they were
    applied, and so is the error. *)
Theorem sent_mentions_were_checked (w : world Z) (msgType room data : gostring) (opts : list shared_option)
    (acts1 acts2 acts3 : list (caller_action Z)) (r : result sendError ReplyRequest) :
  world_ok w → Forall (option_ok w) opts → shared_reply w msgType room data opts acts1 acts2 acts3 = Some r →
  r = (let? sent := reply_request msgType room data (map (option_value w) opts) in Ok sent.1).
Proof.
  intros Hok Hopts. unfold shared_reply. destruct (apply_shared w no_options [] opts) as [[o ms] w1] eqn:Ea.
  apply apply_shared_spec in Ea as (Hk1 & Hp1 & Hv1); [|done | done | by apply Forall_nil | done].
  change (with_mentions no_options (map (mention_value w) [])) with no_options in Hv1.
  unfold reply_request, applySendOptions. fold no_options. rewrite <- Hv1. cbn [with_mentions so_ClientRequestID so_ThreadID so_Mentions].
  destruct (callers_run acts1 w1) as [w2|] eqn:E1; [|done]. apply callers_run_keeps in E1; [|apply Hk1].
  destruct (keeps_mentions _ _ _ E1 Hp1) as [Hp2 Hv2]. rewrite Hv2.
  destruct (validateSendOptions _) as [u|e]; [|by intros [= <-]]. destruct (callers_run acts2 w2) as [w3|] eqn:E2; [|done].
  apply callers_run_keeps in E2; [|apply E1]. destruct (keeps_mentions _ _ _ E2 Hp2) as [Hp3 Hv3].
  destruct (cloneReplyMentions w3 ms) as [sent w4] eqn:Ec. apply clones_spec in Ec as (Hk4 & Hp4 & Hv4); [|apply E2 | done].
  destruct (callers_run acts3 w4) as [w5|] eqn:E3; [|done]. apply callers_run_keeps in E3; [|apply Hk4].
  destruct (keeps_mentions _ _ _ E3 Hp4) as [_ Hv5]. intros [= <-]. cbn. by rewrite Hv5, Hv4, Hv3, Hv2.
Qed.

Definition demo_at : world Z := mkWorld [[1; 4]] {[0%nat]}.
Definition demo_shared : list shared_option := [SWithMention (mkSharedMention (UserSigned 7) (go "kim") (Some (mkSlice 0 0 2)) 3)].

Lemma sent_mentions_were_checked_witness :
  shared_reply demo_at msgTypeText (go "room") (go "hi") demo_shared [CWrite 0 0 (-1)] [CWrite 0 1 (-1)] [CMake [9]] =
  Some (Ok (mkReplyRequest None msgTypeText (go "room") (go "hi") None [mkReplyMention (UserSigned 7) (go "kim") [1; 4] 3])).
Proof.
  destruct (shared_reply demo_at msgTypeText (go "room") (go "hi") demo_shared [CWrite 0 0 (-1)] [CWrite 0 1 (-1)] [CMake [9]]) as [r|] eqn:E;
    [|vm_compute in E; discriminate E].
  apply sent_mentions_were_checked in E as ->; [reflexivity | |].
  - intros l Hl. change (l ∈ ({[0%nat]} : gset nat)) in Hl. apply elem_of_singleton in Hl as ->. cbn. lia.
  - apply Forall_singleton. split; [done |]. exists [1; 4]. split; [done | cbn; lia].
Defined.
