(* ===== verification/Calls.v ===== *)
(** * Calls: the client's operations, end to end (internal/client/transport: client.go, execute.go, retry.go, rooms.go,
      ping.go, errors.go)

    The request builders, the retry loop around the epoch replay, the typed GET and POST calls, the operations made of
    them and the readiness probe, as state passing over the epoch cache and the list of requests sent.  The network,
    the clock, randomness, contexts and what the streaming decoder met in a typed body are
    parameters.  [retry_calls] is the loop of [Retry.retry_loop] with the requests it sends; it leaves out the delays,
    which [Retry] has. *)

From S2P Require Import Prelude GoStrings GoStrconv GoJson GoJsonEnc GoHttp GoUrl GoCrypto Canonical Hmac Errors Retry Execute.
From S2P Require Import Path Multipart MultipartFrame Send.

(** ** URLs in errors (errors.go) *)

Definition redactedURLForError (raw : gostring) : gostring :=
  let target := TrimSpace raw in
  if is_empty target then []
  else
    let fallback := if existsb (one_of (go "?#@")) target then go "request" else target in
    match GoUrl.Parse target with
    | None => fallback
    | Some u =>
        let s := TrimSpace (URL_String (mkURL (u_Scheme u) (u_Opaque u) None (u_Host u) (u_Path u) (u_RawPath u) (u_OmitHost u)
                                          false [] [])) in
        if is_empty s then fallback else s
    end.

(** ** Query requests (internal/client/query/types.go) *)

Record QueryMemberStatsRequest := mkQueryMemberStats {
  qm_ChatID : Z;
  qm_Period : option gostring;
  qm_Limit : Z;
  qm_MinMessages : Z;
}.

Definition QueryMemberStatsRequest_json (q : QueryMemberStatsRequest) : option jout :=
  Some (OObject (field (go "chatId") (OInt (qm_ChatID q)) ++ omitempty_ptr (go "period") (qm_Period q)
     ++ omitzero (go "limit") (qm_Limit q) ++ omitzero (go "minMessages") (qm_MinMessages q))).

#[export] Instance QueryMemberStatsRequest_Marshaler : Marshaler QueryMemberStatsRequest := QueryMemberStatsRequest_json.
Record QueryRecentMessagesRequest := mkQueryRecentMessages {
  qr_ChatID : Z;
  qr_Limit : Z;
  qr_AfterID : option Z;
  qr_BeforeID : option Z;
  qr_SinceCreatedAt : option Z;
  qr_UntilCreatedAt : option Z;
  qr_ThreadID : option gostring;
  qr_ChatLogIDs : list gostring;
}.

Definition QueryRecentMessagesRequest_json (q : QueryRecentMessagesRequest) : option jout :=
  Some (OObject (field (go "chatId") (OInt (qr_ChatID q)) ++ omitzero (go "limit") (qr_Limit q)
     ++ omitnil_int (go "afterId") (qr_AfterID q) ++ omitnil_int (go "beforeId") (qr_BeforeID q)
     ++ omitnil_int (go "sinceCreatedAt") (qr_SinceCreatedAt q) ++ omitnil_int (go "untilCreatedAt") (qr_UntilCreatedAt q)
     ++ omitempty_ptr (go "threadId") (qr_ThreadID q) ++ omitempty_slice (go "chatLogIds") (map OString (qr_ChatLogIDs q)))).

#[export] Instance QueryRecentMessagesRequest_Marshaler : Marshaler QueryRecentMessagesRequest := QueryRecentMessagesRequest_json.
(** What a call gives its caller; [CallPanic] is a panic while an error body is redacted. *)
Inductive callResult (T : Type) := CallOk (v : T) | CallErr (e : goerror) | CallPanic.
Arguments CallOk {T}. Arguments CallErr {T}. Arguments CallPanic {T}.

Definition contentTypeJSON : gostring := go "application/json".
Definition HeaderContentType : gostring := go "Content-Type".

Section calls.
Context (secret : option gostring) (http1ProbeOnly : bool) (url_ok : gostring → bool) (baseURL : gostring).
Context (ParseTime : gostring → option Z) (now : nat → Z) (random : nat → gostring).
Context (ctx_err : nat → option goerror) (net : nat → wireRequest → result goerror response).

(** ** Building requests (client.go) *)

Definition set_content_type (ct : gostring) (req : wireRequest) : wireRequest :=
  with_header req (Header_Set HeaderContentType ct (wq_Header req)).

(** The builder of a signed POST of the given body: what [newSignedJSONRequest], [postMultipart] and
    [postFileMultipart] hand to the retry loop.  The latter two stream the body and join their error with that of
    its [Close], which is nil. *)
Definition signed_post (streamed : bool) (path body sha contentType : gostring) (s : cstate) : result goerror wireRequest * cstate :=
  let '(r, s) := newSignedStreamRequest secret http1ProbeOnly url_ok ParseTime now random ctx_err net s MethodPost path
                   (Some body) sha in
  (match r with Ok req => Ok (set_content_type contentType req) | Err err => Err (if streamed then EWrap [EWrap [err]] else EWrap [err]) end, s).

Definition newSignedJSONRequest (path payload : gostring) : cstate → result goerror wireRequest * cstate :=
  signed_post false path payload (SHA256HexBytes payload) contentTypeJSON.

Definition postMultipart_builder (path : gostring) (f : BodyFactory) : cstate → result goerror wireRequest * cstate :=
  signed_post true path (concat (bf_chunks f)) (bf_bodySHA256 f) (bf_contentType f).

(** ** Typed calls (execute.go, retry.go) *)

Section typed.
Context {T : Type} (body_run : nat → response → bodyRun T).

Definition doSignedJSON (s : cstate) (req : wireRequest) (path : gostring) (idempotent epochRefreshed : bool)
  : callResult T * cstate * bool :=
  let '(r, s, epochRefreshed) :=
    do secret http1ProbeOnly url_ok ParseTime now random ctx_err net s req (go "post") path path idempotent epochRefreshed in
  (match r with
   | DoOk resp =>
       match decodeJSONBody (body_run (length (cs_sent s)) resp) MethodPost path idempotent with
       | Ok v => CallOk v
       | Err e => CallErr e
       end
   | DoErr e => CallErr e
   | DoPanic | DoFuel => CallPanic
   end, s, epochRefreshed).

(** [retryPost] around [doSignedJSON], as [retryPostJSON] calls it; [wait] is how the wait after an attempt ends. *)
Section retry.
Context (path : gostring) (hasIdempotencyKey : bool) (build : cstate → result goerror wireRequest * cstate).
Context (wait : nat → option goerror).

Fixpoint retry_calls (remaining attempt : nat) (unknownErr : option goerror) (epochRefreshed : bool) (s : cstate)
  : callResult T * cstate :=
  let '(built, s) := build s in
  match built with
  | Err err => (CallErr (keepUnknownOutcome err unknownErr path hasIdempotencyKey), s)
  | Ok req =>
      let '(r, s, epochRefreshed) := doSignedJSON s req path hasIdempotencyKey epochRefreshed in
      match r with
      | CallOk v => (CallOk v, s)
      | CallPanic => (CallPanic, s)
      | CallErr err =>
          let unknownErr := if Is err ErrTransport then Some err else unknownErr in
          let stop := (CallErr (keepUnknownOutcome err unknownErr path hasIdempotencyKey), s) in
          if negb (isRetryableReplyError err hasIdempotencyKey) then stop
          else match remaining with
               | O => stop
               | S remaining =>
                   match wait attempt with
                   | Some ctxErr => (CallErr (retryWaitError ctxErr unknownErr path hasIdempotencyKey), s)
                   | None => retry_calls remaining (S attempt) unknownErr epochRefreshed s
                   end
               end
      end
  end.

Definition retryPostJSON (ReplyRetryMax : Z) (s : cstate) : callResult T * cstate :=
  retry_calls (Z.to_nat (maxAttempts path ReplyRetryMax - 1)) 1 None false s.
End retry.

Definition postJSON {B} `{Marshaler B} (ReplyRetryMax : Z) (wait : nat → option goerror) (s : cstate) (path : gostring)
  (body : B) (idempotent : bool) : callResult T * cstate :=
  match Marshal body with
  | None => (CallErr (EWrap [EOther (go "encode request body")]), s)
  | Some payload => retryPostJSON path idempotent (newSignedJSONRequest path payload) wait ReplyRetryMax s
  end.

(** [doSigned] and [doGet]. *)
Definition doSigned (s : cstate) (method path : gostring) : doResult * cstate :=
  let op := ToLower method in
  let '(r, s) := newSignedRequest secret http1ProbeOnly url_ok ParseTime now random ctx_err net s method path None in
  match r with
  | Err err => (DoErr (EWrap [err]), s)
  | Ok req =>
      let '(r, s, _) := do secret http1ProbeOnly url_ok ParseTime now random ctx_err net s req op path
                          (redactedURLForError (baseURL ++ path)) true false in (r, s)
  end.

Definition doGet (s : cstate) (path : gostring) : callResult T * cstate :=
  let '(r, s) := doSigned s MethodGet path in
  (match r with
   | DoOk resp =>
       match decodeJSONBody (body_run (length (cs_sent s)) resp) MethodGet path true with
       | Ok v => CallOk v
       | Err e => CallErr e
       end
   | DoErr e => CallErr e
   | DoPanic | DoFuel => CallPanic
   end, s).

(** ** The operations (client.go) *)

Section operations.
Context (ReplyRetryMax : Z) (wait : nat → option goerror).

(** A reply of text type: the request or its refusal, then the POST. *)
Definition send_reply (s : cstate)
  (request : result sendError (ReplyRequest * bool)) : callResult T * cstate :=
  match request with
  | Err _ => (CallErr (EWrap [EOther (go "validate send options")]), s)
  | Ok (req, idempotent) =>
      let '(r, s) := postJSON ReplyRetryMax wait s PathReply req idempotent in
      (match r with CallErr e => CallErr (EWrap [e]) | other => other end, s)
  end.

Definition SendMessageAccepted s room message opts := send_reply s (SendMessageAccepted_request room message opts).
Definition SendMarkdown s room markdown opts := send_reply s (SendMarkdown_request room markdown opts).
Definition SendRichText s room markdown opts := send_reply s (SendRichText_request room markdown opts).

(** [SendImage] and [SendMultipleImages]. *)
Definition send_images (boundary : gostring) (multiple : bool) (s : cstate)
  (room : gostring) (images : list gostring) (opts : list SendOption) : callResult T * cstate :=
  match prepare_images multiple room images opts with
  | Err _ => (CallErr (EWrap [EOther (go "validate send options")]), s)
  | Ok prepared =>
      match prepare_multipart boundary prepared images with
      | Err _ => (CallErr (EWrap [EOther (go "validate multipart envelope")]), s)
      | Ok f =>
          let '(r, s) := retryPostJSON PathReply (match im_ClientRequestID prepared.1 with Some _ => true | None => false end)
                           (postMultipart_builder PathReply f) wait ReplyRetryMax s in
          (match r with CallErr e => CallErr (EWrap [e]) | other => other end, s)
      end
  end.

Definition PathQueryMemberStats : gostring := go "/query/member-stats".
Definition PathQueryRecentMessages : gostring := go "/query/recent-messages".

(** The two query POSTs, by their path. *)
Definition query_post {B} `{Marshaler B} (path : gostring) (s : cstate) (req : B) : callResult T * cstate :=
  let '(r, s) := postJSON ReplyRetryMax wait s path req true in
  (match r with CallErr e => CallErr (EWrap [e]) | other => other end, s).

Definition QueryMemberStats (s : cstate) (req : QueryMemberStatsRequest) := query_post PathQueryMemberStats s req.
Definition QueryRecentMessages (s : cstate) (req : QueryRecentMessagesRequest) := query_post PathQueryRecentMessages s req.
End operations.

Definition GetReplyStatus (s : cstate) (requestID : gostring) : callResult T * cstate :=
  match GetReplyStatus_path requestID with
  | Err _ => (CallErr (EWrap [EOther (go "get reply status")]), s)
  | Ok path => doGet s path
  end.

(** ** Rooms (rooms.go) *)

Definition GetRooms (s : cstate) : callResult T * cstate := doGet s PathRooms.
Definition GetMembers (s : cstate) (chatID : Z) : callResult T * cstate := doGet s (GetMembers_path chatID).
Definition GetMembersWithProfileRefresh (s : cstate) (chatID profileUserID : Z) : callResult T * cstate :=
  doGet s (GetMembersWithProfileRefresh_path chatID profileUserID).
Definition getRoomEvents (s : cstate) (chatID : Z) (userID : option Z) (eventType : gostring) (limit after before : Z)
  (order : gostring) : callResult T * cstate := doGet s (getRoomEvents_path chatID userID eventType limit after before order).
Definition GetRoomEventsByType s chatID eventType limit after := getRoomEvents s chatID None eventType limit after 0 [].
Definition GetRoomUserEventsBefore s chatID userID limit before :=
  getRoomEvents s chatID (Some userID) [] limit 0 before (go "desc").
Definition GetLatestRoomUserEventsByType s chatID userID eventType limit :=
  getRoomEvents s chatID (Some userID) eventType limit 0 0 (go "desc").
Definition SearchNicknameHistoryExact (s : cstate) (chatID : Z) (name : gostring) (limit : Z) : callResult T * cstate :=
  doGet s (SearchNicknameHistoryExact_path chatID name limit).
End typed.

(** ** The readiness probe (ping.go) *)

Definition Ping (s : cstate) : callResult unit * cstate :=
  match newRequest http1ProbeOnly url_ok MethodGet PathReady None with
  | Err err => (CallErr (EWrap [err]), s)
  | Ok req =>
      let '(r, s) := client_Do net s req in
      (match r with
       | Err err => CallErr (ETransport (go "ping") (redactedURLForError (baseURL ++ PathReady)) (Some err) true)
       | Ok resp =>
           if negb (rs_StatusCode resp =? 200) then
             match readErrorResponse ParseTime (now (length (cs_sent s))) PathReady resp with
             | None => CallPanic
             | Some h => CallErr (EWrap [EHTTP h])
             end
           else CallOk tt
       end, s)
  end.

End calls.

(** ** What a call puts on the wire *)

Section wire.
Context (secret : option gostring) (http1ProbeOnly : bool) (url_ok : gostring → bool).
Context (ParseTime : gostring → option Z) (now : nat → Z) (random : nat → gostring).
Context (ctx_err : nat → option goerror) (net : nat → wireRequest → result goerror response).

Abbreviation loop := (do_loop secret http1ProbeOnly url_ok ParseTime now random ctx_err net).
Abbreviation do_ := (do secret http1ProbeOnly url_ok ParseTime now random ctx_err net).
Abbreviation build_post := (signed_post secret http1ProbeOnly url_ok ParseTime now random ctx_err net).

(** The server refused request [n] without processing it. *)
Definition refused (path : gostring) (n : nat) (q : wireRequest) : Prop :=
  ∃ resp, net n q = Ok resp ∧ (rs_StatusCode resp = 429 ∨ epoch_mismatch ParseTime now path (S n) resp).

Lemma loop_flag fuel s req op path url idem rf res s' rf' :
  loop fuel s req op path url idem rf = (res, s', rf') → (1 ≤ fuel)%nat →
  rf' = true ∨ rf' = rf ∧ cs_sent s' = cs_sent s ++ [req].
Proof.
  revert s req rf res s' rf'. induction fuel as [|fuel IH]; intros s req rf res s' rf' H Hf; [lia |].
  cbn [do_loop client_Do] in H. destruct (net _ req) as [resp|]; [|simplify_eq; by right].
  destruct (isSuccessfulHTTPStatus _); [simplify_eq; by right |].
  destruct (readErrorResponse _ _ path resp) as [h|]; [|simplify_eq; by right].
  destruct (rs_CloseErr resp); [simplify_eq; by right |].
  destruct (refreshAuthEpoch secret _ req (EHTTP h) rf) as [[[|] s1] rf1] eqn:Er; cbn [negb] in H.
  - apply refresh_true in Er as (-> & -> & _). left. destruct (signRequest _ _ _ _ _ _ _ _ s1 req _) as [[replay|] s2]; [|by simplify_eq].
    destruct (replay_body req replay) as [q|]; [|by simplify_eq]. destruct fuel as [|fuel]; [cbn [do_loop] in H; by simplify_eq |].
    apply IH in H as [H|[H _]]; [done | done | lia].
  - assert (rf1 = rf) as ->.
    { clear -Er. unfold refreshAuthEpoch in Er. destruct (AsHTTPError _); [|by injection Er]. destruct (_ || _); [by injection Er |].
      destruct (Cut _ _) as [[? ?] b]. destruct (negb b || _ || _); [by injection Er |]. destruct rf; by injection Er. }
    apply refresh_false in Er. simplify_eq. right. by rewrite Er.
Qed.

Lemma readErrorResponse_status path n resp h :
  readErrorResponse ParseTime n path resp = Some h → he_StatusCode h = rs_StatusCode resp.
Proof.
  unfold readErrorResponse. destruct (readErrorBody _) as [payload complete]. destruct (truncateErrorBody payload); try done.
  by intros [= <-].
Qed.

(** A call that failed with a rate limit failed at its last request. *)
Lemma loop_rate_limited fuel s req op path url idem rf e s' rf' :
  (∀ n q e, net n q = Err e → Is e ErrRateLimited = false) →
  loop fuel s req op path url idem rf = (DoErr e, s', rf') → Is e ErrRateLimited = true → AsStop e = false →
  ∃ l q resp, cs_sent s' = l ++ [q] ∧ net (length l) q = Ok resp ∧ rs_StatusCode resp = 429.
Proof.
  intros Hnet. revert s req rf e s' rf'. induction fuel as [|fuel IH]; intros s req rf e s' rf' H He Hstop; [done |].
  cbn [do_loop client_Do] in H. destruct (net _ req) as [resp|ne] eqn:En.
  2:{ injection H as <- _ _. cbn [Is] in He. by rewrite (Hnet _ _ _ En) in He. }
  destruct (isSuccessfulHTTPStatus _); [done |].
  destruct (readErrorResponse _ _ path resp) as [h|] eqn:Eh; [|done].
  destruct (rs_CloseErr resp); [by injection H as <- _ _ |].
  destruct (refreshAuthEpoch secret _ req (EHTTP h) rf) as [[[|] s1] rf1] eqn:Er; cbn [negb] in H.
  - destruct (signRequest _ _ _ _ _ _ _ _ s1 req _) as [[replay|] s2]; [|by injection H as <- _ _].
    destruct (replay_body req replay) as [q|err] eqn:Erb.
    + by eapply IH.
    + injection H as <- _ _. clear -Erb Hstop. unfold replay_body in Erb. destruct (wq_Body req); [|done].
      destruct (wq_GetBody req) as [[|]|]; [done | by injection Erb as <- ..].
  - apply refresh_false in Er. injection H as <- <- _. revert He Hstop. destruct (HTTPError_Is h ErrNotSent); [done |]. intros He _.
    exists (cs_sent s), req, resp. rewrite Er. cbn [cs_sent]. split_and!; [done | done |].
    rewrite <- (readErrorResponse_status _ _ _ _ Eh). cbn [Is existsb] in He. rewrite orb_false_r in He.
    unfold HTTPError_Is in He. destruct (_ && _); [done |]. by apply Z.eqb_eq in He.
Qed.

(** The builder: at most a discovery, then a POST of the body. *)
Lemma build_post_spec streamed path body sha ct s r s' :
  build_post streamed path body sha ct s = (r, s') →
  (cs_sent s' = cs_sent s ∨ cs_sent s' = cs_sent s ++ [epoch_request]) ∧
  ∀ req, r = Ok req → wq_Method req = MethodPost ∧ wq_Path req = path ∧ wq_Body req = Some body ∧ wq_GetBody req = Some (Ok body).
Proof.
  unfold signed_post, newSignedStreamRequest. destruct (newRequest _ _ _ _ _) as [q|err] eqn:En.
  - destruct (signRequest _ _ _ _ _ _ _ _ s q sha) as [r0 s0] eqn:Es. apply sign_spec in Es as [Hs Hq]. intros [= <- <-].
    split; [done |]. intros req Hr. destruct r0 as [q'|]; [|done]. injection Hr as <-.
    destruct (Hq q' eq_refl) as (Hm & Hp & Hb & Hg & _). unfold newRequest in En. destruct (_ && _); [done |].
    destruct (negb _); [done |]. injection En as <-. cbn in *. by rewrite Hm, Hp, Hb, Hg.
  - intros [= <- <-]. split; [by left | done].
Qed.

Lemma newRequest_eq method path body req :
  newRequest http1ProbeOnly url_ok method path body = Ok req →
  req = mkWire method path ∅ body (match body with Some b => Some (Ok b) | None => None end).
Proof. unfold newRequest. destruct (_ && _); [done |]. destruct (negb _); [done |]. by intros [= <-]. Qed.

Definition is_post (q : wireRequest) : bool := seqb (wq_Method q) MethodPost.

Definition posts (l : list wireRequest) : nat := length (List.filter is_post l).

Lemma posts_app l k : posts (l ++ k) = (posts l + posts k)%nat.
Proof. unfold posts. by rewrite List.filter_app, length_app. Qed.

Lemma posts_post q l : is_post q = true → posts (q :: l) = S (posts l).
Proof. intros Hq. unfold posts. cbn [List.filter]. by rewrite Hq. Qed.

(** At most a discovery. *)
Definition discovery (l : list wireRequest) : Prop := l = [] ∨ l = [epoch_request].

Lemma sent_mid (s s' : cstate) :
  cs_sent s' = cs_sent s ∨ cs_sent s' = cs_sent s ++ [epoch_request] → ∃ mid, discovery mid ∧ cs_sent s' = cs_sent s ++ mid.
Proof. intros [->| ->]; [exists []; rewrite app_nil_r; split; [by left | done] | exists [epoch_request]; split; [by right | done]]. Qed.

Lemma discovery_posts l : discovery l → posts l = 0%nat.
Proof. by intros [->| ->]. Qed.

(** A discovery, or the POST of this body to this path. *)
Definition expected (path body : gostring) (q : wireRequest) : Prop :=
  q = epoch_request ∨ wq_Method q = MethodPost ∧ wq_Path q = path ∧ wq_Body q = Some body.

(** Every POST of the list, whose first element is request [base], was refused unprocessed. *)
Definition all_refused (path : gostring) (base : nat) (l : list wireRequest) : Prop :=
  ∀ i q, l !! i = Some q → is_post q = true → refused path (base + i) q.

(** Every POST that another POST follows was refused unprocessed. *)
Definition spaced (path : gostring) (base : nat) (l : list wireRequest) : Prop :=
  ∀ i j q q', (i < j)%nat → l !! i = Some q → l !! j = Some q' → is_post q = true → is_post q' = true → refused path (base + i) q.

Lemma all_refused_spaced path base l : all_refused path base l → spaced path base l.
Proof. intros H i j q q' _ Hi _ Hq _. by apply H. Qed.

Lemma all_refused_app path base l k :
  all_refused path base l → all_refused path (base + length l) k → all_refused path base (l ++ k).
Proof.
  intros H1 H2 i q Hi Hq. apply lookup_app_Some in Hi as [Hi|[Hge Hi]]; [by apply H1 |].
  replace (base + i)%nat with (base + length l + (i - length l))%nat by lia. by apply H2.
Qed.

Lemma spaced_app path base l k :
  all_refused path base l → spaced path (base + length l) k → spaced path base (l ++ k).
Proof.
  intros H1 H2 i j q q' Hij Hi Hj Hq Hq'. apply lookup_app_Some in Hi as [Hi|[Hge Hi]]; [by apply H1 |].
  apply lookup_app_Some in Hj as [Hj|[_ Hj]]; [apply lookup_lt_Some in Hj; lia |].
  replace (base + i)%nat with (base + length l + (i - length l))%nat by lia. eapply (H2 _ (j - length l)%nat); [lia | done..].
Qed.

Lemma discovery_expected path body l : discovery l → Forall (expected path body) l.
Proof. intros [->| ->]; [by apply Forall_nil | apply Forall_singleton; by left]. Qed.

Lemma all_refused_discovery path base l : discovery l → all_refused path base l.
Proof.
  intros Hl i q Hi Hq. exfalso. destruct Hl as [->| ->]; [done |]. apply list_lookup_singleton_Some in Hi as [_ <-]. discriminate Hq.
Qed.

Lemma all_refused_single path base q : refused path base q → all_refused path base [q].
Proof. intros H i q' Hi _. apply list_lookup_singleton_Some in Hi as [-> <-]. by rewrite Nat.add_0_r. Qed.

Lemma spaced_single path base q : spaced path base [q].
Proof. intros i j a b Hij Hi Hj. apply list_lookup_singleton_Some in Hi as [-> _], Hj as [-> _]. lia. Qed.

Definition credit (rf : bool) : nat := if rf then 0 else 1.

(** One run of [do] on the POST of a body. *)
Lemma do_wire s req path body url op idem rf r s' rf' :
  wq_Method req = MethodPost → wq_Path req = path → wq_Body req = Some body → wq_GetBody req = Some (Ok body) →
  do_ s req op path url idem rf = (r, s', rf') →
  ∃ new, cs_sent s' = cs_sent s ++ new ∧ Forall (expected path body) new ∧ spaced path (length (cs_sent s)) new ∧
    ((∀ n q e, net n q = Err e → Is e ErrRateLimited = false) →
     ∀ e, r = DoErr e → Is e ErrRateLimited = true → AsStop e = false → all_refused path (length (cs_sent s)) new) ∧
    (posts new + credit rf' ≤ 1 + credit rf)%nat.
Proof.
  intros Hm Hp Hb Hg H. unfold do in H.
  pose proof H as Hflag. apply loop_flag in Hflag; [|lia].
  pose proof H as Hsent. apply loop_sent in Hsent; [|lia].
  assert ((∀ n q e, net n q = Err e → Is e ErrRateLimited = false) →
    ∀ e, r = DoErr e → Is e ErrRateLimited = true → AsStop e = false →
    ∃ l q resp, cs_sent s' = l ++ [q] ∧ net (length l) q = Ok resp ∧ rs_StatusCode resp = 429) as Hlim
    by (intros Hnet e -> ? ?; by eapply loop_rate_limited).
  assert (expected path body req) as Hreq by (by right).
  assert (is_post req = true) as Hpost by (unfold is_post; by rewrite Hm).
  destruct Hsent as [Hs|(-> & (resp & Hnr & Hmm) & Hs)].
  - exists [req]. split_and!; [done | by apply Forall_singleton | apply spaced_single | |].
    + intros Hnet e He Hi Hst. destruct (Hlim Hnet e He Hi Hst) as (l & q & resp & Hl & Hn & Hc). rewrite Hs in Hl.
      apply app_inj_tail in Hl as [<- <-]. apply all_refused_single. exists resp. auto.
    + rewrite posts_post by done. change (posts []) with 0%nat. destruct Hflag as [->|[-> _]]; cbn; lia.
  - assert (rf' = true) as ->.
    { destruct Hflag as [?|[_ E]]; [done |]. exfalso. destruct Hs as [Hs|(q & mid & _ & Hs & _)]; rewrite Hs in E; apply app_inv_head in E; [done |].
      destruct mid; done. }
    assert (∀ mid, discovery mid → all_refused path (length (cs_sent s)) ([req] ++ mid)) as Hpre.
    { intros mid Hmid. apply all_refused_app; [apply all_refused_single; exists resp; auto | by apply all_refused_discovery]. }
    assert (∀ mid, discovery mid → Forall (expected path body) ([req] ++ mid)) as Hexp.
    { intros mid Hmid. apply Forall_app. split; [by apply Forall_singleton | by apply discovery_expected]. }
    destruct Hs as [Hs|(q & mid & Hmid & Hs & Hqm & Hqp & Hqb)].
    + specialize (Hpre [epoch_request] ltac:(by right)). exists ([req] ++ [epoch_request]).
      split_and!; [done | apply Hexp; by right | by apply all_refused_spaced | done | cbn [app]; rewrite posts_post, (discovery_posts [epoch_request]) by (done || by right); cbn; lia].
    + assert (wq_Body q = Some body) as Hqb' by (destruct Hqb as [[? _]|(b & _ & Hgb & ->)]; congruence).
      assert (is_post q = true) as Hqpost by (unfold is_post; by rewrite Hqm, Hm).
      exists (([req] ++ mid) ++ [q]). split_and!; [by rewrite Hs, <- app_assoc | | apply spaced_app; [by apply Hpre | apply spaced_single] | |].
      * apply Forall_app. split; [by apply Hexp | apply Forall_singleton; right; split_and!; congruence].
      * intros Hnet e He Hi Hst. apply all_refused_app; [by apply Hpre |]. apply all_refused_single.
        destruct (Hlim Hnet e He Hi Hst) as (l & q' & resp' & Hl & Hn & Hc). rewrite Hs in Hl.
        rewrite !app_assoc in Hl. apply app_inj_tail in Hl as [<- <-]. exists resp'.
        rewrite <- app_assoc, length_app in Hn. auto.
      * rewrite posts_app, (posts_app [req]), (discovery_posts mid), !posts_post by done. cbn. lia.
Qed.

(** ** Reading the answer *)

(** The two verdicts of the package that say a request was not processed. *)
Definition verdict (t : sentinel) : Prop := t = ErrRateLimited ∨ t = ErrNotSent.

Definition calm (t : sentinel) (e : goerror) : Prop := Is e t = false.

(** No error of the decoder, the trailer or the context is such a verdict. *)
Definition calm_run {T} (t : sentinel) (b : bodyRun T) : Prop :=
  (∀ e, bd_decoded b = Err e → calm t e) ∧ (∀ e, tr_error (bd_trailer b) = Some e → calm t e) ∧
  (∀ e, bd_ctxErr b = Some e → calm t e).

Lemma calm_wrap t l : Forall (calm t) l → calm t (EWrap l).
Proof. induction 1 as [|e l He _ IH]; unfold calm in *; cbn [Is existsb] in *; [done | by rewrite He]. Qed.

Lemma calm_wrap1 t e : calm t e → calm t (EWrap [e]).
Proof. intros H. apply calm_wrap. by apply Forall_singleton. Qed.

Lemma calm_too_large t : verdict t → calm t (EWrap [ESentinel ErrResponseTooLarge]).
Proof. by intros [->| ->]. Qed.

Lemma calm_transport t op url e idem : verdict t → calm t e → calm t (ETransport op url (Some e) idem).
Proof. by intros [->| ->]. Qed.

Lemma calm_validate t total chunks final n e : verdict t →
  (∀ e, final = Some e → calm t e) → validate_chunks total chunks final = (n, Some e) → calm t e.
Proof.
  intros Hv Hf. revert total. induction chunks as [|c r IH]; intros total H; cbn [validate_chunks] in H.
  - destruct final; [|done]. injection H as _ <-. by apply calm_wrap1, Hf.
  - destruct (forallb _ c); [by eapply IH |]. injection H as _ <-. by destruct Hv as [->| ->].
Qed.

Lemma calm_classify t cause ctxErr lim n err e : verdict t →
  (∀ e, ctxErr = Some e → calm t e) → (∀ e, err = Some e → calm t e) →
  classifyTrailerDrain cause ctxErr lim n err = Some e → calm t e.
Proof.
  intros Hv Hc He. pose proof (calm_too_large t Hv) as Hl. unfold classifyTrailerDrain.
  destruct (_ <? n); [by intros [= <-] |]. cbv zeta.
  assert (∀ x, (if lim then Some (EWrap (match err with Some e => [e] | None => [] end ++ [EWrap [ESentinel ErrResponseTooLarge]]))
                else err) = Some x → calm t x) as Hx.
  { destruct lim; [|done]. intros x [= <-]. apply calm_wrap, Forall_app. split; [|by apply Forall_singleton].
    destruct err; [by apply Forall_singleton, He | by apply Forall_nil]. }
  revert Hx. destruct (if lim then _ else err) as [x|]; [|done]. intros Hx. specialize (Hx x eq_refl).
  destruct (_ || _); [by intros [= <-] |].
  destruct (match cause with Some c => _ | None => _ end); [intros [= <-]; by destruct Hv as [->| ->] |].
  destruct ctxErr; intros [= <-]; [by apply calm_wrap1, Hc | done].
Qed.

(** A POST whose answer could not be read has an unknown outcome, whatever went wrong. *)
Lemma decode_unknown {T} (b : bodyRun T) path idem e :
  decodeJSONBody b MethodPost path idem = Err e →
  ∃ op x, e = ETransport op path (Some x) idem ∧ ∀ t, verdict t → calm_run t b → calm t x.
Proof.
  unfold decodeJSONBody. cbv zeta.
  match goal with |- match _ with None => ?o | Some _ => _ end = _ → _ =>
    assert (∀ e, o = Err e → ∃ op x, e = ETransport op path (Some x) idem ∧ ∀ t, verdict t → calm_run t b → calm t x) as Ho end.
  - intros x. destruct (bd_decoded b) as [v|d] eqn:Ed, (bd_decode_limit b); cycle 1.
    + destruct (validateJSONTrailer _) as [n err] eqn:Ev. destruct (classifyTrailerDrain _ _ _ _ err) as [c|] eqn:Ec; [|done].
      intros [= <-]. do 2 eexists. split; [done |]. intros t Hv (_ & Ht & Hc). apply calm_wrap1.
      eapply calm_classify; [done | exact Hc | | exact Ec]. intros y ->.
      eapply calm_validate; [exact Hv | exact Ht | exact Ev].
    + intros [= <-]. do 2 eexists. split; [done |]. intros t Hv (Hd & _). apply calm_wrap1, calm_wrap.
      apply Forall_cons. split; [by apply Hd | by apply Forall_singleton, calm_too_large].
    + intros [= <-]. do 2 eexists. split; [done |]. intros t Hv (Hd & _). by apply calm_wrap1, Hd.
    + intros [= <-]. do 2 eexists. split; [done |]. intros t Hv _. by apply calm_wrap1, calm_wrap1, calm_too_large.
  - revert Ho. match goal with |- (∀ x, ?o = _ → _) → _ => generalize o end. intros o Ho.
    destruct (bd_closeErr b) as [c|]; [|apply Ho].
    intros [= <-]. do 2 eexists. split; [done |]. intros t Hv Hr. apply calm_wrap, Forall_app.
    split; [|apply Forall_singleton; by destruct Hv as [->| ->]]. destruct o as [v|x]; [by apply Forall_nil |].
    apply Forall_singleton. destruct (Ho x eq_refl) as (op & y & -> & Hy). apply calm_transport; auto.
Qed.

(** ** One call, then the calls of a retried POST *)

(** The network settled request [n]: an answer that is not a success, or a failure that says it was not sent. *)
Definition settled (n : nat) (q : wireRequest) : Prop :=
  match net n q with
  | Ok resp => isSuccessfulHTTPStatus (rs_StatusCode resp) = false
  | Err e => Is e ErrNotSent = true
  end.

Definition all_settled (base : nat) (l : list wireRequest) : Prop :=
  ∀ i q, l !! i = Some q → is_post q = true → settled (base + i) q.

Lemma loop_settled fuel s req op path url idem rf e s' rf' :
  loop fuel s req op path url idem rf = (DoErr e, s', rf') → Is e ErrTransport = false →
  ∃ new, cs_sent s' = cs_sent s ++ new ∧ all_settled (length (cs_sent s)) new.
Proof.
  revert s req rf e s' rf'. induction fuel as [|fuel IH]; intros s req rf e s' rf' H He; [done |].
  cbn [do_loop client_Do] in H.
  assert (∀ mid rest, discovery mid → settled (length (cs_sent s)) req →
    all_settled (length (cs_sent s ++ [req] ++ mid)) rest → all_settled (length (cs_sent s)) ([req] ++ mid ++ rest)) as Hpre.
  { intros mid rest Hmid Hreq Hrest i q Hi Hq. destruct i as [|i]; [injection Hi as <-; by rewrite Nat.add_0_r |].
    cbn [app lookup list_lookup] in Hi. apply lookup_app_Some in Hi as [Hi|[Hge Hi]].
    - exfalso. destruct Hmid as [->| ->]; [done |]. apply list_lookup_singleton_Some in Hi as [_ <-]. discriminate Hq.
    - specialize (Hrest _ _ Hi Hq). rewrite !length_app in Hrest. cbn [length] in Hrest.
      by replace (length (cs_sent s) + S i)%nat with (length (cs_sent s) + (1 + length mid) + (i - length mid))%nat by lia. }
  assert (∀ base, all_settled base []) as Hnil by (intros ? i q Hi; done).
  unfold settled at 1 in Hpre. destruct (net _ req) as [resp|ne] eqn:En.
  2:{ injection H as <- <- _. exists [req]. split; [done |]. apply (Hpre [] []); [by left | | done].
      cbn [Is TransportError_Is] in He. by destruct (Is ne ErrNotSent). }
  destruct (isSuccessfulHTTPStatus _) eqn:Est; [done |].
  destruct (readErrorResponse _ _ path resp) as [h|]; [|done].
  destruct (rs_CloseErr resp); [injection H as <- <- _; exists [req]; split; [done |]; apply (Hpre [] []); [by left | done | done] |].
  destruct (refreshAuthEpoch secret _ req (EHTTP h) rf) as [[[|] s1] rf1] eqn:Er; cbn [negb] in H.
  2:{ apply refresh_false in Er. injection H as <- <- _. rewrite Er. exists [req]. split; [done |].
      apply (Hpre [] []); [by left | done | done]. }
  apply refresh_true in Er as (-> & -> & Hs1 & _). cbn [cs_sent] in Hs1.
  destruct (signRequest _ _ _ _ _ _ _ _ s1 req _) as [rq s2] eqn:Esg. apply sign_spec in Esg as [Hs2 _]. rewrite Hs1 in Hs2.
  rewrite <- Hs1 in Hs2. apply sent_mid in Hs2 as (mid & Hmid & Hs). rewrite Hs1, <- app_assoc in Hs.
  assert (∀ x, cs_sent x = cs_sent s2 → ∃ new, cs_sent x = cs_sent s ++ new ∧ all_settled (length (cs_sent s)) new) as Hstop.
  { intros x ->. exists ([req] ++ mid ++ []). rewrite app_nil_r at 1. split; [done | by apply Hpre]. }
  destruct rq as [replay|]; [|injection H as <- <- _; by apply Hstop].
  destruct (replay_body req replay) as [q|]; [|injection H as <- <- _; by apply Hstop].
  apply IH in H as (new & Hnew & Hset); [|done]. rewrite Hs in Hnew, Hset. exists ([req] ++ mid ++ new).
  split; [by rewrite Hnew, <- !app_assoc | by apply Hpre].
Qed.

(** A POST the builder made, sent and its answer read. *)
Section attempts.
Context {T : Type} (body_run : nat → response → bodyRun T) (path body : gostring).
Context (Hnet : ∀ n q e, net n q = Err e → calm ErrRateLimited e).
Context (Hrun : ∀ n resp t, verdict t → calm_run t (body_run n resp)).

Abbreviation doJSON := (doSignedJSON secret http1ProbeOnly url_ok ParseTime now random ctx_err net body_run).

Lemma doSignedJSON_wire s req key rf r s' rf' :
  wq_Method req = MethodPost → wq_Path req = path → wq_Body req = Some body → wq_GetBody req = Some (Ok body) →
  doJSON s req path key rf = (r, s', rf') →
  ∃ new, cs_sent s' = cs_sent s ++ new ∧ Forall (expected path body) new ∧ spaced path (length (cs_sent s)) new ∧
    (∀ e, r = CallErr e → isRetryableReplyError e false = true → all_refused path (length (cs_sent s)) new) ∧
    (∀ e, r = CallErr e → Is e ErrTransport = false → all_settled (length (cs_sent s)) new) ∧
    (posts new + credit rf' ≤ 1 + credit rf)%nat.
Proof using Hnet Hrun.
  intros Hm Hp Hb Hg. unfold doSignedJSON. destruct (do_ s req _ path path key rf) as [[r0 s0] rf0] eqn:Ed. intros [= <- <- <-].
  pose proof Ed as Hw. apply (do_wire _ _ _ body) in Hw as (new & Hs & He & Hsp & Href & Hc); [|done..].
  exists new. split_and!; [done | done | done | | | done]; intros e Hr; destruct r0 as [resp|err| |]; try done.
  - intros Hretry. exfalso. destruct (decodeJSONBody _ _ _ _) eqn:Edec; [done |]. injection Hr as ->.
    apply decode_unknown in Edec as (op & x & -> & Hx).
    specialize (Hx ErrRateLimited (or_introl eq_refl) (Hrun _ _ _ (or_introl eq_refl))). unfold calm in Hx.
    unfold isRetryableReplyError, isRetryableError in Hretry. destruct (AsStop _); [done |]. cbn [Is TransportError_Is] in Hretry.
    rewrite Hx in Hretry. by rewrite !andb_false_r in Hretry.
  - injection Hr as ->. intros Hretry. unfold isRetryableReplyError, isRetryableError in Hretry.
    destruct (AsStop e) eqn:Est; [done |]. rewrite orb_false_r in Hretry. apply andb_true_iff in Hretry as [_ Hrl].
    by apply (Href Hnet e).
  - intros Ht. exfalso. destruct (decodeJSONBody _ _ _ _) eqn:Edec; [done |]. injection Hr as ->.
    apply decode_unknown in Edec as (op & x & -> & Hx).
    specialize (Hx ErrNotSent (or_intror eq_refl) (Hrun _ _ _ (or_intror eq_refl))). unfold calm in Hx.
    cbn [Is TransportError_Is] in Ht. by rewrite Hx in Ht.
  - injection Hr as ->. intros Ht. unfold do in Ed. apply loop_settled in Ed as (new' & Hs' & Hset); [|done].
    rewrite Hs in Hs'. apply app_inv_head in Hs' as ->. done.
Qed.

(** A failure that is not an unknown outcome means none is on record. *)
Lemma keep_definite key e u : unknown_ok u →
  Is (keepUnknownOutcome e u path key) ErrTransport = false →
  ClientRequestIDConflictCode (keepUnknownOutcome e u path key) = [] → u = None.
Proof.
  intros Hu Ht Hc. destruct u as [u|]; [|done]. exfalso.
  destruct (keepUnknown_unknown path key e u (Hu _ eq_refl)) as [H|H]; congruence.
Qed.

Lemma wait_definite key c u : unknown_ok u → Is (retryWaitError c u path key) ErrTransport = false → u = None.
Proof.
  intros Hu Ht. destruct u as [u|]; [|done]. by rewrite (retryWaitError_unknown path key c u (Hu _ eq_refl)) in Ht.
Qed.

Lemma recorded_none err u : recorded err u = None → Is err ErrTransport = false ∧ u = None.
Proof. unfold recorded. by destruct (Is err ErrTransport). Qed.

Lemma all_settled_app base l k : all_settled base l → all_settled (base + length l) k → all_settled base (l ++ k).
Proof.
  intros H1 H2 i q Hi Hq. apply lookup_app_Some in Hi as [Hi|[Hge Hi]]; [by apply H1 |].
  replace (base + i)%nat with (base + length l + (i - length l))%nat by lia. by apply H2.
Qed.

Lemma all_settled_discovery base l : discovery l → all_settled base l.
Proof.
  intros Hl i q Hi Hq. exfalso. destruct Hl as [->| ->]; [done |]. apply list_lookup_singleton_Some in Hi as [_ <-]. discriminate Hq.
Qed.

(** What a retried POST put on the wire, and what its result says of it. *)
Definition wire_ok (key : bool) (unknownErr : option goerror) (limit : nat) (res : callResult T) (base : nat)
  (new : list wireRequest) : Prop :=
  Forall (expected path body) new ∧ (posts new ≤ limit)%nat ∧ (key = false → spaced path base new) ∧
  (∀ e, res = CallErr e → Is e ErrTransport = false → ClientRequestIDConflictCode e = [] →
     unknownErr = None ∧ all_settled base new).

(** The discovery the builder may need sends no POST and is no obstacle. *)
Lemma wire_discovery key u limit res base mid new : discovery mid →
  wire_ok key u limit res (base + length mid) new → wire_ok key u limit res base (mid ++ new).
Proof.
  intros Hmid (He & Hp & Hs & Hd). split_and!.
  - apply Forall_app. split; [by apply discovery_expected | done].
  - by rewrite posts_app, (discovery_posts mid).
  - intros Hk. apply spaced_app; [by apply all_refused_discovery | auto].
  - intros e Hr Ht Hc. destruct (Hd e Hr Ht Hc). split; [done |]. apply all_settled_app; [by apply all_settled_discovery | done].
Qed.

(** The runs of the loop, one rule per way an attempt can end. *)
Section runs.
Context (key : bool) (build : cstate → result goerror wireRequest * cstate) (wait : nat → option goerror).

Inductive calls_run : nat → option goerror → bool → cstate → callResult T → cstate → Prop :=
| calls_build n u rf s b s0 :
    build s = (Err b, s0) → calls_run n u rf s (CallErr (keepUnknownOutcome b u path key)) s0
| calls_done n u rf s req s0 r s1 rf1 :
    build s = (Ok req, s0) → doJSON s0 req path key rf = (r, s1, rf1) → (∀ e, r ≠ CallErr e) → calls_run n u rf s r s1
| calls_stop n u rf s req s0 err s1 rf1 :
    build s = (Ok req, s0) → doJSON s0 req path key rf = (CallErr err, s1, rf1) →
    calls_run n u rf s (CallErr (keepUnknownOutcome err (recorded err u) path key)) s1
| calls_cancelled n u rf s req s0 err s1 rf1 c :
    build s = (Ok req, s0) → doJSON s0 req path key rf = (CallErr err, s1, rf1) →
    calls_run n u rf s (CallErr (retryWaitError c (recorded err u) path key)) s1
| calls_again n u rf s req s0 err s1 rf1 res s2 :
    build s = (Ok req, s0) → doJSON s0 req path key rf = (CallErr err, s1, rf1) → isRetryableReplyError err key = true →
    calls_run n (recorded err u) rf1 s1 res s2 → calls_run (S n) u rf s res s2.

Lemma retry_calls_run n k u rf s res s' :
  retry_calls secret http1ProbeOnly url_ok ParseTime now random ctx_err net body_run path key build wait n k u rf s = (res, s') →
  calls_run n u rf s res s'.
Proof.
  revert k u rf s. induction n as [|n IH]; intros k u rf s H; cbn [retry_calls] in H;
    (destruct (build s) as [[req|b] s0] eqn:Eb; [|injection H as <- <-; by apply calls_build]);
    destruct (doSignedJSON _ _ _ _ _ _ _ _ _ _ _ _ _ _) as [[[v|err|] s1] rf1] eqn:Ed;
    try (injection H as <- <-; by eapply calls_done); fold (recorded err u) in H;
    destruct (isRetryableReplyError err key) eqn:Er; cbn [negb] in H; try (injection H as <- <-; by eapply calls_stop).
  destruct (wait k) as [c|]; [injection H as <- <-; by eapply calls_cancelled |].
  by eapply calls_again; [..|eapply IH].
Qed.
End runs.

Lemma calls_run_wire key streamed sha ct n u rf s res s' :
  calls_run key (build_post streamed path body sha ct) n u rf s res s' → unknown_ok u →
  ∃ new, cs_sent s' = cs_sent s ++ new ∧ wire_ok key u (S n + credit rf) res (length (cs_sent s)) new.
Proof using Hnet Hrun.
  assert (∀ s built s0, build_post streamed path body sha ct s = (built, s0) →
    ∃ mid, discovery mid ∧ cs_sent s0 = cs_sent s ++ mid) as Hb by (intros s1 built s0 [H _]%build_post_spec; by apply sent_mid).
  induction 1 as [n u rf s b s0 Hbld|n u rf s req s0 r s1 rf1 Hbld Hdo Hr|n u rf s req s0 err s1 rf1 Hbld Hdo
    |n u rf s req s0 err s1 rf1 c Hbld Hdo|n u rf s req s0 err s1 rf1 res s2 Hbld Hdo Hretry _ IH]; intros Hu;
    destruct (Hb _ _ _ Hbld) as (mid & Hmid & Hs).
  1:{ exists (mid ++ []). rewrite app_nil_r at 1. split; [done |]. apply wire_discovery; [done |]. split_and!.
      - by apply Forall_nil.
      - cbn. lia.
      - intros _ i j ? ? _ Hi. done.
      - intros e [= <-] Ht Hc. split; [by eapply keep_definite | intros i q Hi; done]. }
  all: apply build_post_spec in Hbld as [_ Hq]; destruct (Hq req eq_refl) as (Hqm & Hqp & Hqb & Hqg);
    apply doSignedJSON_wire in Hdo as (new & Hnew & Hexp & Hsp & Href & Hset & Hcr); [|done..];
    rewrite Hs in Hnew, Href, Hset, Hsp; rewrite length_app in Href, Hset, Hsp.
  1-3: exists (mid ++ new); split; [by rewrite Hnew, <- app_assoc |]; apply wire_discovery; [done |];
    split_and!; [done | lia | done |].
  - intros e He. by destruct (Hr e).
  - intros e [= <-] Ht Hc. pose proof (keep_definite _ _ _ (update_unknown err u Hu) Ht Hc) as Hn.
    fold (recorded err u) in Hn. apply recorded_none in Hn as [Hx ->]. split; [done | by apply (Hset err)].
  - intros e [= <-] Ht Hc. pose proof (wait_definite _ _ _ (update_unknown err u Hu) Ht) as Hn.
    fold (recorded err u) in Hn. apply recorded_none in Hn as [Hx ->]. split; [done | by apply (Hset err)].
  - destruct (IH (update_unknown err u Hu)) as (rest & Hrest & He & Hp & Hs' & Hd). exists (mid ++ new ++ rest).
    rewrite Hnew in Hrest, Hs', Hd. rewrite !length_app in Hs', Hd.
    split; [by rewrite Hrest, <- !app_assoc |]. apply wire_discovery; [done |]. split_and!.
    + by apply Forall_app.
    + rewrite posts_app. lia.
    + intros ->. apply spaced_app; [by apply (Href err) | by apply Hs'].
    + intros e Hres Ht Hc. destruct (Hd e Hres Ht Hc) as [Hn Hrs]. apply recorded_none in Hn as [? ->]. split; [done |].
      apply all_settled_app; [by apply (Hset err) | done].
Qed.
End attempts.
End wire.

(** A POST without an idempotency key is never repeated blindly.  Whatever the network does, a retried POST
    (JSON, images or a file) puts on the wire, besides epoch discoveries, only POSTs of the same body to the same
    path, at most one more than the attempts configured; and without a key, each POST that another one follows was
    refused by the server before processing it: rate limited (429), or answered with a verified epoch mismatch. *)
Theorem post_never_repeated_blindly {T} (secret : option gostring) (http1ProbeOnly : bool) (url_ok : gostring → bool)
    (ParseTime : gostring → option Z) (now : nat → Z) (random : nat → gostring)
    (ctx_err : nat → option goerror) (net : nat → wireRequest → result goerror response)
    (body_run : nat → response → bodyRun T) (wait : nat → option goerror)
    (streamed : bool) (path body sha contentType : gostring) (key : bool) (ReplyRetryMax : Z) (s s' : cstate) (res : callResult T) :
  (∀ n q e, net n q = Err e → Is e ErrRateLimited = false) →
  (∀ n resp t, verdict t → calm_run t (body_run n resp)) →
  retryPostJSON secret http1ProbeOnly url_ok ParseTime now random ctx_err net body_run path key
    (signed_post secret http1ProbeOnly url_ok ParseTime now random ctx_err net streamed path body sha contentType)
    wait ReplyRetryMax s = (res, s') →
  ∃ new, cs_sent s' = cs_sent s ++ new ∧ Forall (expected path body) new ∧
    Z.of_nat (posts new) ≤ maxAttempts path ReplyRetryMax + 1 ∧
    (key = false → ∀ i j q q', (i < j)%nat → new !! i = Some q → new !! j = Some q' → is_post q = true → is_post q' = true →
       refused ParseTime now net path (length (cs_sent s) + i) q).
Proof.
  intros Hnet Hrun H. apply retry_calls_run in H. apply calls_run_wire in H as (new & Hs & He & Hp & Hsp & _); [|done..].
  exists new. split_and!; [done | done | | done]. cbn [credit] in Hp.
  assert (1 ≤ maxAttempts path ReplyRetryMax); [|lia].
  unfold maxAttempts. destruct (_ && _) eqn:E; [|lia]. bool_props. lia.
Qed.

(** A server that limits the rate of the first request, and a decoder that reads an empty answer. *)
Definition busy_then_ok (n : nat) (_ : wireRequest) : result goerror response :=
  Ok (mkResponse (if Nat.eqb n 0 then 429 else 202) [] (mkBody [] false) None).
Definition plain_run (n : nat) (_ : response) : bodyRun nat := mkBodyRun (Ok n) false (mkReads [] None) false None None None.
Definition demo_call (net : nat → wireRequest → result goerror response) : callResult nat * cstate :=
  retryPostJSON None false (λ _, true) (λ _, None) (λ _, 500) (λ _, []) (λ _, None) net plain_run PathReply false
    (signed_post None false (λ _, true) (λ _, None) (λ _, 500) (λ _, []) (λ _, None) net false PathReply (go "{}") (go "x")
       contentTypeJSON) (λ _, None) 3 (mkCState [] []).

Lemma post_never_repeated_blindly_witness :
  length (cs_sent (demo_call busy_then_ok).2) = 2%nat ∧
  ∃ q, refused (λ _, None) (λ _, 500) busy_then_ok PathReply 0 q.
Proof.
  split; [vm_compute; reflexivity |].
  destruct (post_never_repeated_blindly None false (λ _, true) (λ _, None) (λ _, 500) (λ _, []) (λ _, None) busy_then_ok
    plain_run (λ _, None) false PathReply (go "{}") (go "x") contentTypeJSON false 3 (mkCState [] []) (demo_call busy_then_ok).2
    (demo_call busy_then_ok).1) as (new & Hs & _ & _ & Hr).
  - intros n q e H. discriminate H.
  - intros n resp t Ht. split_and!; intros e H; discriminate H.
  - apply surjective_pairing.
  - assert (map is_post (cs_sent (demo_call busy_then_ok).2) = [true; true]) as Hl by (vm_compute; reflexivity).
    rewrite Hs in Hl. change (map is_post new = [true; true]) in Hl.
    destruct new as [|q0 [|q1 new]]; [discriminate Hl | discriminate Hl |]. injection Hl as H0 H1 _.
    exists q0. exact (Hr eq_refl 0%nat 1%nat q0 q1 (Nat.lt_0_succ 0) eq_refl eq_refl H0 H1).
Defined.

(** A definite failure is definite.  When a retried POST fails with an error that is neither an unknown outcome
    nor the server's verdict on the request ID, every POST it put on the wire, over all attempts and replays, was
    either answered with an HTTP error or not sent according to the network: none of them was lost on the way, and
    none was accepted. *)
Theorem definite_failure_is_definite {T} (secret : option gostring) (http1ProbeOnly : bool) (url_ok : gostring → bool)
    (ParseTime : gostring → option Z) (now : nat → Z) (random : nat → gostring)
    (ctx_err : nat → option goerror) (net : nat → wireRequest → result goerror response)
    (body_run : nat → response → bodyRun T) (wait : nat → option goerror)
    (streamed : bool) (path body sha contentType : gostring) (key : bool) (ReplyRetryMax : Z) (s s' : cstate) (e : goerror)
    (i : nat) (q : wireRequest) :
  (∀ n q e, net n q = Err e → Is e ErrRateLimited = false) →
  (∀ n resp t, verdict t → calm_run t (body_run n resp)) →
  retryPostJSON secret http1ProbeOnly url_ok ParseTime now random ctx_err net body_run path key
    (signed_post secret http1ProbeOnly url_ok ParseTime now random ctx_err net streamed path body sha contentType)
    wait ReplyRetryMax s = (CallErr e, s') →
  Is e ErrTransport = false → ClientRequestIDConflictCode e = [] →
  (length (cs_sent s) ≤ i)%nat → cs_sent s' !! i = Some q → is_post q = true →
  match net i q with
  | Ok resp => isSuccessfulHTTPStatus (rs_StatusCode resp) = false
  | Err ne => Is ne ErrNotSent = true
  end.
Proof.
  intros Hnet Hrun H Ht Hc Hi Hq Hpost. apply retry_calls_run in H. apply calls_run_wire in H as (new & Hs & _ & _ & _ & Hd); [|done..].
  destruct (Hd e eq_refl Ht Hc) as [_ Hset]. rewrite Hs, lookup_app_r in Hq by done. specialize (Hset _ _ Hq Hpost).
  by rewrite Nat.add_comm, Nat.sub_add in Hset.
Qed.

(** A server that limits the rate, then rejects the request. *)
Definition busy_then_400 (n : nat) (_ : wireRequest) : result goerror response :=
  Ok (mkResponse (if Nat.eqb n 0 then 429 else 400) [] (mkBody [] false) None).

Lemma definite_failure_is_definite_witness :
  Is (match (demo_call busy_then_400).1 with CallErr e => e | _ => EOther [] end) ErrPermanent = true ∧
  isSuccessfulHTTPStatus (if Nat.eqb 1 0 then 429 else 400) = false.
Proof.
  split; [vm_compute; reflexivity |].
  refine (definite_failure_is_definite None false (λ _, true) (λ _, None) (λ _, 500) (λ _, []) (λ _, None) busy_then_400
    plain_run (λ _, None) false PathReply (go "{}") (go "x") contentTypeJSON false 3 (mkCState [] []) (demo_call busy_then_400).2
    (match (demo_call busy_then_400).1 with CallErr e => e | _ => EOther [] end) 1
    (default epoch_request (cs_sent (demo_call busy_then_400).2 !! 1%nat)) _ _ _ _ _ _ _ _).
  - intros n q e He. discriminate He.
  - intros n resp t Ht. split_and!; intros e He; discriminate He.
  - vm_compute. reflexivity.
  - vm_compute. reflexivity.
  - vm_compute. reflexivity.
  - vm_compute. lia.
  - vm_compute. reflexivity.
  - vm_compute. reflexivity.
Defined.
