(* ===== verification/ErrorText.v ===== *)
(** * ErrorText: the texts of errors (internal/client/transport/errors.go)

    What a [TransportError] says of its request, and the groups that errors are logged as.  The path of a query
    carries its parameters, so the URL of an error is printed without its query, fragment and user information. *)

From S2P Require Import Prelude GoStrings GoStrconv GoUrl Errors Calls.

(** [TransportError.Error] on an error that is not nil; [err] is the text of the wrapped error. *)
Definition TransportError_Error (op url : gostring) (err : option gostring) : gostring :=
  let prefix := TrimSpace (TrimSpace op ++ go " " ++ redactedURLForError url) in
  let prefix := if is_empty prefix then go "transport" else prefix in
  match err with
  | None => go "iris transport " ++ prefix
  | Some text => go "iris transport " ++ prefix ++ go ": " ++ text
  end.

(** [HTTPError.LogValue]: the attributes of the group. *)
Inductive logValue := LogInt (n : Z) | LogString (s : gostring).

Definition HTTPError_LogValue (e : HTTPError) : option (list (gostring * logValue)) :=
  match redactSensitiveTokens (he_Body e) with
  | Sliced body =>
      Some [(go "StatusCode", LogInt (he_StatusCode e)); (go "URL", LogString (he_URL e)); (go "Code", LogString (he_code e));
            (go "Body", LogString body)]
  | _ => None
  end.

(** ** What the URL of an error shows *)

(** Neither a question mark nor a number sign: no query and no fragment. *)
Definition bare (s : gostring) : Prop := Forall (λ b, beq b "?" || beq b "#" = false) s.

Lemma bare_app a b : bare a → bare b → bare (a ++ b).
Proof. intros Ha Hb. apply Forall_app. by split. Qed.

Lemma bare_not_in s : "?"%byte ∉ s → "#"%byte ∉ s → bare s.
Proof.
  intros Hq Hf. apply Forall_forall. intros b Hb. apply orb_false_iff. split; apply beq_false; intros ->; done.
Qed.

Lemma bare_impl (P : byte → bool) s : Forall (λ b, P b = true) s →
  forallb (λ b, implb (P b) (negb (beq b "?" || beq b "#"))) all_bytes = true → bare s.
Proof.
  intros Hs Hall. eapply Forall_impl; [exact Hs |]. intros b Hb. cbv beta. pose proof (byte_forallb _ Hall b) as H. cbv beta in H.
  rewrite Hb in H. by apply negb_true_iff in H.
Qed.

Definition is_scheme_byte (b : byte) : bool :=
  in_range "a" "z" b || in_range "A" "Z" b || in_range "0" "9" b || one_of (go "+-.") b.

Lemma scan_scheme_bytes raw acc s sch rest :
  Forall (λ b, is_scheme_byte b = true) acc → scan_scheme raw acc s = Some (sch, rest) → Forall (λ b, is_scheme_byte b = true) sch.
Proof.
  revert acc. induction s as [|c s IH]; intros acc Hacc H; cbn [scan_scheme] in H; [injection H as <- _; by apply Forall_nil |].
  assert (is_scheme_byte c = true → Forall (λ b, is_scheme_byte b = true) (acc ++ [c])) as Hsnoc
    by (intros Hc; apply Forall_app; split; [done | by apply Forall_singleton]).
  destruct (in_range "a" "z" c || in_range "A" "Z" c) eqn:E1.
  { eapply IH; [|exact H]. apply Hsnoc. unfold is_scheme_byte. by rewrite E1. }
  destruct (in_range "0" "9" c || one_of (go "+-.") c) eqn:E2.
  { destruct (is_empty acc); [injection H as <- _; by apply Forall_nil |]. eapply IH; [|exact H]. apply Hsnoc. unfold is_scheme_byte.
    by rewrite <- orb_assoc, E2, orb_true_r. }
  destruct (beq c ":"); [destruct (is_empty acc); [done | by injection H as <- _] | injection H as <- _; by apply Forall_nil].
Qed.

Lemma scan_scheme_nil raw acc s rest : scan_scheme raw acc s = Some ([], rest) → rest = raw.
Proof.
  revert acc. induction s as [|c s IH]; intros acc; cbn [scan_scheme]; [by intros [= <-] |].
  destruct (_ || _); [by apply IH |]. destruct (_ || _); [destruct (is_empty acc); [by intros [= <-] | by apply IH] |].
  destruct (beq c ":"); [|by intros [= <-]]. destruct (is_empty acc) eqn:E; [done |]. intros [= -> _]. done.
Qed.

Lemma ToLower_scheme_bare sch : Forall (λ b, is_scheme_byte b = true) sch → bare (ToLower sch).
Proof.
  intros H. rewrite ToLower_ascii.
  - apply Forall_fmap. eapply Forall_impl; [exact H |]. intros b Hb. cbn.
    pose proof (byte_forallb (λ b, implb (is_scheme_byte b) (negb (beq (lower_byte b) "?" || beq (lower_byte b) "#")))
      ltac:(vm_compute; reflexivity) b) as Hall. cbv beta in Hall. rewrite Hb in Hall. by apply negb_true_iff in Hall.
  - eapply Forall_impl; [exact H |]. intros b Hb.
    pose proof (byte_forallb (λ b, implb (is_scheme_byte b) (is_ascii b)) ltac:(vm_compute; reflexivity) b) as Hall. cbv beta in Hall.
    by rewrite Hb in Hall.
Qed.

(** The opaque part of a URL comes before its query and fragment. *)
Lemma parse_bare raw u : "#"%byte ∉ raw → parse raw false = Some u → bare (u_Scheme u) ∧ bare (u_Opaque u).
Proof.
  intros Hraw. assert (bare []) as Hnil by (by apply Forall_nil). unfold parse. destruct (existsb is_ctl raw); [done |].
  destruct (is_empty raw && false); [done |]. destruct (seqb raw (go "*")); [by intros [= <-] |].
  destruct (getScheme raw) as [[sch rest0]|] eqn:Es; [|done]. cbn [mbind option_bind]. cbv zeta.
  assert (bare (ToLower sch)) as Hsch by (eapply ToLower_scheme_bare, scan_scheme_bytes; [|exact Es]; by apply Forall_nil).
  destruct (split_query rest0) as [[rest q] fq] eqn:Eq.
  assert (bare rest) as Hrest.
  { pose proof (split_query_cut rest0) as [Hc _]. rewrite Eq in Hc. cbn [fst] in Hc. destruct (Cut "?" rest0) as [[a b] f] eqn:Ec.
    cbn [fst] in Hc. subst a. apply Cut_spec in Ec as [Hq Ec]. apply bare_not_in; [done |]. intros Hin. apply Hraw.
    assert ("#"%byte ∈ rest0) as Hin0 by (destruct f; [subst rest0; apply elem_of_app; by left | destruct Ec as [<- _]; done]).
    destruct (decide (sch = [])) as [->|Hne].
    2:{ destruct (getScheme_inv _ _ _ Es Hne) as [-> _]. apply elem_of_app. right. apply elem_of_cons. by right. }
    apply scan_scheme_nil in Es. by subst rest0. }
  destruct (_ && _); [by intros [= <-] |]. destruct (_ && _); [done |]. unfold with_path. destruct (_ && _).
  - destruct (Cut "/" (drop 2 rest)) as [[au pa] sl]. destruct (parseAuthority _ _) as [[us ho]|]; [|done]. cbn [mbind option_bind].
    destruct (setPath _) as [[? ?]|]; [|done]. by intros [= <-].
  - destruct (setPath _) as [[? ?]|]; [|done]. by intros [= <-].
Qed.

Lemma Parse_bare raw u : Parse raw = Some u → bare (u_Scheme u) ∧ bare (u_Opaque u).
Proof.
  unfold Parse. destruct (Cut "#" raw) as [[r frag] f] eqn:Ec. apply Cut_spec in Ec as [Hr _].
  destruct (parse r false) as [url|] eqn:Ep; [|done]. cbn [mbind option_bind]. apply parse_bare in Ep; [|done].
  destruct (is_empty frag); [by intros [= <-] |]. destruct (unescape encodeFragment frag); [|done]. by intros [= <-].
Qed.

Lemma escape_bare mode s : never_printed mode "?" = true → never_printed mode "#" = true → bare (escape mode s).
Proof. intros Hq Hf. apply bare_not_in; by apply escape_never. Qed.

Lemma EscapedPath_bare u : bare (EscapedPath u).
Proof.
  unfold EscapedPath. destruct (_ && bool_decide _) eqn:E.
  - apply andb_true_iff in E as [E _]. apply andb_true_iff in E as [_ E]. apply Forall_forallb in E.
    eapply bare_impl; [exact E |]. vm_compute. reflexivity.
  - destruct (seqb _ _); [|by apply escape_bare]. by repeat constructor.
Qed.

Lemma URL_String_bare u :
  bare (u_Scheme u) → bare (u_Opaque u) → u_User u = None → u_ForceQuery u = false → u_RawQuery u = [] → bare (URL_String u).
Proof.
  intros Hs Ho Hu Hf Hq. assert (bare (escape encodeHost (u_Host u))) as Hh by (by apply escape_bare).
  assert (∀ s : gostring, forallb (λ b, negb (beq b "?" || beq b "#")) s = true → bare s) as Hlit.
  { intros s H. apply Forall_forallb in H. eapply Forall_impl; [exact H |]. intros b Hb. by apply negb_true_iff. }
  pose proof (EscapedPath_bare u) as Hp. unfold URL_String. cbv zeta. rewrite Hu, Hf, Hq. cbn [is_empty negb orb].
  repeat first [apply bare_app | case_match | done | by apply Hlit].
Qed.

(** The URL an error shows has no query and no fragment, whatever the request's was. *)
Theorem error_url_bare (raw : gostring) : bare (redactedURLForError raw).
Proof.
  unfold redactedURLForError. destruct (is_empty (TrimSpace raw)); [by apply Forall_nil |].
  assert (bare (if existsb (one_of (go "?#@")) (TrimSpace raw) then go "request" else TrimSpace raw)) as Hfall.
  { destruct (existsb _ _) eqn:E; [by repeat constructor |].
    apply Forall_forall. intros b Hb. destruct (beq b "?" || beq b "#") eqn:Eb; [|done]. exfalso.
    assert (existsb (one_of (go "?#@")) (TrimSpace raw) = true) as Ht; [|congruence]. apply existsb_exists. exists b.
    split; [by apply list_elem_of_In |]. apply orb_true_iff in Eb as [Eb|Eb]; apply beq_true in Eb as ->; reflexivity. }
  destruct (Parse (TrimSpace raw)) as [u|] eqn:Ep; [|done]. destruct (is_empty _); [done |]. apply Parse_bare in Ep as [Hs Ho].
  apply TrimSpace_Forall. by apply URL_String_bare.
Qed.

(** A transport error whose operation and cause show none shows no query either. *)
Theorem transport_error_text_bare (op url : gostring) (err : option gostring) :
  bare op → bare (default [] err) → bare (TransportError_Error op url err).
Proof.
  intros Hop Herr. pose proof (error_url_bare url) as Hu. unfold TransportError_Error.
  assert (bare (TrimSpace (TrimSpace op ++ go " " ++ redactedURLForError url))) as Hp.
  { apply TrimSpace_Forall, bare_app; [by apply TrimSpace_Forall |]. apply bare_app; [by repeat constructor | done]. }
  set (p := TrimSpace _) in *. assert (bare (if is_empty p then go "transport" else p)) as Hq by (destruct (is_empty p); [by repeat constructor | done]).
  destruct err; repeat first [exact Hq | exact Herr | apply bare_app | by repeat constructor].
Qed.
