(* ===== verification/Responses.v ===== *)
(** * Responses: typed answers (internal/client/common/room_types.go, reply_types.go, internal/client/query/types.go,
    internal/client/transport/rooms.go)

    The response types with their decoding by struct tags, and what a typed call gives back: exactly what the server's
    last answer says. *)

From S2P Require Import Prelude GoStrings GoStrconv GoJson GoHttp GoCrypto Canonical Hmac Errors Retry Execute.
From S2P Require Import Path Send Calls Stream.

(** The decoding of a type; [None] is any error. *)
Class Unmarshaler (T : Type) := of_json : json → option T.

Abbreviation members := (list (gostring * (gostring * json))).

(** Fields by their Go types. *)
Definition f_string (l : members) (name : gostring) : option gostring := member l name [] dec_string.
Definition f_int (l : members) (name : gostring) : option Z := member l name 0 dec_int64.
Definition f_bool (l : members) (name : gostring) : option bool := member l name false dec_bool.
Definition f_ptr {A} (dec : json → option A) (l : members) (name : gostring) : option (option A) := member l name None (dec_ptr dec).
Definition f_slice {A} (dec : json → option A) (l : members) (name : gostring) : option (list A) := member l name [] (dec_slice dec).

(** A [map[string]int]. *)
Definition dec_counts (v : json) : option (gmap gostring Z) :=
  match v with
  | JNull => Some ∅
  | JObject l => list_to_map <$> mapM (λ m, pair m.1 <$> dec_int64 m.2.2) l
  | _ => None
  end.

(** ** Rooms *)

Record RoomSummary := mkRoomSummary {
  rs_ChatID : Z;
  rs_Type : option gostring;
  rs_LinkID : option Z;
  rs_ActiveMembersCount : option Z;
  rs_LinkName : option gostring;
  rs_LinkURL : option gostring;
  rs_MemberLimit : option Z;
  rs_Searchable : option Z;
  rs_BotRole : option Z;
}.

Definition RoomSummary_of (v : json) : option RoomSummary :=
  l ← dec_struct v;
  chatID ← f_int l (go "chatId");
  type_ ← f_ptr dec_string l (go "type");
  linkID ← f_ptr dec_int64 l (go "linkId");
  active ← f_ptr dec_int64 l (go "activeMembersCount");
  linkName ← f_ptr dec_string l (go "linkName");
  linkURL ← f_ptr dec_string l (go "linkUrl");
  memberLimit ← f_ptr dec_int64 l (go "memberLimit");
  searchable ← f_ptr dec_int64 l (go "searchable");
  botRole ← f_ptr dec_int64 l (go "botRole");
  Some (mkRoomSummary chatID type_ linkID active linkName linkURL memberLimit searchable botRole).

Record RoomListResponse := mkRoomList { rl_Rooms : list RoomSummary }.

Definition RoomListResponse_of (v : json) : option RoomListResponse :=
  l ← dec_struct v;
  rooms ← f_slice RoomSummary_of l (go "rooms");
  Some (mkRoomList rooms).

#[export] Instance RoomListResponse_Unmarshaler : Unmarshaler RoomListResponse := RoomListResponse_of.

Record MemberInfo := mkMemberInfo {
  mi_UserID : Z;
  mi_Nickname : option gostring;
  mi_Role : gostring;
  mi_RoleCode : Z;
  mi_ProfileImageURL : option gostring;
  mi_MessageCount : Z;
  mi_LastActiveAt : option Z;
}.

Definition MemberInfo_of (v : json) : option MemberInfo :=
  l ← dec_struct v;
  userID ← f_int l (go "userId");
  nickname ← f_ptr dec_string l (go "nickname");
  role ← f_string l (go "role");
  roleCode ← f_int l (go "roleCode");
  profileImageURL ← f_ptr dec_string l (go "profileImageUrl");
  messageCount ← f_int l (go "messageCount");
  lastActiveAt ← f_ptr dec_int64 l (go "lastActiveAt");
  Some (mkMemberInfo userID nickname role roleCode profileImageURL messageCount lastActiveAt).

Record MemberListResponse := mkMemberList {
  ml_ChatID : Z;
  ml_LinkID : option Z;
  ml_Members : list MemberInfo;
  ml_TotalCount : Z;
}.

Definition MemberListResponse_of (v : json) : option MemberListResponse :=
  l ← dec_struct v;
  chatID ← f_int l (go "chatId");
  linkID ← f_ptr dec_int64 l (go "linkId");
  members ← f_slice MemberInfo_of l (go "members");
  totalCount ← f_int l (go "totalCount");
  Some (mkMemberList chatID linkID members totalCount).

#[export] Instance MemberListResponse_Unmarshaler : Unmarshaler MemberListResponse := MemberListResponse_of.

Record PeriodRange := mkPeriod { pr_From : Z; pr_To : Z }.

Definition PeriodRange_of (v : json) : option PeriodRange :=
  l ← dec_struct v;
  from ← f_int l (go "from");
  to ← f_int l (go "to");
  Some (mkPeriod from to).

Record MemberStats := mkMemberStats {
  ms_UserID : Z;
  ms_Nickname : option gostring;
  ms_MessageCount : Z;
  ms_LastActiveAt : option Z;
  ms_MessageTypes : gmap gostring Z;
}.

Definition MemberStats_of (v : json) : option MemberStats :=
  l ← dec_struct v;
  userID ← f_int l (go "userId");
  nickname ← f_ptr dec_string l (go "nickname");
  messageCount ← f_int l (go "messageCount");
  lastActiveAt ← f_ptr dec_int64 l (go "lastActiveAt");
  messageTypes ← member l (go "messageTypes") ∅ dec_counts;
  Some (mkMemberStats userID nickname messageCount lastActiveAt messageTypes).

Record StatsResponse := mkStats {
  sr_ChatID : Z;
  sr_Period : PeriodRange;
  sr_TotalMessages : Z;
  sr_ActiveMembers : Z;
  sr_TopMembers : list MemberStats;
}.

Definition StatsResponse_of (v : json) : option StatsResponse :=
  l ← dec_struct v;
  chatID ← f_int l (go "chatId");
  period ← member l (go "period") (mkPeriod 0 0) PeriodRange_of;
  totalMessages ← f_int l (go "totalMessages");
  activeMembers ← f_int l (go "activeMembers");
  topMembers ← f_slice MemberStats_of l (go "topMembers");
  Some (mkStats chatID period totalMessages activeMembers topMembers).

#[export] Instance StatsResponse_Unmarshaler : Unmarshaler StatsResponse := StatsResponse_of.

(** ** Replies *)

Record ReplyAcceptedResponse := mkReplyAccepted {
  ra_Success : bool;
  ra_Delivery : gostring;
  ra_RequestID : gostring;
  ra_Room : gostring;
  ra_Type : gostring;
  ra_Duplicate : option bool;
}.

Definition ReplyAcceptedResponse_of (v : json) : option ReplyAcceptedResponse :=
  l ← dec_struct v;
  success ← f_bool l (go "success");
  delivery ← f_string l (go "delivery");
  requestID ← f_string l (go "requestId");
  room ← f_string l (go "room");
  type_ ← f_string l (go "type");
  duplicate ← f_ptr dec_bool l (go "duplicate");
  Some (mkReplyAccepted success delivery requestID room type_ duplicate).

#[export] Instance ReplyAcceptedResponse_Unmarshaler : Unmarshaler ReplyAcceptedResponse := ReplyAcceptedResponse_of.

Record ReplyStatusSnapshot := mkReplyStatus {
  rp_RequestID : gostring;
  rp_State : gostring;
  rp_UpdatedAtEpochMs : Z;
  rp_Detail : option gostring;
}.

Definition ReplyStatusSnapshot_of (v : json) : option ReplyStatusSnapshot :=
  l ← dec_struct v;
  requestID ← f_string l (go "requestId");
  state ← f_string l (go "state");
  updatedAt ← f_int l (go "updatedAtEpochMs");
  detail ← f_ptr dec_string l (go "detail");
  Some (mkReplyStatus requestID state updatedAt detail).

#[export] Instance ReplyStatusSnapshot_Unmarshaler : Unmarshaler ReplyStatusSnapshot := ReplyStatusSnapshot_of.

(** ** Queries *)

Record RecentMessage := mkRecentMessage {
  rm_SequenceID : Z;
  rm_ChatLogID : gostring;
  rm_ChatID : Z;
  rm_MessageUserID : Z;
  rm_Message : gostring;
  rm_Type : Z;
  rm_CreatedAt : Z;
  rm_ThreadID : option gostring;
}.

Definition RecentMessage_of (v : json) : option RecentMessage :=
  l ← dec_struct v;
  sequenceID ← f_int l (go "sequenceId");
  chatLogID ← f_string l (go "chatLogId");
  chatID ← f_int l (go "chatId");
  userID ← f_int l (go "userId");
  message ← f_string l (go "message");
  type_ ← f_int l (go "type");
  createdAt ← f_int l (go "createdAt");
  threadID ← f_ptr dec_string l (go "threadId");
  Some (mkRecentMessage sequenceID chatLogID chatID userID message type_ createdAt threadID).

Record RecentMessagesResponse := mkRecentMessages { rc_ChatID : Z; rc_Messages : list RecentMessage }.

Definition RecentMessagesResponse_of (v : json) : option RecentMessagesResponse :=
  l ← dec_struct v;
  chatID ← f_int l (go "chatId");
  messages ← f_slice RecentMessage_of l (go "messages");
  Some (mkRecentMessages chatID messages).

#[export] Instance RecentMessagesResponse_Unmarshaler : Unmarshaler RecentMessagesResponse := RecentMessagesResponse_of.

Record RoomEventRecord := mkRoomEvent {
  re_ID : Z;
  re_ChatID : Z;
  re_EventType : gostring;
  re_UserID : Z;
  re_Payload : gostring;
  re_CreatedAtMs : Z;
}.

Definition RoomEventRecord_of (v : json) : option RoomEventRecord :=
  l ← dec_struct v;
  id ← f_int l (go "id");
  chatID ← f_int l (go "chatId");
  eventType ← f_string l (go "eventType");
  userID ← f_int l (go "userId");
  payload ← f_string l (go "payload");
  createdAtMs ← f_int l (go "createdAtMs");
  Some (mkRoomEvent id chatID eventType userID payload createdAtMs).

(** [[]RoomEventRecord]. *)
#[export] Instance RoomEvents_Unmarshaler : Unmarshaler (list RoomEventRecord) := dec_slice RoomEventRecord_of.

(** The payload of an event of type [EventTypeMemberNicknameUpdated], for the consumer to decode. *)
Definition EventTypeMemberNicknameUpdated : gostring := go "member_nickname_updated".

Record MemberNicknameUpdatedEvent := mkNicknameUpdated {
  nu_Type : gostring;
  nu_SourceLogID : Z;
  nu_RawSourceLogID : option Z;
  nu_SourceGenerationID : option Z;
  nu_SourceAccountID : gostring;
  nu_ChatLogID : option gostring;
  nu_ChatID : Z;
  nu_UserID : Z;
  nu_PreviousDisplayName : gostring;
  nu_CurrentDisplayName : gostring;
  nu_CreatedAtMs : Z;
}.

Definition MemberNicknameUpdatedEvent_of (v : json) : option MemberNicknameUpdatedEvent :=
  l ← dec_struct v;
  type_ ← f_string l (go "type");
  sourceLogID ← f_int l (go "sourceLogId");
  rawSourceLogID ← member l (go "rawSourceLogId") None (dec_ptr dec_int64);
  sourceGenerationID ← member l (go "sourceGenerationId") None (dec_ptr dec_int64);
  sourceAccountID ← f_string l (go "sourceAccountId");
  chatLogID ← member l (go "chatLogId") None (dec_ptr dec_string);
  chatID ← f_int l (go "chatId");
  userID ← f_int l (go "userId");
  previousDisplayName ← f_string l (go "previousDisplayName");
  currentDisplayName ← f_string l (go "currentDisplayName");
  createdAtMs ← f_int l (go "createdAtMs");
  Some (mkNicknameUpdated type_ sourceLogID rawSourceLogID sourceGenerationID sourceAccountID chatLogID chatID userID
          previousDisplayName currentDisplayName createdAtMs).

#[export] Instance MemberNicknameUpdatedEvent_Unmarshaler : Unmarshaler MemberNicknameUpdatedEvent := MemberNicknameUpdatedEvent_of.

(** ** Nickname history (rooms.go) *)

Record NicknameHistoryEntry := mkNicknameEntry {
  ne_PreviousDisplayName : gostring;
  ne_CurrentDisplayName : gostring;
  ne_SourceLogID : Z;
  ne_CreatedAtMs : Z;
}.

Definition NicknameHistoryEntry_of (v : json) : option NicknameHistoryEntry :=
  l ← dec_struct v;
  previous ← f_string l (go "previousDisplayName");
  current ← f_string l (go "currentDisplayName");
  sourceLogID ← f_int l (go "sourceLogId");
  createdAtMs ← f_int l (go "createdAtMs");
  Some (mkNicknameEntry previous current sourceLogID createdAtMs).

Record NicknameHistorySearchMatch := mkNicknameMatch {
  nm_UserID : Z;
  nm_LatestNickname : gostring;
  nm_History : list NicknameHistoryEntry;
}.

Definition NicknameHistorySearchMatch_of (v : json) : option NicknameHistorySearchMatch :=
  l ← dec_struct v;
  userID ← f_int l (go "userId");
  latest ← f_string l (go "latestNickname");
  history ← f_slice NicknameHistoryEntry_of l (go "history");
  Some (mkNicknameMatch userID latest history).

Record NicknameHistorySearchResponse := mkNicknameSearch {
  ns_Complete : bool;
  ns_Truncated : bool;
  ns_AsOfSourceLogID : Z;
  ns_DurableHeadSourceLogID : Z;
  ns_Matches : list NicknameHistorySearchMatch;
}.

Definition NicknameHistorySearchResponse_of (v : json) : option NicknameHistorySearchResponse :=
  l ← dec_struct v;
  complete ← f_bool l (go "complete");
  truncated ← f_bool l (go "truncated");
  asOf ← f_int l (go "asOfSourceLogId");
  head ← f_int l (go "durableHeadSourceLogId");
  matches ← f_slice NicknameHistorySearchMatch_of l (go "matches");
  Some (mkNicknameSearch complete truncated asOf head matches).

#[export] Instance NicknameHistorySearchResponse_Unmarshaler : Unmarshaler NicknameHistorySearchResponse :=
  NicknameHistorySearchResponse_of.

(** ** Typed calls *)

(** How each answer arrives, by the number of requests sent. *)
Definition typed_run {T} `{Unmarshaler T} (arrivals : nat → arrival) (n : nat) (resp : response) : bodyRun T :=
  stream_run of_json (arrivals n) resp.

(** Errors of reading that are not the package's own verdicts stay so in a typed call. *)
Lemma typed_run_calm {T} `{Unmarshaler T} arrivals t :
  (∀ n, calm t (ar_decodeErr (arrivals n)) ∧ calm t (ar_readErr (arrivals n)) ∧ ∀ e, ar_ctxErr (arrivals n) = Some e → calm t e) →
  ∀ n resp, calm_run t (typed_run (T := T) arrivals n resp).
Proof.
  intros Ha n resp. destruct (Ha n) as (Hd & Hr & Hc). unfold typed_run, stream_run. cbv zeta.
  destruct (parse_value _ _ _) as [[v rest]|]; cbn [calm_run bd_decoded bd_trailer tr_error bd_ctxErr].
  - split_and!; [destruct (of_json v); by intros e [= <-] | destruct (_ && _); by intros e [= <-] | exact Hc].
  - split_and!; [by intros e [= <-] | done | exact Hc].
Qed.

(** The body of an answer says [v]: all of it, to its end. *)
Definition says {T} `{Unmarshaler T} (resp : response) (v : T) : Prop :=
  whole_body of_json (br_data (rs_Body resp)) = Some v ∧ br_fails (rs_Body resp) = false ∧ rs_CloseErr resp = None.

(** The server's success answer to the last request sent, which has the given method and path. *)
Definition last_answer (net : nat → wireRequest → result goerror response) (s : cstate) (method path : gostring)
  (resp : response) : Prop :=
  ∃ before q, cs_sent s = before ++ [q] ∧ net (length before) q = Ok resp ∧
    isSuccessfulHTTPStatus (rs_StatusCode resp) = true ∧ wq_Method q = method ∧ wq_Path q = path.

Section answers.
Context (secret : option gostring) (http1ProbeOnly : bool) (url_ok : gostring → bool) (baseURL : gostring).
Context (ParseTime : gostring → option Z) (now : nat → Z) (random : nat → gostring).
Context (ctx_err : nat → option goerror) (net : nat → wireRequest → result goerror response).

Abbreviation loop_ := (do_loop secret http1ProbeOnly url_ok ParseTime now random ctx_err net).

(** A replayed request keeps its method and path. *)
Lemma do_loop_answer fuel s req op path url idem rf resp s' rf' :
  loop_ fuel s req op path url idem rf = (DoOk resp, s', rf') → last_answer net s' (wq_Method req) (wq_Path req) resp.
Proof.
  revert s req rf. induction fuel as [|fuel IH]; intros s req rf H; [done |]. cbn [do_loop client_Do] in H.
  destruct (net (length (cs_sent s)) req) as [r|] eqn:En; [|done].
  destruct (isSuccessfulHTTPStatus (rs_StatusCode r)) eqn:Es.
  { injection H as <- <- _. exists (cs_sent s), req. by split_and!. }
  destruct (readErrorResponse _ _ _ _) as [h|]; [|done]. destruct (rs_CloseErr r); [done |].
  destruct (refreshAuthEpoch _ _ _ _ _) as [[again s1] rf1]. destruct (negb again); [done |].
  destruct (signRequest _ _ _ _ _ _ _ _ s1 req _) as [[replay|] s2] eqn:Esg; [|done].
  apply sign_spec in Esg as [_ Hq]. destruct (Hq replay eq_refl) as (Hm & Hp & _).
  destruct (replay_body req replay) as [q|] eqn:Er; [|done]. apply IH in H.
  unfold replay_body in Er. rewrite <- Hm, <- Hp.
  destruct (wq_Body req); [destruct (wq_GetBody req) as [[|]|]; try done |]; by injection Er as <-.
Qed.

(** One POST with its replay. *)
Lemma doSignedJSON_answer {T} `{Unmarshaler T} arrivals s req path idem rf (v : T) s' rf' :
  doSignedJSON secret http1ProbeOnly url_ok ParseTime now random ctx_err net (typed_run arrivals) s req path idem rf =
    (CallOk v, s', rf') →
  ∃ resp, last_answer net s' (wq_Method req) (wq_Path req) resp ∧ says resp v.
Proof.
  unfold doSignedJSON. destruct (do _ _ _ _ _ _ _ _ _ _ _ _ _ _ _) as [[r s1] rf1] eqn:Ed.
  destruct r as [resp| | |]; [|done..]. unfold do in Ed. apply do_loop_answer in Ed.
  destruct (decodeJSONBody _ _ _ _) as [x|] eqn:Ex; [|done]. intros [= -> <- _]. apply typed_body_exact in Ex. by exists resp.
Qed.
End answers.


(** A server with one room, whose answer arrives in two reads with a line end after it. *)
Definition room_body : gostring :=
  go "{" ++ [x22] ++ go "rooms" ++ [x22] ++ go ":[{" ++ [x22] ++ go "chatId" ++ [x22] ++ go ":7," ++ [x22] ++ go "linkName" ++ [x22]
  ++ go ":" ++ [x22] ++ go "tea" ++ [x22] ++ go "}]}" ++ [x0d; x0a].
Definition room_server (_ : nat) (_ : wireRequest) : result goerror response := Ok (mkResponse 200 [] (mkBody room_body false) None).
Definition demo_arrival (_ : nat) : arrival := mkArrival 3 [1%nat] (EOther []) (EOther []) None None.
Definition demo_rooms : RoomListResponse :=
  mkRoomList [mkRoomSummary 7 None None None (Some (go "tea")) None None None None].
Definition demo_get : callResult RoomListResponse * cstate :=
  doGet None false (λ _, true) (go "https://iris") (λ _, None) (λ _, 500) (λ _, []) (λ _, None) room_server (typed_run demo_arrival)
    (mkCState [] []) PathRooms.

