(* ===== verification/Wire.v ===== *)
(** * Wire: the JSON bodies a client sends, as a server reads them

    The encoded replies and image metadata read back by the tags of their structs: nothing the caller asked for is
    lost or changed between the options and the server. *)

From S2P Require Import Prelude GoStrings GoStrconv GoCrypto GoJson GoJsonEnc GoHttp Hmac Errors Retry Execute.
From S2P Require Import Path Multipart MultipartFrame Send Calls.

(** ** Reading the encoded forms *)

(** The struct read by the same tags. *)
Definition read_imagePartSpec (v : json) : option imagePartSpec :=
  l ← dec_struct v;
  index ← member l (go "index") 0 dec_int64;
  sha256Hex ← member l (go "sha256Hex") [] dec_string;
  byteLength ← member l (go "byteLength") 0 dec_int64;
  contentType ← member l (go "contentType") [] dec_string;
  Some (mkImagePartSpec index sha256Hex byteLength contentType).

Definition read_replyImageMetadata (v : json) : option replyImageMetadata :=
  l ← dec_struct v;
  clientRequestID ← member l (go "clientRequestId") None (dec_ptr dec_string);
  type_ ← member l (go "type") [] dec_string;
  room ← member l (go "room") [] dec_string;
  threadID ← member l (go "threadId") None (dec_ptr dec_string);
  images ← member l (go "images") [] (dec_slice read_imagePartSpec);
  Some (mkImageMetadata clientRequestID type_ room threadID images).

(** A user ID is a string or an integer. *)
Definition read_userID (v : json) : option ReplyMentionUserID :=
  match v with
  | JString s => Some (UserString s)
  | JNumber _ => UserSigned <$> dec_int64 v
  | JNull => Some UserNil
  | _ => Some UserOther
  end.

Definition read_ReplyMention (v : json) : option ReplyMention :=
  l ← dec_struct v;
  userID ← member l (go "userId") UserNil read_userID;
  nickname ← member l (go "nickname") [] dec_string;
  at_ ← member l (go "at") [] (dec_slice dec_int64);
  len ← member l (go "len") 0 dec_int64;
  Some (mkReplyMention userID nickname at_ len).

Definition read_ReplyRequest (v : json) : option ReplyRequest :=
  l ← dec_struct v;
  clientRequestID ← member l (go "clientRequestId") None (dec_ptr dec_string);
  type_ ← member l (go "type") [] dec_string;
  room ← member l (go "room") [] dec_string;
  data ← member l (go "data") [] dec_string;
  threadID ← member l (go "threadId") None (dec_ptr dec_string);
  mentions ← member l (go "mentions") [] (dec_slice read_ReplyMention);
  Some (mkReplyRequest clientRequestID type_ room data threadID mentions).

(** An encoded object cannot hold a boundary line. *)
Lemma payload_ok_object boundary l t : render (OObject l) = Some t → payload_ok boundary t.
Proof.
  intros H. pose proof (render_no_cr _ _ H) as Hcr. cbn [render] in H. destruct (mapM _ l) as [ts|]; [|done].
  injection H as <-. apply Index_crlf; [done |].
  rewrite <- (app_nil_r ("{"%byte :: _)), Index_skip_delimiter by done. done.
Qed.


(** ** Image metadata *)

Definition in_int64 (n : Z) : Prop := MinInt64 ≤ n ≤ MaxInt64.

(** A pointer of the wire format: never to an empty string, which would be left out. *)
Definition ptr_ok (p : option gostring) : Prop := p ≠ Some [].

Lemma read_pointer l name p :
  find_out name l = OString <$> p → member (map as_member l) name None (dec_ptr dec_string) = Some p.
Proof. intros E. destruct p as [s|]; [by apply (member_out _ _ (OString s)) | by apply member_absent]. Qed.

(** Reads the next member of a struct: a string, an integer, an optional string or, with the lemma, something else.
    Which members are there is settled by cases on the optional ones. *)
Ltac by_presence :=
  repeat match goal with |- context [omitempty_ptr _ ?p] => is_var p; destruct p as [[|? ?]|] end;
  first [reflexivity | match goal with H : ptr_ok (Some []) |- _ => by destruct H end].
Ltac read_next lem :=
  match goal with
  | |- context [mbind _ (member (map as_member ?l) ?name ?zero ?dec)] =>
      erewrite (member_out l name _ zero dec); [|by_presence | first [reflexivity | by apply dec_int64_out | apply lem]]
  end; cbn [mbind option_bind].
Ltac read_ptr p :=
  match goal with
  | |- context [mbind _ (member (map as_member ?l) ?name None (dec_ptr dec_string))] =>
      rewrite (read_pointer l name p) by by_presence
  end; cbn [mbind option_bind].

Lemma read_imagePart p :
  in_int64 (ip_Index p) → in_int64 (ip_ByteLength p) → read_imagePartSpec (as_json (imagePartSpec_json p)) = Some p.
Proof.
  intros Hi Hb. destruct p as [i sha len ct]. cbn [ip_Index ip_ByteLength] in *. unfold read_imagePartSpec, imagePartSpec_json.
  rewrite as_json_object. cbn [dec_struct mbind option_bind ip_Index ip_SHA256Hex ip_ByteLength ip_ContentType]. do 4 read_next I. reflexivity.
Qed.

Lemma imagePart_ok p : out_ok 2 (imagePartSpec_json p).
Proof. split; [by eapply names_distinct; [reflexivity | vm_compute] | repeat split]. Qed.

(** The metadata of an upload reads back as it was. *)
Lemma read_imageMetadata m t :
  Marshal m = Some t → ptr_ok (im_ClientRequestID m) → ptr_ok (im_ThreadID m) →
  Forall (λ p, in_int64 (ip_Index p) ∧ in_int64 (ip_ByteLength p)) (im_Images m) →
  parse_json t ≫= read_replyImageMetadata = Some m.
Proof.
  destruct m as [rid ty room th imgs]. cbn [im_ClientRequestID im_ThreadID im_Images]. intros Ht Hid Hth Hi.
  assert (mapM read_imagePartSpec (map as_json (map imagePartSpec_json imgs)) = Some (map (λ p, p) imgs)) as Himgs.
  { apply mapM_dec. eapply Forall_impl; [exact Hi |]. intros p [? ?]. by apply read_imagePart. }
  rewrite map_id in Himgs.
  eapply parse_Marshal in Ht; [|reflexivity |].
  - rewrite Ht. cbn [mbind option_bind im_ClientRequestID im_Type im_Room im_ThreadID im_Images]. unfold read_replyImageMetadata.
    cbn [dec_struct mbind option_bind]. read_ptr rid. do 2 read_next I. read_ptr th. read_next Himgs. reflexivity.
  - destruct rid as [[|? ?]|], th as [[|? ?]|]; (split; [by eapply names_distinct; [reflexivity | vm_compute] |]); repeat split;
      apply out_ok_list; intros; apply imagePart_ok.
Qed.

(** ** Replies *)

(** A mention with the user ID that is sent. *)
Definition normal_mention (m : ReplyMention) : ReplyMention :=
  match normalizeReplyMentionUserID (rm_UserID m) with
  | Ok userID => mkReplyMention userID (rm_Nickname m) (rm_At m) (rm_Len m)
  | Err _ => m
  end.

(** The Go integers of a mention, in their ranges. *)
Definition userID_typed (u : ReplyMentionUserID) : Prop :=
  match u with UserSigned n => in_int64 n | UserUnsigned n => 0 ≤ n | _ => True end.
Definition mention_typed (m : ReplyMention) : Prop :=
  Forall in_int64 (rm_At m) ∧ in_int64 (rm_Len m) ∧ userID_typed (rm_UserID m).

(** A user ID that is sent is a string or a number. *)
Definition userID_json (u : ReplyMentionUserID) : option jout :=
  match u with UserString s => Some (OString s) | UserSigned n => Some (OInt n) | _ => None end.

Lemma normalize_typed u v :
  normalizeReplyMentionUserID u = Ok v → userID_typed u → ∃ o, userID_json v = Some o ∧ read_userID (as_json o) = Some v.
Proof.
  assert (∀ n, in_int64 n → read_userID (as_json (OInt n)) = Some (UserSigned n)) as Hint.
  { intros n Hn. pose proof (dec_int64_out n Hn) as H. cbn [as_json read_userID] in *. by rewrite H. }
  destruct u as [s|n|n| |]; cbn [normalizeReplyMentionUserID userID_typed]; try done.
  - cbv zeta. destruct (is_empty _); [done |]. intros [= <-] _. eexists. by split.
  - destruct (n <=? 0); [done |]. intros [= <-] Hn. exists (OInt n). split; [done | by apply Hint].
  - destruct ((n =? 0) || (MaxInt64 <? n)) eqn:E; [done |]. intros [= <-] Hn. exists (OInt n). split; [done | apply Hint].
    bool_props. unfold in_int64, MinInt64. lia.
Qed.

(** A member that is left out under a condition. *)
Lemma read_optional {A} l name (zero : A) dec (absent : bool) v x :
  find_out name l = (if absent then None else Some v) → (absent = true → x = zero) →
  (absent = false → dec (as_json v) = Some x) → member (map as_member l) name zero dec = Some x.
Proof. intros E H0 H1. destruct absent; [rewrite (H0 eq_refl); by apply member_absent | by apply (member_out _ _ v); auto]. Qed.

Lemma mention_json m v o :
  normalizeReplyMentionUserID (rm_UserID m) = Ok v → userID_json v = Some o → to_jout m = Some (replyMentionJSON o m).
Proof.
  intros Hv Ho. unfold to_jout, ReplyMention_Marshaler, ReplyMention_MarshalJSON. rewrite Hv. by destruct v; try discriminate Ho; injection Ho as <-.
Qed.

Lemma read_mention m o :
  to_jout m = Some o → mention_typed m → read_ReplyMention (as_json o) = Some (normal_mention m) ∧ out_ok 2 o.
Proof.
  intros Ho (Hat & Hlen & Hu).
  destruct (normalizeReplyMentionUserID (rm_UserID m)) as [v|] eqn:Ev.
  2: { unfold to_jout, ReplyMention_Marshaler, ReplyMention_MarshalJSON in Ho. by rewrite Ev in Ho. }
  destruct (normalize_typed _ _ Ev Hu) as (u & Huj & Hread). rewrite (mention_json m v u Ev Huj) in Ho. injection Ho as <-.
  unfold normal_mention. rewrite Ev. destruct m as [uid nick at_ len]. cbn [rm_At rm_Len rm_UserID rm_Nickname] in *.
  assert (mapM dec_int64 (map as_json (map OInt at_)) = Some (map (λ p, p) at_)) as Hats.
  { apply mapM_dec. eapply Forall_impl; [exact Hat |]. intros n Hn. by apply dec_int64_out. }
  rewrite map_id in Hats. unfold replyMentionJSON. cbn [rm_At rm_Len rm_UserID rm_Nickname]. split.
  - rewrite as_json_object. unfold read_ReplyMention. cbn [dec_struct mbind option_bind].
    erewrite (member_out _ (go "userId")); [|reflexivity | exact Hread]. cbn [mbind option_bind].
    erewrite (read_optional _ (go "nickname") _ _ (is_empty nick) (OString nick)); cbn [mbind option_bind].
    2: { unfold omitempty, omitempty_slice, omitzero. destruct nick, at_, (len =? 0); reflexivity. }
    2: { by intros ->%is_empty_true. }
    2: { done. }
    erewrite (read_optional _ (go "at") _ _ (is_empty at_) (OArray (map OInt at_))); cbn [mbind option_bind].
    2: { unfold omitempty, omitempty_slice, omitzero. destruct nick, at_, (len =? 0); reflexivity. }
    2: { by intros ->%is_empty_true. }
    2: { intros _. exact Hats. }
    erewrite (read_optional _ (go "len") _ _ (len =? 0) (OInt len)); [reflexivity | | |].
    + unfold omitempty, omitempty_slice, omitzero. destruct nick, at_, (len =? 0); reflexivity.
    + intros E. bool_props. done.
    + intros _. by apply dec_int64_out.
  - assert (out_ok 1 u) as Hou by (destruct v; try discriminate Huj; injection Huj as <-; exact I).
    unfold omitempty, omitempty_slice, omitzero. split.
    + destruct nick, at_, (len =? 0); by eapply names_distinct; [reflexivity | vm_compute].
    + destruct nick, at_, (len =? 0); repeat split; try done; apply out_ok_list; intros; exact I.
Qed.

(** The mentions of a valid request are all encoded. *)
Lemma mentions_json ms :
  Forall (λ m, validate_mention m = Ok tt) ms → Forall mention_typed ms → ∃ os, mapM to_jout ms = Some os.
Proof.
  intros Hv Ht. induction ms as [|m ms IH]; [by exists [] |]. apply Forall_cons in Hv as [Hm Hv]. apply Forall_cons in Ht as [(_ & _ & Hu) Ht].
  destruct (IH Hv Ht) as [os Hos]. unfold validate_mention in Hm. inv_ok.
  match goal with H : normalizeReplyMentionUserID _ = Ok _ |- _ =>
    destruct (normalize_typed _ _ H Hu) as (u & Huj & _); pose proof (mention_json m _ u H Huj) as Ho end.
  eexists. apply mapM_Some. constructor; [exact Ho | by apply mapM_Some].
Qed.

Lemma read_request r t :
  Marshal r = Some t → ptr_ok (rr_ClientRequestID r) → ptr_ok (rr_ThreadID r) → Forall mention_typed (rr_Mentions r) →
  parse_json t ≫= read_ReplyRequest =
  Some (mkReplyRequest (rr_ClientRequestID r) (rr_Type r) (rr_Room r) (rr_Data r) (rr_ThreadID r) (map normal_mention (rr_Mentions r))).
Proof.
  destruct r as [rid ty room data th ms]. cbn [rr_ClientRequestID rr_ThreadID rr_Mentions rr_Type rr_Room rr_Data].
  intros Ht Hid Hth Hms. destruct (mapM to_jout ms) as [os|] eqn:Eo.
  2: { unfold Marshal, to_jout, ReplyRequest_Marshaler, ReplyRequest_json in Ht. cbn [rr_Mentions] in Ht. by rewrite Eo in Ht. }
  assert (mapM read_ReplyMention (map as_json os) = Some (map normal_mention ms) ∧ Forall (out_ok 2) os) as [Hread Hok].
  { clear -Eo Hms. apply mapM_Some in Eo. induction Eo as [|m o ms os Ho _ IH]; [by split; [|apply Forall_nil] |].
    apply Forall_cons in Hms as [Hm Hms]. destruct (read_mention m o Ho Hm) as [H1 H2]. destruct (IH Hms) as [H3 H4].
    split; [|by apply Forall_cons]. cbn [map]. apply mapM_Some. apply mapM_Some in H3. by constructor. }
  assert (os = [] → map normal_mention ms = []) as Hnil.
  { intros ->. by destruct ms; [|apply mapM_Some, Forall2_length in Eo]. }
  eapply parse_Marshal in Ht; [| |].
  2: { unfold to_jout, ReplyRequest_Marshaler, ReplyRequest_json. cbn [rr_ClientRequestID rr_ThreadID rr_Mentions rr_Type rr_Room rr_Data]. rewrite Eo. reflexivity. }
  - rewrite Ht. cbn [mbind option_bind]. unfold read_ReplyRequest. unfold omitempty_slice.
    cbn [dec_struct mbind option_bind]. destruct os as [|o os].
    + cbn [is_empty]. rewrite app_nil_r. read_ptr rid. do 3 read_next I. read_ptr th. rewrite member_absent by by_presence.
      by rewrite Hnil.
    + cbn [is_empty]. read_ptr rid. do 3 read_next I. read_ptr th. read_next Hread. reflexivity.
  - unfold omitempty_slice. destruct os as [|o os], rid as [[|? ?]|], th as [[|? ?]|];
      (split; [by eapply names_distinct; [reflexivity | vm_compute] |]); repeat split;
      (apply Forall_cons in Hok as [Hok1 Hok2]); try done; rewrite <- (map_id os); apply out_ok_list; intros x Hx; rewrite Forall_forall in Hok2; auto.
Qed.

(** ** What a reply says on the wire *)

Lemma request_id_ptr p : ptr_ok (normalizeClientRequestID p).
Proof. destruct p as [id|]; [|done]. unfold normalizeClientRequestID. cbv zeta. destruct (TrimSpace id); done. Qed.

Lemma thread_id_ptr p : ptr_ok (normalizeReplyThreadID p).
Proof.
  destruct p as [id|]; [|done]. unfold normalizeReplyThreadID, normalizeReplyThreadIDValue. cbv zeta.
  destruct (TrimSpace id); [done |]. by destruct (negb _).
Qed.


(** A message with a mention to a server that is busy first. *)
Definition demo_opts : list SendOption :=
  [WithClientRequestID (go " req-00001 "); WithThreadID (go "42"); WithMention (mkReplyMention (UserString (go " 7 ")) [] [1] 3);
   WithMention (mkReplyMention (UserUnsigned 9) (go "ann") [] 0)].
Definition demo_reply : callResult nat * cstate :=
  send_reply None false (λ _, true) (λ _, None) (λ _, 500) (λ _, []) (λ _, None) busy_then_ok plain_run 3 (λ _, None)
    (mkCState [] []) (reply_request msgTypeText (go "room") (x22 :: [x0a; "\"%byte] ++ go "hi") demo_opts).


(** ** What an upload of images says *)

Lemma image_lengths images i total : 
  0 ≤ total → validate_images i total images = None → Forall (λ img, zlen img ≤ maxReplySingleImageBytes) images.
Proof.
  revert i total. induction images as [|img images IH]; intros i total Ht; [by constructor |]. cbn [validate_images].
  destruct (_ =? 0); [done |]. destruct (_ <? zlen img) eqn:E; [done |]. destruct (maxReplyTotalImageBytes <? _); [done |].
  intros H. bool_props. apply Forall_cons. split; [done |]. apply (IH (S i) (total + zlen img)); [lia | done].
Qed.

Lemma manifest_typed images : ∀ i cts,
  Z.of_nat i + zlen images ≤ 8 → Forall (λ img, zlen img ≤ maxReplySingleImageBytes) images →
  Forall (λ p, in_int64 (ip_Index p) ∧ in_int64 (ip_ByteLength p)) (buildImageManifest i images cts).
Proof.
  induction images as [|img images IH]; intros i cts Hi Hl; [by apply Forall_nil |].
  destruct cts as [|ct cts]; [by apply Forall_nil |]. cbn [buildImageManifest]. apply Forall_cons in Hl as [Himg Hl].
  cbn [length] in Hi. apply Forall_cons. split; [|apply IH; [lia | done]].
  cbn [ip_Index ip_ByteLength]. unfold in_int64, MinInt64, MaxInt64, maxReplySingleImageBytes in *. lia.
Qed.

(** C35: the metadata describes what is uploaded.  For images that were accepted, reading the uploaded body as
    multipart/form-data gives the encoded metadata and one part for each of the one to eight images; the encoded
    metadata, read as JSON by the tags of its struct, is the metadata that was prepared, whatever the room is; and
    its manifest has, entry by entry, the hash, the length and the index of its part, and as content type the one
    its first bytes show. *)
Theorem image_manifest_describes_upload (boundary room : gostring) (multiple : bool) (images : list gostring)
    (opts : list SendOption) (metadata : replyImageMetadata) (contentTypes : list gostring) (f : BodyFactory) :
  prepare_images multiple room images opts = Ok (metadata, contentTypes) →
  prepare_multipart boundary (metadata, contentTypes) images = Ok f →
  x0d ∉ boundary → Forall (payload_ok boundary) images →
  ∃ encoded parts, parse_multipart boundary (concat (bf_chunks f)) = Some ((metadata_head, encoded) :: parts) ∧
    parse_json encoded ≫= read_replyImageMetadata = Some metadata ∧ im_Room metadata = room ∧
    map snd parts = images ∧ Forall2 describes (im_Images metadata) parts ∧ 1 ≤ zlen parts ≤ 8.
Proof.
  intros Hp Hf Hb Hpay. unfold prepare_images in Hp. cbv zeta in Hp. inv_ok. unfold prepare_multipart in Hf.
  destruct (Marshal metadata) as [encoded|] eqn:Em; [|done]. inv_ok. subst metadata contentTypes.
  match goal with H : imageContentTypesForSend _ _ = Ok _ |- _ => apply content_types_detected in H as Hdet end.
  destruct (manifest_describes 0 images x3 Hdet) as [Hman Hlen].
  assert (1 ≤ zlen images ≤ 8 ∧ Forall (λ img, zlen img ≤ maxReplySingleImageBytes) images) as [Hcount Hsizes].
  { clear -E1. revert E1. unfold ValidateReplyImages. destruct (zlen images =? 0) eqn:Ez; [done |].
    destruct (_ <? zlen images) eqn:E; [done |]. bool_props. unfold maxReplyImagesPerRequest in *.
    destruct (validate_images 0 0 images) eqn:Ev; [done |]. intros _. split; [lia |]. by eapply image_lengths. }
  exists encoded, (image_parts 0 images x3). split_and!.
  - apply image_body_parses; [exact Hf | done | | apply Forall_cons; split; [|done]].
    + clear -Hdet. induction Hdet as [|img ct images cts Hd Hdet IH]; [by apply Forall_nil |]. apply Forall_cons.
      split; [|exact IH]. by apply allowed_no_cr, (detect_allowed img).
    + exact (payload_ok_object boundary _ encoded Em).
  - apply read_imageMetadata; [done | apply request_id_ptr | apply thread_id_ptr |]. by apply manifest_typed; [lia |].
  - done.
  - clear -Hdet. generalize 0%nat. induction Hdet as [|img ct images cts Hd Hdet IH]; intros i; [done |].
    cbn [image_parts map snd]. by rewrite IH.
  - exact Hman.
  - rewrite Hlen. lia.
  - rewrite Hlen. lia.
Qed.

(** A one-image upload. *)
Definition demo_gif : gostring := go "GIF89a-demo".
Definition demo_prepared : replyImageMetadata * list gostring :=
  match prepare_images false (go "room") [demo_gif] [WithImageContentType (go "Image/GIF; q=1")] with
  | Ok p => p | Err _ => (mkImageMetadata None [] [] None [], []) end.
Definition demo_upload : BodyFactory :=
  match prepare_multipart (go "b0") demo_prepared [demo_gif] with
  | Ok f => f | Err _ => mkBodyFactory [] [] 0 [] end.

Lemma image_manifest_describes_upload_witness :
  ∃ encoded parts, parse_multipart (go "b0") (concat (bf_chunks demo_upload)) = Some ((metadata_head, encoded) :: parts) ∧
    parse_json encoded ≫= read_replyImageMetadata = Some demo_prepared.1 ∧ im_Room demo_prepared.1 = go "room" ∧
    map snd parts = [demo_gif] ∧ Forall2 describes (im_Images demo_prepared.1) parts ∧ 1 ≤ zlen parts ≤ 8.
Proof.
  apply (image_manifest_describes_upload (go "b0") (go "room") false [demo_gif]
    [WithImageContentType (go "Image/GIF; q=1")] demo_prepared.1 demo_prepared.2 demo_upload).
  - vm_compute. reflexivity.
  - vm_compute. reflexivity.
  - apply no_cr. vm_compute. reflexivity.
  - repeat (apply Forall_cons; split; [vm_compute; reflexivity |]). by apply Forall_nil.
Defined.
