(* ===== verification/Fetch.v ===== *)
(** * Fetch: media chunks end to end (internal/client/transport: strict_json.go, media.go)

    [postStrictJSON] is one POST with its epoch replay whose whole answer is read within a limit and decoded strictly;
    [FetchMediaChunk] normalizes the request before it and checks the response after it. *)

From S2P Require Import Prelude GoStrings GoStrconv GoJson GoJsonEnc GoHttp GoCrypto Canonical Hmac Errors Retry Execute.
From S2P Require Import Calls Responses Wire Media StrictJson.

Definition PathMediaChunk : gostring := go "/media/chunk".
Definition strictJSONResponseMaxBytes : Z := Z.shiftl 1 20.

(** [io.ReadAll(io.LimitReader(resp.Body, limit))]: [None] if a read error is reached within the limit. *)
Definition ReadAllLimited (r : bodyReader) (limit : Z) : option gostring :=
  if br_fails r && (length (br_data r) <? Z.to_nat limit)%nat then None else Some (take (Z.to_nat limit) (br_data r)).

(** [jsonv2.Unmarshal] into a type with its own [UnmarshalJSON]: one value and nothing after it, whose text the
    method gets. *)
Definition Unmarshal {T} (method : gostring → option T) (body : gostring) : option T :=
  let text := skip_ws body in
  match parse_value (2 * length body + 1) maxNestingDepth text with
  | Some (_, r) => if is_empty (skip_ws r) then method (take (length text - length r) text) else None
  | None => None
  end.

Section fetch.
Context (secret : option gostring) (http1ProbeOnly : bool) (url_ok : gostring → bool).
Context (ParseTime : gostring → option Z) (now : nat → Z) (random : nat → gostring).
Context (ctx_err : nat → option goerror) (net : nat → wireRequest → result goerror response).

Definition postStrictJSON {T} (method : gostring → option T) (s : cstate) (path : gostring) (payload : option gostring)
  : callResult T * cstate :=
  match payload with
  | None => (CallErr (EWrap [EOther (go "encode request body")]), s)
  | Some payload =>
      let '(r, s) := newSignedRequest secret http1ProbeOnly url_ok ParseTime now random ctx_err net s MethodPost path (Some payload) in
      match r with
      | Err err => (CallErr (EWrap [err]), s)
      | Ok req =>
          let req := set_content_type contentTypeJSON req in
          let '(r, s, _) := do secret http1ProbeOnly url_ok ParseTime now random ctx_err net s req (go "post") path path true false in
          (match r with
           | DoErr err => CallErr err
           | DoPanic | DoFuel => CallPanic
           | DoOk resp =>
               match ReadAllLimited (rs_Body resp) (strictJSONResponseMaxBytes + 1) with
               | None => CallErr (EWrap [EOther (go "read body")])
               | Some bodyBytes =>
                   if strictJSONResponseMaxBytes <? Z.of_nat (length bodyBytes) then CallErr (EWrap [ESentinel ErrResponseTooLarge])
                   else match Unmarshal method bodyBytes with
                        | None => CallErr (EWrap [EOther (go "decode response")])
                        | Some result => CallOk result
                        end
               end
           end, s)
      end
  end.

(** The members by the tags of the struct (media_types.go). *)
Definition MediaChunkRequest_json (q : MediaChunkRequest) : option jout :=
  Some (OObject (field (go "messageId") (OString (mq_MessageID q)) ++ field (go "sourceGenerationId") (OInt (mq_SourceGenerationID q))
     ++ field (go "rawSourceLogId") (OInt (mq_RawSourceLogID q)) ++ field (go "sourceLogId") (OInt (mq_SourceLogID q))
     ++ field (go "chatId") (OString (mq_ChatID q)) ++ field (go "chatLogId") (OString (mq_ChatLogID q))
     ++ field (go "type") (OString (mq_Type q)) ++ field (go "mediaIndex") (OInt (mq_MediaIndex q))
     ++ field (go "offset") (OInt (mq_Offset q)) ++ field (go "length") (OInt (mq_Length q)))).

#[export] Instance MediaChunkRequest_Marshaler : Marshaler MediaChunkRequest := MediaChunkRequest_json.
Definition FetchMediaChunk (s : cstate) (req : MediaChunkRequest)
  : callResult MediaChunkResponse * cstate :=
  match normalizeMediaChunkRequest req with
  | Err _ => (CallErr (EWrap [EOther (go "validate media chunk request")]), s)
  | Ok normalized =>
      let '(r, s) := postStrictJSON UnmarshalJSON s PathMediaChunk (Marshal normalized) in
      (match r with
       | CallErr err => CallErr (EWrap [err])
       | CallPanic => CallPanic
       | CallOk response =>
           match validateMediaChunkResponse response normalized with
           | Err _ => CallErr (EWrap [EOther (go "validate iris media chunk response")])
           | Ok _ => CallOk response
           end
       end, s)
  end.

(** ** What a successful fetch means *)

(** The Go integers of a request, in their range. *)
Definition request_typed (q : MediaChunkRequest) : Prop :=
  in_int64 (mq_SourceGenerationID q) ∧ in_int64 (mq_RawSourceLogID q) ∧ in_int64 (mq_SourceLogID q) ∧
  in_int64 (mq_MediaIndex q) ∧ in_int64 (mq_Offset q) ∧ in_int64 (mq_Length q).

Lemma normalize_bounds req q :
  normalizeMediaChunkRequest req = Ok q →
  0 ≤ mq_Offset q ∧ 1 ≤ mq_Length q ≤ mediaMaxChunkBytes ∧ mq_Offset q = mq_Offset req ∧ mq_Length q = mq_Length req ∧
  mq_MediaIndex q = mq_MediaIndex req ∧ (request_typed req → request_typed q).
Proof.
  unfold normalizeMediaChunkRequest. intros H. inv_ok. destruct (mq_SourceGenerationID req <? 0); [done |]. inv_ok.
  destruct (negb _); [done |]. destruct (_ || (mediaMaxIndex <? _)); [done |]. destruct (mq_Offset req <? 0) eqn:Eo; [done |].
  destruct (_ || (mediaMaxChunkBytes <? _)) eqn:El; [done |]. destruct (_ <? mq_Offset req); [done |].
  injection H as <-. bool_props. cbn [mq_Offset mq_Length mq_MediaIndex]. split_and!; [lia.. | done].
Qed.

(** [raw] is the text of the one JSON value of a body. *)
Definition json_text (body raw : gostring) : Prop :=
  ∃ before after, body = before ++ raw ++ after ∧ Forall (λ b, is_ws b = true) (before ++ after).

Lemma Unmarshal_ok {T} (method : gostring → option T) body x :
  Unmarshal method body = Some x → ∃ raw, method raw = Some x ∧ json_text body raw.
Proof.
  unfold Unmarshal. destruct (skip_ws_split body) as (before & Hbody & Hbefore). set (text := skip_ws body) in *.
  destruct (parse_value _ _ text) as [[v r]|] eqn:E; [|done]. apply (proj1 (parse_suffix _)) in E as [raw Hraw].
  destruct (is_empty (skip_ws r)) eqn:Er; [|done]. apply is_empty_true in Er.
  destruct (skip_ws_split r) as (after & Hr & Hafter). rewrite Er, app_nil_r in Hr. subst after.
  rewrite Hraw, length_app, Nat.add_sub, take_app_length. intros H. exists raw. split; [done |]. exists before, r.
  split; [by rewrite Hbody, Hraw | by apply Forall_app].
Qed.

(** A body that was read within the limit was read to its end. *)
Lemma ReadAllLimited_whole r limit body :
  0 ≤ limit → ReadAllLimited r (limit + 1) = Some body → Z.of_nat (length body) ≤ limit → body = br_data r ∧ br_fails r = false.
Proof.
  unfold ReadAllLimited. intros Hl. destruct (br_fails r && _) eqn:E; [done |]. intros [= <-] Hlen. rewrite length_take in Hlen.
  rewrite take_ge by lia. split; [done |]. destruct (br_fails r); [|done]. cbn [andb] in E. apply Nat.ltb_ge in E. lia.
Qed.

(** The value is what the server's success answer to the last request says, in a body read to its end. *)
Lemma postStrictJSON_ok {T} (method : gostring → option T) s path payload x s' :
  postStrictJSON method s path payload = (CallOk x, s') →
  ∃ resp raw, last_answer net s' MethodPost path resp ∧ br_fails (rs_Body resp) = false ∧
    Z.of_nat (length (br_data (rs_Body resp))) ≤ strictJSONResponseMaxBytes ∧ json_text (br_data (rs_Body resp)) raw ∧ method raw = Some x.
Proof.
  unfold postStrictJSON. destruct payload as [payload|]; [|done]. destruct (newSignedRequest _ _ _ _ _ _ _ _ _ _ _ _) as [[req|] s0] eqn:En; [|done].
  destruct (do _ _ _ _ _ _ _ _ _ _ _ _ _ _ _) as [[[resp| | |] s1] rf] eqn:Ed; try done.
  destruct (ReadAllLimited _ _) as [bodyBytes|] eqn:Er; [|done]. destruct (_ <? _) eqn:El; [done |]. bool_props.
  destruct (Unmarshal method bodyBytes) as [y|] eqn:Eu; [|done]. intros [= <- <-].
  apply ReadAllLimited_whole in Er as [-> Hf]; [|done | done]. apply Unmarshal_ok in Eu as (raw & Hm & Hraw).
  exists resp, raw. split_and!; try done. unfold do in Ed. apply do_loop_answer in Ed.
  unfold newSignedRequest, newSignedStreamRequest in En. destruct (newRequest _ _ _ _ _) as [q|] eqn:Eq; [|done].
  apply newRequest_eq in Eq as ->. apply sign_spec in En as [_ Hq]. destruct (Hq req eq_refl) as (Hm' & Hp & _).
  change (last_answer net s1 (wq_Method req) (wq_Path req) resp) in Ed. by rewrite Hm', Hp in Ed.
Qed.

(** The request is built as every JSON POST is. *)
Lemma newSignedRequest_post s path payload built s0 :
  newSignedRequest secret http1ProbeOnly url_ok ParseTime now random ctx_err net s MethodPost path (Some payload) = (built, s0) →
  signed_post secret http1ProbeOnly url_ok ParseTime now random ctx_err net false path payload (SHA256HexBytes payload)
    contentTypeJSON s = (match built with Ok req => Ok (set_content_type contentTypeJSON req) | Err err => Err (EWrap [err]) end, s0).
Proof. unfold signed_post, newSignedRequest. change (default [] (Some payload)) with payload. by intros ->. Qed.

(** Whatever it gives, the call sends its payload at most twice, the second time after an epoch mismatch. *)
Lemma postStrictJSON_wire {T} (method : gostring → option T) s path payload res s' :
  postStrictJSON method s path (Some payload) = (res, s') →
  ∃ new, cs_sent s' = cs_sent s ++ new ∧ Forall (expected path payload) new ∧ (posts new ≤ 2)%nat ∧
    spaced ParseTime now net path (length (cs_sent s)) new.
Proof.
  unfold postStrictJSON. destruct (newSignedRequest _ _ _ _ _ _ _ _ _ _ _ _) as [built s0] eqn:En.
  apply newSignedRequest_post in En as Hb.
  apply build_post_spec in Hb as [Hs0 Hq].
  apply sent_mid in Hs0 as (mid & Hmid & Hs). pose proof (discovery_expected path payload mid Hmid) as Hme.
  pose proof (discovery_posts mid Hmid) as Hmp.
  destruct built as [req|err].
  - destruct (Hq _ eq_refl) as (Hm & Hp & Hbody & Hg). destruct (do _ _ _ _ _ _ _ _ _ _ _ _ _ _ _) as [[r s1] rf] eqn:Ed.
    intros [= _ <-]. apply do_wire with (body := payload) in Ed as (new & Hnew & He & Hsp & _ & Hc); [|done..].
    exists (mid ++ new). rewrite Hs in Hnew, Hsp. rewrite length_app in Hsp.
    split_and!; [by rewrite Hnew, <- app_assoc | by apply Forall_app | rewrite posts_app; cbn [credit] in Hc; lia |].
    apply spaced_app; [by apply all_refused_discovery | done].
  - intros [= _ <-]. exists mid. split_and!; [done | done | lia |]. apply all_refused_spaced. by apply all_refused_discovery.
Qed.
End fetch.

(** The struct read by the same tags. *)
Definition read_MediaChunkRequest (v : json) : option MediaChunkRequest :=
  l ← dec_struct v;
  messageID ← member l (go "messageId") [] dec_string;
  sourceGenerationID ← member l (go "sourceGenerationId") 0 dec_int64;
  rawSourceLogID ← member l (go "rawSourceLogId") 0 dec_int64;
  sourceLogID ← member l (go "sourceLogId") 0 dec_int64;
  chatID ← member l (go "chatId") [] dec_string;
  chatLogID ← member l (go "chatLogId") [] dec_string;
  type_ ← member l (go "type") [] dec_string;
  mediaIndex ← member l (go "mediaIndex") 0 dec_int64;
  offset ← member l (go "offset") 0 dec_int64;
  length_ ← member l (go "length") 0 dec_int64;
  Some (mkChunkRequest messageID sourceGenerationID rawSourceLogID sourceLogID chatID chatLogID type_ mediaIndex offset length_).

Lemma read_chunk_request q t : Marshal q = Some t → request_typed q → parse_json t ≫= read_MediaChunkRequest = Some q.
Proof.
  destruct q as [id g rs sl chat log ty idx off len]. intros Ht (H1 & H2 & H3 & H4 & H5 & H6).
  eapply parse_Marshal in Ht; [|reflexivity | split; [by eapply names_distinct; [reflexivity | vm_compute] | repeat split]].
  rewrite Ht. cbn [mbind option_bind mq_MessageID mq_SourceGenerationID mq_RawSourceLogID mq_SourceLogID mq_ChatID mq_ChatLogID
    mq_Type mq_MediaIndex mq_Offset mq_Length]. unfold read_MediaChunkRequest. cbn [dec_struct mbind option_bind].
  do 10 read_next I. reflexivity.
Qed.

(** C39: a fetched chunk answers the request.  A chunk that [FetchMediaChunk] returns is what the server said: the last
    request sent is a POST for chunks, the server's answer to it is a success whose body, read to its end, is at most one
    mebibyte and, white space around it aside, a JSON object that has exactly the six members of the protocol, each once,
    none null and each of its type, and the chunk has their values.  It holds between one byte and as many as were
    asked for, in canonical base 64, within the announced length, the last flag set exactly on the chunk that
    completes it and any other chunk full.  The request was valid, its normalized form alone was POSTed, in JSON that
    reads back as that form, at most twice, and the second time only after the server refused the first. *)
Theorem fetched_chunk_answers_request (secret : option gostring) (http1ProbeOnly : bool) (url_ok : gostring → bool)
    (ParseTime : gostring → option Z) (now : nat → Z) (random : nat → gostring)
    (ctx_err : nat → option goerror) (net : nat → wireRequest → result goerror response)
    (s s' : cstate) (req : MediaChunkRequest) (r : MediaChunkResponse) :
  request_typed req →
  FetchMediaChunk secret http1ProbeOnly url_ok ParseTime now random ctx_err net s req = (CallOk r, s') →
  (∃ resp raw l, last_answer net s' MethodPost PathMediaChunk resp ∧ br_fails (rs_Body resp) = false ∧
     Z.of_nat (length (br_data (rs_Body resp))) ≤ 1048576 ∧ json_text (br_data (rs_Body resp)) raw ∧
     parse_json raw = Some (JObject l) ∧ map fst l ≡ₚ mediaChunkResponseFields ∧
     required l (go "chunkBase64") dec_string = Some (mr_ChunkBase64 r) ∧ required l (go "totalLength") dec_int64 = Some (mr_TotalLength r) ∧
     required l (go "mimeType") dec_string = Some (mr_MIMEType r) ∧ required l (go "sha256") dec_string = Some (mr_SHA256 r) ∧
     required l (go "eof") dec_bool = Some (mr_EOF r) ∧ required l (go "mediaCount") dec_int64 = Some (mr_MediaCount r)) ∧
  mr_ChunkBase64 r = EncodeToString (chunk_of r) ∧ 1 ≤ Z.of_nat (length (chunk_of r)) ≤ mq_Length req ∧
  mq_Offset req + Z.of_nat (length (chunk_of r)) ≤ mr_TotalLength r ≤ mediaMaxTotalBytes ∧
  (mr_EOF r = true ↔ mq_Offset req + Z.of_nat (length (chunk_of r)) = mr_TotalLength r) ∧
  (mr_EOF r = false → Z.of_nat (length (chunk_of r)) = mq_Length req) ∧
  ∃ q payload new, normalizeMediaChunkRequest req = Ok q ∧
    parse_json payload ≫= read_MediaChunkRequest = Some q ∧ cs_sent s' = cs_sent s ++ new ∧
    Forall (expected PathMediaChunk payload) new ∧ (posts new ≤ 2)%nat ∧
    spaced ParseTime now net PathMediaChunk (length (cs_sent s)) new.
Proof.
  intros Hty. unfold FetchMediaChunk. destruct (normalizeMediaChunkRequest req) as [q|] eqn:Eq; [|done].
  apply normalize_bounds in Eq as (Ho & Hl & Hoff & Hlen & Hidx & Hqt). specialize (Hqt Hty).
  destruct (Marshal q) as [payload|] eqn:Em; [|done].
  destruct (postStrictJSON _ _ _ _ _ _ _ _ UnmarshalJSON s PathMediaChunk (Some payload)) as [[resp| |] s1] eqn:Ep; try done.
  destruct (validateMediaChunkResponse resp q) as [[]|] eqn:Ev; [|done]. intros [= <- <-].
  apply postStrictJSON_wire in Ep as Hw. apply postStrictJSON_ok in Ep as (answer & raw & Hlast & Hfails & Hsize & Hraw & Hu).
  apply unmarshal_iff in Hu as (l & Hparse & Hnames & Hwire). injection Hwire as Hc Ht Hm Hh He Hn.
  apply accepted_chunk in Ev as (Henc & Hclen & Hend & Heof & Hfull & _); [|lia].
  rewrite Hoff, Hlen in *. split; [exists answer, raw, l; by split_and! |]. split_and!; try lia; try done.
  destruct Hw as (new & Hw). exists q, payload, new. destruct Hw as (? & ? & ? & ?). by split_and!; [| apply read_chunk_request |..].
Qed.

(** A server that answers with four bytes of a file of six. *)
Definition q_ (s : gostring) : gostring := [x22] ++ s ++ [x22].
Definition demo_chunk_body : gostring :=
  go " {" ++ q_ (go "eof") ++ go ":false," ++ q_ (go "chunkBase64") ++ go ":" ++ q_ (go "aXJpcw==") ++ go ", "
  ++ q_ (go "totalLength") ++ go ":6," ++ q_ (go "mimeType") ++ go ":" ++ q_ (go "image/png") ++ go ","
  ++ q_ (go "sha256") ++ go ":" ++ q_ (repeat "0"%byte 64) ++ go "," ++ q_ (go "mediaCount") ++ go ":1} ".
Definition chunk_server (_ : nat) (_ : wireRequest) : result goerror response :=
  Ok (mkResponse 200 [] (mkBody demo_chunk_body false) None).
Definition demo_fetch : callResult MediaChunkResponse * cstate :=
  FetchMediaChunk None false (λ _, true) (λ _, None) (λ _, 500) (λ _, []) (λ _, None) chunk_server
    (mkCState [] []) (demo_request 0).

Lemma fetched_chunk_answers_request_witness :
  demo_fetch.1 = CallOk (demo_response (go "iris") false) ∧
  Z.of_nat (length (chunk_of (demo_response (go "iris") false))) = 4.
Proof.
  split; [vm_compute; reflexivity |].
  refine (proj1 (proj2 (proj2 (proj2 (proj2 (proj2 (fetched_chunk_answers_request None false (λ _, true) (λ _, None) (λ _, 500) (λ _, [])
    (λ _, None) chunk_server (mkCState [] []) demo_fetch.2 (demo_request 0)
    (demo_response (go "iris") false) _ _)))))) _); [repeat split; vm_compute; discriminate | vm_compute; reflexivity..].
Defined.

(** An unknown, a missing, a repeated and a null member are refused. *)
Example strict_members_refused :
  map UnmarshalJSON
    [go "{}"; go "[]"; take (length demo_chunk_body - 2) demo_chunk_body ++ go "," ++ q_ (go "extra") ++ go ":1}";
     take (length demo_chunk_body - 2) demo_chunk_body ++ go "," ++ q_ (go "eof") ++ go ":true}";
     take (length demo_chunk_body - 3) demo_chunk_body ++ go "null}"] = repeat None 5.
Proof. vm_compute. reflexivity. Qed.
