(* ===== verification/SendFile.v ===== *)
(** * SendFile: file replies (internal/client/transport/file.go)

    [SendFile] from its options to the wire: the options and the file are checked, the file is hashed for the
    manifest, the body factory hashes the whole body for the signature, and the retry loop streams it.  The
    [io.ReaderAt] and the multipart boundary are parameters; [call] counts the [ReadAt] calls
    made before the digest ([c0]), before the factory ([c1]) and before a body is streamed ([c2]). *)

From S2P Require Import Prelude GoStrings GoStrconv GoJson GoJsonEnc GoHttp GoCrypto Canonical Hmac Errors Retry Execute.
From S2P Require Import Multipart MultipartFrame Send Calls Wire.

Definition msgTypeFile : gostring := go "file".

Record filePartSpec := mkFilePartSpec {
  fp_Index : Z;
  fp_SHA256Hex : gostring;
  fp_ByteLength : Z;
  fp_ContentType : gostring;
  fp_FileName : gostring;
}.

Record replyFileMetadata := mkFileMetadata {
  fm_ClientRequestID : option gostring;
  fm_Type : gostring;
  fm_Room : gostring;
  fm_ThreadID : option gostring;
  fm_Files : list filePartSpec;
}.

Definition filePartSpec_json (p : filePartSpec) : jout :=
  OObject (field (go "index") (OInt (fp_Index p)) ++ field (go "sha256Hex") (OString (fp_SHA256Hex p))
           ++ field (go "byteLength") (OInt (fp_ByteLength p)) ++ field (go "contentType") (OString (fp_ContentType p))
           ++ field (go "fileName") (OString (fp_FileName p))).

Definition replyFileMetadata_json (m : replyFileMetadata) : option jout :=
  Some (OObject (omitempty_ptr (go "clientRequestId") (fm_ClientRequestID m) ++ field (go "type") (OString (fm_Type m))
     ++ field (go "room") (OString (fm_Room m)) ++ omitempty_ptr (go "threadId") (fm_ThreadID m)
     ++ field (go "files") (OArray (map filePartSpec_json (fm_Files m))))).

#[export] Instance replyFileMetadata_Marshaler : Marshaler replyFileMetadata := replyFileMetadata_json.
Record ReplyFile := mkReplyFile {
  rf_FileName : gostring;
  rf_ContentType : gostring;
  rf_ByteLength : Z;
  rf_readerAt : option readerAt;
}.

Definition NewReplyFile (fileName contentType : gostring) (byteLength : Z) (ra : option readerAt) : ReplyFile :=
  mkReplyFile fileName contentType byteLength ra.

Definition NewReplyFileBytes (fileName contentType data : gostring) : ReplyFile :=
  NewReplyFile fileName contentType (zlen data) (Some (bytes_reader data)).

Definition validateFileReplyOptions (o : sendOptions) : result sendError unit :=
  match so_ImageContentType o with
  | Some _ => Err ContentTypeUnsupported
  | None => if is_empty (so_Mentions o) then Ok tt else Err MentionsUnsupported
  end.

(** [SendFile] up to [postFileMultipart]: the metadata and the normalized content type. *)
Definition prepare_file (ctx_done : nat → bool) (c0 : nat) (room : gostring) (file : ReplyFile) (opts : list SendOption)
  : result sendError (replyFileMetadata * gostring) :=
  let o := applySendOptions opts in
  let? _ := validateSendOptions o in
  let? _ := validateFileReplyOptions o in
  let? contentType := result_map_err PayloadError
    (NormalizeReplyFile (rf_FileName file) (rf_ContentType file) (rf_ByteLength file)
       (match rf_readerAt file with None => true | Some _ => false end)) in
  let? fileSHA256 := result_map_err PayloadError (DigestReaderAt ctx_done (rf_readerAt file) (rf_ByteLength file) c0) in
  Ok (mkFileMetadata (normalizeClientRequestID (so_ClientRequestID o)) msgTypeFile room (normalizeReplyThreadID (so_ThreadID o))
        [mkFilePartSpec 0 fileSHA256 (rf_ByteLength file) contentType (rf_FileName file)], contentType).

(** What the HTTP transport reads from a body: reads into its copy buffer until there is nothing left; each gives at
    least a byte, so as many reads as the body has bytes are enough ([file_stream_body]). *)
Definition file_stream (ra : readerAt) (c2 : nat) (f : FileBodyFactory) : gostring :=
  (file_read_all ra (ff_fileLength f) (NewFileBody f c2)
     (repeat (Z.to_nat fileCopyBufferBytes) (Z.to_nat (ff_bodyLength f)))).1.

Section send_file.
Context (secret : option gostring) (http1ProbeOnly : bool) (url_ok : gostring → bool).
Context (ParseTime : gostring → option Z) (now : nat → Z) (random : nat → gostring).
Context (ctx_err : nat → option goerror) (net : nat → wireRequest → result goerror response).
Context {T : Type} (body_run : nat → response → bodyRun T).
Context (ReplyRetryMax : Z) (wait : nat → option goerror).
Context (ctx_done : nat → bool) (boundary : gostring) (c0 c1 c2 : nat).

Definition postFileMultipart (s : cstate) (metadata : replyFileMetadata) (file : ReplyFile) (contentType : gostring)
  : callResult T * cstate :=
  match Marshal metadata with
  | None => (CallErr (EWrap [EOther (go "encode metadata")]), s)
  | Some metadataBytes =>
      match NewFileBodyFactory ctx_done boundary metadataBytes (rf_FileName file) contentType (rf_ByteLength file)
              (rf_readerAt file) c1, rf_readerAt file with
      | Ok f, Some ra =>
          retryPostJSON secret http1ProbeOnly url_ok ParseTime now random ctx_err net body_run PathReply
            (match fm_ClientRequestID metadata with Some _ => true | None => false end)
            (signed_post secret http1ProbeOnly url_ok ParseTime now random ctx_err net true PathReply (file_stream ra c2 f)
               (ff_bodySHA256 f) (ff_contentType f)) wait ReplyRetryMax s
      | _, _ => (CallErr (EWrap [EOther (go "create multipart body factory")]), s)
      end
  end.

Definition SendFile (s : cstate) (room : gostring) (file : ReplyFile) (opts : list SendOption) : callResult T * cstate :=
  match prepare_file ctx_done c0 room file opts with
  | Err _ => (CallErr (EWrap [EOther (go "validate file")]), s)
  | Ok (metadata, contentType) =>
      let '(r, s) := postFileMultipart s metadata file contentType in
      (match r with CallErr e => CallErr (EWrap [e]) | other => other end, s)
  end.
End send_file.

(** ** The body on the wire *)

Lemma copy_loop_uncancelled fuel ctx_done ra byteLength call out bytes n :
  copy_loop fuel ctx_done ra byteLength call out = Copied bytes n →
  copy_loop fuel (λ _, false) ra byteLength call out = Copied bytes n.
Proof.
  revert call out. induction fuel as [|fuel IH]; intros call out; [done |]. cbn [copy_loop]. cbv zeta.
  destruct (byteLength <=? zlen out); [done |]. destruct (ctx_done call); [done |].
  destruct (section_read _ _ _ _ _) as [data err]. destruct err; [|done | done]. destruct (is_empty data); [done |]. apply IH.
Qed.

(** A copy that succeeds, cancelled or not, took the announced bytes. *)
Lemma copied_bytes ctx_done ra content byteLength call bytes n :
  stable ra content → copyReaderAtContext ctx_done (Some ra) byteLength call = Copied bytes n →
  copyReaderAtContext (λ _, false) (Some ra) byteLength call = Copied bytes n ∧
  bytes = take (Z.to_nat byteLength) content ∧ 0 ≤ byteLength ≤ zlen content.
Proof.
  intros Hs H. unfold copyReaderAtContext in *. destruct (byteLength <? 0) eqn:E; [done |]. bool_props.
  apply copy_loop_uncancelled in H. split; [done |].
  pose proof (copy_loop_stable ra content byteLength (S (Z.to_nat byteLength)) call [] Hs eq_refl
    ltac:(simpl; lia) ltac:(simpl; lia)) as Hc. rewrite H in Hc. destruct Hc as [-> ?]. done.
Qed.

Lemma factory_ok ctx_done ra content boundary metadata fileName contentType byteLength call f :
  stable ra content →
  NewFileBodyFactory ctx_done boundary metadata fileName contentType byteLength (Some ra) call = Ok f →
  NewFileBodyFactory (λ _, false) boundary metadata fileName contentType byteLength (Some ra) call = Ok f ∧
  0 ≤ byteLength ≤ zlen content ∧ ff_fileLength f = byteLength ∧
  ff_prefix f = file_prefix boundary metadata fileName contentType ∧ ff_suffix f = file_suffix boundary ∧
  ff_bodySHA256 f = hexEncode (sha256 (ff_prefix f ++ take (Z.to_nat byteLength) content ++ ff_suffix f)) ∧
  ff_bodyLength f = zlen (ff_prefix f ++ take (Z.to_nat byteLength) content ++ ff_suffix f).
Proof.
  intros Hs. unfold NewFileBodyFactory. cbv zeta. destruct (checkedMultipartLength _ _) as [len|] eqn:Ec; [|done].
  apply checkedMultipartLength_spec in Ec as [-> _]. destruct (ValidateReplyMultipartEnvelope _ _); [done |].
  destruct (copyReaderAtContext ctx_done _ _ _) as [bytes n| |] eqn:E; try done.
  apply (copied_bytes _ _ content) in E as (-> & -> & Hl); [|done]. intros H. apply Ok_inj in H as <-.
  cbn [ff_fileLength ff_prefix ff_suffix ff_bodySHA256 ff_bodyLength foldr]. split_and!; try done; try lia.
  rewrite !length_app, length_take. lia.
Qed.

(** Reading a body with buffers of [m > 0] bytes, as many times as it has bytes, gives all of it. *)
Lemma file_read_all_total ra content limit m k r :
  stable ra content → 0 ≤ limit ≤ zlen content → (0 < m)%nat → file_reader_ok limit r →
  (length (left_over content limit r) ≤ k)%nat → (file_read_all ra limit r (repeat m k)).1 = left_over content limit r.
Proof.
  intros Hs Hl Hm. revert r. induction k as [|k IH]; intros r Hok Hk; cbn [repeat file_read_all].
  - symmetry. apply nil_length_inv. cbn [fst]. lia.
  - pose proof (multi_read_spec ra content limit Hs Hl 4 r m Hok Hm ltac:(lia)) as Hread.
    unfold FileRead. rewrite (proj1 (proj2 Hok)). destruct (multi_read 4 ra limit r m) as [[data err] r'].
    destruct Hread as (Hd & Hok' & Hend). specialize (IH r' Hok').
    destruct (file_read_all ra limit r' (repeat m k)) as [more r2]. cbn [fst] in *. rewrite Hd, IH; [done |].
    rewrite Hd, length_app in Hk. destruct Hend as [[_ Hne]|(_ & -> & H0)].
    + destruct data; [done |]. cbn [length] in Hk. lia.
    + rewrite Hd in H0. cbn [app] in H0. rewrite H0. cbn. lia.
Qed.

Lemma file_stream_body ra content c2 f :
  stable ra content → 0 ≤ ff_fileLength f ≤ zlen content →
  ff_bodyLength f = zlen (ff_prefix f ++ take (Z.to_nat (ff_fileLength f)) content ++ ff_suffix f) →
  file_stream ra c2 f = ff_prefix f ++ take (Z.to_nat (ff_fileLength f)) content ++ ff_suffix f.
Proof.
  intros Hs Hl Hlen.
  assert (left_over content (ff_fileLength f) (NewFileBody f c2) =
    ff_prefix f ++ take (Z.to_nat (ff_fileLength f)) content ++ ff_suffix f) as H0.
  { unfold left_over, file_part. cbn [NewFileBody fr_stage fr_prefix fr_off fr_suffix]. change (Z.to_nat 0) with 0%nat. by rewrite drop_0. }
  unfold file_stream. rewrite (file_read_all_total ra content); [done | done | done | | | rewrite H0; lia].
  - unfold fileCopyBufferBytes. lia.
  - repeat split; cbn; lia.
Qed.

(** What was prepared describes the file. *)
Lemma prepare_file_ok ctx_done c0 room file opts metadata contentType ra content :
  rf_readerAt file = Some ra → stable ra content →
  prepare_file ctx_done c0 room file opts = Ok (metadata, contentType) →
  NormalizeReplyFile (rf_FileName file) (rf_ContentType file) (rf_ByteLength file) false = Ok contentType ∧
  ptr_ok (fm_ClientRequestID metadata) ∧ ptr_ok (fm_ThreadID metadata) ∧
  fm_Type metadata = msgTypeFile ∧ fm_Room metadata = room ∧ 1 ≤ rf_ByteLength file ≤ maxReplySingleFileBytes ∧
  rf_ByteLength file ≤ zlen content ∧
  fm_Files metadata = [mkFilePartSpec 0 (hexEncode (sha256 (take (Z.to_nat (rf_ByteLength file)) content))) (rf_ByteLength file)
                         contentType (rf_FileName file)].
Proof.
  intros Hra Hs H. unfold prepare_file in H. cbv zeta in H. rewrite Hra in H. inv_ok. subst metadata contentType.
  unfold DigestReaderAt in *. destruct (copyReaderAtContext _ _ _ _) as [bytes n| |] eqn:Ecp; try done.
  apply (copied_bytes _ _ content) in Ecp as (_ & -> & Hl); [|done]. simplify_eq.
  cbn [fm_Type fm_Room fm_Files fm_ClientRequestID fm_ThreadID].
  split_and!; try done; try lia; [apply request_id_ptr | apply thread_id_ptr | |].
  all: match goal with H : NormalizeReplyFile _ _ _ false = Ok _ |- _ => clear -H; revert H end.
  all: unfold NormalizeReplyFile; destruct (_ <=? 0) eqn:E0; [done |]; destruct (_ <? rf_ByteLength file) eqn:E1; [done |]; bool_props; lia.
Qed.

(** ** The metadata read back *)

(** The structs read by the same tags. *)
Definition read_filePartSpec (v : json) : option filePartSpec :=
  l ← dec_struct v;
  index ← member l (go "index") 0 dec_int64;
  sha256Hex ← member l (go "sha256Hex") [] dec_string;
  byteLength ← member l (go "byteLength") 0 dec_int64;
  contentType ← member l (go "contentType") [] dec_string;
  fileName ← member l (go "fileName") [] dec_string;
  Some (mkFilePartSpec index sha256Hex byteLength contentType fileName).

Definition read_replyFileMetadata (v : json) : option replyFileMetadata :=
  l ← dec_struct v;
  clientRequestID ← member l (go "clientRequestId") None (dec_ptr dec_string);
  type_ ← member l (go "type") [] dec_string;
  room ← member l (go "room") [] dec_string;
  threadID ← member l (go "threadId") None (dec_ptr dec_string);
  files ← member l (go "files") [] (dec_slice read_filePartSpec);
  Some (mkFileMetadata clientRequestID type_ room threadID files).

Lemma read_filePart p :
  in_int64 (fp_Index p) → in_int64 (fp_ByteLength p) → read_filePartSpec (as_json (filePartSpec_json p)) = Some p.
Proof.
  intros Hi Hb. destruct p as [i sha len ct name]. cbn [fp_Index fp_ByteLength] in *. unfold read_filePartSpec, filePartSpec_json.
  rewrite as_json_object. cbn [dec_struct mbind option_bind fp_Index fp_SHA256Hex fp_ByteLength fp_ContentType fp_FileName].
  do 5 read_next I. reflexivity.
Qed.

Lemma read_fileMetadata m t p :
  Marshal m = Some t → ptr_ok (fm_ClientRequestID m) → ptr_ok (fm_ThreadID m) → fm_Files m = [p] →
  in_int64 (fp_Index p) → in_int64 (fp_ByteLength p) → parse_json t ≫= read_replyFileMetadata = Some m.
Proof.
  destruct m as [rid ty room th files]. cbn [fm_ClientRequestID fm_ThreadID fm_Files]. intros Ht Hid Hth -> Hi Hb.
  assert (mapM read_filePartSpec (map as_json (map filePartSpec_json [p])) = Some [p]) as Hp.
  { cbn [map]. apply mapM_Some. constructor; [by apply read_filePart | constructor]. }
  eapply parse_Marshal in Ht; [|reflexivity |].
  - rewrite Ht. cbn [mbind option_bind fm_ClientRequestID fm_Type fm_Room fm_ThreadID fm_Files]. unfold read_replyFileMetadata.
    cbn [dec_struct mbind option_bind]. read_ptr rid. do 2 read_next I. read_ptr th. read_next Hp. reflexivity.
  - destruct rid as [[|? ?]|], th as [[|? ?]|]; (split; [by eapply names_distinct; [reflexivity | vm_compute] |]); repeat split;
      by eapply names_distinct; [reflexivity | vm_compute].
Qed.

(** A multipart body with an encoded metadata of a file reply to [room], and [uploaded] under the name of [file]; the
    manifest has one entry, with the hash and the length of [uploaded] and the content type and the name of that part. *)
Definition file_described (boundary room : gostring) (file : ReplyFile) (uploaded body : gostring) : Prop :=
  ∃ metadata encoded spec,
    parse_json encoded ≫= read_replyFileMetadata = Some metadata ∧ fm_Type metadata = msgTypeFile ∧ fm_Room metadata = room ∧
    fm_Files metadata = [spec] ∧
    parse_multipart boundary body = Some [(metadata_head, encoded); (file_head (fp_FileName spec) (fp_ContentType spec), uploaded)] ∧
    fp_SHA256Hex spec = hexEncode (sha256 uploaded) ∧ fp_ByteLength spec = zlen uploaded ∧
    1 ≤ zlen uploaded ≤ maxReplySingleFileBytes ∧ fp_FileName spec = rf_FileName file ∧ x22 ∉ rf_FileName file.

(** What [SendFile] hands to the retry loop: a body that the manifest describes, and its hash. *)
Lemma file_body_described ctx_done boundary c0 c1 c2 room file opts ra content metadata contentType encoded f :
  rf_readerAt file = Some ra → stable ra content → x0d ∉ boundary →
  payload_ok boundary (take (Z.to_nat (rf_ByteLength file)) content) →
  prepare_file ctx_done c0 room file opts = Ok (metadata, contentType) → Marshal metadata = Some encoded →
  NewFileBodyFactory ctx_done boundary encoded (rf_FileName file) contentType (rf_ByteLength file) (Some ra) c1 = Ok f →
  ff_bodySHA256 f = SHA256HexBytes (file_stream ra c2 f) ∧
  file_described boundary room file (take (Z.to_nat (rf_ByteLength file)) content) (file_stream ra c2 f).
Proof.
  intros Hra Hst Hb Hp Epr Em Ef.
  apply (prepare_file_ok _ _ _ _ _ _ _ ra content) in Epr as (Hnorm & Hid & Hth & Hty & Hroom & Hlen & Hle & Hfiles); [|done..].
  apply (factory_ok _ _ content) in Ef as (Hf & Hfl & Hflen & _ & _ & Hsha & Hbl); [|done].
  rewrite <- Hflen in Hbl, Hfl, Hsha. rewrite (file_stream_body ra content c2 f) by done. rewrite SHA256HexBytes_spec. split; [done |]. rewrite Hflen.
  destruct (file_body_roundtrip ra content boundary encoded (rf_FileName file) (rf_ContentType file) contentType (rf_ByteLength file)
    c1 f Hnorm Hf Hb (payload_ok_object boundary _ encoded Em) Hp) as [Hparse Hquote].
  assert (parse_json encoded ≫= read_replyFileMetadata = Some metadata) as Hread.
  { eapply read_fileMetadata; [done | done | done | exact Hfiles | done |].
    unfold in_int64, MinInt64, MaxInt64, maxReplySingleFileBytes in *. cbn [fp_ByteLength]. lia. }
  exists metadata, encoded. eexists. split_and!; try done; cbn [fp_FileName fp_ContentType fp_SHA256Hex fp_ByteLength]; try done;
    rewrite length_take; lia.
Qed.

(** A file reply uploads the file its manifest describes.  While the file does not change, every POST that [SendFile] puts
    on the wire, first or repeated, has a body as [file_described] says, with the first [ByteLength] bytes of the file. *)
Theorem sent_file_matches_manifest {T} (secret : option gostring) (http1ProbeOnly : bool) (url_ok : gostring → bool)
    (ParseTime : gostring → option Z) (now : nat → Z) (random : nat → gostring)
    (ctx_err : nat → option goerror) (net : nat → wireRequest → result goerror response)
    (body_run : nat → response → bodyRun T) (ReplyRetryMax : Z) (wait : nat → option goerror) (ctx_done : nat → bool)
    (boundary : gostring) (c0 c1 c2 : nat) (s s' : cstate)
    (room : gostring) (file : ReplyFile) (opts : list SendOption) (ra : readerAt) (content : gostring) (res : callResult T) :
  (∀ n q e, net n q = Err e → Is e ErrRateLimited = false) →
  (∀ n resp t, verdict t → calm_run t (body_run n resp)) →
  rf_readerAt file = Some ra → stable ra content → x0d ∉ boundary →
  payload_ok boundary (take (Z.to_nat (rf_ByteLength file)) content) →
  SendFile secret http1ProbeOnly url_ok ParseTime now random ctx_err net body_run ReplyRetryMax wait ctx_done
    boundary c0 c1 c2 s room file opts = (res, s') →
  ∃ new, cs_sent s' = cs_sent s ++ new ∧ ∀ q, q ∈ new → is_post q = true →
    ∃ body, wq_Path q = PathReply ∧ wq_Body q = Some body ∧
      file_described boundary room file (take (Z.to_nat (rf_ByteLength file)) content) body.
Proof.
  intros Hnet Hrun Hra Hst Hb Hp H.
  assert (∀ P : wireRequest → Prop, ∃ new, cs_sent s = cs_sent s ++ new ∧ ∀ q, q ∈ new → is_post q = true → P q) as Hnone.
  { intros P. exists []. rewrite app_nil_r. split; [done |]. intros q Hq. by apply not_elem_of_nil in Hq. }
  unfold SendFile in H. destruct (prepare_file _ _ _ _ _) as [[metadata contentType]|] eqn:Epr; [|injection H as _ <-; by apply Hnone].
  destruct (postFileMultipart _ _ _ _ _ _ _ _ _ _ _ _ _ _ _ _ _ _ _) as [r s1] eqn:Epost. injection H as _ <-.
  unfold postFileMultipart in Epost. rewrite Hra in Epost. destruct (Marshal metadata) as [encoded|] eqn:Em; [|injection Epost as _ <-; by apply Hnone].
  destruct (NewFileBodyFactory _ _ _ _ _ _ _ _) as [f|] eqn:Ef; [|injection Epost as _ <-; by apply Hnone].
  destruct (file_body_described _ _ _ _ c2 _ _ _ _ _ _ _ _ _ Hra Hst Hb Hp Epr Em Ef) as [_ Hd].
  apply retry_calls_run in Epost. apply calls_run_wire in Epost as (new & Hs & He & _); [|done..].
  exists new. split; [done |]. intros q Hq Hpost. rewrite Forall_forall in He.
  destruct (He q Hq) as [->|(_ & Hpath & Hbody)]; [done |]. by eexists.
Qed.

(** Six bytes sent as a file to a server that is busy first. *)
Definition demo_reply_file : ReplyFile := NewReplyFileBytes (go "a.txt") (go "Text/Plain") (go "abcdef").
Definition demo_send_file : callResult nat * cstate :=
  SendFile None false (λ _, true) (λ _, None) (λ _, 500) (λ _, []) (λ _, None) busy_then_ok plain_run 3 (λ _, None) (λ _, false)
    (go "b0") 0 0 0 (mkCState [] []) (go "room") demo_reply_file [].

Lemma sent_file_matches_manifest_witness :
  length (cs_sent demo_send_file.2) = 2%nat ∧ x22 ∉ go "a.txt".
Proof.
  split; [vm_compute; reflexivity |].
  destruct (sent_file_matches_manifest None false (λ _, true) (λ _, None) (λ _, 500) (λ _, []) (λ _, None) busy_then_ok plain_run 3
    (λ _, None) (λ _, false) (go "b0") 0 0 0 (mkCState [] []) demo_send_file.2 (go "room") demo_reply_file []
    (bytes_reader (go "abcdef")) (go "abcdef") demo_send_file.1) as (new & Hs & Hall).
  - intros n q e H. discriminate H.
  - intros n resp t Ht. split_and!; intros e H; discriminate H.
  - reflexivity.
  - apply bytes_reader_stable.
  - apply no_cr. vm_compute. reflexivity.
  - vm_compute. reflexivity.
  - apply surjective_pairing.
  - assert (map is_post (cs_sent demo_send_file.2) = [true; true]) as Hl by (vm_compute; reflexivity).
    rewrite Hs in Hl. change (map is_post new = [true; true]) in Hl.
    destruct new as [|q new]; [discriminate Hl |]. injection Hl as H0 _.
    destruct (Hall q) as (body & _ & _ & m & b & spec & H); [apply elem_of_cons; by left | exact H0 | by apply H].
Defined.
