(* ===== verification/Session.v ===== *)
(** * Session: a client's whole life on the wire (internal/client/transport: every operation of APIClient)

    The operations of one client as one step function on its state (the epoch cache and the requests sent), and the
    type of that state: what every request it ever sends looks like, and that its signature verifies on the server. *)

From S2P Require Import Prelude GoStrings GoStrconv GoJson GoJsonEnc GoHttp GoCrypto Canonical Hmac Errors Retry Execute.
From S2P Require Import Path Multipart MultipartFrame Send Calls SendFile Media StrictJson Fetch.

(** ** Requests the server accepts *)

Definition ready_request : wireRequest := mkWire MethodGet PathReady ∅ None None.

(** The server's check: it hashes the body it received, recomputes the signature over the method, the target, the
    timestamp and the nonce it received, and wants both to be the ones in the headers, each given once, and the nonce
    to begin with an epoch. *)
Definition server_verifies (key : gostring) (q : wireRequest) : Prop :=
  let h := wq_Header q in
  let sha := SHA256HexBytes (default [] (wq_Body q)) in
  Header_Values h HeaderIrisBodySHA256 = [sha] ∧
  (∃ timestamp, Header_Values h HeaderIrisTimestamp = [timestamp]) ∧
  (∃ epoch suffix, Header_Values h HeaderIrisNonce = [epoch ++ "."%byte :: suffix] ∧ validAuthEpoch epoch = true) ∧
  ∃ signature, Header_Values h HeaderIrisSignature = [signature] ∧
    SignIrisCanonicalWithSigner key (wq_Method q) (wq_Path q) (Header_Get h HeaderIrisTimestamp)
      (Header_Get h HeaderIrisNonce) sha = Ok signature.

(** A GET has no body; a POST has one, declares its type, and can be replayed. *)
Definition wf_body (q : wireRequest) : Prop :=
  wq_Method q = MethodGet ∧ wq_Body q = None ∨
  wq_Method q = MethodPost ∧ ∃ body contentType, wq_Body q = Some body ∧ wq_GetBody q = Some (Ok body) ∧
    Header_Values (wq_Header q) HeaderContentType = [contentType].

Definition wf_signed (key : gostring) (q : wireRequest) : Prop := server_verifies key q ∧ wf_body q.

Definition wf_request (key : gostring) (q : wireRequest) : Prop :=
  q = epoch_request ∨ q = ready_request ∨ wf_signed key q.

(** The type of a client's state. *)
Record state_ok (key : gostring) (s : cstate) : Prop := mkStateOk {
  ok_epoch : cs_epoch s = [] ∨ validAuthEpoch (cs_epoch s) = true;
  ok_sent : Forall (wf_request key) (cs_sent s);
}.

(** ** The operations *)

Inductive operation :=
| OpSendMessageAccepted (room message : gostring) (opts : list SendOption)
| OpSendMarkdown (room markdown : gostring) (opts : list SendOption)
| OpSendRichText (room markdown : gostring) (opts : list SendOption)
| OpSendImages (multiple : bool) (boundary room : gostring) (images : list gostring) (opts : list SendOption)
| OpSendFile (boundary room : gostring) (file : ReplyFile) (opts : list SendOption) (c0 c1 c2 : nat)
| OpQueryMemberStats (req : QueryMemberStatsRequest)
| OpQueryRecentMessages (req : QueryRecentMessagesRequest)
| OpGetReplyStatus (requestID : gostring)
| OpGetRooms
| OpGetMembers (chatID : Z)
| OpGetMembersWithProfileRefresh (chatID profileUserID : Z)
| OpGetRoomEvents (chatID : Z) (userID : option Z) (eventType : gostring) (limit after before : Z) (order : gostring)
| OpSearchNicknameHistoryExact (chatID : Z) (name : gostring) (limit : Z)
| OpFetchMediaChunk (req : MediaChunkRequest)
| OpPing.

(** A file that is sent does not change meanwhile, as the documentation of [ReplyFile] asks. *)
Definition operation_ok (op : operation) : Prop :=
  match op with
  | OpSendFile _ _ file _ _ _ _ => ∀ ra, rf_readerAt file = Some ra → ∃ content, stable ra content
  | _ => True
  end.

Section session.
Context (key : gostring) (http1ProbeOnly : bool) (url_ok : gostring → bool) (baseURL : gostring).
Context (ParseTime : gostring → option Z) (now : nat → Z) (random : nat → gostring).
Context (ctx_err : nat → option goerror) (net : nat → wireRequest → result goerror response).
Context {T : Type} (body_run : nat → response → bodyRun T).
Context (ReplyRetryMax : Z) (wait : nat → option goerror) (ctx_done : nat → bool).

Definition run_operation (s : cstate) (op : operation) : cstate :=
  match op with
  | OpSendMessageAccepted room message opts =>
      (SendMessageAccepted (Some key) http1ProbeOnly url_ok ParseTime now random ctx_err net body_run ReplyRetryMax wait
         s room message opts).2
  | OpSendMarkdown room markdown opts =>
      (SendMarkdown (Some key) http1ProbeOnly url_ok ParseTime now random ctx_err net body_run ReplyRetryMax wait
         s room markdown opts).2
  | OpSendRichText room markdown opts =>
      (SendRichText (Some key) http1ProbeOnly url_ok ParseTime now random ctx_err net body_run ReplyRetryMax wait
         s room markdown opts).2
  | OpSendImages multiple boundary room images opts =>
      (send_images (Some key) http1ProbeOnly url_ok ParseTime now random ctx_err net body_run ReplyRetryMax wait
         boundary multiple s room images opts).2
  | OpSendFile boundary room file opts c0 c1 c2 =>
      (SendFile (Some key) http1ProbeOnly url_ok ParseTime now random ctx_err net body_run ReplyRetryMax wait ctx_done
         boundary c0 c1 c2 s room file opts).2
  | OpQueryMemberStats req =>
      (QueryMemberStats (Some key) http1ProbeOnly url_ok ParseTime now random ctx_err net body_run ReplyRetryMax wait s req).2
  | OpQueryRecentMessages req =>
      (QueryRecentMessages (Some key) http1ProbeOnly url_ok ParseTime now random ctx_err net body_run ReplyRetryMax wait s req).2
  | OpGetReplyStatus requestID =>
      (GetReplyStatus (Some key) http1ProbeOnly url_ok baseURL ParseTime now random ctx_err net body_run s requestID).2
  | OpGetRooms => (GetRooms (Some key) http1ProbeOnly url_ok baseURL ParseTime now random ctx_err net body_run s).2
  | OpGetMembers chatID =>
      (GetMembers (Some key) http1ProbeOnly url_ok baseURL ParseTime now random ctx_err net body_run s chatID).2
  | OpGetMembersWithProfileRefresh chatID profileUserID =>
      (GetMembersWithProfileRefresh (Some key) http1ProbeOnly url_ok baseURL ParseTime now random ctx_err net body_run s chatID
         profileUserID).2
  | OpGetRoomEvents chatID userID eventType limit after before order =>
      (getRoomEvents (Some key) http1ProbeOnly url_ok baseURL ParseTime now random ctx_err net body_run s chatID userID eventType
         limit after before order).2
  | OpSearchNicknameHistoryExact chatID name limit =>
      (SearchNicknameHistoryExact (Some key) http1ProbeOnly url_ok baseURL ParseTime now random ctx_err net body_run s chatID
         name limit).2
  | OpFetchMediaChunk req =>
      (FetchMediaChunk (Some key) http1ProbeOnly url_ok ParseTime now random ctx_err net s req).2
  | OpPing => (Ping http1ProbeOnly url_ok baseURL ParseTime now net s).2
  end.

(** A client's life: its operations one after the other, from an empty cache. *)
Definition run_session (ops : list operation) : cstate := foldl run_operation (mkCState [] []) ops.

(** ** Signing *)

Abbreviation sign_ := (signRequest (Some key) http1ProbeOnly url_ok ParseTime now random ctx_err net).
Abbreviation loop_ := (do_loop (Some key) http1ProbeOnly url_ok ParseTime now random ctx_err net).

Lemma state_ok_Do s req r s' : state_ok key s → wf_request key req → client_Do net s req = (r, s') → state_ok key s'.
Proof.
  intros [He Hs] Hq [= _ <-]. split; [done |]. cbn [cs_sent]. apply Forall_app. split; [done | by apply Forall_singleton].
Qed.

Lemma state_ok_epoch s e : state_ok key s → e = [] ∨ validAuthEpoch e = true → state_ok key (set_epoch s e).
Proof. intros [_ Hs] He. by split. Qed.

Lemma fetch_ok s r s' :
  state_ok key s → fetchAuthEpoch http1ProbeOnly url_ok ParseTime now net s = (r, s') →
  state_ok key s' ∧ ∀ e, r = Ok e → validAuthEpoch e = true.
Proof.
  intros Hok. unfold fetchAuthEpoch. destruct (newRequest _ _ _ _ _) as [req|] eqn:En; [|by intros [= <- <-]].
  apply newRequest_eq in En as ->. fold epoch_request.
  destruct (client_Do net s epoch_request) as [rr s1] eqn:Ed. apply state_ok_Do in Ed; [|done | by left].
  destruct rr as [resp|]; intros [= <- <-]; (split; [done |]); [|done]. intros e.
  destruct (negb _); [done |]. destruct (_ && _); [done |]. destruct (_ <? _); [done |].
  destruct (mbind _ _) as [epoch|]; [|done]. destruct (validAuthEpoch epoch) eqn:Ev; [|done]. by intros [= <-].
Qed.

Lemma authEpoch_ok s r s' :
  state_ok key s → authEpoch http1ProbeOnly url_ok ParseTime now ctx_err net s = (r, s') →
  state_ok key s' ∧ ∀ e, r = Ok e → validAuthEpoch e = true.
Proof.
  intros Hok. unfold authEpoch. destruct (ctx_err _); [by intros [= <- <-] |].
  destruct (negb (is_empty (cs_epoch s))) eqn:Ee.
  - intros [= <- <-]. split; [done |]. intros e [= <-]. bool_props. by destruct (ok_epoch _ _ Hok).
  - destruct (fetchAuthEpoch _ _ _ _ _ s) as [r0 s0] eqn:Ef. apply fetch_ok in Ef as [Hs0 Hv]; [|done].
    destruct r0 as [v|]; intros [= <- <-]; [|done]. split; [|intros e [= <-]; by apply Hv].
    apply state_ok_epoch; [done |]. right. by apply Hv.
Qed.

(** The four headers, on top of the others. *)
Lemma set_headers_get h t n g b :
  let h' := set_headers h [(HeaderIrisTimestamp, t); (HeaderIrisNonce, n); (HeaderIrisSignature, g); (HeaderIrisBodySHA256, b)] in
  Header_Values h' HeaderIrisTimestamp = [t] ∧ Header_Values h' HeaderIrisNonce = [n] ∧
  Header_Values h' HeaderIrisSignature = [g] ∧ Header_Values h' HeaderIrisBodySHA256 = [b] ∧
  Header_Values h' HeaderContentType = Header_Values h HeaderContentType.
Proof.
  cbn [set_headers fold_left fst snd]. unfold Header_Values, Header_Set.
  repeat split; repeat first [rewrite lookup_insert_eq; reflexivity | rewrite lookup_insert_ne by (vm_compute; discriminate)]; done.
Qed.

Lemma nonce_of epoch r : validAuthEpoch epoch = true →
  ∃ suffix, GenerateNonce epoch r = epoch ++ "."%byte :: suffix.
Proof.
  intros He. assert (length epoch = 32%nat) as Hl.
  { unfold validAuthEpoch in He. apply andb_true_iff in He as [He _]. by apply Nat.eqb_eq. }
  unfold GenerateNonce. cbv zeta. rewrite take_ge, Hl by lia. eexists. done.
Qed.

(** The headers of a signed request verify. *)
Lemma signed_headers_verify epoch time r req l :
  validAuthEpoch epoch = true →
  SetIrisHMACHeaders key (wq_Method req) (wq_Path req) (SHA256HexBytes (default [] (wq_Body req))) epoch time r = Ok l →
  let q := with_header req (set_headers (wq_Header req) l) in
  server_verifies key q ∧ (∃ suffix, Header_Get (wq_Header q) HeaderIrisNonce = epoch ++ "."%byte :: suffix) ∧
  Header_Values (wq_Header q) HeaderContentType = Header_Values (wq_Header req) HeaderContentType.
Proof.
  intros Hv. unfold SetIrisHMACHeaders. cbv zeta. destruct (SignIrisCanonicalWithSigner _ _ _ _ _ _) as [g|] eqn:Eg; [|done].
  cbn [result_bind]. intros Hl. apply Ok_inj in Hl. subst l. cbn [wq_Header with_header].
  destruct (set_headers_get (wq_Header req) (FormatInt time) (GenerateNonce epoch r) g
    (SHA256HexBytes (default [] (wq_Body req)))) as (Ht & Hn & Hg & Hb & Hc).
  destruct (nonce_of epoch r Hv) as [suffix Hsuf]. rewrite (Header_Get_Values _ _ _ Hn). split_and!; [|by eexists | done].
  unfold server_verifies. cbn [wq_Method wq_Path wq_Body wq_Header with_header].
  rewrite (Header_Get_Values _ _ _ Ht), (Header_Get_Values _ _ _ Hn). split_and!; [done | by eexists | | by exists g].
  exists epoch, suffix. by rewrite Hn, Hsuf.
Qed.

Lemma sign_ok s req r s' :
  state_ok key s → sign_ s req (SHA256HexBytes (default [] (wq_Body req))) = (r, s') →
  state_ok key s' ∧ ∀ q, r = Ok q → server_verifies key q ∧ wq_Method q = wq_Method req ∧ wq_Path q = wq_Path req ∧
    wq_Body q = wq_Body req ∧ wq_GetBody q = wq_GetBody req ∧
    Header_Values (wq_Header q) HeaderContentType = Header_Values (wq_Header req) HeaderContentType.
Proof.
  intros Hok. unfold signRequest. destruct (authEpoch _ _ _ _ _ _ s) as [r0 s0] eqn:Ea.
  apply authEpoch_ok in Ea as [Hs0 Hv]; [|done]. destruct r0 as [epoch|]; intros [= <- <-]; (split; [done |]); [|done].
  intros q. destruct (SetIrisHMACHeaders _ _ _ _ _ _ _) as [l|] eqn:El; [|done]. intros Hq. apply Ok_inj in Hq. subst q.
  apply signed_headers_verify in El as (Hs & _ & Hc); [|by apply Hv]. by split_and!.
Qed.

(** ** Calls *)

Lemma refresh_ok s req err rf again s' rf' :
  state_ok key s → refreshAuthEpoch (Some key) s req err rf = (again, s', rf') → state_ok key s'.
Proof.
  intros Hok. assert (∀ u, state_ok key (if seqb (cs_epoch s) u then set_epoch s [] else s)) as Hu.
  { intros u. destruct (seqb (cs_epoch s) u); [apply state_ok_epoch; auto | done]. }
  unfold refreshAuthEpoch. destruct (AsHTTPError err) as [e|]; [|by intros [= _ <- _]].
  destruct (_ || _); [by intros [= _ <- _] |]. destruct (Cut _ _) as [[used ?] ?].
  destruct (_ || _ || _); [by intros [= _ <- _] |]. specialize (Hu used). destruct rf; by intros [= _ <- _].
Qed.

(** Sending a good request, with its replay, keeps the state well formed. *)
Lemma do_loop_ok fuel s req op path url idem rf res s' rf' :
  state_ok key s → wf_signed key req → loop_ fuel s req op path url idem rf = (res, s', rf') → state_ok key s'.
Proof.
  revert s req rf. induction fuel as [|fuel IH]; intros s req rf Hok [Hv Hb] H; cbn [do_loop] in H; [by simplify_eq |].
  destruct (client_Do net s req) as [r s0] eqn:Ed. apply state_ok_Do in Ed; [|done | right; right; by split].
  destruct r as [resp|]; [|by simplify_eq]. destruct (isSuccessfulHTTPStatus _); [by simplify_eq |].
  destruct (readErrorResponse _ _ path resp) as [h|]; [|by simplify_eq]. destruct (rs_CloseErr resp); [by simplify_eq |].
  destruct (refreshAuthEpoch (Some key) s0 req (EHTTP h) rf) as [[again s1] rf1] eqn:Er.
  apply refresh_ok in Er as Hs1; [|done].
  destruct again; cbn [negb] in H; [|by simplify_eq].
  destruct Hv as (Hsha & Hv). rewrite (Header_Get_Values _ _ _ Hsha) in H.
  destruct (sign_ s1 req _) as [[replay|] s2] eqn:Es; apply sign_ok in Es as [Hs2 Hq]; [|done | by simplify_eq | done].
  destruct (Hq _ eq_refl) as (Hrv & Hm & Hp & Hrb & Hrg & Hrc).
  destruct (replay_body req replay) as [q|] eqn:Erb; [|by simplify_eq].
  apply (IH _ q _ Hs2) in H; [done |]. unfold replay_body in Erb. destruct Hb as [[Hget Hnone]|[Hpost (b & ct & Hbody & Hgb & Hct)]].
  - rewrite Hnone in Erb. injection Erb as <-. split; [done |]. left. by rewrite Hm, Hrb.
  - rewrite Hbody, Hgb in Erb. injection Erb as <-. rewrite Hbody in Hrb. split.
    + unfold server_verifies in *. cbn [wq_Method wq_Path wq_Body wq_Header]. by rewrite Hrb in Hrv.
    + right. cbn [wq_Method wq_Body wq_GetBody wq_Header]. split; [by rewrite Hm |]. exists b, ct. by rewrite Hrg, Hrc.
Qed.

(** A builder of good requests. *)
Definition builds_ok (build : cstate → result goerror wireRequest * cstate) : Prop :=
  ∀ s r s', state_ok key s → build s = (r, s') → state_ok key s' ∧ ∀ q, r = Ok q → wf_signed key q.

Lemma content_type_verifies ct q : server_verifies key q → server_verifies key (set_content_type ct q).
Proof.
  unfold server_verifies, set_content_type. cbn [wq_Method wq_Path wq_Body wq_Header with_header]. unfold Header_Get.
  rewrite !Header_Values_Set_ne by (vm_compute; discriminate). done.
Qed.

Lemma signed_post_ok streamed path body sha ct :
  sha = SHA256HexBytes body →
  builds_ok (signed_post (Some key) http1ProbeOnly url_ok ParseTime now random ctx_err net streamed path body sha ct).
Proof.
  intros -> s r s' Hok. unfold signed_post, newSignedStreamRequest.
  destruct (newRequest _ _ _ _ _) as [req|] eqn:En; [|by intros [= <- <-]].
  apply newRequest_eq in En as ->.
  destruct (sign_ s _ _) as [r0 s0] eqn:Es. apply sign_ok in Es as [Hs0 Hq]; [|done]. intros [= <- <-]. split; [done |].
  intros q Hr. destruct r0 as [q0|]; [|done]. apply Ok_inj in Hr. subst q. destruct (Hq q0 eq_refl) as (Hv & Hm & Hp & Hb & Hg & _).
  split; [by apply content_type_verifies |]. right. split; [exact Hm |]. exists body, ct.
  split_and!; [exact Hb | exact Hg |]. unfold set_content_type. cbn [wq_Header with_header]. by rewrite Header_Values_Set_eq.
Qed.

Lemma doSignedJSON_ok s req path idem rf r s' rf' :
  state_ok key s → wf_signed key req →
  doSignedJSON (Some key) http1ProbeOnly url_ok ParseTime now random ctx_err net body_run s req path idem rf = (r, s', rf') →
  state_ok key s'.
Proof.
  intros Hok Hq. unfold doSignedJSON, do. destruct (do_loop _ _ _ _ _ _ _ _ _ _ _ _ _ _ _ _) as [[r0 s0] rf0] eqn:Ed.
  intros [= _ <- _]. by eapply do_loop_ok.
Qed.

Lemma retryPostJSON_ok path hasKey build w max s r s' :
  builds_ok build → state_ok key s →
  retryPostJSON (Some key) http1ProbeOnly url_ok ParseTime now random ctx_err net body_run path hasKey build w max s = (r, s') →
  state_ok key s'.
Proof.
  intros Hb Hok H. apply retry_calls_run in H. revert Hok.
  induction H; intros Hok;
    match goal with Hbld : build s = _ |- _ => destruct (Hb _ _ _ Hok Hbld) as [Hs0 Hq] end; [done |..];
    match goal with Hdo : doSignedJSON _ _ _ _ _ _ _ _ _ _ _ _ _ _ = _ |- _ => apply doSignedJSON_ok in Hdo; [|done | by apply Hq] end; auto.
Qed.

Lemma postJSON_ok {B} `{Marshaler B} w max s path (body : B) idem r s' :
  state_ok key s →
  postJSON (Some key) http1ProbeOnly url_ok ParseTime now random ctx_err net body_run max w s path body idem = (r, s') →
  state_ok key s'.
Proof.
  intros Hok. unfold postJSON. destruct (Marshal body) as [payload|]; [|by intros [= _ <-]].
  apply retryPostJSON_ok; [|done]. by apply signed_post_ok.
Qed.

Lemma send_reply_ok w max s request r s' :
  state_ok key s →
  send_reply (Some key) http1ProbeOnly url_ok ParseTime now random ctx_err net body_run max w s request = (r, s') →
  state_ok key s'.
Proof.
  intros Hok. unfold send_reply. destruct request as [[req idem]|]; [|by intros [= _ <-]].
  destruct (postJSON _ _ _ _ _ _ _ _ _ _ _ _ _ _ _) as [r0 s0] eqn:E. intros [= _ <-]. by apply postJSON_ok in E.
Qed.

Lemma query_post_ok {B} `{Marshaler B} w max path (req : B) s r s' :
  state_ok key s →
  query_post (Some key) http1ProbeOnly url_ok ParseTime now random ctx_err net body_run max w path s req = (r, s') →
  state_ok key s'.
Proof.
  intros Hok. unfold query_post. destruct (postJSON _ _ _ _ _ _ _ _ _ _ _ _ _ _ _) as [r0 s0] eqn:E. intros [= _ <-].
  by apply postJSON_ok in E.
Qed.

(** A body-less request is signed as an empty body. *)
Lemma doGet_ok s path r s' :
  state_ok key s →
  doGet (Some key) http1ProbeOnly url_ok baseURL ParseTime now random ctx_err net body_run s path = (r, s') → state_ok key s'.
Proof.
  intros Hok. unfold doGet, doSigned, newSignedRequest, newSignedStreamRequest. cbv zeta.
  destruct (newRequest _ _ _ _ _) as [req|] eqn:En; [|by intros [= _ <-]].
  apply newRequest_eq in En as ->.
  destruct (sign_ s _ _) as [r0 s0] eqn:Es. apply sign_ok in Es as [Hs0 Hq]; [|done].
  destruct r0 as [q|]; [|by intros [= _ <-]]. destruct (Hq q eq_refl) as (Hv & Hm & _ & Hb & _).
  unfold do. destruct (do_loop _ _ _ _ _ _ _ _ _ _ _ _ _ _ _ _) as [[r1 s1] rf1] eqn:Ed. intros [= _ <-].
  apply do_loop_ok in Ed; [done | done |]. split; [done |]. left. by rewrite Hm, Hb.
Qed.

Lemma postStrictJSON_ok_state {A} (method : gostring → option A) s path payload r s' :
  state_ok key s →
  postStrictJSON (Some key) http1ProbeOnly url_ok ParseTime now random ctx_err net method s path payload = (r, s') → state_ok key s'.
Proof.
  intros Hok. unfold postStrictJSON. destruct payload as [payload|]; [|by intros [= _ <-]].
  destruct (newSignedRequest _ _ _ _ _ _ _ _ _ _ _ _) as [built s0] eqn:En.
  apply newSignedRequest_post in En as Hb.
  apply signed_post_ok in Hb as [Hs0 Hq]; [|done | done]. destruct built as [req|]; [|by intros [= _ <-]]. specialize (Hq _ eq_refl).
  unfold do. destruct (do_loop _ _ _ _ _ _ _ _ _ _ _ _ _ _ _ _) as [[r1 s1] rf1] eqn:Ed. intros [= _ <-]. by apply do_loop_ok in Ed.
Qed.

Lemma send_images_ok boundary multiple s room images opts r s' :
  state_ok key s →
  send_images (Some key) http1ProbeOnly url_ok ParseTime now random ctx_err net body_run ReplyRetryMax wait boundary
    multiple s room images opts = (r, s') → state_ok key s'.
Proof.
  intros Hok. unfold send_images. destruct (prepare_images _ _ _ _) as [[metadata cts]|]; [|by intros [= _ <-]].
  destruct (prepare_multipart _ _ _) as [f|] eqn:Ef; [|by intros [= _ <-]].
  destruct (retryPostJSON _ _ _ _ _ _ _ _ _ _ _ _ _ _ _) as [r0 s0] eqn:E. intros [= _ <-].
  apply retryPostJSON_ok in E; [done | | done]. apply signed_post_ok. rewrite SHA256HexBytes_spec.
  unfold prepare_multipart in Ef. destruct (Marshal metadata); [|done]. inv_ok. by apply NewBodyFactory_ok in Ef as [-> _].
Qed.

Lemma SendFile_ok boundary c0 c1 c2 s room file opts r s' :
  (∀ ra, rf_readerAt file = Some ra → ∃ content, stable ra content) → state_ok key s →
  SendFile (Some key) http1ProbeOnly url_ok ParseTime now random ctx_err net body_run ReplyRetryMax wait ctx_done
    boundary c0 c1 c2 s room file opts = (r, s') → state_ok key s'.
Proof.
  intros Hst Hok. unfold SendFile. destruct (prepare_file _ _ _ _ _) as [[metadata ct]|]; [|by intros [= _ <-]].
  destruct (postFileMultipart _ _ _ _ _ _ _ _ _ _ _ _ _ _ _ _ _ _ _) as [r0 s0] eqn:E. intros [= _ <-].
  unfold postFileMultipart in E. destruct (Marshal metadata) as [b|]; [|by injection E as _ <-].
  destruct (NewFileBodyFactory _ _ _ _ _ _ _ _) as [f|] eqn:Ef; [|by injection E as _ <-].
  destruct (rf_readerAt file) as [ra|] eqn:Era; [|by injection E as _ <-]. destruct (Hst ra eq_refl) as [content Hs].
  apply (factory_ok _ _ content) in Ef as (_ & Hfl & Hlen & _ & _ & Hsha & Hbl); [|done]. rewrite <- Hlen in Hfl, Hsha, Hbl.
  apply retryPostJSON_ok in E; [done | | done]. apply signed_post_ok.
  by rewrite SHA256HexBytes_spec, (file_stream_body ra content c2 f).
Qed.

(** Every operation keeps the state well formed. *)
Lemma run_operation_ok s op :
  state_ok key s → operation_ok op →
  state_ok key (run_operation s op).
Proof.
  intros Hok Hop. destruct op; cbn [run_operation].
  1-3: eapply send_reply_ok; [exact Hok | apply surjective_pairing].
  3-4: eapply (query_post_ok _ _ _ req); [exact Hok | apply surjective_pairing].
  4-8: eapply doGet_ok; [exact Hok | apply surjective_pairing].
  - eapply send_images_ok; [exact Hok | apply surjective_pairing].
  - eapply SendFile_ok; [exact Hop | exact Hok | apply surjective_pairing].
  - unfold GetReplyStatus. destruct (GetReplyStatus_path _); [|done]. eapply doGet_ok; [exact Hok | apply surjective_pairing].
  - unfold FetchMediaChunk. destruct (normalizeMediaChunkRequest _) as [q|]; [|done].
    destruct (postStrictJSON _ _ _ _ _ _ _ _ _ _ _ _) as [r s1] eqn:E. by apply postStrictJSON_ok_state in E.
  - unfold Ping. destruct (newRequest _ _ _ _ _) as [req|] eqn:En; [|done].
    apply newRequest_eq in En as ->. fold ready_request.
    destruct (client_Do net s ready_request) as [r s1] eqn:Ed. apply state_ok_Do in Ed; [done | done | by right; left].
Qed.
End session.

(** C4: every request a client sends is well formed and verifies.  Whatever operations a client runs, in any order,
    and whatever the network answers, each request it ever puts on the wire is the unsigned discovery of the epoch, the
    unsigned readiness probe, or a signed GET without a body or POST with a body and a content type, first or
    replayed, that the server verifies: the hash it computes from the body it received is the one in the header, the
    signature it recomputes over the method, target, timestamp and nonce it received is the one in the header, and
    the nonce begins with an epoch of the right form; and the cached epoch has that form too. *)
Theorem every_request_verifies (key : gostring) (http1ProbeOnly : bool) (url_ok : gostring → bool) (baseURL : gostring)
    (ParseTime : gostring → option Z) (now : nat → Z) (random : nat → gostring)
    (ctx_err : nat → option goerror) (net : nat → wireRequest → result goerror response) (T : Type)
    (body_run : nat → response → bodyRun T) (ReplyRetryMax : Z) (wait : nat → option goerror) (ctx_done : nat → bool)
    (ops : list operation) :
  Forall operation_ok ops →
  let s := run_session key http1ProbeOnly url_ok baseURL ParseTime now random ctx_err net body_run ReplyRetryMax wait ctx_done
             ops in
  (cs_epoch s = [] ∨ validAuthEpoch (cs_epoch s) = true) ∧
  Forall (λ q, q = epoch_request ∨ q = ready_request ∨ server_verifies key q ∧ wf_body q) (cs_sent s).
Proof.
  intros Hops s. enough (state_ok key s) as [? ?] by done. subst s. unfold run_session.
  assert (state_ok key (mkCState [] [])) as H0 by (split; [by left | by apply Forall_nil]). revert H0.
  generalize (mkCState [] []). induction Hops as [|op ops Hop _ IH]; intros s0 H0; [done |]. cbn [foldl]. by apply IH, run_operation_ok.
Qed.

(** A server that gives out one epoch and accepts everything, and a client that probes it, lists the rooms and sends. *)
Definition epoch_server (_ : nat) (q : wireRequest) : result goerror response :=
  Ok (mkResponse 200 [] (mkBody (go "{" ++ [x22] ++ go "epoch" ++ [x22; x3a; x22] ++ repeat "a"%byte 32 ++ [x22] ++ go "}") false) None).
Definition demo_session : list operation :=
  [OpPing; OpGetRooms; OpSendMessageAccepted (go "room") (go "hi") []; OpSendFile (go "b0") (go "room") demo_reply_file [] 0 0 0].
Definition demo_state : cstate :=
  run_session (go "secret") false (λ _, true) (go "https://iris") (λ _, None) (λ _, 500) (λ _, repeat x07 32) (λ _, None) epoch_server
    plain_run 3 (λ _, None) (λ _, false) demo_session.

Lemma every_request_verifies_witness :
  map (λ q, (wq_Method q, wq_Path q)) (cs_sent demo_state) =
    [(MethodGet, PathReady); (MethodGet, authEpochPath); (MethodGet, PathRooms); (MethodPost, PathReply); (MethodPost, PathReply)] ∧
  Forall (λ q, q = epoch_request ∨ q = ready_request ∨ server_verifies (go "secret") q ∧ wf_body q) (cs_sent demo_state).
Proof.
  split; [vm_compute; reflexivity |].
  refine (proj2 (every_request_verifies (go "secret") false (λ _, true) (go "https://iris") (λ _, None) (λ _, 500) (λ _, repeat x07 32)
    (λ _, None) epoch_server nat plain_run 3 (λ _, None) (λ _, false)
    demo_session _)).
  repeat (apply Forall_cons; split; [exact I |]). apply Forall_cons. split; [|by apply Forall_nil].
  intros ra [= <-]. exists (go "abcdef"). apply bytes_reader_stable.
Defined.
