(* ===== verification/Concurrent.v ===== *)
(** * Concurrent: any number of calls of one client at once (internal/client/transport: auth_epoch.go, execute.go,
      retry.go, client.go)

    Goroutines that each run one call (build, sign, send, read, replay once, retry) against the shared epoch cache of
    [AuthEpoch], as a composition of two machines: a call's own steps, and the cache's, which synchronize on the
    labels of the cache.  The network may answer any request at any time with anything the parameter [answers]
    allows; clocks, randomness, contexts and what reading a body meets are arbitrary at each step. *)

From S2P Require Import Prelude GoStrings GoStrconv GoJson GoHttp GoCrypto Canonical Hmac Errors Retry Execute AuthEpoch.
From S2P Require Import Path Multipart MultipartFrame Send Calls SendFile Media StrictJson Fetch Session.

(** ** Calls *)

(** What a goroutine was asked to do: the request, how a failed build is wrapped, how failures name the request, and
    how often it is retried. *)
Record call := mkCall {
  cl_method : gostring;
  cl_path : gostring;
  cl_body : option gostring;
  cl_sha : gostring;
  cl_contentType : option gostring;
  cl_wrap : goerror → goerror;
  cl_op : gostring;
  cl_errURL : gostring;
  cl_key : bool;
  cl_retries : nat;
}.

(** A retried POST ([retryPostJSON] of a [signed_post]) and a GET ([doGet]). *)
Definition post_call (streamed : bool) (path body sha contentType : gostring) (key : bool) (ReplyRetryMax : Z) : call :=
  mkCall MethodPost path (Some body) sha (Some contentType) (λ e, if streamed then EWrap [EWrap [e]] else EWrap [e]) (go "post")
    path key (Z.to_nat (maxAttempts path ReplyRetryMax - 1)).
Definition get_call (baseURL path : gostring) : call :=
  mkCall MethodGet path None (SHA256HexBytes []) None (λ e, EWrap [e]) (ToLower MethodGet) (redactedURLForError (baseURL ++ path))
    true 0.

Section machine.
Context (secret : option gostring) (http1ProbeOnly : bool) (url_ok : gostring → bool) (ParseTime : gostring → option Z).
Context {T : Type}.
(** What the network may answer to a request, and what reading the body of a success answer may meet. *)
Context (answers : wireRequest → result goerror response → Prop) (reads : response → bodyRun T → Prop).

(** ** A goroutine *)

Inductive phase :=
| PBuild                                                          (** before the request is built *)
| PSign (q : wireRequest) (sha : gostring) (replay : bool) (c : nat) (e : goerror)
                                                                  (** in [authEpoch] as caller [c] of the cache; [e] is
                                                                      the error it returns, if its epoch is not found *)
| PResign (q : wireRequest)                                       (** refused for its epoch, before signing again *)
| PSend (q : wireRequest)
| PFlight (q : wireRequest)
| PFailed (e : goerror)                                           (** an attempt failed, before the retry decision *)
| PDone (r : callResult T).

(** [th_log]: its requests that were answered, with the answers. *)
Record thread := mkThread {
  th_call : call;
  th_left : nat;
  th_unknown : option goerror;
  th_refreshed : bool;
  th_phase : phase;
  th_log : list (wireRequest * result goerror response);
}.

Definition new_thread (cl : call) : thread := mkThread cl (cl_retries cl) None false PBuild [].

Definition set_phase (t : thread) (p : phase) : thread :=
  mkThread (th_call t) (th_left t) (th_unknown t) (th_refreshed t) p (th_log t).

(** The end of a call with an error: an unknown outcome on record is kept. *)
Definition stop_call (t : thread) (e : goerror) : thread :=
  set_phase t (PDone (CallErr (keepUnknownOutcome e (th_unknown t) (cl_path (th_call t)) (cl_key (th_call t))))).

Definition new_request (cl : call) : result goerror wireRequest :=
  newRequest http1ProbeOnly url_ok (cl_method cl) (cl_path cl) (cl_body cl).

Definition finish (cl : call) (q : wireRequest) : wireRequest :=
  match cl_contentType cl with Some ct => set_content_type ct q | None => q end.

(** What a caller of the cache has to report before anything went wrong. *)
Definition no_error : goerror := EOther [].

(** The error a caller of the cache is given when its context is over. *)
Definition cancel_error (c : ecaller) (ctxErr : goerror) : goerror :=
  authEpochTransportError (match c with EWaiting _ => go "wait for authentication epoch" | _ => go "discover authentication epoch" end) ctxErr.

(** [fetchAuthEpoch] on an answer that arrived at time [now]. *)
Definition fetch_outcome (now : Z) (answer : result goerror response) : result goerror gostring :=
  (fetchAuthEpoch http1ProbeOnly url_ok ParseTime (λ _, now) (λ _ _, answer) (mkCState [] [])).1.

Definition load_error (err : goerror) : goerror := if Is err ErrNotSent then err else EWrap [ESentinel ErrNotSent; err].

(** [signRequest] once the epoch is known. *)
Definition sign_with (key epoch : gostring) (now : Z) (random : gostring) (q : wireRequest) (sha : gostring) : result goerror wireRequest :=
  match SetIrisHMACHeaders key (wq_Method q) (wq_Path q) sha epoch now random with
  | Err _ => Err (EWrap [EOther (go "sign iris request")])
  | Ok l => Ok (with_header q (set_headers (wq_Header q) l))
  end.

(** After [signRequest]: the first time for the built request, then for its replay. *)
Definition signed (t : thread) (q : wireRequest) (replay : bool) (r : result goerror wireRequest) : thread :=
  match r, replay with
  | Ok q', false => set_phase t (PSend (finish (th_call t) q'))
  | Ok q', true =>
      match replay_body q q' with
      | Ok q'' => set_phase t (PSend q'')
      | Err err => set_phase t (PFailed err)
      end
  | Err err, false => stop_call t (cl_wrap (th_call t) err)
  | Err err, true => set_phase t (PFailed (EStop err))
  end.

(** The epoch [refreshAuthEpoch] may forget: that of the nonce of a request refused with a verified mismatch. *)
Definition mismatch_epoch (q : wireRequest) (err : goerror) : option gostring :=
  match AsHTTPError err with
  | None => None
  | Some e =>
      if negb (he_StatusCode e =? 401) || negb (seqb (HTTPErrorCode err) authEpochMismatchCode) then None
      else
        let '(used, _, bound) := Cut "." (Header_Get (wq_Header q) HeaderIrisNonce) in
        if negb bound || negb (validAuthEpoch used) || match secret with None => true | Some _ => false end then None
        else Some used
  end.

(** An answer arrives: the cache's label, if its epoch is to be forgotten, and the goroutine after it. *)
Definition receive (t : thread) (q : wireRequest) (answer : result goerror response) (now : Z) (b : bodyRun T)
  : option elabel * thread :=
  let cl := th_call t in
  let go_on p := mkThread cl (th_left t) (th_unknown t) (th_refreshed t) p (th_log t ++ [(q, answer)]) in
  match answer with
  | Err err => (None, go_on (PFailed (ETransport (cl_op cl) (cl_errURL cl) (Some err) (cl_key cl))))
  | Ok resp =>
      if isSuccessfulHTTPStatus (rs_StatusCode resp) then
        (None, go_on (match decodeJSONBody b (cl_method cl) (cl_path cl) (cl_key cl) with
                      | Ok v => PDone (CallOk v)
                      | Err e => PFailed e
                      end))
      else
        match readErrorResponse ParseTime now (cl_path cl) resp with
        | None => (None, go_on (PDone CallPanic))
        | Some httpErr =>
            let responseErr := EHTTP httpErr in
            match rs_CloseErr resp with
            | Some t => (None, go_on (PFailed (EStop (EWrap [responseErr; EOther t]))))
            | None =>
                let fail := PFailed (if Is responseErr ErrNotSent then EStop (EWrap [responseErr]) else EWrap [responseErr]) in
                match mismatch_epoch q responseErr with
                | None => (None, go_on fail)
                | Some used =>
                    (Some (LForget used),
                     if th_refreshed t then go_on fail
                     else mkThread cl (th_left t) (th_unknown t) true (PResign q) (th_log t ++ [(q, answer)]))
                end
            end
        end
  end.

(** The retry decision; [wait] is how the wait before the next attempt ends. *)
Definition decide_retry (t : thread) (err : goerror) (wait : option goerror) : thread :=
  let cl := th_call t in
  let u := if Is err ErrTransport then Some err else th_unknown t in
  let t := mkThread cl (th_left t) u (th_refreshed t) (th_phase t) (th_log t) in
  if negb (isRetryableReplyError err (cl_key cl)) then stop_call t err
  else match th_left t with
       | O => stop_call t err
       | S n =>
           match wait with
           | Some ctxErr => set_phase t (PDone (CallErr (retryWaitError ctxErr u (cl_path cl) (cl_key cl))))
           | None => mkThread cl n u (th_refreshed t) PBuild (th_log t)
           end
       end.

(** The steps of a goroutine, with the step of the cache they are made of, if any; [callers] are those of the cache. *)
Inductive tstep (callers : list ecaller) : thread → option elabel → thread → Prop :=
| t_build_fails t err :
    th_phase t = PBuild → new_request (th_call t) = Err err →
    tstep callers t None (stop_call t (cl_wrap (th_call t) err))
| t_build_unsigned t q :
    th_phase t = PBuild → new_request (th_call t) = Ok q → secret = None →
    tstep callers t None (set_phase t (PSend (finish (th_call t) q)))
| t_build t q key :
    th_phase t = PBuild → new_request (th_call t) = Ok q → secret = Some key →
    tstep callers t (Some LCall) (set_phase t (PSign q (cl_sha (th_call t)) false (length callers) no_error))
| t_move t q sha replay c e :
    th_phase t = PSign q sha replay c e → tstep callers t (Some (LMove c)) t
| t_cancel t q sha replay c e x ctxErr :
    th_phase t = PSign q sha replay c e → callers !! c = Some x →
    tstep callers t (Some (LCancel c)) (set_phase t (PSign q sha replay c (cancel_error x ctxErr)))
| t_discovered t q sha replay c e now answer v :
    th_phase t = PSign q sha replay c e → answers epoch_request answer → fetch_outcome now answer = Ok v →
    tstep callers t (Some (LAnswer c (Some v))) t
| t_not_discovered t q sha replay c e now answer err :
    th_phase t = PSign q sha replay c e → answers epoch_request answer → fetch_outcome now answer = Err err →
    tstep callers t (Some (LAnswer c None)) (set_phase t (PSign q sha replay c (load_error err)))
| t_no_epoch t q sha replay c e :
    th_phase t = PSign q sha replay c e → callers !! c = Some (EReturned None) →
    tstep callers t None (signed t q replay (Err e))
| t_sign t q sha replay c e key epoch now random :
    th_phase t = PSign q sha replay c e → callers !! c = Some (EReturned (Some epoch)) → secret = Some key →
    tstep callers t None (signed t q replay (sign_with key epoch now random q sha))
| t_resign t q key :
    th_phase t = PResign q → secret = Some key →
    tstep callers t (Some LCall)
      (set_phase t (PSign q (Header_Get (wq_Header q) HeaderIrisBodySHA256) true (length callers) no_error))
| t_send t q : th_phase t = PSend q → tstep callers t None (set_phase t (PFlight q))
| t_receive t q answer now b :
    th_phase t = PFlight q → answers q answer → (∀ resp, answer = Ok resp → reads resp b) →
    tstep callers t (receive t q answer now b).1 (receive t q answer now b).2
| t_retry t err wait :
    th_phase t = PFailed err → tstep callers t None (decide_retry t err wait).

(** ** The client *)

Record client := mkClient { c_cache : ecache; c_threads : list thread }.

Definition set_thread (s : client) (cache : ecache) (i : nat) (t : thread) : client := mkClient cache (<[i := t]> (c_threads s)).

(** [CSpawn]: a goroutine enters with a call; [CRun i l]: goroutine [i] makes a step, of the cache too when [l] is one. *)
Inductive clabel := CSpawn (cl : call) | CRun (i : nat) (l : option elabel).

Definition cache_label (l : clabel) : option elabel := match l with CRun _ l => l | CSpawn _ => None end.

Inductive cstep : clabel → client → client → Prop :=
| c_spawn s cl : cstep (CSpawn cl) s (mkClient (c_cache s) (c_threads s ++ [new_thread cl]))
| c_local s i t t' :
    c_threads s !! i = Some t → tstep (ec_callers (c_cache s)) t None t' →
    cstep (CRun i None) s (set_thread s (c_cache s) i t')
| c_sync s i t l t' cache :
    c_threads s !! i = Some t → tstep (ec_callers (c_cache s)) t (Some l) t' → estep l (c_cache s) cache →
    cstep (CRun i (Some l)) s (set_thread s cache i t').

Inductive csteps : list clabel → client → client → Prop :=
| csteps_nil s : csteps [] s s
| csteps_snoc ls l s t u : csteps ls s t → cstep l t u → csteps (ls ++ [l]) s u.

Definition new_client (epoch : gostring) : client := mkClient (new_ecache epoch) [].

(** ** The cache alone *)

(** The runs of a client are runs of its cache. *)
Lemma csteps_cache ls s t : csteps ls s t → esteps (omap cache_label ls) (c_cache s) (c_cache t).
Proof.
  induction 1 as [s|ls l s t u _ IH Hstep]; [apply esteps_nil |]. rewrite omap_app.
  destruct Hstep; cbn [omap list_omap cache_label c_cache set_thread]; rewrite ?app_nil_r; try done.
  by eapply esteps_snoc.
Qed.

(** The client's own handling of a refusal is that of [refreshAuthEpoch]. *)
Lemma mismatch_epoch_spec cs q err rf :
  refreshAuthEpoch secret cs q err rf =
  match mismatch_epoch q err with
  | None => (false, cs, rf)
  | Some used => (negb rf, if seqb (cs_epoch cs) used then set_epoch cs [] else cs, true)
  end.
Proof.
  unfold refreshAuthEpoch, mismatch_epoch. destruct (AsHTTPError err) as [e|]; [|done]. destruct (negb _ || negb _); [done |].
  destruct (Cut _ _) as [[used ?] bound]. destruct (negb bound || _ || _); [done |]. by destruct rf.
Qed.

Lemma mismatch_epoch_some q err used :
  mismatch_epoch q err = Some used → secret ≠ None ∧ ∃ e, AsHTTPError err = Some e ∧ he_StatusCode e = 401 ∧
    HTTPErrorCode err = authEpochMismatchCode ∧ ∃ rest, Cut "." (Header_Get (wq_Header q) HeaderIrisNonce) = (used, rest, true).
Proof.
  unfold mismatch_epoch. destruct (AsHTTPError err) as [e|]; [|done].
  destruct (negb (he_StatusCode e =? 401) || negb (seqb (HTTPErrorCode err) authEpochMismatchCode)) eqn:E; [done |].
  destruct (Cut _ _) as [[u rest] bound]. destruct (negb bound || negb (validAuthEpoch u) || _) eqn:Eb; [done |]. intros [= <-].
  bool_props. split; [by destruct secret |]. exists e. split_and!; [done | done | done |]. exists rest.
  by destruct bound.
Qed.
(** ** Invariants of goroutines *)

(** A property of the cache and one of each goroutine that hold together: a goroutine enters with it, keeps it by its
    own steps, and a step of the cache keeps it for every other. *)
Record thread_inv (I : ecache → Prop) (P : ecache → thread → Prop) : Prop := {
  ti_new c cl : I c → P c (new_thread cl);
  ti_local c t t' : I c → P c t → tstep (ec_callers c) t None t' → P c t';
  ti_sync c t l t' c' :
    I c → P c t → tstep (ec_callers c) t (Some l) t' → estep l c c' → I c' ∧ P c' t' ∧ ∀ u, P c u → P c' u;
}.

Lemma cstep_inv I P l s u :
  thread_inv I P → cstep l s u →
  I (c_cache s) → Forall (P (c_cache s)) (c_threads s) → I (c_cache u) ∧ Forall (P (c_cache u)) (c_threads u).
Proof.
  intros [Hnew Hlocal Hsync] Hstep HI HP. destruct Hstep as [s cl|s i t t' Hi Ht|s i t l t' cache Hi Ht He];
    cbn [c_cache c_threads set_thread].
  - split; [done |]. apply Forall_app. split; [done |]. by apply Forall_singleton, Hnew.
  - split; [done |]. apply Forall_insert; [done |]. eapply Hlocal; [done | by eapply Forall_lookup_1 | done].
  - destruct (Hsync _ _ _ _ _ HI (Forall_lookup_1 _ _ _ _ HP Hi) Ht He) as (HI' & Ht' & Hu). split; [done |].
    apply Forall_insert; [|done]. eapply Forall_impl; [exact HP | exact Hu].
Qed.

Lemma csteps_inv I P ls s u :
  thread_inv I P → csteps ls s u →
  I (c_cache s) → Forall (P (c_cache s)) (c_threads s) → I (c_cache u) ∧ Forall (P (c_cache u)) (c_threads u).
Proof.
  intros Hinv Hs HI HP. induction Hs as [s|ls l s t u _ IH Hstep]; [done |].
  destruct IH as [HI' HP']; [done | done |]. by eapply cstep_inv.
Qed.

(** A property of goroutines alone. *)
Lemma csteps_threads (P : thread → Prop) ls v s :
  (∀ cl, P (new_thread cl)) → (∀ callers t l t', P t → tstep callers t l t' → P t') →
  csteps ls (new_client v) s → Forall P (c_threads s).
Proof.
  intros Hnew Hstep Hs.
  refine (proj2 (csteps_inv (λ _, True) (λ _, P) ls _ s _ Hs I _)); [|by apply Forall_nil].
  split; [auto | eauto |]. intros c t l t' c' _ Ht Hl _. split_and!; eauto.
Qed.

(** The cache's own invariant. *)
Lemma csteps_cache_ok ls v s : epoch_value_ok v → csteps ls (new_client v) s → ecache_ok (c_cache s).
Proof. intros Hv Hs%csteps_cache. eapply esteps_ok; [|exact Hs]. by apply new_ecache_ok. Qed.

(** ** Answers *)

(** A verified epoch mismatch, whenever it is read. *)
Definition is_mismatch (path : gostring) (resp : response) : Prop :=
  ∃ now h, readErrorResponse ParseTime now path resp = Some h ∧ he_StatusCode h = 401 ∧ he_code h = authEpochMismatchCode.

(** The server refused the request without processing it. *)
Definition exchange_refused (path : gostring) (x : wireRequest * result goerror response) : Prop :=
  ∃ resp, x.2 = Ok resp ∧ (rs_StatusCode resp = 429 ∨ is_mismatch path resp).

(** The server refused the request for the epoch [used] it was signed with. *)
Definition refused_for (path used : gostring) (x : wireRequest * result goerror response) : Prop :=
  ∃ resp rest, x.2 = Ok resp ∧ is_mismatch path resp ∧ Cut "." (Header_Get (wq_Header x.1) HeaderIrisNonce) = (used, rest, true).

Lemma refused_for_refused path used x : refused_for path used x → exchange_refused path x.
Proof. intros (resp & rest & Hx & Hm & _). exists resp. auto. Qed.

(** An attempt is over. *)
Definition is_over (p : phase) : bool := match p with PFailed _ | PDone _ => true | _ => false end.

Definition answered (t : thread) (rf : bool) (p : phase) (x : wireRequest * result goerror response) : thread :=
  mkThread (th_call t) (th_left t) (th_unknown t) rf p (th_log t ++ [x]).

Lemma receive_cases t q a now b :
  ∃ l p rf, receive t q a now b = (l, answered t rf p (q, a)) ∧
    (∀ x, l = Some x → ∃ used, x = LForget used ∧ refused_for (cl_path (th_call t)) used (q, a)) ∧
    (rf = th_refreshed t ∧ is_over p = true ∨
     rf = true ∧ th_refreshed t = false ∧ p = PResign q ∧ secret ≠ None ∧ ∃ used, l = Some (LForget used)).
Proof.
  unfold receive, answered. destruct a as [resp|err]; [|do 3 eexists; split_and!; [done | done | by left]].
  destruct (isSuccessfulHTTPStatus _).
  { do 3 eexists. split_and!; [done | done |]. left. by destruct (decodeJSONBody _ _ _ _). }
  destruct (readErrorResponse _ _ _ resp) as [h|] eqn:Eh; [|do 3 eexists; split_and!; [done | done | by left]].
  destruct (rs_CloseErr resp); [do 3 eexists; split_and!; [done | done | by left] |].
  destruct (mismatch_epoch q (EHTTP h)) as [used|] eqn:Em; [|do 3 eexists; split_and!; [done | done | by left]].
  apply mismatch_epoch_some in Em as (Hsec & e & [= <-] & Hst & Hcode & rest & Hcut).
  assert (refused_for (cl_path (th_call t)) used (q, Ok resp)) as Hr.
  { exists resp, rest. split_and!; [done | | done]. by exists now, h. }
  destruct (th_refreshed t); do 3 eexists; (split_and!; [done | intros x [= <-]; by eauto |]); [by left | right; split_and!; by eauto].
Qed.

(** ** What goroutines put on the wire *)

(** The hash a call signs is that of its body; a call that may not be repeated is a POST. *)
Definition call_ok (cl : call) : Prop :=
  cl_sha cl = SHA256HexBytes (default [] (cl_body cl)) ∧ (cl_key cl = false → cl_method cl = MethodPost).

Definition carries (cl : call) (q : wireRequest) : Prop :=
  wq_Method q = cl_method cl ∧ wq_Path q = cl_path cl ∧ wq_Body q = cl_body cl ∧
  wq_GetBody q = match cl_body cl with Some b => Some (Ok b) | None => None end.

Definition typed_as (cl : call) (q : wireRequest) : Prop :=
  ∀ ct, cl_contentType cl = Some ct → Header_Values (wq_Header q) HeaderContentType = [ct].

(** The server verifies the request, and its nonce begins with one of the epochs. *)
Definition verified (key : gostring) (epochs : list gostring) (q : wireRequest) : Prop :=
  server_verifies key q ∧ ∃ epoch suffix, epoch ∈ epochs ∧ Header_Get (wq_Header q) HeaderIrisNonce = epoch ++ "."%byte :: suffix.

Definition request_good (key : gostring) (epochs : list gostring) (cl : call) (q : wireRequest) : Prop :=
  carries cl q ∧ typed_as cl q ∧ verified key epochs q.

Definition phase_good (key : gostring) (epochs : list gostring) (cl : call) (p : phase) : Prop :=
  match p with
  | PSign q sha replay _ _ =>
      carries cl q ∧ sha = SHA256HexBytes (default [] (cl_body cl)) ∧ (replay = true → typed_as cl q)
  | PResign q | PSend q | PFlight q => request_good key epochs cl q
  | PBuild | PFailed _ | PDone _ => True
  end.

Definition thread_good (key : gostring) (c : ecache) (t : thread) : Prop :=
  call_ok (th_call t) ∧ phase_good key (ec_installed c) (th_call t) (th_phase t) ∧
  Forall (λ x, request_good key (ec_installed c) (th_call t) x.1) (th_log t).

Lemma sign_with_good key epochs cl epoch time r q sha q' :
  carries cl q → sha = SHA256HexBytes (default [] (cl_body cl)) → validAuthEpoch epoch = true → epoch ∈ epochs →
  sign_with key epoch time r q sha = Ok q' →
  carries cl q' ∧ verified key epochs q' ∧ Header_Values (wq_Header q') HeaderContentType = Header_Values (wq_Header q) HeaderContentType.
Proof.
  intros (Hm & Hp & Hb & Hg) -> Hv Hin. unfold sign_with. destruct (SetIrisHMACHeaders _ _ _ _ _ _ _) as [l|] eqn:El; [|done].
  intros Hq. apply Ok_inj in Hq. subst q'. rewrite <- Hb in El. apply signed_headers_verify in El as (Hs & (suffix & Hn) & Hc); [|done].
  split_and!; [by split_and! | | done]. split; [done |]. by exists epoch, suffix.
Qed.

Lemma finish_good key epochs cl q : carries cl q → verified key epochs q → request_good key epochs cl (finish cl q).
Proof.
  intros Hc [Hv He]. unfold finish, request_good, typed_as, carries. destruct (cl_contentType cl) as [ct|]; [|split_and!; [apply Hc.. | done | by split]].
  split_and!; try apply Hc.
  - intros ct' [= <-]. unfold set_content_type. cbn [wq_Header with_header]. by rewrite Header_Values_Set_eq.
  - split; [by apply content_type_verifies |]. destruct He as (epoch & suffix & Hin & Hn). exists epoch, suffix. split; [done |].
    rewrite <- Hn. unfold set_content_type. cbn [wq_Header with_header]. unfold Header_Get.
    by rewrite Header_Values_Set_ne by (vm_compute; discriminate).
Qed.

(** The body of a replay is that of the request. *)
Lemma replay_body_good cl q q' : carries cl q → carries cl q' →
  ∃ q'', replay_body q q' = Ok q'' ∧ carries cl q'' ∧ wq_Header q'' = wq_Header q' ∧ wq_Method q'' = wq_Method q' ∧
    wq_Path q'' = wq_Path q' ∧ wq_Body q'' = wq_Body q'.
Proof.
  intros (Hm & Hp & Hb & Hg) (Hm' & Hp' & Hb' & Hg'). unfold replay_body. rewrite Hb, Hg.
  destruct (cl_body cl) as [b|] eqn:Eb; eexists; (split; [done |]); unfold carries; rewrite ?Eb;
    cbn [wq_Method wq_Path wq_Header wq_Body wq_GetBody]; by split_and!.
Qed.

Lemma new_request_carries cl q : new_request cl = Ok q → carries cl q.
Proof. intros H%newRequest_eq. subst q. by split_and!. Qed.

Lemma signed_good key epochs t q sha replay c e r :
  phase_good key epochs (th_call t) (PSign q sha replay c e) →
  (∀ q', r = Ok q' → carries (th_call t) q' ∧ verified key epochs q' ∧
     Header_Values (wq_Header q') HeaderContentType = Header_Values (wq_Header q) HeaderContentType) →
  phase_good key epochs (th_call t) (th_phase (signed t q replay r)).
Proof.
  intros (Hc & _ & Hty) Hr. unfold signed. destruct r as [q'|err]; [|by destruct replay].
  destruct (Hr q' eq_refl) as (Hc' & [Hv He] & Hct). destruct replay; cbn [th_phase set_phase]; [|by apply finish_good].
  destruct (replay_body_good _ _ _ Hc Hc') as (q'' & -> & Hc'' & Hh & Hm & Hp & Hb). cbn [th_phase set_phase phase_good].
  split_and!; [done | |].
  - intros ct Hct'. rewrite Hh, Hct. by apply Hty.
  - unfold verified, server_verifies in *. by rewrite Hh, Hm, Hp, Hb.
Qed.

(** What the steps of a goroutine that keep its log and its call do. *)
Lemma signed_frame t q replay r : th_call (signed t q replay r) = th_call t ∧ th_log (signed t q replay r) = th_log t.
Proof. unfold signed. destruct r, replay; try done. by destruct (replay_body _ _). Qed.

Lemma decide_retry_frame t err wait :
  th_call (decide_retry t err wait) = th_call t ∧ th_log (decide_retry t err wait) = th_log t ∧
  (th_phase (decide_retry t err wait) = PBuild ∨ ∃ r, th_phase (decide_retry t err wait) = PDone r).
Proof.
  unfold decide_retry. destruct (negb _); [by eauto |]. cbn [th_left]. destruct (th_left t); [by eauto |]. destruct wait; by eauto.
Qed.

Lemma signed_refreshed t q rp r : th_refreshed (signed t q rp r) = th_refreshed t.
Proof. unfold signed. destruct r, rp; try done. by destruct (replay_body _ _). Qed.

Lemma decide_retry_refreshed t err w : th_refreshed (decide_retry t err w) = th_refreshed t.
Proof. unfold decide_retry. destruct (negb _); [done |]. cbn [th_left]. destruct (th_left t); [done |]. by destruct w. Qed.

(** The exchanges of a goroutine: nothing new, or one answer. *)
Lemma tstep_log callers t ol t' : tstep callers t ol t' →
  th_call t' = th_call t ∧
  (th_log t' = th_log t ∧ th_refreshed t' = th_refreshed t ∨
   ∃ q a now b, th_phase t = PFlight q ∧ answers q a ∧ t' = (receive t q a now b).2 ∧ th_log t' = th_log t ++ [(q, a)]).
Proof.
  intros Hs. destruct Hs as [| | | | | | | t q sha rp i e0|t q sha rp i e0 k ep now r| | |t q a now b Ht Ha|t err w];
    try (split; [done |]; by left).
  - destruct (signed_frame t q rp (Err e0)) as [-> ->]. rewrite signed_refreshed. split; [done | by left].
  - destruct (signed_frame t q rp (sign_with k ep now r q sha)) as [-> ->]. rewrite signed_refreshed. split; [done | by left].
  - destruct (receive_cases t q a now b) as (l & p & rf & E & _). split; [by rewrite E |]. right. exists q, a, now, b.
    rewrite E. by split_and!.
  - destruct (decide_retry_frame t err w) as (-> & -> & _). rewrite decide_retry_refreshed. split; [done | by left].
Qed.

Lemma thread_good_weaken key c c' t :
  (∀ e, e ∈ ec_installed c → e ∈ ec_installed c') → thread_good key c t → thread_good key c' t.
Proof.
  intros Hsub (Hok & Hp & Hl).
  assert (∀ q, request_good key (ec_installed c) (th_call t) q → request_good key (ec_installed c') (th_call t) q) as Hq.
  { intros q (? & ? & ? & e & suf & Hin & ?). split_and!; [done | done |]. split; [done |]. exists e, suf. auto. }
  split_and!; [done | |by eapply Forall_impl; [exact Hl | intros x; apply Hq]]. destruct (th_phase t); cbn [phase_good] in *; auto.
Qed.

Lemma estep_installed l c c' : estep l c c' → ∀ e, e ∈ ec_installed c → e ∈ ec_installed c'.
Proof.
  intros Hs e He. destruct Hs; try done; cbn [ec_installed end_load].
  - destruct r; [|done]. apply elem_of_app. by left.
  - unfold forget_epoch. by destruct (seqb _ _).
Qed.

Lemma tstep_good key c t l t' :
  secret = Some key → ecache_ok c → thread_good key c t → tstep (ec_callers c) t l t' → thread_good key c t'.
Proof.
  intros Hsec Hok (Hcl & Hp & Hl) Hs.
  destruct Hs as [t err Ht Hn|t q Ht Hn Hs|t q k Ht Hn Hs|t q sha rp i e Ht|t q sha rp i e x ctxErr Ht Hx|t q sha rp i e now a v Ht Ha Hf
    |t q sha rp i e now a err Ht Ha Hf|t q sha rp i e Ht Hx|t q sha rp i e k ep now r Ht Hx Hs|t q k Ht Hs|t q Ht|t q a now b Ht Ha Hb|t err w Ht];
    rewrite Ht in Hp.
  - by split_and!.
  - congruence.
  - apply new_request_carries in Hn. destruct Hcl as [Hsha Hk]. split_and!; [done | | done]. cbn. by split_and!.
  - split_and!; [done | by rewrite Ht | done].
  - by split_and!.
  - split_and!; [done | by rewrite Ht | done].
  - by split_and!.
  - destruct (signed_frame t q rp (Err e)) as [Hc Hlog]. unfold thread_good. rewrite Hc, Hlog. split_and!; [done | | done].
    by eapply signed_good.
  - assert (k = key) as -> by congruence. pose proof (eok_returned _ Hok _ _ Hx) as Hin.
    assert (validAuthEpoch ep = true) as Hv by (pose proof (eok_installed _ Hok) as H; rewrite Forall_forall in H; by apply H).
    destruct (signed_frame t q rp (sign_with key ep now r q sha)) as [Hc Hlog]. unfold thread_good. rewrite Hc, Hlog.
    split_and!; [done | | done]. eapply signed_good; [exact Hp |]. intros q'. destruct Hp as (Hq & Hsha & _). by apply sign_with_good.
  - destruct Hp as (Hc & Hty & [(Hsha & _) _]). split_and!; [done | | done]. cbn [th_phase set_phase th_call phase_good].
    split_and!; [done | | done]. rewrite (Header_Get_Values _ _ _ Hsha). destruct Hc as (_ & _ & -> & _). done.
  - by split_and!.
  - destruct (receive_cases t q a now b) as (l & p & rf & -> & _ & Hcase). cbn [snd]. unfold thread_good, answered. cbn [th_call th_phase th_log].
    split_and!; [done | |apply Forall_app; split; [done | by apply Forall_singleton]].
    destruct Hcase as [[_ Ho]|(_ & _ & -> & _)]; [by destruct p | done].
  - destruct (decide_retry_frame t err w) as (Hc & Hlog & Hph). unfold thread_good. rewrite Hc, Hlog. split_and!; [done | | done].
    by destruct Hph as [->|[r ->]].
Qed.

Lemma thread_good_inv key : secret = Some key → thread_inv ecache_ok (λ c t, call_ok (th_call t) → thread_good key c t).
Proof.
  intros Hsec. assert (∀ callers t l t', tstep callers t l t' → call_ok (th_call t') → call_ok (th_call t)) as Hcall
    by (intros callers t l t' [-> _]%tstep_log; done). split.
  - intros c cl _ Hcl. split_and!; [done | done | by apply Forall_nil].
  - intros c t t' Hok Hg Hs Hcl. eapply tstep_good; eauto.
  - intros c t l t' c' Hok Hg Hs He. pose proof (estep_installed _ _ _ He) as Hsub. split_and!; [by eapply estep_ok | |].
    + intros Hcl. eapply thread_good_weaken; [exact Hsub |]. eapply tstep_good; eauto.
    + intros u Hu Hcl. eapply thread_good_weaken; eauto.
Qed.

(** ** What is sent again *)

(** Neither a failure of the network nor one of reading a body claims to be the server's verdict. *)
Definition honest_failures : Prop :=
  (∀ q e, answers q (Err e) → calm ErrRateLimited e) ∧ (∀ resp b s, reads resp b → verdict s → calm_run s b).

Definition all_but_last {A} (P : A → Prop) (l : list A) : Prop := ∀ i x, l !! i = Some x → (S i < length l)%nat → P x.

Lemma all_but_last_snoc {A} (P : A → Prop) l x : Forall P l → all_but_last P (l ++ [x]).
Proof.
  intros H i y Hi Hlt. rewrite length_app in Hlt. cbn in Hlt. apply lookup_app_Some in Hi as [Hi|[Hge _]]; [|lia].
  by eapply Forall_lookup_1.
Qed.

Lemma Forall_all_but_last {A} (P : A → Prop) l : Forall P l → all_but_last P l.
Proof. intros H i x Hi _. by eapply Forall_lookup_1. Qed.

Lemma retryable_without_key e : isRetryableReplyError e false = true → AsStop e = false ∧ Is e ErrRateLimited = true.
Proof.
  unfold isRetryableReplyError, isRetryableError. destruct (AsStop e); [done |]. rewrite orb_false_r. intros H. by bool_props.
Qed.

Lemma receive_retryable t q a now b e :
  honest_failures → cl_method (th_call t) = MethodPost → answers q a → (∀ resp, a = Ok resp → reads resp b) →
  th_phase (receive t q a now b).2 = PFailed e → isRetryableReplyError e false = true →
  exchange_refused (cl_path (th_call t)) (q, a).
Proof.
  intros [Hnet Hrd] Hpost Ha Hb. unfold receive. destruct a as [resp|err].
  2:{ intros [= <-] [_ Hr]%retryable_without_key. cbn [Is TransportError_Is] in Hr. by rewrite (Hnet _ _ Ha) in Hr. }
  destruct (isSuccessfulHTTPStatus _).
  { rewrite Hpost. destruct (decodeJSONBody _ _ _ _) eqn:Ed; [done |]. intros [= <-] [_ Hr]%retryable_without_key.
    apply decode_unknown in Ed as (op & x & -> & Hx). cbn [Is TransportError_Is] in Hr.
    specialize (Hx ErrRateLimited (or_introl eq_refl) (Hrd _ _ _ (Hb _ eq_refl) (or_introl eq_refl))). by rewrite Hx in Hr. }
  destruct (readErrorResponse _ _ _ resp) as [h|] eqn:Eh; [|done].
  destruct (rs_CloseErr resp); [by intros [= <-] [? _]%retryable_without_key |].
  assert (∀ p, PFailed (if Is (EHTTP h) ErrNotSent then EStop (EWrap [EHTTP h]) else EWrap [EHTTP h]) = p →
    p = PFailed e → isRetryableReplyError e false = true → exchange_refused (cl_path (th_call t)) (q, Ok resp)) as Hfail.
  { intros p <- [= <-] [Hst Hr]%retryable_without_key. exists resp. split; [done |]. left.
    destruct (HTTPError_Is h ErrNotSent); [done |]. cbn [Is existsb] in Hr. rewrite orb_false_r in Hr.
    unfold HTTPError_Is in Hr. rewrite <- (readErrorResponse_status _ _ _ _ _ Eh). destruct (_ && _); [done |]. by apply Z.eqb_eq in Hr. }
  destruct (mismatch_epoch q (EHTTP h)) as [used|]; [destruct (th_refreshed t)|]; try done; by apply Hfail.
Qed.

(** An attempt that is not over, or over and to be repeated. *)
Definition to_send (p : phase) : Prop := is_over p = false ∨ ∃ e, p = PFailed e ∧ isRetryableReplyError e false = true.

Definition thread_sober (t : thread) : Prop :=
  call_ok (th_call t) ∧
  (length (th_log t) + (if is_over (th_phase t) then 0 else 1) + th_left t + credit (th_refreshed t) ≤ cl_retries (th_call t) + 2)%nat ∧
  (cl_key (th_call t) = false →
     all_but_last (exchange_refused (cl_path (th_call t))) (th_log t) ∧
     (to_send (th_phase t) → Forall (exchange_refused (cl_path (th_call t))) (th_log t))).

(** A step inside an attempt, or to its end. *)
Lemma sober_phase t p : thread_sober t → is_over (th_phase t) = false → (∀ e, p = PFailed e → AsStop e = true) →
  thread_sober (set_phase t p).
Proof.
  intros (Hcl & Hn & Hk) Ho Hp. split_and!; [done | |].
  - cbn. rewrite Ho in Hn. destruct (is_over p); lia.
  - cbn. intros H. destruct (Hk H) as [H1 H2]. split; [done |]. intros _. apply H2. by left.
Qed.

Lemma sober_signed t q replay r : thread_sober t → is_over (th_phase t) = false → thread_sober (signed t q replay r).
Proof.
  intros Ht Ho. unfold signed. destruct r as [q'|err], replay; try (by apply sober_phase); [|by apply sober_phase; [| |intros e [= <-]]].
  destruct (replay_body q q') as [q''|err] eqn:Er; [by apply sober_phase |]. apply sober_phase; [done | done |]. intros e [= <-].
  unfold replay_body in Er. destruct (wq_Body q); [|done]. destruct (wq_GetBody q) as [[|]|]; [done | by injection Er as <- ..].
Qed.

Lemma sober_retry t err w : thread_sober t → th_phase t = PFailed err → thread_sober (decide_retry t err w).
Proof.
  intros (Hcl & Hn & Hk) Ht. rewrite Ht in Hn, Hk. cbn [is_over] in Hn. unfold decide_retry.
  assert (∀ u r, thread_sober (mkThread (th_call t) (th_left t) u (th_refreshed t) (PDone r) (th_log t))) as Hstop.
  { intros u r. split_and!; [done | cbn; lia |]. intros H. destruct (Hk H) as [H1 _]. split; [done |]. by intros [|(? & ? & _)]. }
  destruct (isRetryableReplyError err (cl_key (th_call t))) eqn:Er; cbn [negb]; [|apply Hstop]. cbn [th_left].
  destruct (th_left t) as [|n] eqn:El; [apply Hstop |]. destruct w; [apply Hstop |].
  split_and!; [done | cbn; lia |]. intros H. destruct (Hk H) as [H1 H2]. split; [done |]. intros _. apply H2. right. exists err.
  cbn in H. rewrite H in Er. done.
Qed.

Lemma tstep_sober callers t l t' : honest_failures → thread_sober t → tstep callers t l t' → thread_sober t'.
Proof.
  intros Hh Hso Hs. pose proof Hso as (Hcl & Hn & Hk).
  destruct Hs as [t err Ht Hnr|t q Ht Hnr Hs|t q k Ht Hnr Hs|t q sha rp i e Ht|t q sha rp i e x ctxErr Ht Hx|t q sha rp i e now a v Ht Ha Hf
    |t q sha rp i e now a err Ht Ha Hf|t q sha rp i e Ht Hx|t q sha rp i e k ep now r Ht Hx Hs|t q k Ht Hs|t q Ht|t q a now b Ht Ha Hb|t err w Ht];
    try done; try (apply sober_phase; by rewrite ?Ht); try (apply sober_signed; by rewrite ?Ht); [|by apply sober_retry].
  pose proof (receive_retryable t q a now b) as Hr.
  destruct (receive_cases t q a now b) as (l & p & rf & E & Hl & Hcase). rewrite E in *. cbn [snd] in *. rewrite Ht in Hn, Hk. cbn in Hn.
  split_and!; cbn [th_call th_log th_left th_refreshed th_phase answered]; [done | |].
  - rewrite length_app. cbn [length]. destruct Hcase as [[-> ->]|(-> & Hrf & -> & _)]; [lia |]. rewrite Hrf in Hn. cbn in *. lia.
  - intros Hkey. destruct (Hk Hkey) as [_ H2]. specialize (H2 (or_introl eq_refl)). split; [by apply all_but_last_snoc |].
    intros Hsend. apply Forall_app. split; [done |]. apply Forall_singleton. destruct Hcase as [[_ Ho]|(_ & _ & _ & _ & used & ->)].
    + destruct Hsend as [?|(e & -> & He)]; [congruence |]. apply (Hr e); try done. by apply Hcl.
    + destruct (Hl _ eq_refl) as (u & _ & Hu). by eapply refused_for_refused.
Qed.

(** ** What a failure says *)

(** The network settled a request: an answer that is not a success, or a failure that says it was not sent. *)
Definition exchange_settled (x : wireRequest * result goerror response) : Prop :=
  match x.2 with
  | Ok resp => isSuccessfulHTTPStatus (rs_StatusCode resp) = false
  | Err e => Is e ErrNotSent = true
  end.

(** A failure that is neither an unknown outcome nor the server's verdict on the request ID. *)
Definition definite (e : goerror) : Prop := Is e ErrTransport = false ∧ ClientRequestIDConflictCode e = [].

Definition thread_definite (t : thread) : Prop :=
  unknown_ok (th_unknown t) ∧
  match th_phase t with
  | PFailed e => th_unknown t = None → Is e ErrTransport = false → Forall exchange_settled (th_log t)
  | PDone (CallErr e) => definite e → Forall exchange_settled (th_log t)
  | PDone _ => True
  | _ => th_unknown t = None → Forall exchange_settled (th_log t)
  end.

Lemma receive_definite t q a now b :
  honest_failures → cl_method (th_call t) = MethodPost → (∀ resp, a = Ok resp → reads resp b) → thread_definite t →
  th_phase t = PFlight q → thread_definite (receive t q a now b).2.
Proof.
  intros [_ Hrd] Hpost Hb [Hu Hd] Ht. rewrite Ht in Hd. unfold receive.
  assert (exchange_settled (q, a) → th_unknown t = None → Forall exchange_settled (th_log t ++ [(q, a)])) as Hlog.
  { intros Hx Hn. apply Forall_app. split; [by apply Hd | by apply Forall_singleton]. }
  destruct a as [resp|err].
  2:{ split; [done |]. cbn [snd th_phase th_unknown th_log]. intros Hn He. apply Hlog; [|done]. unfold exchange_settled. cbn [snd].
      cbn [Is TransportError_Is] in He. by destruct (Is err ErrNotSent). }
  destruct (isSuccessfulHTTPStatus (rs_StatusCode resp)) eqn:Est.
  { rewrite Hpost. destruct (decodeJSONBody _ _ _ _) eqn:Ed; (split; [done |]); [done |]. cbn [snd th_phase]. intros _ He. exfalso.
    apply decode_unknown in Ed as (op & x & -> & Hx).
    specialize (Hx ErrNotSent (or_intror eq_refl) (Hrd _ _ _ (Hb _ eq_refl) (or_intror eq_refl))). unfold calm in Hx.
    cbn [Is TransportError_Is] in He. by rewrite Hx in He. }
  assert (∀ l rf p, (∀ r, p ≠ PDone r) ∨ p = PDone CallPanic →
    thread_definite (l : option elabel, mkThread (th_call t) (th_left t) (th_unknown t) rf p (th_log t ++ [(q, Ok resp)])).2) as Hset.
  { intros l rf p Hp. split; [done |]. cbn [snd th_phase th_unknown th_log]. specialize (Hlog Est).
    destruct p as [| | | | | |r]; auto. destruct Hp as [Hp|[= ->]]; [by destruct (Hp r) | done]. }
  destruct (readErrorResponse _ _ _ resp) as [h|]; [|by apply Hset; right].
  destruct (rs_CloseErr resp); [by apply Hset; left |].
  destruct (mismatch_epoch q (EHTTP h)); [destruct (th_refreshed t)|]; by apply Hset; left.
Qed.

Lemma retry_definite t err w : thread_definite t → th_phase t = PFailed err → thread_definite (decide_retry t err w).
Proof.
  intros [Hu Hd] Ht. rewrite Ht in Hd. pose proof (update_unknown err _ Hu) as Hu'. fold (recorded err (th_unknown t)) in Hu'.
  unfold decide_retry. fold (recorded err (th_unknown t)).
  assert (recorded err (th_unknown t) = None → Forall exchange_settled (th_log t)) as Hlog by (intros [? ?]%recorded_none; by apply Hd).
  assert (∀ n, thread_definite (stop_call (mkThread (th_call t) n (recorded err (th_unknown t)) (th_refreshed t) (th_phase t) (th_log t)) err)) as Hstop.
  { intros n. split; [done |]. intros [H1 H2]. apply Hlog. by eapply keep_definite. }
  destruct (negb _); [apply Hstop |]. cbn [th_left]. destruct (th_left t) as [|n]; [apply Hstop |]. destruct w as [c|]; (split; [done |]).
  - intros [H1 _]. apply Hlog. by eapply wait_definite.
  - exact Hlog.
Qed.

Lemma tstep_definite callers t l t' :
  honest_failures → cl_method (th_call t) = MethodPost → thread_definite t → tstep callers t l t' → thread_definite t'.
Proof.
  intros Hh Hpost Hdef Hs. pose proof Hdef as [Hu Hd].
  destruct Hs as [t err Ht Hnr|t q Ht Hnr Hs|t q k Ht Hnr Hs|t q sha rp i e Ht|t q sha rp i e x ctxErr Ht Hx|t q sha rp i e now a v Ht Ha Hf
    |t q sha rp i e now a err Ht Ha Hf|t q sha rp i e Ht Hx|t q sha rp i e k ep now r Ht Hx Hs|t q k Ht Hs|t q Ht|t q a now b Ht Ha Hb|t err w Ht];
    rewrite Ht in Hd; try done; try (by split); [| | | |by apply retry_definite].
  all: assert (∀ e', thread_definite (stop_call t e')) as Hgive
    by (intros e'; split; [done |]; intros [H1 H2]; apply Hd; by eapply keep_definite).
  all: assert (∀ e', thread_definite (set_phase t (PFailed e'))) as Hfail by (intros e'; split; [done |]; intros Hn _; by apply Hd).
  - apply Hgive.
  - unfold signed. destruct rp; [apply Hfail | apply Hgive].
  - unfold signed. destruct (sign_with _ _ _ _ _ _), rp; [|by split | apply Hfail | apply Hgive].
    destruct (replay_body _ _); [by split | apply Hfail].
  - by apply receive_definite.
Qed.

(** ** A change of epoch *)

(** The server moved on from epoch [e]: only requests signed with [e] are refused for their epoch, and a discovery
    gives another one. *)
Definition moved_on (e : gostring) : Prop :=
  (∀ q resp path, answers q (Ok resp) → is_mismatch path resp →
     ∃ suffix, Header_Get (wq_Header q) HeaderIrisNonce = e ++ "."%byte :: suffix) ∧
  (∀ now a, answers epoch_request a → ∃ v, fetch_outcome now a = Ok v ∧ v ≠ e).

(** The request was refused for its epoch, and the refusal was read to its end. *)
Definition epoch_refused (path : gostring) (x : wireRequest * result goerror response) : Prop :=
  ∃ resp, x.2 = Ok resp ∧ isSuccessfulHTTPStatus (rs_StatusCode resp) = false ∧ rs_CloseErr resp = None ∧ is_mismatch path resp.

Definition at_most_one {A} (P : A → Prop) (l : list A) : Prop :=
  ∀ i j x y, (i < j)%nat → l !! i = Some x → l !! j = Some y → P x → P y → False.

Lemma at_most_one_snoc {A} (P : A → Prop) l x : at_most_one P l → (P x → Forall (λ y, ¬ P y) l) → at_most_one P (l ++ [x]).
Proof.
  intros Hl Hx i j y z Hij Hi Hj Hy Hz. assert (i < length l)%nat as Hlt.
  { apply lookup_lt_Some in Hj. rewrite length_app in Hj. cbn in Hj. lia. }
  rewrite lookup_app_l in Hi by done. apply lookup_app_Some in Hj as [Hj|[_ Hj]]; [exact (Hl _ _ _ _ Hij Hi Hj Hy Hz) |].
  apply list_lookup_singleton_Some in Hj as [_ <-]. specialize (Hx Hz). rewrite Forall_lookup in Hx. exact (Hx _ _ Hi Hy).
Qed.

Lemma Forall_not_at_most_one {A} (P : A → Prop) l : Forall (λ y, ¬ P y) l → at_most_one P l.
Proof. intros H i j x y _ Hi _ Hx _. rewrite Forall_lookup in H. exact (H _ _ Hi Hx). Qed.

Lemma readErrorResponse_verdict path path' n n' resp h h' :
  readErrorResponse ParseTime n path resp = Some h → readErrorResponse ParseTime n' path' resp = Some h' →
  he_StatusCode h = he_StatusCode h' ∧ he_code h = he_code h'.
Proof.
  unfold readErrorResponse. destruct (readErrorBody _) as [payload complete]. destruct (truncateErrorBody payload); try done.
  by intros [= <-] [= <-].
Qed.

Lemma validAuthEpoch_no_dot e : validAuthEpoch e = true → length e = 32%nat ∧ "."%byte ∉ e.
Proof.
  unfold validAuthEpoch. intros [Hl H]%andb_true_iff. split; [by apply Nat.eqb_eq |]. intros Hin.
  rewrite forallb_forall in H. apply list_elem_of_In, H in Hin. discriminate Hin.
Qed.

Lemma nonce_epoch_inj (e v x y : gostring) :
  validAuthEpoch e = true → validAuthEpoch v = true → e ++ "."%byte :: x = v ++ "."%byte :: y → e = v.
Proof.
  intros [He _]%validAuthEpoch_no_dot [Hv _]%validAuthEpoch_no_dot H. by apply app_inj_1 in H as [? _]; [|congruence].
Qed.

Lemma fetch_outcome_valid now a v : fetch_outcome now a = Ok v → validAuthEpoch v = true.
Proof.
  unfold fetch_outcome. destruct (fetchAuthEpoch _ _ _ _ _ _) as [r s] eqn:E. cbn. intros ->. by eapply fetch_valid.
Qed.

Section rotation.
Context (key e : gostring) (Hsec : secret = Some key) (He : validAuthEpoch e = true) (Hmoved : moved_on e).

(** A goroutine whose call was refused for its epoch does not use [e] any more. *)
Definition past_epoch (c : ecache) (t : thread) : Prop :=
  ec_value c ≠ e ∧
  match th_phase t with
  | PSign _ _ _ i _ => ec_callers c !! i ≠ Some (EReturned (Some e))
  | PSend q | PFlight q => ∀ suffix, Header_Get (wq_Header q) HeaderIrisNonce ≠ e ++ "."%byte :: suffix
  | _ => True
  end.

Definition rotation_ok (c : ecache) (t : thread) : Prop :=
  thread_good key c t ∧ (th_refreshed t = true → past_epoch c t) ∧
  at_most_one (epoch_refused (cl_path (th_call t))) (th_log t) ∧
  (th_refreshed t = false → Forall (λ x, ¬ epoch_refused (cl_path (th_call t)) x) (th_log t)).

Lemma epoch_not_nil : e ≠ [].
Proof using He. intros E. pose proof He as H. rewrite E in H. discriminate H. Qed.

(** Once forgotten, [e] does not come back. *)
Lemma past_epoch_step l c c' t : phase_ok e c → estep l c c' → past_epoch c t → past_epoch c' t.
Proof using He.
  intros [Hf _] Hs [Hv Hp].
  assert (∀ i, ec_callers c !! i ≠ Some (EReturned (Some e)) → ec_callers c' !! i ≠ Some (EReturned (Some e))) as Hc.
  { intros i Hi. destruct Hs as [c|c j Hj Hne|c j k Hj|c j Hj|c j k Hj|c j k r Hj|c j k r Hj|c j Hj|c j k Hj|c used]; cbn [ec_callers set_ecaller begin_load end_load];
      try (intros [(_ & E & _)|[_ ?]]%list_lookup_insert_Some; [try discriminate E | done]).
    - intros [?|[_ [_ ?]%list_lookup_singleton_Some]]%lookup_app_Some; done.
    - injection E as E. by apply Hv.
    - injection E as ->. destruct (Hf _ _ _ Hj) as (v & [= <-] & Hne & _). done.
    - unfold forget_epoch. by destruct (seqb _ _). }
  split; [|by destruct (th_phase t); auto].
  destruct Hs as [c|c j Hj Hne|c j k Hj|c j Hj|c j k Hj|c j k r Hj|c j k r Hj|c j Hj|c j k Hj|c used]; try done.
  - cbn. destruct (Hf _ _ _ Hj) as (v & -> & Hne & _). done.
  - unfold forget_epoch. destruct (seqb _ _); [|done]. intros E. by apply epoch_not_nil.
Qed.

(** What the steps of goroutines ask of the cache. *)
Lemma rotation_labels c t ol t' : tstep (ec_callers c) t ol t' →
  (∀ used, ol = Some (LForget used) → used = e) ∧ (∀ i r, ol = Some (LAnswer i r) → ∃ v, r = Some v ∧ v ≠ e).
Proof using He Hmoved.
  intros Hs. destruct Hmoved as [Hm Hd]. destruct Hs as [| | | | |t q sha rp i e0 now a v Ht Ha Hf
    |t q sha rp i e0 now a err Ht Ha Hf| | | | |t q a now b Ht Ha Hb|]; split; try done.
  - intros i' r [= <- <-]. destruct (Hd now a Ha) as (v' & Hv' & Hne). exists v. split; [done | congruence].
  - intros i' r [= <- <-]. destruct (Hd now a Ha) as (v' & Hv' & Hne). congruence.
  - intros used Hu. destruct (receive_cases t q a now b) as (l & p & rf & E & Hl & _). rewrite E in Hu. cbn in Hu.
    destruct (Hl _ Hu) as (u & [= <-] & resp & rest & [= ->] & Hmm & Hcut). destruct (Hm _ _ _ Ha Hmm) as [suffix Hn].
    cbn [fst] in Hcut. rewrite Hn, Cut_found in Hcut by (by apply validAuthEpoch_no_dot). by injection Hcut.
  - intros i r Hu. destruct (receive_cases t q a now b) as (l & p & rf & E & Hl & _). rewrite E in Hu. cbn in Hu.
    by destruct (Hl _ Hu) as (u & ? & _).
Qed.

(** A refusal for the epoch is acted upon. *)
Lemma receive_refreshes t q a now b suffix :
  epoch_refused (cl_path (th_call t)) (q, a) → Header_Get (wq_Header q) HeaderIrisNonce = e ++ "."%byte :: suffix →
  th_refreshed (receive t q a now b).2 = true.
Proof using He Hsec.
  intros (resp & [= ->] & Hst & Hcl & now' & h' & Hr & Hs' & Hc') Hn. unfold receive. rewrite Hst, Hcl.
  destruct (readErrorResponse ParseTime now _ resp) as [h|] eqn:Eh.
  2:{ unfold readErrorResponse in *. destruct (readErrorBody _). by destruct (truncateErrorBody _). }
  destruct (readErrorResponse_verdict _ _ _ _ _ _ _ Eh Hr) as [E1 E2].
  assert (mismatch_epoch q (EHTTP h) = Some e) as ->; [|by destruct (th_refreshed t)].
  unfold mismatch_epoch. cbn [AsHTTPError]. rewrite E1, Hs'. unfold HTTPErrorCode. cbn [AsHTTPError]. rewrite E2, Hc'.
  rewrite Hn, Cut_found by (by apply validAuthEpoch_no_dot). by rewrite He, Hsec.
Qed.

(** A goroutine that signs again signs with the epoch it was given. *)
Lemma signed_fresh c t q sha rp i e0 ep now r :
  ecache_ok c → thread_good key c t → th_phase t = PSign q sha rp i e0 → ec_callers c !! i = Some (EReturned (Some ep)) → ep ≠ e →
  ec_value c ≠ e → past_epoch c (signed t q rp (sign_with key ep now r q sha)).
Proof using He.
  intros Hok (_ & Hp & _) Ht Hi Hne Hv. rewrite Ht in Hp. pose proof (eok_returned _ Hok _ _ Hi) as Hin.
  assert (validAuthEpoch ep = true) as Hep by (pose proof (eok_installed _ Hok) as H; rewrite Forall_forall in H; by apply H).
  assert (phase_good key [ep] (th_call t) (th_phase (signed t q rp (sign_with key ep now r q sha)))) as Hg.
  { apply (signed_good _ _ _ _ sha _ i e0); [exact Hp |]. intros q' Hq'. destruct Hp as (Hq & Hsha & _).
    eapply sign_with_good; try done. by left. }
  split; [done |].
  assert (∀ q', request_good key [ep] (th_call t) q' → ∀ s, Header_Get (wq_Header q') HeaderIrisNonce ≠ e ++ "."%byte :: s) as Hq.
  { intros q' (_ & _ & _ & ep' & s & ->%list_elem_of_singleton & Hs) s' E. rewrite Hs in E. apply Hne.
    symmetry in E. by apply nonce_epoch_inj in E. }
  revert Hg. unfold signed. destruct (sign_with _ _ _ _ _ _) as [q'|], rp; try done; [|exact (Hq _)].
  destruct (replay_body q q'); [|done]. exact (Hq _).
Qed.

(** A goroutine's own step keeps it past the epoch. *)
Lemma past_epoch_tstep c c' t ol t' :
  ecache_ok c → phase_ok e c → thread_good key c t → tstep (ec_callers c) t ol t' →
  match ol with None => c' = c | Some l => estep l c c' end →
  (th_refreshed t = true → past_epoch c t) → th_refreshed t' = true → past_epoch c' t'.
Proof using He Hsec Hmoved.
  intros Hok Hph Hg Hs Hc Hp Hr. pose proof (rotation_labels _ _ _ _ Hs) as [Hforget _].
  assert (∀ l, ol = Some l → past_epoch c t → past_epoch c' t) as Hkeep by (intros l ->; by eapply past_epoch_step).
  assert (∀ ph : phase, is_over ph = true ∨ ph = PBuild → ec_value c ≠ e → past_epoch c (set_phase t ph)) as Htriv.
  { intros ph Ho Hv. split; [done |]. cbn [th_phase set_phase]. destruct ph, Ho; done. }
  assert (∀ q sha rp e1, estep LCall c c' → past_epoch c t → past_epoch c' (set_phase t (PSign q sha rp (length (ec_callers c)) e1))) as Hcall.
  { intros q sha rp e1 He' [Hv _]. inversion He' as [s E1 E2| | | | | | | | |]. subst. split; [done |]. cbn [th_phase set_phase ec_callers].
    rewrite lookup_app_r, Nat.sub_diag by done. done. }
  destruct Hs as [t err Ht Hn|t q Ht Hn Hs|t q k Ht Hn Hs|t q sha rp i e0 Ht|t q sha rp i e0 x ctxErr Ht Hx|t q sha rp i e0 now a v Ht Ha Hf
    |t q sha rp i e0 now a err Ht Ha Hf|t q sha rp i e0 Ht Hx|t q sha rp i e0 k ep now r Ht Hx Hs|t q k Ht Hs|t q Ht|t q a now b Ht Ha Hb|t err w Ht].
  - subst c'. apply Htriv; [by left |]. by apply Hp.
  - congruence.
  - apply Hcall; auto.
  - eapply Hkeep; auto.
  - destruct (Hkeep _ eq_refl (Hp Hr)) as [Hv Hx']. rewrite Ht in Hx'. by split.
  - eapply Hkeep; auto.
  - destruct (Hkeep _ eq_refl (Hp Hr)) as [Hv Hx']. rewrite Ht in Hx'. by split.
  - subst c'. rewrite signed_refreshed in Hr. destruct (Hp Hr) as [Hv _]. by destruct rp; (split; [done |]).
  - subst c'. rewrite signed_refreshed in Hr. destruct (Hp Hr) as [Hv Hi]. rewrite Ht in Hi. assert (k = key) as -> by congruence.
    eapply signed_fresh; try done. intros ->. done.
  - apply Hcall; auto.
  - subst c'. destruct (Hp Hr) as [Hv Hx']. rewrite Ht in Hx'. by split.
  - destruct (receive_cases t q a now b) as (l & p & rf & E & Hl & Hcase). rewrite E in *. cbn [fst snd] in *. cbn in Hr. subst rf.
    assert (ec_value c' ≠ e) as Hv.
    { destruct l as [l|].
      - destruct (Hl _ eq_refl) as (u & -> & _). rewrite (Hforget u eq_refl) in *. inversion Hc; subst. unfold forget_epoch.
        destruct (seqb _ _) eqn:Eq; [|by apply seqb_false in Eq]. cbn. intros Heq. by apply epoch_not_nil.
      - subst c'. destruct Hcase as [[Hrf _]|(_ & _ & _ & _ & ? & ?)]; [|done]. by apply Hp. }
    split; [done |]. destruct Hcase as [[_ Ho]|(_ & _ & -> & _)]; [|done]. by destruct p.
  - subst c'. rewrite decide_retry_refreshed in Hr. destruct (Hp Hr) as [Hv _]. destruct (decide_retry_frame t err w) as (_ & _ & Hd).
    split; [done |]. by destruct Hd as [->|[r ->]].
Qed.

Lemma rotation_tstep c c' t ol t' :
  ecache_ok c → phase_ok e c → rotation_ok c t → tstep (ec_callers c) t ol t' →
  match ol with None => c' = c | Some l => estep l c c' end → thread_good key c' t' → rotation_ok c' t'.
Proof using He Hsec Hmoved.
  intros Hok Hph (Hg & Hp & Hone & Hnone) Hs Hc Hg'. split_and!; [done | by eapply past_epoch_tstep |..].
  all: apply tstep_log in Hs as (Hcl & [[Hl Hrf]|(q & a & now & b & Ht & Ha & Et & Hl)]); rewrite Hcl, Hl; rewrite ?Hrf; try done.
  - apply at_most_one_snoc; [done |]. intros Href. destruct (th_refreshed t) eqn:Erf; [|by apply Hnone]. exfalso.
    destruct (Hp eq_refl) as [_ Hfresh]. rewrite Ht in Hfresh. destruct Href as (resp & [= ->] & _ & _ & Hm).
    destruct (proj1 Hmoved _ _ _ Ha Hm) as [s Hn]. by apply (Hfresh s).
  - intros Hr. apply Forall_app. assert (th_refreshed t = false) as Erf.
    { destruct (receive_cases t q a now b) as (l & p & rf & E & _ & Hcase). rewrite Et, E in Hr. cbn in Hr. subst rf.
      by destruct Hcase as [[<- _]|[? _]]. }
    split; [by apply Hnone |]. apply Forall_singleton. intros Href. pose proof Href as (resp & [= ->] & _ & _ & Hm).
    destruct (proj1 Hmoved _ _ _ Ha Hm) as [s Hn]. rewrite Et, (receive_refreshes _ _ _ _ _ _ Href Hn) in Hr. done.
Qed.

Lemma rotation_inv : thread_inv (λ c, ecache_ok c ∧ phase_ok e c) (λ c t, call_ok (th_call t) → rotation_ok c t).
Proof using He Hsec Hmoved.
  assert (∀ callers t l t', tstep callers t l t' → call_ok (th_call t') → call_ok (th_call t)) as Hcall
    by (intros callers t l t' [-> _]%tstep_log; done). split.
  - intros c cl [Hok _] Hcl. split_and!; [by split_and!; [| |apply Forall_nil] | done | by intros i j x y _ | by intros; apply Forall_nil].
  - intros c t t' [Hok Hph] Ht Hs Hcl. specialize (Ht (Hcall _ _ _ _ Hs Hcl)). eapply rotation_tstep; try done.
    by eapply tstep_good; [| |apply Ht|].
  - intros c t l t' c' [Hok Hph] Ht Hs He'. pose proof (rotation_labels _ _ _ _ Hs) as [Hf Ha].
    pose proof (estep_installed _ _ _ He') as Hsub. split_and!.
    + by eapply estep_ok.
    + eapply phase_step; try done; [apply epoch_not_nil | by intros used ->; apply Hf | by intros i r ->; apply (Ha i)].
    + intros Hcl. specialize (Ht (Hcall _ _ _ _ Hs Hcl)). eapply rotation_tstep; try done.
      eapply thread_good_weaken; [exact Hsub |]. by eapply tstep_good; [| |apply Ht|].
    + intros u Hu Hcl. destruct (Hu Hcl) as (Hg & Hp & Hrest). split_and!; [by eapply thread_good_weaken | | apply Hrest | apply Hrest].
      intros Hr. eapply past_epoch_step; [done | done | by apply Hp].
Qed.
End rotation.

(** ** Calls return *)

Definition weight (p : phase) : nat :=
  match p with
  | PBuild | PResign _ => 5
  | PSign _ _ _ _ _ => 4
  | PSend _ => 3
  | PFlight _ => 2
  | PFailed _ => 1
  | PDone _ => 0
  end.

(** What a goroutine has still to do, its steps inside the cache aside. *)
Definition rank (t : thread) : nat := (8 * (th_left t + credit (th_refreshed t)) + weight (th_phase t))%nat.

Definition total_rank (s : client) : nat := sum_list_with rank (c_threads s).

Definition cache_move (ol : option elabel) : bool := match ol with Some l => is_caller_label l | None => false end.

Lemma signed_left t q rp r : th_left (signed t q rp r) = th_left t.
Proof. unfold signed. destruct r, rp; try done. by destruct (replay_body _ _). Qed.

Lemma signed_rank t q rp r : weight (th_phase t) = 4%nat → (rank (signed t q rp r) < rank t)%nat.
Proof.
  intros Hw. unfold rank. rewrite signed_left, signed_refreshed, Hw. unfold signed.
  destruct r, rp; cbn [th_phase set_phase stop_call weight]; try lia. destruct (replay_body _ _); cbn [th_phase set_phase weight]; lia.
Qed.

Lemma retry_rank t err w : th_phase t = PFailed err → (rank (decide_retry t err w) < rank t)%nat.
Proof.
  intros Ht. unfold rank, decide_retry. rewrite Ht. destruct (negb _); [cbn; lia |]. cbn [th_left].
  destruct (th_left t); [cbn; lia |]. destruct w; cbn; lia.
Qed.

Lemma tstep_rank callers t ol t' :
  tstep callers t ol t' → if cache_move ol then rank t' = rank t else (rank t' < rank t)%nat.
Proof.
  intros Hs. destruct Hs as [t err Ht Hn|t q Ht Hn Hs|t q k Ht Hn Hs|t q sha rp i e0 Ht|t q sha rp i e0 x ctxErr Ht Hx|t q sha rp i e0 now a v Ht Ha Hf
    |t q sha rp i e0 now a err Ht Ha Hf|t q sha rp i e0 Ht Hx|t q sha rp i e0 k ep now r Ht Hx Hs|t q k Ht Hs|t q Ht|t q a now b Ht Ha Hb|t err w Ht];
    cbn [cache_move is_caller_label]; try (unfold rank; rewrite Ht; cbn; lia);
    try (apply signed_rank; by rewrite Ht); [|by eapply retry_rank].
  destruct (receive_cases t q a now b) as (l & p & rf & E & Hl & Hcase). rewrite E. cbn [fst snd].
  assert (cache_move l = false) as -> by (destruct l as [l|]; [|done]; by destruct (Hl _ eq_refl) as (u & -> & _)).
  unfold rank, answered. cbn [th_left th_refreshed th_phase]. rewrite Ht. cbn [weight].
  destruct Hcase as [[-> Ho]|(-> & -> & -> & _)]; [destruct p; try done; cbn [weight]; lia | cbn [weight credit]; lia].
Qed.

(** Each step of a goroutine lowers its rank, or leaves it and is a caller's step in the cache. *)
Lemma run_decreases i ol s u :
  ecache_ok (c_cache s) → cstep (CRun i ol) s u →
  ecache_ok (c_cache u) ∧ ((total_rank u < total_rank s)%nat ∨
    total_rank u = total_rank s ∧ (measure (c_cache u) < measure (c_cache s))%nat).
Proof.
  intros Hok Hs. inversion Hs as [|s' i' t t' Hi Ht|s' i' t l t' cache Hi Ht He]; subst; cbn [c_cache set_thread];
    pose proof (tstep_rank _ _ _ _ Ht) as Hr; unfold total_rank; cbn [c_threads set_thread];
    pose proof (sum_list_with_insert rank _ i t t' Hi) as Hsum.
  - split; [done |]. left. cbn [cache_move] in Hr. lia.
  - split; [by eapply estep_ok |]. cbn [cache_move] in Hr. destruct (is_caller_label l) eqn:El; [right | left; lia].
    split; [lia |]. destruct (measure_step _ _ _ Hok He) as [_ Hm]; [by intros -> |]. rewrite El in Hm. lia.
Qed.

Lemma run_terminates s : ecache_ok (c_cache s) → Acc (λ u s, ∃ i ol, cstep (CRun i ol) s u) s.
Proof.
  remember (total_rank s) as n eqn:En. revert s En. induction (lt_wf n) as [n _ IHn]. intros s En.
  remember (measure (c_cache s)) as m eqn:Em. revert s En Em. induction (lt_wf m) as [m _ IHm]. intros s -> -> Hok.
  constructor. intros u (i & ol & Hs). destruct (run_decreases _ _ _ _ Hok Hs) as [Hok' [Hlt|[Heq Hlt]]].
  - by eapply IHn.
  - eapply IHm; [exact Hlt | by rewrite Heq | done | done].
Qed.

(** ** No call is stuck *)

Definition owns (t : thread) : option nat := match th_phase t with PSign _ _ _ c _ => Some c | _ => None end.

Definition is_done (t : thread) : bool := match th_phase t with PDone _ => true | _ => false end.

(** A goroutine signs only with a key, as a caller of the cache, and a caller that has not returned is one. *)
Record client_ok (s : client) : Prop := {
  cok_cache : ecache_ok (c_cache s);
  cok_secret : Forall (λ t, match th_phase t with PSign _ _ _ _ _ | PResign _ => secret ≠ None | _ => True end) (c_threads s);
  cok_caller i t c : c_threads s !! i = Some t → owns t = Some c → (c < length (ec_callers (c_cache s)))%nat;
  cok_owned c x : ec_callers (c_cache s) !! c = Some x → is_returned x = false →
    ∃ i t, c_threads s !! i = Some t ∧ owns t = Some c;
}.

Lemma estep_callers l s t : estep l s t →
  (length (ec_callers s) ≤ length (ec_callers t))%nat ∧
  ∀ j y, ec_callers t !! j = Some y → is_returned y = false →
    (∃ x, ec_callers s !! j = Some x ∧ is_returned x = false) ∨ l = LCall ∧ j = length (ec_callers s).
Proof.
  intros Hs.
  assert (∀ i c d, ec_callers s !! i = Some c → is_returned c = false →
    ∀ j y, <[i := d]> (ec_callers s) !! j = Some y → is_returned y = false → ∃ x, ec_callers s !! j = Some x ∧ is_returned x = false) as Hins.
  { intros i c d Hi Hc j y Hj Hy. apply list_lookup_insert_Some in Hj as [(<- & <- & _)|[_ ?]]; eauto. }
  destruct Hs; try (split; [cbn; rewrite length_insert; lia |]; intros j y Hj Hy; left;
    match goal with Hc : ec_callers s !! _ = Some _ |- _ => exact (Hins _ _ _ Hc eq_refl j y Hj Hy) end).
  - cbn. rewrite length_app. split; [lia |]. intros j y Hj Hy. apply lookup_app_Some in Hj as [Hj|[Hge Hj]]; [left; eauto |].
    apply list_lookup_singleton_Some in Hj as [E _]. right. split; [done | lia].
  - unfold forget_epoch. destruct (seqb _ _); (split; [done |]); eauto.
Qed.

(** What a step does to the caller a goroutine is. *)
Lemma tstep_owns callers t ol t' : tstep callers t ol t' →
  (owns t' = owns t ∨ ol = Some LCall ∧ owns t = None ∧ owns t' = Some (length callers) ∨
   ol ≠ Some LCall ∧ owns t' = None ∧ ∀ c, owns t = Some c → ∃ r, callers !! c = Some (EReturned r)) ∧
  (ol = Some LCall → owns t' = Some (length callers)).
Proof.
  intros Hs. unfold owns. destruct Hs as [t err Ht Hn|t q Ht Hn Hs|t q k Ht Hn Hs|t q sha rp i e0 Ht|t q sha rp i e0 x ctxErr Ht Hx|t q sha rp i e0 now a v Ht Ha Hf
    |t q sha rp i e0 now a err Ht Ha Hf|t q sha rp i e0 Ht Hx|t q sha rp i e0 k ep now r Ht Hx Hs|t q k Ht Hs|t q Ht|t q a now b Ht Ha Hb|t err w Ht];
    rewrite Ht; try (split; [by left | done]); try (split; [right; left; by split_and! | done]).
  - split; [|done]. right; right. split_and!; [done | by destruct rp | intros c [= <-]; eauto].
  - split; [|done]. right; right. split_and!; [done | | intros c [= <-]; eauto]. unfold signed.
    destruct (sign_with _ _ _ _ _ _), rp; try done. by destruct (replay_body _ _).
  - destruct (receive_cases t q a now b) as (l & p & rf & E & Hl & Hcase). rewrite E. cbn [fst snd th_phase answered]. split.
    + left. destruct Hcase as [[_ Ho]|(_ & _ & -> & _)]; [by destruct p | done].
    + intros ->. by destruct (Hl _ eq_refl) as (u & ? & _).
  - destruct (decide_retry_frame t err w) as (_ & _ & Hd). split; [left; by destruct Hd as [->|[r ->]] | done].
Qed.

Lemma tstep_secret callers t ol t' : tstep callers t ol t' →
  match th_phase t with PSign _ _ _ _ _ | PResign _ => secret ≠ None | _ => True end →
  match th_phase t' with PSign _ _ _ _ _ | PResign _ => secret ≠ None | _ => True end.
Proof.
  intros Hs Hp. destruct Hs as [t err Ht Hn|t q Ht Hn Hs|t q k Ht Hn Hs|t q sha rp i e0 Ht|t q sha rp i e0 x ctxErr Ht Hx|t q sha rp i e0 now a v Ht Ha Hf
    |t q sha rp i e0 now a err Ht Ha Hf|t q sha rp i e0 Ht Hx|t q sha rp i e0 k ep now r Ht Hx Hs|t q k Ht Hs|t q Ht|t q a now b Ht Ha Hb|t err w Ht];
    rewrite Ht in Hp; try done; try (cbn; congruence); try (by rewrite Ht).
  - by destruct rp.
  - unfold signed. destruct (sign_with _ _ _ _ _ _), rp; try done. by destruct (replay_body _ _).
  - destruct (receive_cases t q a now b) as (l & p & rf & E & _ & Hcase). rewrite E. cbn [snd th_phase answered].
    destruct Hcase as [[_ Ho]|(_ & _ & -> & Hsec & _)]; [by destruct p | done].
  - destruct (decide_retry_frame t err w) as (_ & _ & Hd). by destruct Hd as [->|[r ->]].
Qed.

(** A caller that has not returned keeps its goroutine. *)
Lemma owner_kept s i t t' cache ol :
  c_threads s !! i = Some t → tstep (ec_callers (c_cache s)) t ol t' →
  (∀ c x, ec_callers (c_cache s) !! c = Some x → is_returned x = false → ∃ j u, c_threads s !! j = Some u ∧ owns u = Some c) →
  (∀ j y, ec_callers cache !! j = Some y → is_returned y = false →
     (∃ x, ec_callers (c_cache s) !! j = Some x ∧ is_returned x = false) ∨ ol = Some LCall ∧ j = length (ec_callers (c_cache s))) →
  ∀ c x, ec_callers cache !! c = Some x → is_returned x = false → ∃ j u, <[i := t']> (c_threads s) !! j = Some u ∧ owns u = Some c.
Proof.
  intros Hi Ht Hown Hback c x Hc Hx. destruct (tstep_owns _ _ _ _ Ht) as [Hcase Hcall]. pose proof (lookup_lt_Some _ _ _ Hi) as Hlt.
  destruct (Hback c x Hc Hx) as [(x0 & Hc0 & Hx0)|[-> ->]].
  - destruct (Hown c x0 Hc0 Hx0) as (j & u & Hj & Hu). destruct (decide (j = i)) as [->|Hne]; [|exists j, u; by rewrite list_lookup_insert_ne].
    assert (u = t) as -> by congruence. exists i, t'. split; [by apply list_lookup_insert_eq |].
    destruct Hcase as [->|[(_ & Hn & _)|(_ & _ & Hr)]]; [done | congruence |]. destruct (Hr c Hu) as [r Hr']. rewrite Hr' in Hc0. by simplify_eq.
  - exists i, t'. split; [by apply list_lookup_insert_eq | by apply Hcall].
Qed.

Lemma client_ok_step l s u : client_ok s → cstep l s u → client_ok u.
Proof.
  intros [Hok Hsec Hcal Hown] Hs.
  assert (∀ i t t' ol cache, c_threads s !! i = Some t → tstep (ec_callers (c_cache s)) t ol t' → ecache_ok cache →
    (length (ec_callers (c_cache s)) ≤ length (ec_callers cache))%nat → (ol = Some LCall → length (ec_callers (c_cache s)) < length (ec_callers cache))%nat →
    (∀ j y, ec_callers cache !! j = Some y → is_returned y = false →
       (∃ x, ec_callers (c_cache s) !! j = Some x ∧ is_returned x = false) ∨ ol = Some LCall ∧ j = length (ec_callers (c_cache s))) →
    client_ok (set_thread s cache i t')) as Hrun.
  { intros i t t' ol cache Hi Ht Hc Hlen Hcall Hback. split; cbn [c_cache c_threads set_thread]; [done | | |by eapply owner_kept].
    - apply Forall_insert; [done |]. eapply tstep_secret; [done |]. by apply (Forall_lookup_1 _ _ _ _ Hsec Hi).
    - intros j w c Hj Hu. apply list_lookup_insert_Some in Hj as [(<- & <- & _)|[_ Hj]].
      + destruct (tstep_owns _ _ _ _ Ht) as [[E|[(Hl & _ & E)|(_ & E & _)]] _]; rewrite E in Hu; [|injection Hu as <-; auto | done].
        specialize (Hcal _ _ _ Hi Hu). lia.
      + specialize (Hcal _ _ _ Hj Hu). lia. }
  destruct Hs as [s cl|s i t t' Hi Ht|s i t l t' cache Hi Ht He].
  - split; cbn [c_cache c_threads]; [done | | |].
    + apply Forall_app. split; [done | by apply Forall_singleton].
    + intros i t c Hi Ht. apply lookup_app_Some in Hi as [Hi|[_ Hi]]; [by eapply Hcal |].
      by apply list_lookup_singleton_Some in Hi as [_ <-].
    + intros c x Hc Hx. destruct (Hown c x Hc Hx) as (i & t & Hi & Ht). exists i, t. split; [by apply lookup_app_l_Some | done].
  - apply (Hrun i t t' None); try done. intros j y Hj Hy. left. eauto.
  - destruct (estep_callers _ _ _ He) as [Hlen Hback]. apply (Hrun i t t' (Some l)); try done.
    + by eapply estep_ok.
    + intros [= ->]. inversion He; subst. cbn. rewrite length_app. cbn. lia.
    + intros j y Hj Hy. destruct (Hback j y Hj Hy) as [?|[-> ->]]; auto.
Qed.

Lemma csteps_client_ok ls v s : epoch_value_ok v → csteps ls (new_client v) s → client_ok s.
Proof.
  intros Hv Hs. assert (client_ok (new_client v)) as H0.
  { split; cbn; [by apply new_ecache_ok | by apply Forall_nil | done | done]. }
  revert H0. induction Hs as [s|ls l s t u _ IH Hstep]; intros H0; [done |]. eapply client_ok_step; [by apply IH | done].
Qed.

(** The network answers every request, discoveries included, or fails it; every body can be read. *)
Definition network_total : Prop := (∀ q, ∃ a, answers q a) ∧ (∀ resp, ∃ b, reads resp b).

(** Some goroutine can make a step that is not a cancellation. *)
Definition can_run (s : client) : Prop := ∃ i ol u, cstep (CRun i ol) s u ∧ ∀ c, ol ≠ Some (LCancel c).

Lemma tstep_runs s i t ol t' : c_threads s !! i = Some t → tstep (ec_callers (c_cache s)) t ol t' →
  (∀ l, ol = Some l → ∃ cache, estep l (c_cache s) cache) → (∀ c, ol ≠ Some (LCancel c)) → can_run s.
Proof.
  intros Hi Ht Hl Hc. destruct ol as [l|]; [|eexists i, None, _; split; [by eapply c_local | done]].
  destruct (Hl l eq_refl) as [cache He]. eexists i, (Some l), _. split; [by eapply c_sync | done].
Qed.

(** A goroutine in the cache: some caller moves, and its goroutine with it. *)
Lemma cache_runs s i t q sha rp c e :
  network_total → client_ok s → c_threads s !! i = Some t → th_phase t = PSign q sha rp c e → can_run s.
Proof.
  intros [Hnet _] [Hok Hsec Hcal Hown] Hi Ht.
  destruct (lookup_lt_is_Some_2 (ec_callers (c_cache s)) c) as [x Hx]; [apply (Hcal i t); [done | unfold owns; by rewrite Ht] |].
  assert (∀ c t0 q0 sha0 rp0 e0 x, ec_callers (c_cache s) !! c = Some x → th_phase t0 = PSign q0 sha0 rp0 c e0 →
    is_returned x = true → secret ≠ None → ∀ i0, c_threads s !! i0 = Some t0 → can_run s) as Hret.
  { intros c0 t0 q0 sha0 rp0 e0 x0 Hx0 Ht0 Hr0 Hs0 i0 Hi0. destruct x0 as [| | | |[ep|]]; try done.
    - destruct secret as [key|] eqn:Es; [|done]. 
      eapply tstep_runs; [exact Hi0 | by eapply (t_sign _ t0 q0 sha0 rp0 c0 e0 key ep 0 []) | done | done].
    - eapply tstep_runs; [exact Hi0 | by eapply t_no_epoch |done | done]. }
  assert (secret ≠ None) as Hsn by (pose proof (Forall_lookup_1 _ _ _ _ Hsec Hi) as H; cbn in H; by rewrite Ht in H).
  destruct (is_returned x) eqn:Er; [by eapply Hret |].
  destruct (ecache_progress _ Hok) as [Hall|(j & (y & Hy & Hyr) & Hmove)].
  { rewrite Forall_lookup in Hall. specialize (Hall _ _ Hx). cbn in Hall. congruence. }
  destruct (Hown j y Hy Hyr) as (k & u & Hk & Hu). unfold owns in Hu. destruct (th_phase u) as [|q' sha' rp' j' e'| | | | |] eqn:Eu; try done.
  injection Hu as ->. destruct Hmove as [[cache Hmove]|Hans].
  - eapply tstep_runs; [exact Hk | by eapply t_move | intros l [= <-]; by exists cache | done].
  - destruct (Hnet epoch_request) as [a Ha]. destruct (fetch_outcome 0 a) as [v|err] eqn:Ef.
    + eapply tstep_runs; [exact Hk | by eapply t_discovered | intros l [= <-] | done].
      apply Hans. intros v' [= <-]. by eapply fetch_outcome_valid.
    + eapply tstep_runs; [exact Hk | by eapply t_not_discovered | intros l [= <-]; by apply Hans | done].
Qed.

Lemma client_progress s : network_total → client_ok s → Forall (λ t, is_done t = true) (c_threads s) ∨ can_run s.
Proof.
  intros Hnet Hok. destruct (decide (Forall (λ t, is_done t = true) (c_threads s))) as [Hall|Hnot]; [by left |]. right.
  apply not_Forall_Exists in Hnot; [|apply _]. apply Exists_exists in Hnot as (t & Hin & Hd).
  apply list_elem_of_lookup in Hin as [i Hi].
  pose proof (Forall_lookup_1 _ _ _ _ (cok_secret _ Hok) Hi) as Hsec. cbn in Hsec.
  destruct (th_phase t) as [|q sha rp c e|q|q|q|e|r] eqn:Et.
  - destruct (new_request (th_call t)) as [q|err] eqn:En; [|eapply tstep_runs; [exact Hi | by eapply t_build_fails | done | done]].
    destruct secret as [key|] eqn:Es.
    + eapply tstep_runs; [exact Hi | by eapply t_build | | done]. intros l [= <-]. eexists. apply estep_call.
    + eapply tstep_runs; [exact Hi | by eapply t_build_unsigned | done | done].
  - by eapply cache_runs.
  - destruct secret as [key|] eqn:Es; [|done].
    eapply tstep_runs; [exact Hi | by eapply t_resign | | done]. intros l [= <-]. eexists. apply estep_call.
  - eapply tstep_runs; [exact Hi | by eapply t_send | done | done].
  - destruct Hnet as [Hans Hrd]. destruct (Hans q) as [a Ha].
    assert (∃ b, ∀ resp, a = Ok resp → reads resp b) as [b Hb].
    { destruct a as [resp|err]; [destruct (Hrd resp) as [b Hb]; exists b; by intros ? [= <-] |].
      destruct (Hrd (mkResponse 0 [] (mkBody [] false) None)) as [b _]. by exists b. }
    destruct (receive_cases t q a 0 b) as (l & p & rf & E & Hl & _).
    eapply tstep_runs; [exact Hi | by eapply (t_receive _ t q a 0 b) | |]; rewrite E; cbn [fst].
    + intros x ->. destruct (Hl _ eq_refl) as (u & -> & _). eexists. apply estep_forget.
    + intros c ->. by destruct (Hl _ eq_refl) as (u & ? & _).
  - eapply tstep_runs; [exact Hi | by eapply (t_retry _ t e None) | done | done].
  - destruct Hd. unfold is_done. by rewrite Et.
Qed.
End machine.
