(* ===== verification/ConcurrentCalls.v ===== *)
(** * ConcurrentCalls: what holds of concurrent calls, and the sequential calls among them (internal/client/transport)

    The sequential definitions of [Calls] are runs of the machine of [Concurrent] with a single goroutine, and the
    theorems on any number of goroutines, shown at work on such a run. *)

From S2P Require Import Prelude GoStrings GoStrconv GoJson GoHttp GoCrypto Canonical Hmac Errors Retry Execute AuthEpoch.
From S2P Require Import Path Multipart MultipartFrame Send Calls SendFile Media StrictJson Fetch Session Concurrent.

(** ** One call alone *)

Lemma csteps_trans {T} secret probe url_ok ParseTime answers (reads : response → bodyRun T → Prop) ls ls' s t u :
  csteps secret probe url_ok ParseTime answers reads ls s t → csteps secret probe url_ok ParseTime answers reads ls' t u →
  csteps secret probe url_ok ParseTime answers reads (ls ++ ls') s u.
Proof.
  intros H1 H2. induction H2 as [t|ls' l t v u _ IH Hstep]; [by rewrite app_nil_r |]. rewrite app_assoc. by eapply csteps_snoc; [apply IH |].
Qed.

Section sequential.
Context (secret : option gostring) (http1ProbeOnly : bool) (url_ok : gostring → bool).
Context (ParseTime : gostring → option Z) (now : nat → Z) (random : nat → gostring).
Context (ctx_err : nat → option goerror) (net : nat → wireRequest → result goerror response).
Context {T : Type} (body_run : nat → response → bodyRun T).

(** What the network and the decoder of the sequential definitions may do. *)
Definition net_answers (q : wireRequest) (a : result goerror response) : Prop := ∃ n, a = net n q.
Definition run_reads (resp : response) (b : bodyRun T) : Prop := ∃ n, b = body_run n resp.

Abbreviation tstep_ := (tstep secret http1ProbeOnly url_ok ParseTime net_answers run_reads).
Abbreviation csteps_ := (csteps secret http1ProbeOnly url_ok ParseTime net_answers run_reads).

(** A client whose only goroutine is [t], with the epoch cache of [s] and no load in progress. *)
Record alone (s : cstate) (t : @thread T) (u : @client T) : Prop := {
  al_threads : c_threads u = [t];
  al_value : ec_value (c_cache u) = cs_epoch s;
  al_idle : ec_loading (c_cache u) = None;
}.

(** The goroutine runs from [t] to [t'] while the sequential state goes from [s] to [s']. *)
Definition runs (s : cstate) (t : @thread T) (s' : cstate) (t' : @thread T) : Prop :=
  ∀ u, alone s t u → ∃ ls u', csteps_ ls u u' ∧ alone s' t' u'.

Lemma runs_refl s t : runs s t s t.
Proof. intros u Hu. exists [], u. split; [apply csteps_nil | done]. Qed.

Lemma runs_trans s t s1 t1 s2 t2 : runs s t s1 t1 → runs s1 t1 s2 t2 → runs s t s2 t2.
Proof.
  intros H1 H2 u Hu. destruct (H1 u Hu) as (ls1 & u1 & Hs1 & Hu1). destruct (H2 u1 Hu1) as (ls2 & u2 & Hs2 & Hu2).
  exists (ls1 ++ ls2), u2. split; [by eapply csteps_trans | done].
Qed.

(** The sequential state matters by its epoch only. *)
Lemma runs_epoch s s' t t' s1 : cs_epoch s1 = cs_epoch s' → runs s t s' t' → runs s t s1 t'.
Proof.
  intros E H u Hu. destruct (H u Hu) as (ls & u' & Hs & [H1 H2 H3]). exists ls, u'. split; [done |]. split; congruence.
Qed.

Lemma one_step (u u' : @client T) l : cstep secret http1ProbeOnly url_ok ParseTime net_answers run_reads l u u' → csteps_ [l] u u'.
Proof. intros H. apply (csteps_snoc _ _ _ _ _ _ [] l u u u'); [apply csteps_nil | done]. Qed.

Lemma runs_local s t t' : (∀ callers, tstep_ callers t None t') → runs s t s t'.
Proof.
  intros Ht u [H1 H2 H3]. eexists _, _. split; [apply one_step, (c_local _ _ _ _ _ _ _ 0 t t'); [by rewrite H1 | apply Ht] |].
  split; [by cbn; rewrite H1 | done | done].
Qed.

(** One step of the cache, by the only goroutine. *)
Lemma sync_step u t l t' cache :
  c_threads u = [t] → tstep_ (ec_callers (c_cache u)) t (Some l) t' → estep l (c_cache u) cache →
  csteps_ [CRun 0 (Some l)] u (mkClient cache [t']).
Proof.
  intros Hu Ht He. apply one_step. replace [t'] with (<[0%nat := t']> (c_threads u)) by (by rewrite Hu).
  eapply (c_sync _ _ _ _ _ _ u 0 t); [by rewrite Hu | done | done].
Qed.

Lemma runs_forget s t t' used :
  (∀ callers, tstep_ callers t (Some (LForget used)) t') → runs s t (if seqb (cs_epoch s) used then set_epoch s [] else s) t'.
Proof.
  intros Ht u [H1 H2 H3]. eexists _, _.
  split; [apply (sync_step u t (LForget used) t'); [done | apply Ht | apply estep_forget] |].
  unfold forget_epoch. rewrite H2. split; cbn [c_cache c_threads]; [done | by destruct (seqb (cs_epoch s) used)..].
Qed.

Lemma fetch_outcome_eq s :
  (fetchAuthEpoch http1ProbeOnly url_ok ParseTime now net s).1 =
  fetch_outcome http1ProbeOnly url_ok ParseTime (now (S (length (cs_sent s)))) (net (length (cs_sent s)) epoch_request).
Proof.
  unfold fetch_outcome, fetchAuthEpoch. destruct (newRequest _ _ _ _ _) as [req|] eqn:En; [|done]. apply newRequest_eq in En as ->.
  fold epoch_request. unfold client_Do. cbn [cs_sent cs_epoch]. rewrite length_app, Nat.add_1_r. cbn [length].
  by destruct (net _ epoch_request).
Qed.

(** A goroutine as caller [c] of the cache, which will return the error [e]. *)
Abbreviation signing t q sha rp c e := (set_phase t (PSign q sha rp c e)).

(** The goroutine discovers the epoch. *)
Lemma runs_fetch s t q sha rp c u r s0 :
  c_threads u = [signing t q sha rp c no_error] → ec_callers (c_cache u) !! c = Some EStart → ec_value (c_cache u) = [] →
  ec_loading (c_cache u) = None → fetchAuthEpoch http1ProbeOnly url_ok ParseTime now net s = (r, s0) →
  ∃ ls cache, csteps_ ls u (mkClient cache [signing t q sha rp c (match r with Ok _ => no_error | Err err => load_error err end)]) ∧
    ec_value cache = match r with Ok v => v | Err _ => [] end ∧ ec_loading cache = None ∧
    ec_callers cache !! c = Some (EReturned (match r with Ok v => Some v | Err _ => None end)).
Proof.
  intros Hu Hc Hv Hl Hf. pose proof (fetch_outcome_eq s) as Ho. rewrite Hf in Ho. cbn in Ho.
  set (a := net (length (cs_sent s)) epoch_request) in *. assert (net_answers epoch_request a) as Ha by (by eexists).
  set (r1 := match r with Ok v => Some v | Err _ => None end). set (e1 := match r with Ok _ => no_error | Err err => load_error err end).
  set (k := ec_loads (c_cache u)). set (c1 := begin_load (c_cache u) c). set (c2 := set_ecaller c1 c (EFetched k r1)).
  assert (c < length (ec_callers (c_cache u)))%nat as Hlt by (by eapply lookup_lt_Some).
  assert (ec_callers c1 !! c = Some (EFetching k)) as Hc1 by (by apply list_lookup_insert_eq).
  assert (ec_callers c2 !! c = Some (EFetched k r1)) as Hc2 by (apply list_lookup_insert_eq; by eapply lookup_lt_Some).
  assert (∀ v, r1 = Some v → validAuthEpoch v = true) as Hval.
  { subst r1. intros v Hr. destruct r as [v'|]; [|done]. injection Hr as ->. by eapply fetch_valid. }
  exists ([CRun 0 (Some (LMove c))] ++ [CRun 0 (Some (LAnswer c r1))] ++ [CRun 0 (Some (LMove c))]), (end_load c2 c k r1). split_and!.
  - apply (csteps_trans _ _ _ _ _ _ _ _ _ (mkClient c1 [signing t q sha rp c no_error])).
    { eapply sync_step; [exact Hu | by eapply t_move | by apply estep_lead]. }
    apply (csteps_trans _ _ _ _ _ _ _ _ _ (mkClient c2 [signing t q sha rp c e1])).
    2:{ eapply sync_step; [done | by eapply t_move | by apply estep_end]. }
    eapply sync_step; [done | | by apply estep_answer]. subst r1 e1. destruct r as [v|err].
    + eapply (t_discovered _ _ _ _ _ _ _ (signing t q sha rp c no_error) q sha rp c no_error); done.
    + eapply (t_not_discovered _ _ _ _ _ _ _ (signing t q sha rp c no_error) q sha rp c no_error); done.
  - cbn. subst r1. by destruct r.
  - done.
  - apply list_lookup_insert_eq. by eapply lookup_lt_Some.
Qed.

(** The goroutine in [authEpoch]. *)
Lemma runs_authEpoch s t q sha rp c u r s0 :
  c_threads u = [signing t q sha rp c no_error] → ec_callers (c_cache u) !! c = Some EStart → ec_value (c_cache u) = cs_epoch s →
  ec_loading (c_cache u) = None → authEpoch http1ProbeOnly url_ok ParseTime now ctx_err net s = (r, s0) →
  ∃ ls cache e, csteps_ ls u (mkClient cache [signing t q sha rp c e]) ∧ ec_value cache = cs_epoch s0 ∧ ec_loading cache = None ∧
    ec_callers cache !! c = Some (EReturned (match r with Ok v => Some v | Err _ => None end)) ∧ (∀ err, r = Err err → e = err).
Proof.
  intros Hu Hc Hv Hl Ha. assert (c < length (ec_callers (c_cache u)))%nat as Hlt by (by eapply lookup_lt_Some).
  unfold authEpoch in Ha. destruct (ctx_err _) as [cerr|].
  { injection Ha as <- <-. eexists _, (set_ecaller (c_cache u) c (EReturned None)), (cancel_error EStart cerr). split_and!; [|exact Hv | exact Hl | by apply list_lookup_insert_eq |].
    - eapply (sync_step u); [exact Hu | | by eapply estep_cancel_start].
      eapply (t_cancel _ _ _ _ _ _ _ (signing t q sha rp c no_error) q sha rp c no_error); done.
    - by intros err [= <-]. }
  destruct (is_empty (cs_epoch s)) eqn:Ee; cbn [negb] in Ha.
  - apply is_empty_true in Ee. destruct (fetchAuthEpoch _ _ _ _ _ s) as [rf sf] eqn:Ef. apply fetch_epoch in Ef as Hsf.
    apply (runs_fetch _ t q sha rp c u) in Ef as (ls & cache & Hs & Hv' & Hl' & Hr); [|done | done | congruence | done].
    exists ls, cache. eexists. split; [exact Hs |].
    destruct rf as [v|err]; injection Ha as <- <-; split_and!; try done; [|by intros ? [= <-]]. congruence.
  - injection Ha as <- <-. eexists _, (set_ecaller (c_cache u) c (EReturned (Some (ec_value (c_cache u))))), no_error. split_and!; [|exact Hv | exact Hl | | done].
    + eapply (sync_step u); [exact Hu | by eapply t_move | eapply estep_hit; [done |]]. rewrite Hv. by apply is_empty_false.
    + rewrite <- Hv. by apply list_lookup_insert_eq.
Qed.

(** Signing: the goroutine enters [authEpoch], comes out with its result, and signs. *)
Lemma runs_sign s t q sha rp key r s' :
  secret = Some key →
  (∀ callers, tstep_ callers t (Some LCall) (signing t q sha rp (length callers) no_error)) →
  signRequest secret http1ProbeOnly url_ok ParseTime now random ctx_err net s q sha = (r, s') →
  runs s t s' (signed t q rp r).
Proof.
  intros Hsec Hcall Hsign u [H1 H2 H3]. unfold signRequest in Hsign. rewrite Hsec in Hsign.
  destruct (authEpoch _ _ _ _ _ _ s) as [r0 s0] eqn:Ea. set (c := length (ec_callers (c_cache u))).
  pose proof (sync_step u t LCall _ _ H1 (Hcall _) (estep_call _)) as Hs1.
  match type of Hs1 with csteps _ _ _ _ _ _ _ _ ?u1 =>
    destruct (runs_authEpoch s t q sha rp c u1 r0 s0) as (ls & cache & e & Hs2 & Hv & Hl & Hret & He) end;
    [reflexivity | cbn; by rewrite lookup_app_r, Nat.sub_diag by done | exact H2 | exact H3 | exact Ea |].
  assert (tstep_ (ec_callers cache) (signing t q sha rp c e) None (signed (signing t q sha rp c e) q rp r) ∧ cs_epoch s' = cs_epoch s0) as [Ht Hep].
  { destruct r0 as [v|err]; injection Hsign as <- <-; (split; [|done]).
    - by eapply (t_sign _ _ _ _ _ _ _ (signing t q sha rp c e) q sha rp c e).
    - pose proof (He _ eq_refl) as ->. by eapply (t_no_epoch _ _ _ _ _ _ _ (signing t q sha rp c err) q sha rp c err). }
  eexists _, _. split.
  - eapply csteps_trans; [exact Hs1 |]. eapply csteps_trans; [exact Hs2 |]. apply one_step. eapply (c_local _ _ _ _ _ _ _ 0); [|exact Ht]. done.
  - split; cbn; [|congruence | done]. unfold signed. destruct r, rp; try done; by destruct (replay_body _ _).
Qed.

Abbreviation loop_ := (do_loop secret http1ProbeOnly url_ok ParseTime now random ctx_err net).

(** Where a goroutine is after [do], its typed body read. *)
Definition after_do (cl : call) (s : cstate) (r : doResult) : @phase T :=
  match r with
  | DoOk resp =>
      match decodeJSONBody (body_run (length (cs_sent s)) resp) (cl_method cl) (cl_path cl) (cl_key cl) with
      | Ok v => PDone (CallOk v)
      | Err e => PFailed e
      end
  | DoErr e => PFailed e
  | DoPanic | DoFuel => PDone CallPanic
  end.

Definition with_phase (t : @thread T) (rf : bool) (p : @phase T) (new : list (wireRequest * result goerror response)) : @thread T :=
  mkThread (th_call t) (th_left t) (th_unknown t) rf p (th_log t ++ new).

(** What reading the answer to the next request meets. *)
Definition body_for (s : cstate) (a : result goerror response) : bodyRun T :=
  body_run (S (length (cs_sent s))) (match a with Ok resp => resp | Err _ => mkResponse 0 [] (mkBody [] false) None end).

(** Sending a request and reading its answer. *)
Lemma runs_receive s t req l t' :
  th_phase t = PSend req →
  let a := net (length (cs_sent s)) req in
  receive secret ParseTime (set_phase t (PFlight req)) req a (now (S (length (cs_sent s)))) (body_for s a) = (l, t') →
  runs s t (match l with Some (LForget used) => if seqb (cs_epoch s) used then set_epoch s [] else s | _ => s end) t'.
Proof.
  intros Ht a Hr. eapply runs_trans; [apply runs_local; intros callers; by apply t_send |].
  assert (∀ callers, tstep_ callers (set_phase t (PFlight req)) l t') as Hstep.
  { intros callers.
    pose proof (t_receive secret http1ProbeOnly url_ok ParseTime net_answers run_reads callers (set_phase t (PFlight req)) req a
      (now (S (length (cs_sent s)))) (body_for s a) eq_refl) as H. rewrite Hr in H. apply H; [by eexists |].
    intros resp E. unfold body_for. rewrite E. by eexists. }
  destruct (receive_cases secret ParseTime (set_phase t (PFlight req)) req a (now (S (length (cs_sent s)))) (body_for s a))
    as (l' & p & rf & E & Hl & _). rewrite Hr in E. injection E as <- _. destruct l as [l|]; [|by apply runs_local].
  destruct (Hl l eq_refl) as (used & -> & _). by apply runs_forget.
Qed.

(** A request of a call, not a discovery. *)
Definition is_call (q : wireRequest) : bool := negb (seqb (wq_Path q) authEpochPath).

(** The requests sent are those of the exchanges, and discoveries. *)
Definition logged (s s' : cstate) (new : list (wireRequest * result goerror response)) : Prop :=
  ∃ sent, cs_sent s' = cs_sent s ++ sent ∧ List.filter is_call sent = map fst new.

Lemma logged_trans s s1 s2 new new' : logged s s1 new → logged s1 s2 new' → logged s s2 (new ++ new').
Proof.
  intros (l1 & H1 & E1) (l2 & H2 & E2). exists (l1 ++ l2). rewrite H2, H1, List.filter_app, map_app, E1, E2. by rewrite <- app_assoc.
Qed.

Lemma logged_one s s' q a : cs_sent s' = cs_sent s ++ [q] → is_call q = true → logged s s' [(q, a)].
Proof. intros Hs Hq. exists [q]. split; [done |]. cbn. by rewrite Hq. Qed.

Lemma logged_discovery s s' : cs_sent s' = cs_sent s ∨ cs_sent s' = cs_sent s ++ [epoch_request] → logged s s' [].
Proof. intros [H|H]; [exists [] | exists [epoch_request]]; rewrite H, ?app_nil_r; done. Qed.

Lemma runs_resign s t req r s' :
  th_phase t = PResign req → secret ≠ None →
  signRequest secret http1ProbeOnly url_ok ParseTime now random ctx_err net s req (Header_Get (wq_Header req) HeaderIrisBodySHA256) = (r, s') →
  runs s t s' (signed t req true r).
Proof.
  intros Ht Hsec Hs. assert (∃ key, secret = Some key) as [key Hk] by (destruct secret; [by eexists | done]).
  eapply runs_sign; [exact Hk | | exact Hs]. intros callers. by eapply t_resign.
Qed.

Lemma replay_body_call req replay q : wq_Path replay = wq_Path req → is_call req = true → replay_body req replay = Ok q → is_call q = true.
Proof.
  intros Hp Hc. unfold replay_body. destruct (wq_Body req); [destruct (wq_GetBody req) as [[|]|]; [|done..]|];
    intros [= <-]; unfold is_call in *; cbn [wq_Path]; by rewrite Hp.
Qed.

(** [do]: the request, and its replay if it is refused for its epoch. *)
Lemma runs_do fuel s req t r s' rf' :
  let cl := th_call t in
  th_phase t = PSend req → is_call req = true →
  loop_ fuel s req (cl_op cl) (cl_path cl) (cl_errURL cl) (cl_key cl) (th_refreshed t) = (r, s', rf') → r ≠ DoFuel →
  ∃ new, runs s t s' (with_phase t rf' (after_do cl s' r) new) ∧ logged s s' new.
Proof.
  revert s req t r s' rf'. induction fuel as [|fuel IH]; intros s req t r s' rf' cl Ht Hcall H Hf; cbn [do_loop] in H; [by simplify_eq |].
  unfold client_Do in H. set (a := net (length (cs_sent s)) req) in *. set (s0 := mkCState (cs_epoch s) (cs_sent s ++ [req])) in *.
  assert (length (cs_sent s0) = S (length (cs_sent s))) as Hlen by (cbn; rewrite length_app; cbn; lia).
  pose proof (λ l t', runs_receive s t req l t' Ht) as Hrec. cbv zeta in Hrec. fold a in Hrec.
  unfold receive in Hrec. cbn [th_call th_left th_unknown th_refreshed th_log set_phase] in Hrec. fold cl in Hrec.
  assert (logged s s0 [(req, a)]) as Hlog by (by apply logged_one).
  assert (∀ p, runs s t s (with_phase t (th_refreshed t) p [(req, a)]) → runs s t s0 (with_phase t (th_refreshed t) p [(req, a)])) as Hs0
    by (intros p; by apply runs_epoch).
  destruct a as [resp|err] eqn:Ea.
  2:{ injection H as <- <- <-. exists [(req, Err err)]. split; [|done]. by apply Hs0, (Hrec None). }
  destruct (isSuccessfulHTTPStatus _).
  { injection H as <- <- <-. exists [(req, Ok resp)]. split; [|done]. apply Hs0. unfold after_do. rewrite Hlen. by apply (Hrec None). }
  rewrite Hlen in H. destruct (readErrorResponse _ _ (cl_path cl) resp) as [h|].
  2:{ injection H as <- <- <-. exists [(req, Ok resp)]. split; [|done]. by apply Hs0, (Hrec None). }
  destruct (rs_CloseErr resp) as [ce|].
  { injection H as <- <- <-. exists [(req, Ok resp)]. split; [|done]. by apply Hs0, (Hrec None). }
  rewrite (mismatch_epoch_spec secret s0 req (EHTTP h)) in H. destruct (mismatch_epoch secret req (EHTTP h)) as [used|] eqn:Em.
  2:{ cbn [negb] in H. injection H as <- <- <-. exists [(req, Ok resp)]. split; [|done]. by apply Hs0, (Hrec None). }
  specialize (Hrec _ _ eq_refl). cbn [cs_epoch] in H.
  change (cs_epoch s0) with (cs_epoch s) in H. set (s1 := if seqb (cs_epoch s) used then set_epoch s0 [] else s0) in *.
  assert (cs_sent s1 = cs_sent s0) as Hsent1 by (subst s1; by destruct (seqb _ _)).
  assert (logged s s1 [(req, Ok resp)]) as Hlog1 by (destruct Hlog as (l & E & Hl); exists l; by rewrite Hsent1).
  assert (∀ t', runs s t (if seqb (cs_epoch s) used then set_epoch s [] else s) t' → runs s t s1 t') as Hs1.
  { intros t'. apply runs_epoch. subst s1. by destruct (seqb _ _). }
  destruct (th_refreshed t) eqn:Erf; cbn [negb] in H, Hrec.
  { injection H as <- <- <-. exists [(req, Ok resp)]. split; [|done]. by apply Hs1. }
  apply Hs1 in Hrec. set (t1 := mkThread _ _ _ _ (PResign req) _) in Hrec.
  apply mismatch_epoch_some in Em as [Hsec _]. destruct (signRequest _ _ _ _ _ _ _ _ s1 req _) as [sg s2] eqn:Esg.
  pose proof Esg as [Hs2 Hq]%sign_spec. apply (runs_resign _ t1) in Esg; [|done | done].
  pose proof (runs_trans _ _ _ _ _ _ Hrec Esg) as Hrun. assert (logged s s2 [(req, Ok resp)]) as Hlog2.
  { apply (logged_trans _ s1 _ _ [] Hlog1). by apply logged_discovery. }
  destruct sg as [replay|err]; [|by injection H as <- <- <-; exists [(req, Ok resp)]].
  cbn [signed] in Hrun. destruct (replay_body req replay) as [q''|err] eqn:Erb; [|by injection H as <- <- <-; exists [(req, Ok resp)]].
  destruct (Hq replay eq_refl) as (Hm & Hp & _).
  apply (IH _ _ (set_phase t1 (PSend q''))) in H as (new & Hr & Hl); [|done | by eapply replay_body_call | done].
  exists ((req, Ok resp) :: new). split; [|by apply (logged_trans _ s2 _ [_])].
  eapply runs_trans; [exact Hrun |]. unfold with_phase in *. cbn [th_call th_left th_unknown th_log set_phase] in Hr. subst t1. cbn in Hr.
  by rewrite <- app_assoc in Hr.
Qed.

(** ** Building a request *)

Definition build_call (cl : call) (s : cstate) : result goerror wireRequest * cstate :=
  match new_request http1ProbeOnly url_ok cl with
  | Err err => (Err (cl_wrap cl err), s)
  | Ok q =>
      let '(r, s) := signRequest secret http1ProbeOnly url_ok ParseTime now random ctx_err net s q (cl_sha cl) in
      (match r with Ok q => Ok (finish cl q) | Err err => Err (cl_wrap cl err) end, s)
  end.

Lemma finish_path cl q : wq_Path (finish cl q) = wq_Path q.
Proof. unfold finish. by destruct (cl_contentType cl). Qed.

Lemma runs_build s t r s0 :
  th_phase t = PBuild → seqb (cl_path (th_call t)) authEpochPath = false → build_call (th_call t) s = (r, s0) →
  runs s t s0 (match r with Ok q => set_phase t (PSend q) | Err e => stop_call t e end) ∧ logged s s0 [] ∧
  ∀ q, r = Ok q → is_call q = true.
Proof.
  intros Ht Hpath. unfold build_call. destruct (new_request http1ProbeOnly url_ok (th_call t)) as [q|err] eqn:En.
  2:{ intros [= <- <-]. split_and!; [|apply logged_discovery; by left | done]. apply runs_local. intros callers. by apply t_build_fails. }
  destruct (signRequest _ _ _ _ _ _ _ _ s q _) as [sg s1] eqn:Es. intros [= <- <-].
  pose proof Es as [Hs Hq]%sign_spec. split_and!; [|by apply logged_discovery |].
  2:{ intros q' Hr. destruct sg as [q0|]; [|done]. injection Hr as <-. unfold is_call. rewrite finish_path.
      destruct (Hq q0 eq_refl) as (_ & -> & _). apply new_request_carries in En as (_ & -> & _). by rewrite Hpath. }
  assert (secret = None ∨ ∃ k, secret = Some k) as [Hnone|[k Hk]] by (destruct secret; [right; by eexists | by left]).
  - unfold signRequest in Es. rewrite Hnone in Es. injection Es as <- <-. apply runs_local. intros callers. by apply t_build_unsigned.
  - apply (runs_sign _ t q _ false k) in Es; [|done | intros callers; by eapply t_build]. revert Es. by destruct sg.
Qed.

(** ** A retried POST alone *)

Section post.
Context (wait : nat → option goerror) (streamed : bool) (path body sha contentType : gostring) (key : bool) (ReplyRetryMax : Z).
Context (Hpath : seqb path authEpochPath = false).

Abbreviation build_ := (signed_post secret http1ProbeOnly url_ok ParseTime now random ctx_err net streamed path body sha contentType).
Abbreviation the_call := (post_call streamed path body sha contentType key ReplyRetryMax).

Lemma build_post_call s : build_ s = build_call the_call s.
Proof.
  unfold signed_post, newSignedStreamRequest, build_call, new_request. cbn [cl_method cl_path cl_body cl_sha cl_wrap post_call].
  by destruct (newRequest _ _ _ _ _).
Qed.

Definition after_call (r : callResult T) : @phase T := match r with CallErr e => PFailed e | other => PDone other end.

Lemma runs_doSignedJSON s t req r s1 rf1 :
  th_call t = the_call → th_phase t = PSend req → is_call req = true →
  doSignedJSON secret http1ProbeOnly url_ok ParseTime now random ctx_err net body_run s req path key (th_refreshed t) = (r, s1, rf1) →
  ∃ new, runs s t s1 (with_phase t rf1 (after_call r) new) ∧ logged s s1 new.
Proof.
  intros Hcl Ht Hcall. unfold doSignedJSON, do.
  pose proof (loop_fuel secret http1ProbeOnly url_ok ParseTime now random ctx_err net 2 s req (go "post") path path key (th_refreshed t)
    ltac:(lia) ltac:(lia)) as Hfuel.
  destruct (do_loop _ _ _ _ _ _ _ _ _ _ _ _ _ _ _ _) as [[r0 s0] rf0] eqn:Ed. intros [= <- <- <-].
  destruct (runs_do 2 s req t r0 s0 rf0 Ht Hcall) as (new & Hr & Hl); [by rewrite Hcl | done |]. exists new. split; [|done].
  rewrite Hcl in Hr. revert Hr. unfold after_do. cbn [cl_method cl_path cl_key]. destruct r0; try done.
  by destruct (decodeJSONBody _ _ _ _).
Qed.

Lemma runs_retry n k s t res s' :
  th_call t = the_call → th_phase t = PBuild → th_left t = n →
  retry_calls secret http1ProbeOnly url_ok ParseTime now random ctx_err net body_run path key build_ wait n k (th_unknown t)
    (th_refreshed t) s = (res, s') →
  ∃ new t', runs s t s' t' ∧ th_phase t' = PDone res ∧ th_log t' = th_log t ++ new ∧ logged s s' new.
Proof using Hpath.
  revert k s t. induction n as [|n IH]; intros k s t Hcl Ht Hleft H; cbn [retry_calls] in H;
    destruct (build_ s) as [built s0] eqn:Eb; rewrite build_post_call, <- Hcl in Eb;
    destruct (runs_build _ _ _ _ Ht ltac:(by rewrite Hcl) Eb) as (Hrun & Hlog & Hcall);
    (destruct built as [req|err]; [|injection H as <- <-; eexists [], _; split_and!; [exact Hrun | | by rewrite app_nil_r | exact Hlog];
       cbn; by rewrite Hcl]);
    destruct (doSignedJSON _ _ _ _ _ _ _ _ _ _ _ _ _ _) as [[r s1] rf1] eqn:Ed;
    apply (runs_doSignedJSON _ (set_phase t (PSend req))) in Ed as (new & Hdo & Hlog1); try done; try (by apply Hcall);
    pose proof (runs_trans _ _ _ _ _ _ Hrun Hdo) as Hatt; pose proof (logged_trans _ _ _ _ _ Hlog Hlog1) as Hlog2; cbn [app] in Hlog2;
    (destruct r as [v|err|]; [by injection H as <- <-; eexists new, _ | | by injection H as <- <-; eexists new, _]);
    cbn [after_call] in Hatt; set (t1 := with_phase _ _ (PFailed err) _) in *;
    pose proof (runs_trans _ _ _ _ _ _ Hatt (runs_local s1 t1 _ (λ callers, t_retry _ _ _ _ _ _ callers t1 err (wait k) eq_refl))) as Hdec;
    unfold decide_retry in Hdec; cbn [th_call th_left th_unknown th_refreshed th_log t1 with_phase set_phase] in Hdec; rewrite Hcl, Hleft in Hdec;
    cbn [cl_key cl_path post_call] in Hdec; destruct (isRetryableReplyError err key); cbn [negb] in H, Hdec;
    try (by injection H as <- <-; eexists new, _; split_and!; [exact Hdec | ..]).
    destruct (wait k) as [c|]; [by injection H as <- <-; eexists new, _; split_and!; [exact Hdec | ..] |].
  match type of Hdec with runs _ _ _ ?t2 => apply (IH _ _ t2) in H as (new' & t' & Hr & Hp & Hl & Hlg) end; try done.
  exists (new ++ new'), t'. split_and!; [by eapply runs_trans | done | by rewrite Hl; cbn; rewrite <- app_assoc | by eapply logged_trans].
Qed.
End post.

(** ** A GET alone *)

Lemma runs_get baseURL path s res s' :
  seqb path authEpochPath = false →
  doGet secret http1ProbeOnly url_ok baseURL ParseTime now random ctx_err net body_run s path = (res, s') →
  ∃ t', runs s (new_thread (get_call baseURL path)) s' t' ∧ th_phase t' = PDone res ∧ logged s s' (th_log t').
Proof.
  intros Hpath. unfold doGet, doSigned, newSignedRequest, newSignedStreamRequest. cbv zeta.
  set (t := new_thread (get_call baseURL path) : @thread T).
  destruct (build_call (get_call baseURL path) s) as [built s0] eqn:Eb.
  destruct (runs_build s t _ _ eq_refl Hpath Eb) as (Hrun & Hlog & Hcall). unfold build_call, new_request in Eb. cbn [cl_method cl_path cl_body cl_sha cl_wrap get_call] in Eb.
  destruct (newRequest _ _ _ _ _) as [q|err]; [|injection Eb as <- <-; intros [= <- <-]; eexists; by split_and!; [exact Hrun | ..]].
  cbn [default]. destruct (signRequest _ _ _ _ _ _ _ _ s q _) as [sg s1]. injection Eb as <- <-.
  destruct sg as [req|err]; [|intros [= <- <-]; eexists; by split_and!; [exact Hrun | ..]]. unfold do.
  pose proof (loop_fuel secret http1ProbeOnly url_ok ParseTime now random ctx_err net 2 s1 req (ToLower MethodGet) path
    (redactedURLForError (baseURL ++ path)) true false ltac:(lia) ltac:(lia)) as Hfuel.
  destruct (do_loop _ _ _ _ _ _ _ _ _ _ _ _ _ _ _ _) as [[r0 s2] rf0] eqn:Ed. intros [= <- <-].
  destruct (runs_do 2 s1 req (set_phase t (PSend req)) r0 s2 rf0 eq_refl (Hcall _ eq_refl) Ed Hfuel) as (new & Hr & Hl).
  pose proof (runs_trans _ _ _ _ _ _ Hrun Hr) as Hatt. pose proof (logged_trans _ _ _ _ _ Hlog Hl) as Hlog2.
  change (th_call (set_phase t (PSend req))) with (get_call baseURL path) in Hatt.
  assert (∀ e, after_do (get_call baseURL path) s2 r0 = PFailed e → ∃ t', runs s t s2 t' ∧ th_phase t' = PDone (CallErr e) ∧ logged s s2 (th_log t')) as Hfail.
  { intros e He. rewrite He in Hatt. eexists. split_and!.
    - eapply runs_trans; [exact Hatt |]. apply runs_local. intros callers. by eapply (t_retry _ _ _ _ _ _ callers _ e None).
    - unfold decide_retry. cbn [with_phase set_phase th_call th_left th_unknown th_refreshed t new_thread get_call cl_retries].
      unfold stop_call, keepUnknownOutcome. cbn [set_phase th_unknown th_call th_phase].
      destruct (negb _), (Is e ErrTransport) eqn:Et; cbn [orb]; done.
    - unfold decide_retry. cbn [with_phase set_phase th_call th_left th_unknown th_refreshed t new_thread get_call cl_retries]. by destruct (negb _). }
  revert Hatt Hfail. unfold after_do. cbn [cl_method cl_path cl_key get_call].
  destruct r0 as [resp|e| |]; [destruct (decodeJSONBody _ _ _ _)| | |]; intros Hatt Hfail; try (by apply Hfail);
    eexists; by split_and!; [exact Hatt | ..].
Qed.

(** A goroutine keeps its call. *)
Lemma csteps_call ls (s u : @client T) i t :
  csteps_ ls s u → c_threads s !! i = Some t → ∃ t', c_threads u !! i = Some t' ∧ th_call t' = th_call t.
Proof.
  intros Hs Hi. induction Hs as [s|ls l s v u _ IH Hstep]; [by eexists |]. destruct (IH Hi) as (t1 & H1 & Hc). clear IH.
  assert (∀ j w w' callers ol, c_threads v !! j = Some w → tstep_ callers w ol w' →
    ∃ t', <[j := w']> (c_threads v) !! i = Some t' ∧ th_call t' = th_call t) as Hrun.
  { intros j w w' callers ol Hj [Hw _]%tstep_log. destruct (decide (j = i)) as [->|Hne].
    - exists w'. split; [by apply list_lookup_insert_eq, (lookup_lt_Some _ _ _ Hj) | congruence].
    - exists t1. by rewrite list_lookup_insert_ne. }
  destruct Hstep; [|by eapply Hrun..]. exists t1. split; [by apply lookup_app_l_Some | done].
Qed.

(** A goroutine that enters a client alone. *)
Lemma spawn_run s cl s' t' :
  runs s (new_thread cl) s' t' →
  ∃ ls u, csteps_ (CSpawn cl :: ls) (new_client (cs_epoch s)) u ∧ alone s' t' u ∧ th_call t' = cl.
Proof.
  intros H. destruct (H (mkClient (new_ecache (cs_epoch s)) [new_thread cl])) as (ls & u & Hs & Hu); [by split |].
  destruct (csteps_call _ _ _ 0 _ Hs eq_refl) as (t0 & Ht0 & Hc). rewrite (al_threads _ _ _ Hu) in Ht0. injection Ht0 as ->.
  exists ls, u. split; [|done]. apply (csteps_trans _ _ _ _ _ _ [_] _ _ (mkClient (new_ecache (cs_epoch s)) [new_thread cl])); [|done].
  apply one_step, (c_spawn _ _ _ _ _ _ (new_client (cs_epoch s))).
Qed.

Lemma post_run wait streamed path body sha contentType key ReplyRetryMax s res s' :
  seqb path authEpochPath = false →
  retryPostJSON secret http1ProbeOnly url_ok ParseTime now random ctx_err net body_run path key
    (signed_post secret http1ProbeOnly url_ok ParseTime now random ctx_err net streamed path body sha contentType)
    wait ReplyRetryMax s = (res, s') →
  let cl := post_call streamed path body sha contentType key ReplyRetryMax in
  ∃ t', runs s (new_thread cl) s' t' ∧ th_phase t' = PDone res ∧ logged s s' (th_log t').
Proof.
  intros Hpath H cl.
  destruct (runs_retry wait streamed path body sha contentType key ReplyRetryMax Hpath (cl_retries cl) 1 s (new_thread cl) res s')
    as (new & t' & Hr & Hp & Hl & Hlg); [done..|]. exists t'. split_and!; [done | done | by rewrite Hl].
Qed.
End sequential.

(** ** The theorems *)

Section claims.
Context (secret : option gostring) (http1ProbeOnly : bool) (url_ok : gostring → bool) (ParseTime : gostring → option Z) {T : Type}.
Context (answers : wireRequest → result goerror response → Prop) (reads : response → bodyRun T → Prop).

Lemma requests_good (key v : gostring) (ls : list clabel) (s : client) :
  secret = Some key → epoch_value_ok v → csteps secret http1ProbeOnly url_ok ParseTime answers reads ls (new_client v) s →
  Forall (λ e, validAuthEpoch e = true) (ec_installed (c_cache s)) ∧
  ∀ t q, t ∈ c_threads s → call_ok (th_call t) → q ∈ map fst (th_log t) ∨ th_phase t = PFlight q →
    carries (th_call t) q ∧ typed_as (th_call t) q ∧ verified key (ec_installed (c_cache s)) q.
Proof.
  intros Hsec Hv Hs. pose proof (thread_good_inv secret http1ProbeOnly url_ok ParseTime answers reads key Hsec) as Hinv.
  pose proof (csteps_inv _ _ _ _ _ _ _ _ _ _ _ Hinv Hs (new_ecache_ok v Hv) (Forall_nil_2 _)) as [Hok Hall].
  split; [apply Hok |]. intros t q Ht Hcl Hq. rewrite Forall_forall in Hall. destruct (Hall t Ht Hcl) as (_ & Hp & Hl).
  destruct Hq as [Hq|Hq]; [|by rewrite Hq in Hp].
  apply list_elem_of_fmap in Hq as (x & -> & Hx). rewrite Forall_forall in Hl. by apply Hl.
Qed.

(** C6: every request of concurrent calls verifies, with an epoch the server gave.  Whatever the interleaving of any
    number of calls, their cancellations and their replays, and whatever the network answers, each request of a call
    that is answered or under way carries the method, target, body and content type of that call, the server verifies
    its signature and hash, and its nonce begins with an epoch the cache held: one it began with or discovered, all of
    them well formed. *)
Theorem concurrent_requests_verify (key v : gostring) (ls : list clabel) (s : client) :
  secret = Some key → epoch_value_ok v → csteps secret http1ProbeOnly url_ok ParseTime answers reads ls (new_client v) s →
  Forall (λ e, validAuthEpoch e = true) (ec_installed (c_cache s)) ∧
  ∀ t q, t ∈ c_threads s → call_ok (th_call t) → q ∈ map fst (th_log t) ∨ th_phase t = PFlight q →
    carries (th_call t) q ∧ typed_as (th_call t) q ∧ verified key (ec_installed (c_cache s)) q.
Proof.
  apply requests_good.
Qed.

(** C5: concurrent calls repeat nothing blindly.  In every interleaving, each call is answered, and has under way, at most
    one request more than its attempts, and without an idempotency key each of its requests that another one follows
    or may still follow was refused by the server before processing it: rate limited (429), or answered with a verified
    epoch mismatch. *)
Theorem concurrent_posts_never_repeated_blindly (v : gostring) (ls : list clabel) (s : client) :
  honest_failures answers reads → csteps secret http1ProbeOnly url_ok ParseTime answers reads ls (new_client v) s →
  ∀ t, t ∈ c_threads s → call_ok (th_call t) →
    (length (th_log t) + (if is_over (th_phase t) then 0 else 1) ≤ cl_retries (th_call t) + 2)%nat ∧
    (cl_key (th_call t) = false → ∀ i x, th_log t !! i = Some x → (S i < length (th_log t))%nat ∨ is_over (th_phase t) = false →
       exchange_refused ParseTime (cl_path (th_call t)) x).
Proof.
  intros Hh Hs t Ht Hcl.
  assert (Forall (λ t, call_ok (th_call t) → thread_sober ParseTime t) (c_threads s)) as Hall.
  { refine (csteps_threads secret http1ProbeOnly url_ok ParseTime answers reads _ ls v s _ _ Hs).
    - intros cl H. split_and!; [done | cbn; lia |]. intros _. split; [done |]. intros _. by apply Forall_nil.
    - intros callers u l u' Hu Hstep H. eapply tstep_sober; [exact Hh | apply Hu | exact Hstep]. by apply tstep_log in Hstep as [<- _]. }
  rewrite Forall_forall in Hall. destruct (Hall t Ht Hcl) as (_ & Hn & Hk). split; [lia |]. intros Hkey i x Hi Hor.
  destruct (Hk Hkey) as [Hlast Hsend]. destruct Hor as [Hlt|Ho]; [by eapply Hlast |].
  eapply Forall_lookup_1; [|exact Hi]. apply Hsend. by left.
Qed.

(** C12: a definite failure is definite, also under interleaving.  When a POST among any number of concurrent calls fails
    with an error that is neither an unknown outcome nor the server's verdict on the request ID, then each of its
    requests, over all attempts and replays, was either answered with an HTTP error or not sent according to the
    network: none of them was lost on the way, and none was accepted. *)
Theorem concurrent_definite_failure (v : gostring) (ls : list clabel) (s : client) (t : thread) (e : goerror) (q : wireRequest)
    (a : result goerror response) :
  honest_failures answers reads → csteps secret http1ProbeOnly url_ok ParseTime answers reads ls (new_client v) s →
  t ∈ c_threads s → cl_method (th_call t) = MethodPost → th_phase t = PDone (CallErr e) →
  Is e ErrTransport = false → ClientRequestIDConflictCode e = [] → (q, a) ∈ th_log t →
  match a with
  | Ok resp => isSuccessfulHTTPStatus (rs_StatusCode resp) = false
  | Err ne => Is ne ErrNotSent = true
  end.
Proof.
  intros Hh Hs Ht Hpost Hp H1 H2 Hq.
  assert (Forall (λ t, cl_method (th_call t) = MethodPost → thread_definite t) (c_threads s)) as Hall.
  { refine (csteps_threads secret http1ProbeOnly url_ok ParseTime answers reads _ ls v s _ _ Hs).
    - intros cl _. split; [done |]. intros _. by apply Forall_nil.
    - intros callers u l u' Hu Hstep H. assert (cl_method (th_call u) = MethodPost) as Hm by (by apply tstep_log in Hstep as [<- _]).
      by eapply tstep_definite; [exact Hh | exact Hm | apply Hu |]. }
  rewrite Forall_forall in Hall. destruct (Hall t Ht Hpost) as [_ Hd]. rewrite Hp in Hd. specialize (Hd (conj H1 H2)).
  rewrite Forall_forall in Hd. by apply (Hd (q, a)).
Qed.

(** C7: a change of epoch costs one discovery and no call is refused twice for it.  When the server has moved on from
    the epoch the client holds, then however many calls are under way, whenever they are refused for their epoch and in
    whatever order these refusals arrive, the client discovers the epoch at most once, and each call is refused for its
    epoch at most once: its replay and its further attempts are signed with another epoch. *)
Theorem rotation_costs_one_discovery (key e : gostring) (ls : list clabel) (s : client) :
  secret = Some key → validAuthEpoch e = true → moved_on http1ProbeOnly url_ok ParseTime answers e →
  csteps secret http1ProbeOnly url_ok ParseTime answers reads ls (new_client e) s →
  (ec_loads (c_cache s) ≤ 1)%nat ∧
  ∀ t i j x y, t ∈ c_threads s → call_ok (th_call t) → (i < j)%nat → th_log t !! i = Some x → th_log t !! j = Some y →
    epoch_refused ParseTime (cl_path (th_call t)) x → epoch_refused ParseTime (cl_path (th_call t)) y → False.
Proof.
  intros Hsec He Hm Hs. pose proof (rotation_inv secret http1ProbeOnly url_ok ParseTime answers reads key e Hsec He Hm) as Hinv.
  assert (ecache_ok (new_ecache e) ∧ phase_ok e (new_ecache e)) as H0.
  { split; [apply new_ecache_ok; by right |]. split; [by intros i k r H | by left]. }
  pose proof (csteps_inv _ _ _ _ _ _ _ _ _ _ _ Hinv Hs H0 (Forall_nil_2 _)) as [[_ [_ Hph]] Hall].
  split; [destruct Hph as [[-> _]|[-> _]]; lia |]. intros t i j x y Ht Hcl Hij Hi Hj Hx Hy. rewrite Forall_forall in Hall.
  destruct (Hall t Ht Hcl) as (_ & _ & Hone & _). by eapply (Hone i j).
Qed.

(** C8: concurrent calls return.  From every reachable state, whatever the network answers, as long as it answers or
    fails every request, some goroutine can make a step without any cancellation unless every call has returned; and
    the goroutines in place cannot run for ever, in whatever order they run. *)
Theorem concurrent_calls_return (v : gostring) (ls : list clabel) (s : client) :
  epoch_value_ok v → network_total answers reads →
  csteps secret http1ProbeOnly url_ok ParseTime answers reads ls (new_client v) s →
  (Forall (λ t, is_done t = true) (c_threads s) ∨
   ∃ i l u, cstep secret http1ProbeOnly url_ok ParseTime answers reads (CRun i l) s u ∧ ∀ c, l ≠ Some (LCancel c)) ∧
  Acc (λ u s, ∃ i l, cstep secret http1ProbeOnly url_ok ParseTime answers reads (CRun i l) s u) s.
Proof.
  intros Hv Hnet Hs. pose proof (csteps_client_ok _ _ _ _ _ _ _ _ _ Hv Hs) as Hok.
  split; [by apply client_progress | by apply run_terminates, Hok].
Qed.
End claims.

(** The sequential calls are runs of the concurrent client.  Whatever the network, the clock, randomness and the
    contexts do, a retried POST as [Calls] defines it is a run of a client whose only goroutine makes that call: it
    returns the same result, leaves the same epoch in the cache, and its exchanges are the requests sent, in order, the
    discoveries apart. *)
Theorem sequential_post_is_concurrent_run {T} (secret : option gostring) (http1ProbeOnly : bool) (url_ok : gostring → bool)
    (ParseTime : gostring → option Z) (now : nat → Z) (random : nat → gostring)
    (ctx_err : nat → option goerror) (net : nat → wireRequest → result goerror response)
    (body_run : nat → response → bodyRun T) (wait : nat → option goerror)
    (streamed : bool) (path body sha contentType : gostring) (key : bool) (ReplyRetryMax : Z) (s s' : cstate) (res : callResult T) :
  path ≠ authEpochPath →
  retryPostJSON secret http1ProbeOnly url_ok ParseTime now random ctx_err net body_run path key
    (signed_post secret http1ProbeOnly url_ok ParseTime now random ctx_err net streamed path body sha contentType)
    wait ReplyRetryMax s = (res, s') →
  let cl := post_call streamed path body sha contentType key ReplyRetryMax in
  ∃ ls u t sent,
    csteps secret http1ProbeOnly url_ok ParseTime (net_answers net) (run_reads body_run) (CSpawn cl :: ls) (new_client (cs_epoch s)) u ∧
    c_threads u = [t] ∧ th_call t = cl ∧ th_phase t = PDone res ∧ ec_value (c_cache u) = cs_epoch s' ∧
    cs_sent s' = cs_sent s ++ sent ∧ List.filter is_call sent = map fst (th_log t).
Proof.
  intros Hpath H cl. apply seqb_false in Hpath. apply post_run in H as (t & Hr & Hp & sent & Hs & Hl); [|done].
  apply spawn_run in Hr as (ls & u & Hrun & [H1 H2 _] & Hcall). exists ls, u, t, sent. by split_and!.
Qed.

(** ** A run *)

(** A server that moved on from [demo_epoch], and a POST of a client that still holds it. *)
Definition rotated_server (n : nat) (q : wireRequest) : result goerror response :=
  if seqb (wq_Path q) authEpochPath then epoch_server n q
  else if HasPrefix (Header_Get (wq_Header q) HeaderIrisNonce) (demo_epoch ++ go ".") then Ok mismatch_response
  else Ok (mkResponse 202 [] (mkBody [] false) None).

Definition rotation_post_call : call := post_call false PathReply (go "{}") (SHA256HexBytes (go "{}")) contentTypeJSON false 3.
Definition rotation_post : callResult nat * cstate :=
  retryPostJSON (Some (go "secret")) false (λ _, true) (λ _, None) (λ _, 500) (λ _, repeat x07 32) (λ _, None) rotated_server plain_run
    PathReply false
    (signed_post (Some (go "secret")) false (λ _, true) (λ _, None) (λ _, 500) (λ _, repeat x07 32) (λ _, None) rotated_server false
       PathReply (go "{}") (SHA256HexBytes (go "{}")) contentTypeJSON) (λ _, None) 3 (mkCState demo_epoch []).

Abbreviation demo_csteps := (csteps (Some (go "secret")) false (λ _, true) (λ _, None) (net_answers rotated_server) (run_reads plain_run)).

(** The call is refused for its epoch, discovers the new one and is accepted. *)
Lemma rotation_run : ∃ ls s t,
  demo_csteps ls (new_client demo_epoch) s ∧ c_threads s = [t] ∧ th_call t = rotation_post_call ∧ is_done t = true ∧ length (th_log t) = 2%nat.
Proof.
  destruct (post_run (Some (go "secret")) false (λ _, true) (λ _, None) (λ _, 500) (λ _, repeat x07 32) (λ _, None) rotated_server plain_run
    (λ _, None) false PathReply (go "{}") (SHA256HexBytes (go "{}")) contentTypeJSON false 3 (mkCState demo_epoch [])
    rotation_post.1 rotation_post.2 eq_refl (surjective_pairing _)) as (t & Hr & Hp & sent & Hs & Hl).
  apply spawn_run in Hr as (ls & u & Hrun & [H1 _ _] & Hcall). eexists _, u, t. split_and!; [exact Hrun | exact H1 | exact Hcall | |].
  - unfold is_done. by rewrite Hp.
  - cbn [cs_sent app] in Hs. rewrite <- (length_map fst), <- Hl, <- Hs. vm_compute. reflexivity.
Qed.

Lemma rotated_server_moved : moved_on false (λ _, true) (λ _, None) (net_answers rotated_server) demo_epoch.
Proof.
  split.
  - intros q resp path [n Hn] (time & h & Hr & Hst & _). apply readErrorResponse_status in Hr. rewrite Hst in Hr. unfold rotated_server in Hn.
    destruct (seqb _ _); [injection Hn as ->; discriminate Hr |].
    destruct (HasPrefix _ _) eqn:Ep; [|injection Hn as ->; discriminate Hr].
    apply HasPrefix_spec in Ep as [suffix Hs]. exists suffix. by rewrite Hs, <- app_assoc.
  - intros time a [n ->]. exists other_epoch. split; [vm_compute; reflexivity | discriminate].
Qed.

Lemma rotation_post_call_ok : call_ok rotation_post_call.
Proof. split; [reflexivity | done]. Qed.

Lemma demo_honest : honest_failures (net_answers rotated_server) (run_reads plain_run).
Proof.
  split.
  - intros q e [n Hn]. exfalso. unfold rotated_server in Hn. destruct (seqb _ _); [done |]. by destruct (HasPrefix _ _).
  - intros resp b s [n ->] _. split_and!; intros e H; discriminate H.
Qed.

Lemma demo_total : network_total (net_answers rotated_server) (run_reads plain_run).
Proof. split; [intros q; by exists (rotated_server 0 q), 0%nat | intros resp; by exists (plain_run 0 resp), 0%nat]. Qed.

Lemma concurrent_requests_verify_witness : ∃ ls s t,
  demo_csteps ls (new_client demo_epoch) s ∧ c_threads s = [t] ∧ length (th_log t) = 2%nat ∧ Forall (λ x, server_verifies (go "secret") x.1) (th_log t).
Proof.
  destruct rotation_run as (ls & s & t & Hs & Ht & Hcl & _ & Hlen). exists ls, s, t. split_and!; [exact Hs | exact Ht | exact Hlen |].
  destruct (concurrent_requests_verify (Some (go "secret")) false (λ _, true) (λ _, None) (net_answers rotated_server) (run_reads plain_run)
    (go "secret") demo_epoch ls s eq_refl (or_intror eq_refl) Hs) as [_ H].
  apply Forall_forall. intros x Hx. destruct (H t x.1) as (_ & _ & Hv & _); [| | |exact Hv].
  - rewrite Ht. apply list_elem_of_singleton. reflexivity.
  - rewrite Hcl. apply rotation_post_call_ok.
  - left. apply list_elem_of_fmap. exists x. split; [reflexivity | exact Hx].
Defined.

Lemma concurrent_posts_never_repeated_blindly_witness : ∃ ls s t x,
  demo_csteps ls (new_client demo_epoch) s ∧ c_threads s = [t] ∧ th_log t !! 0%nat = Some x ∧ exchange_refused (λ _, None) PathReply x.
Proof.
  destruct rotation_run as (ls & s & t & Hs & Ht & Hcl & _ & Hlen). destruct (th_log t) as [|x [|y l]] eqn:El; [discriminate Hlen.. |].
  exists ls, s, t, x. split_and!; [exact Hs | exact Ht | rewrite El; reflexivity |].
  destruct (concurrent_posts_never_repeated_blindly (Some (go "secret")) false (λ _, true) (λ _, None) (net_answers rotated_server)
    (run_reads plain_run) demo_epoch ls s demo_honest Hs t) as [_ H].
  - rewrite Ht. apply list_elem_of_singleton. reflexivity.
  - rewrite Hcl. apply rotation_post_call_ok.
  - rewrite Hcl in H. apply (H eq_refl 0%nat x); [rewrite El; reflexivity | left; rewrite El; simpl; lia].
Defined.

Lemma rotation_costs_one_discovery_witness : ∃ ls s,
  demo_csteps ls (new_client demo_epoch) s ∧ (ec_loads (c_cache s) ≤ 1)%nat.
Proof.
  destruct rotation_run as (ls & s & t & Hs & _). exists ls, s. split; [exact Hs |].
  exact (proj1 (rotation_costs_one_discovery (Some (go "secret")) false (λ _, true) (λ _, None) (net_answers rotated_server)
    (run_reads plain_run) (go "secret") demo_epoch ls s eq_refl eq_refl rotated_server_moved Hs)).
Defined.

Lemma concurrent_calls_return_witness : ∃ ls s t,
  demo_csteps ls (new_client demo_epoch) s ∧ c_threads s = [t] ∧ is_done t = true ∧
  Acc (λ u s, ∃ i l, cstep (Some (go "secret")) false (λ _, true) (λ _, None) (net_answers rotated_server) (run_reads plain_run) (CRun i l) s u) s.
Proof.
  destruct rotation_run as (ls & s & t & Hs & Ht & _ & Hd & _). exists ls, s, t. split_and!; [exact Hs | exact Ht | exact Hd |].
  exact (proj2 (concurrent_calls_return (Some (go "secret")) false (λ _, true) (λ _, None) (net_answers rotated_server)
    (run_reads plain_run) demo_epoch ls s (or_intror eq_refl) demo_total Hs)).
Defined.

Lemma sequential_post_is_concurrent_run_witness : ∃ ls u t,
  demo_csteps ls (new_client demo_epoch) u ∧ c_threads u = [t] ∧ th_phase t = PDone (CallOk 3%nat).
Proof.
  destruct (sequential_post_is_concurrent_run (Some (go "secret")) false (λ _, true) (λ _, None) (λ _, 500) (λ _, repeat x07 32) (λ _, None)
    rotated_server plain_run (λ _, None) false PathReply (go "{}") (SHA256HexBytes (go "{}")) contentTypeJSON false 3
    (mkCState demo_epoch []) rotation_post.2 rotation_post.1) as (ls & u & t & sent & Hs & Ht & _ & Hp & _).
  - discriminate.
  - apply surjective_pairing.
  - eexists _, u, t. split_and!; [exact Hs | exact Ht |]. rewrite Hp. vm_compute. reflexivity.
Defined.

(** A server that limits the rate, then rejects the request: the failure is definite. *)
Lemma rejected_run : ∃ ls s t e x,
  csteps None false (λ _, true) (λ _, None) (net_answers busy_then_400) (run_reads plain_run) ls (new_client []) s ∧ c_threads s = [t] ∧
  cl_method (th_call t) = MethodPost ∧ th_phase t = PDone (CallErr e) ∧ Is e ErrTransport = false ∧ ClientRequestIDConflictCode e = [] ∧
  th_log t !! 1%nat = Some x.
Proof.
  destruct (post_run None false (λ _, true) (λ _, None) (λ _, 500) (λ _, []) (λ _, None) busy_then_400 plain_run (λ _, None) false PathReply
    (go "{}") (go "x") contentTypeJSON false 3 (mkCState [] []) (demo_call busy_then_400).1 (demo_call busy_then_400).2
    eq_refl (surjective_pairing _)) as (t & Hr & Hp & sent & Hs & Hl).
  apply spawn_run in Hr as (ls & u & Hrun & [H1 _ _] & Hcall).
  assert (length (th_log t) = 2%nat) as Hlen.
  { cbn [cs_sent app] in Hs. rewrite <- (length_map fst), <- Hl, <- Hs. vm_compute. reflexivity. }
  destruct (th_log t) as [|x0 [|x1 l]] eqn:El; [discriminate Hlen.. |].
  exists (CSpawn (post_call false PathReply (go "{}") (go "x") contentTypeJSON false 3) :: ls), u, t.
  exists (match (demo_call busy_then_400).1 with CallErr e => e | _ => EOther [] end), x1.
  split_and!; [exact Hrun | exact H1 | by rewrite Hcall | by rewrite Hp | by vm_compute | by vm_compute | by rewrite El].
Qed.

Lemma concurrent_definite_failure_witness : ∃ (s : @client nat) t (x : wireRequest * result goerror response),
  c_threads s = [t] ∧ th_log t !! 1%nat = Some x ∧ exchange_settled x.
Proof.
  destruct rejected_run as (ls & s & t & e & x & Hs & Ht & Hm & Hp & H1 & H2 & Hx). exists s, t, x. split_and!; [exact Ht | exact Hx |].
  apply (concurrent_definite_failure None false (λ _, true) (λ _, None) (net_answers busy_then_400) (run_reads plain_run) [] ls s t e x.1 x.2).
  - split.
    + intros q e' [n Hn]. discriminate Hn.
    + intros resp b v [n ->] _. split_and!; intros e' H; discriminate H.
  - exact Hs.
  - rewrite Ht. apply list_elem_of_singleton. reflexivity.
  - exact Hm.
  - exact Hp.
  - exact H1.
  - exact H2.
  - apply (list_elem_of_lookup_2 _ 1). rewrite Hx. destruct x. reflexivity.
Defined.
