(* ===== verification/Operations.v ===== *)
(** * Operations: the operations of a client as goroutines (internal/client/transport: client.go, file.go, rooms.go)

    Each operation that makes a typed call is a goroutine of [Concurrent] with the call it prepares: text, image and file
    replies, the two queries, and the GETs.  Run alone it does what [Session] says of it, and run among any number of
    others it keeps what was proved of concurrent calls; a file that is uploaded meanwhile arrives as its manifest says.
    [FetchMediaChunk], which is not retried and reads its answer by other rules, and [Ping], which is not signed, are
    not calls of this kind. *)

From S2P Require Import Prelude GoStrings GoStrconv GoJson GoJsonEnc GoHttp GoCrypto Canonical Hmac Errors Retry Execute AuthEpoch.
From S2P Require Import Path Multipart MultipartFrame Send Calls Wire SendFile Media StrictJson Fetch Session Concurrent ConcurrentCalls.

(** ** The calls *)

Section calls.
Context (baseURL : gostring) (ReplyRetryMax : Z) (ctx_done : nat → bool).

(** [postJSON] up to the retry loop. *)
Definition json_call {B} `{Marshaler B} (path : gostring) (body : B) (key : bool) : option call :=
  (λ payload, post_call false path payload (SHA256HexBytes payload) contentTypeJSON key ReplyRetryMax) <$> Marshal body.

Definition reply_call (request : result sendError (ReplyRequest * bool)) : option call :=
  match request with Ok (req, key) => json_call PathReply req key | Err _ => None end.

Definition images_call (multiple : bool) (boundary room : gostring) (images : list gostring) (opts : list SendOption) : option call :=
  match prepare_images multiple room images opts with
  | Err _ => None
  | Ok prepared =>
      match prepare_multipart boundary prepared images with
      | Err _ => None
      | Ok f => Some (post_call true PathReply (concat (bf_chunks f)) (bf_bodySHA256 f) (bf_contentType f)
                        (match im_ClientRequestID prepared.1 with Some _ => true | None => false end) ReplyRetryMax)
      end
  end.

Definition file_call (boundary room : gostring) (file : ReplyFile) (opts : list SendOption) (c0 c1 c2 : nat) : option call :=
  match prepare_file ctx_done c0 room file opts with
  | Err _ => None
  | Ok (metadata, contentType) =>
      match Marshal metadata with
      | None => None
      | Some metadataBytes =>
          match NewFileBodyFactory ctx_done boundary metadataBytes (rf_FileName file) contentType (rf_ByteLength file)
                  (rf_readerAt file) c1, rf_readerAt file with
          | Ok f, Some ra => Some (post_call true PathReply (file_stream ra c2 f) (ff_bodySHA256 f) (ff_contentType f)
                                     (match fm_ClientRequestID metadata with Some _ => true | None => false end) ReplyRetryMax)
          | _, _ => None
          end
      end
  end.

(** [None]: the operation is refused before it reaches the network, or is not a call of this kind. *)
Definition operation_call (op : operation) : option call :=
  match op with
  | OpSendMessageAccepted room message opts => reply_call (SendMessageAccepted_request room message opts)
  | OpSendMarkdown room markdown opts => reply_call (SendMarkdown_request room markdown opts)
  | OpSendRichText room markdown opts => reply_call (SendRichText_request room markdown opts)
  | OpSendImages multiple boundary room images opts => images_call multiple boundary room images opts
  | OpSendFile boundary room file opts c0 c1 c2 => file_call boundary room file opts c0 c1 c2
  | OpQueryMemberStats req => json_call PathQueryMemberStats req true
  | OpQueryRecentMessages req => json_call PathQueryRecentMessages req true
  | OpGetReplyStatus requestID => match GetReplyStatus_path requestID with Ok path => Some (get_call baseURL path) | Err _ => None end
  | OpGetRooms => Some (get_call baseURL PathRooms)
  | OpGetMembers chatID => Some (get_call baseURL (GetMembers_path chatID))
  | OpGetMembersWithProfileRefresh chatID profileUserID =>
      Some (get_call baseURL (GetMembersWithProfileRefresh_path chatID profileUserID))
  | OpGetRoomEvents chatID userID eventType limit after before order =>
      Some (get_call baseURL (getRoomEvents_path chatID userID eventType limit after before order))
  | OpSearchNicknameHistoryExact chatID name limit => Some (get_call baseURL (SearchNicknameHistoryExact_path chatID name limit))
  | OpFetchMediaChunk _ | OpPing => None
  end.

(** ** What the calls are *)

(** The body that is signed is the body that is sent. *)
Lemma json_call_ok {B} `{Marshaler B} path (body : B) key cl : json_call path body key = Some cl → call_ok cl.
Proof. unfold json_call. destruct (Marshal body); [|done]. by intros [= <-]. Qed.

Lemma reply_call_ok request cl : reply_call request = Some cl → call_ok cl.
Proof. unfold reply_call. destruct request as [[req key]|]; [|done]. apply json_call_ok. Qed.

Lemma images_call_ok multiple boundary room images opts cl : images_call multiple boundary room images opts = Some cl → call_ok cl.
Proof.
  unfold images_call. destruct (prepare_images _ _ _ _) as [[metadata cts]|]; [|done].
  destruct (prepare_multipart _ _ _) as [f|] eqn:Ef; [|done]. intros [= <-]. split; [|done]. cbn. rewrite SHA256HexBytes_spec.
  unfold prepare_multipart in Ef. destruct (Marshal metadata); [|done]. inv_ok. by apply NewBodyFactory_ok in Ef as [-> _].
Qed.

Lemma file_call_ok boundary room file opts c0 c1 c2 cl :
  (∀ ra, rf_readerAt file = Some ra → ∃ content, stable ra content) → file_call boundary room file opts c0 c1 c2 = Some cl → call_ok cl.
Proof.
  intros Hst. unfold file_call. destruct (prepare_file _ _ _ _ _) as [[metadata ct]|]; [|done]. destruct (Marshal metadata) as [b|]; [|done].
  destruct (NewFileBodyFactory _ _ _ _ _ _ _ _) as [f|] eqn:Ef; [|done]. destruct (rf_readerAt file) as [ra|] eqn:Era; [|done].
  destruct (Hst ra eq_refl) as [content Hs].
  destruct (factory_ok _ _ content _ _ _ _ _ _ _ Hs Ef) as (_ & Hfl & Hlen & _ & _ & Hsha & Hbl). rewrite <- Hlen in Hfl, Hsha, Hbl.
  intros [= <-]. split; [|done]. cbn. by rewrite SHA256HexBytes_spec, (file_stream_body ra content c2 f).
Qed.

Lemma operation_call_ok op cl : operation_ok op → operation_call op = Some cl → call_ok cl.
Proof.
  intros Hop. destruct op; cbn [operation_call operation_ok] in *; try (intros [= <-]; done).
  1-3: apply reply_call_ok.
  3-4: apply json_call_ok.
  - apply images_call_ok.
  - by apply file_call_ok.
  - destruct (GetReplyStatus_path _); [|done]. by intros [= <-].
Qed.
End calls.

(** No path of an operation is that of the discovery. *)
Lemma query_path_call path params : seqb (take 2 path) (go "/r") = true → seqb (appendCanonicalQuery path params) authEpochPath = false.
Proof.
  intros H. apply seqb_true in H. destruct path as [|a [|b path]]; try discriminate H. injection H as -> ->.
  unfold appendCanonicalQuery. by destruct (is_empty _).
Qed.

Section runs.
Context (key : gostring) (http1ProbeOnly : bool) (url_ok : gostring → bool) (baseURL : gostring).
Context (ParseTime : gostring → option Z) (now : nat → Z) (random : nat → gostring).
Context (ctx_err : nat → option goerror) (net : nat → wireRequest → result goerror response).
Context {T : Type} (body_run : nat → response → bodyRun T).
Context (ReplyRetryMax : Z) (wait : nat → option goerror) (ctx_done : nat → bool).

Abbreviation runs_ := (runs (Some key) http1ProbeOnly url_ok ParseTime net body_run).

(** The end of an operation is that of a goroutine with its call. *)
Definition call_runs (cl : call) (s s' : cstate) : Prop :=
  ∃ t', runs_ s (new_thread cl) s' t' ∧ is_done t' = true ∧ logged s s' (th_log t').

Abbreviation retryPostJSON_ := (retryPostJSON (Some key) http1ProbeOnly url_ok ParseTime now random ctx_err net body_run).
Abbreviation signed_post_ := (signed_post (Some key) http1ProbeOnly url_ok ParseTime now random ctx_err net).

Lemma post_call_runs streamed path body sha contentType k s :
  seqb path authEpochPath = false →
  call_runs (post_call streamed path body sha contentType k ReplyRetryMax) s
    (retryPostJSON_ path k (signed_post_ streamed path body sha contentType) wait ReplyRetryMax s).2.
Proof.
  intros Hp. destruct (retryPostJSON_ path k _ wait ReplyRetryMax s) as [r s'] eqn:E.
  apply post_run in E as (t & Hr & Hd & Hl); [|done]. exists t. split_and!; [done | | done]. unfold is_done. by rewrite Hd.
Qed.

Lemma get_call_runs path s :
  seqb path authEpochPath = false →
  call_runs (get_call baseURL path) s (doGet (Some key) http1ProbeOnly url_ok baseURL ParseTime now random ctx_err net body_run s path).2.
Proof.
  intros Hp. destruct (doGet _ _ _ _ _ _ _ _ _ _ s path) as [r s'] eqn:E.
  apply runs_get in E as (t & Hr & Hd & Hl); [|done]. exists t. split_and!; [done | | done]. unfold is_done. by rewrite Hd.
Qed.

(** A call, or nothing. *)
Definition call_or_nothing (ocl : option call) (s s' : cstate) : Prop :=
  match ocl with Some cl => call_runs cl s s' | None => s' = s end.

Lemma json_call_runs {B} `{Marshaler B} path (body : B) k s :
  seqb path authEpochPath = false →
  call_or_nothing (json_call ReplyRetryMax path body k) s
    (postJSON (Some key) http1ProbeOnly url_ok ParseTime now random ctx_err net body_run ReplyRetryMax wait s path body k).2.
Proof.
  intros Hp. unfold json_call, postJSON. destruct (Marshal body) as [payload|]; [|done]. by apply post_call_runs.
Qed.

Lemma reply_call_runs request s :
  call_or_nothing (reply_call ReplyRetryMax request) s
    (send_reply (Some key) http1ProbeOnly url_ok ParseTime now random ctx_err net body_run ReplyRetryMax wait s request).2.
Proof.
  unfold reply_call, send_reply. destruct request as [[req k]|]; [|done].
  pose proof (json_call_runs PathReply req k s eq_refl) as H. by destruct (postJSON _ _ _ _ _ _ _ _ _ _ _ _ _ _ _).
Qed.

Lemma query_call_runs {B} `{Marshaler B} path (req : B) s :
  seqb path authEpochPath = false →
  call_or_nothing (json_call ReplyRetryMax path req true) s
    (query_post (Some key) http1ProbeOnly url_ok ParseTime now random ctx_err net body_run ReplyRetryMax wait path s req).2.
Proof.
  intros Hp. unfold query_post. pose proof (json_call_runs path req true s Hp) as Hc. by destruct (postJSON _ _ _ _ _ _ _ _ _ _ _ _ _ _ _).
Qed.

Lemma images_call_runs multiple boundary room images opts s :
  call_or_nothing (images_call ReplyRetryMax multiple boundary room images opts) s
    (send_images (Some key) http1ProbeOnly url_ok ParseTime now random ctx_err net body_run ReplyRetryMax wait boundary multiple s room images opts).2.
Proof.
  unfold images_call, send_images. destruct (prepare_images _ _ _ _) as [prepared|]; [|done]. destruct (prepare_multipart _ _ _) as [f|]; [|done].
  pose proof (post_call_runs true PathReply (concat (bf_chunks f)) (bf_bodySHA256 f) (bf_contentType f)
    (match im_ClientRequestID prepared.1 with Some _ => true | None => false end) s eq_refl) as H.
  unfold postMultipart_builder. by destruct (retryPostJSON_ _ _ _ _ _ _).
Qed.

Lemma file_call_runs boundary room file opts c0 c1 c2 s :
  call_or_nothing (file_call ReplyRetryMax ctx_done boundary room file opts c0 c1 c2) s
    (SendFile (Some key) http1ProbeOnly url_ok ParseTime now random ctx_err net body_run ReplyRetryMax wait ctx_done boundary c0 c1 c2 s room file opts).2.
Proof.
  unfold file_call, SendFile, postFileMultipart. destruct (prepare_file _ _ _ _ _) as [[metadata ct]|]; [|done].
  destruct (Marshal metadata) as [b|]; [|done]. destruct (NewFileBodyFactory _ _ _ _ _ _ _ _) as [f|]; [|done].
  destruct (rf_readerAt file) as [ra|]; [|done].
  pose proof (post_call_runs true PathReply (file_stream ra c2 f) (ff_bodySHA256 f) (ff_contentType f)
    (match fm_ClientRequestID metadata with Some _ => true | None => false end) s eq_refl) as H.
  by destruct (retryPostJSON_ _ _ _ _ _ _).
Qed.

Abbreviation run_operation_ := (run_operation key http1ProbeOnly url_ok baseURL ParseTime now random ctx_err net body_run ReplyRetryMax wait ctx_done).

(** The operations that make typed calls. *)
Definition typed_operation (op : operation) : bool := match op with OpFetchMediaChunk _ | OpPing => false | _ => true end.

Lemma operation_runs op s :
  typed_operation op = true → call_or_nothing (operation_call baseURL ReplyRetryMax ctx_done op) s (run_operation_ s op).
Proof.
  intros Ht. destruct op; try discriminate Ht; cbn [operation_call run_operation].
  1-3: apply reply_call_runs.
  3-4: by apply query_call_runs.
  - apply images_call_runs.
  - apply file_call_runs.
  - unfold GetReplyStatus. destruct (GetReplyStatus_path requestID) as [path|] eqn:E; [|done]. apply get_call_runs.
    unfold GetReplyStatus_path, appendSafePathSegment in E. inv_ok. by subst.
  - by apply get_call_runs.
  - by apply get_call_runs.
  - by apply get_call_runs, query_path_call.
  - by apply get_call_runs, query_path_call.
  - by apply get_call_runs, query_path_call.
Qed.
End runs.

(** C10: the operations are runs of the concurrent client.  Whatever the network, the clock, randomness and the contexts
    do, a text, image or file reply, a query or a GET either is refused and sends nothing, or is a run of a client whose
    only goroutine makes the call of that operation: the goroutine comes to its end, the same epoch is left in the
    cache, and its exchanges are the requests the operation sent, in order, the discoveries apart. *)
Theorem operations_are_concurrent_runs {T} (key : gostring) (http1ProbeOnly : bool) (url_ok : gostring → bool) (baseURL : gostring)
    (ParseTime : gostring → option Z) (now : nat → Z) (random : nat → gostring)
    (ctx_err : nat → option goerror) (net : nat → wireRequest → result goerror response)
    (body_run : nat → response → bodyRun T) (ReplyRetryMax : Z) (wait : nat → option goerror) (ctx_done : nat → bool)
    (op : operation) (s : cstate) :
  typed_operation op = true →
  let s' := run_operation key http1ProbeOnly url_ok baseURL ParseTime now random ctx_err net body_run ReplyRetryMax wait ctx_done s op in
  match operation_call baseURL ReplyRetryMax ctx_done op with
  | None => s' = s
  | Some cl =>
      (operation_ok op → call_ok cl) ∧
      ∃ ls u t sent,
        csteps (Some key) http1ProbeOnly url_ok ParseTime (net_answers net) (run_reads body_run) (CSpawn cl :: ls) (new_client (cs_epoch s)) u ∧
        c_threads u = [t] ∧ th_call t = cl ∧ is_done t = true ∧ ec_value (c_cache u) = cs_epoch s' ∧
        cs_sent s' = cs_sent s ++ sent ∧ List.filter is_call sent = map fst (th_log t)
  end.
Proof.
  intros Hop s'.
  pose proof (operation_runs key http1ProbeOnly url_ok baseURL ParseTime now random ctx_err net body_run ReplyRetryMax wait ctx_done op s Hop) as H.
  destruct (operation_call baseURL ReplyRetryMax ctx_done op) as [cl|] eqn:E; [|done].
  split; [intros Hok; by eapply operation_call_ok |]. destruct H as (t & Hr & Hd & sent & Hs & Hl).
  apply spawn_run in Hr as (ls & u & Hrun & [H1 H2 _] & Hcall). exists ls, u, t, sent. by split_and!.
Qed.

(** C11: concurrent uploads do not mix.  In every interleaving of file replies with any other calls of the client, each
    request of a file reply that is answered or under way is the POST of its own file: its body reads back as the encoded
    metadata and the first [ByteLength] bytes of that file under the given name, the metadata is a file reply to the given
    room whose manifest has the hash, the length, the content type and the name of exactly this part, and the server
    verifies the signature over this body.  The file must not change meanwhile. *)
Theorem concurrent_uploads_exact {T} (key : gostring) (http1ProbeOnly : bool) (url_ok : gostring → bool) (ParseTime : gostring → option Z)
    (answers : wireRequest → result goerror response → Prop) (reads : response → bodyRun T → Prop)
    (ReplyRetryMax : Z) (ctx_done : nat → bool) (v : gostring) (ls : list clabel) (s : client) (t : thread) (q : wireRequest)
    (boundary room : gostring) (file : ReplyFile) (opts : list SendOption) (c0 c1 c2 : nat) (ra : readerAt) (content : gostring) :
  epoch_value_ok v → csteps (Some key) http1ProbeOnly url_ok ParseTime answers reads ls (new_client v) s →
  t ∈ c_threads s → file_call ReplyRetryMax ctx_done boundary room file opts c0 c1 c2 = Some (th_call t) →
  rf_readerAt file = Some ra → stable ra content → x0d ∉ boundary →
  payload_ok boundary (take (Z.to_nat (rf_ByteLength file)) content) →
  q ∈ map fst (th_log t) ∨ th_phase t = PFlight q →
  wq_Method q = MethodPost ∧ wq_Path q = PathReply ∧ server_verifies key q ∧
  ∃ body, wq_Body q = Some body ∧ file_described boundary room file (take (Z.to_nat (rf_ByteLength file)) content) body.
Proof.
  intros Hv Hs Ht Hcl Hra Hst Hb Hp Hq.
  assert (call_ok (th_call t)) as Hok by (eapply file_call_ok; [|exact Hcl]; intros ra' Hra'; rewrite Hra in Hra'; injection Hra' as <-; by exists content).
  destruct (requests_good (Some key) http1ProbeOnly url_ok ParseTime answers reads key v ls s eq_refl Hv Hs) as [_ Hgood].
  destruct (Hgood t q Ht Hok Hq) as ((Hm & Hpath & Hbody & _) & _ & [Hver _]).
  unfold file_call in Hcl. rewrite Hra in Hcl. destruct (prepare_file _ _ _ _ _) as [[metadata ct]|] eqn:Epr; [|done].
  destruct (Marshal metadata) as [encoded|] eqn:Em; [|done]. destruct (NewFileBodyFactory _ _ _ _ _ _ _ _) as [f|] eqn:Ef; [|done].
  injection Hcl as Hcl. rewrite <- Hcl in Hm, Hpath, Hbody. split_and!; [done | done | done |].
  exists (file_stream ra c2 f). split; [done |].
  by apply (file_body_described _ _ _ _ c2 _ _ _ _ _ _ _ _ _ Hra Hst Hb Hp Epr Em Ef).
Qed.

(** A file reply run alone, as a goroutine, on a server that answers everything. *)
Definition demo_upload : operation := OpSendFile (go "b0") (go "room") demo_reply_file [] 0 0 0.
Definition demo_uploaded : cstate :=
  run_operation (go "secret") false (λ _, true) (go "https://iris") (λ _, None) (λ _, 500) (λ _, repeat x07 32) (λ _, None) epoch_server
    plain_run 3 (λ _, None) (λ _, false) (mkCState [] []) demo_upload.

Lemma upload_run : ∃ cl ls u t q,
  file_call 3 (λ _, false) (go "b0") (go "room") demo_reply_file [] 0 0 0 = Some cl ∧
  csteps (Some (go "secret")) false (λ _, true) (λ _, None) (net_answers epoch_server) (run_reads plain_run) (CSpawn cl :: ls) (new_client []) u ∧
  c_threads u = [t] ∧ th_call t = cl ∧ is_done t = true ∧ q ∈ map fst (th_log t).
Proof.
  pose proof (operation_runs (go "secret") false (λ _, true) (go "https://iris") (λ _, None) (λ _, 500) (λ _, repeat x07 32) (λ _, None) epoch_server
    plain_run 3 (λ _, None) (λ _, false) demo_upload (mkCState [] []) eq_refl) as H.
  fold demo_uploaded in H. unfold operation_call, demo_upload in H.
  destruct (file_call 3 (λ _, false) (go "b0") (go "room") demo_reply_file [] 0 0 0) as [cl|] eqn:E; [|vm_compute in E; discriminate E].
  destruct H as (t & Hr & Hd & sent & Hs & Hl). apply spawn_run in Hr as (ls & u & Hrun & [H1 _ _] & Hcall).
  assert (length (List.filter is_call (cs_sent demo_uploaded)) = 1%nat) as Hlen by (vm_compute; reflexivity).
  change (cs_sent demo_uploaded = sent) in Hs. rewrite Hs, Hl in Hlen. destruct (map fst (th_log t)) as [|q l] eqn:El; [discriminate Hlen |].
  exists cl, ls, u, t, q. split; [reflexivity |]. split; [exact Hrun |]. split; [exact H1 |]. split; [exact Hcall |]. split; [exact Hd |].
  rewrite El. left.
Qed.

Lemma operations_are_concurrent_runs_witness : ∃ ls (u : @client nat) t,
  csteps (Some (go "secret")) false (λ _, true) (λ _, None) (net_answers epoch_server) (run_reads plain_run) ls (new_client []) u ∧
  c_threads u = [t] ∧ is_done t = true ∧ ec_value (c_cache u) = repeat "a"%byte 32.
Proof.
  pose proof (operations_are_concurrent_runs (go "secret") false (λ _, true) (go "https://iris") (λ _, None) (λ _, 500) (λ _, repeat x07 32)
    (λ _, None) epoch_server plain_run 3 (λ _, None) (λ _, false) OpGetRooms (mkCState [] []) eq_refl) as H. cbv zeta in H.
  destruct H as (_ & ls & u & t & sent & Hs & Ht & _ & Hd & Hv & _). eexists _, u, t. split_and!; [exact Hs | exact Ht | exact Hd |].
  rewrite Hv. vm_compute. reflexivity.
Defined.

Lemma concurrent_uploads_exact_witness : ∃ (u : @client nat) t q,
  c_threads u = [t] ∧ q ∈ map fst (th_log t) ∧ server_verifies (go "secret") q ∧
  ∃ body, wq_Body q = Some body ∧ file_described (go "b0") (go "room") demo_reply_file (go "abcdef") body.
Proof.
  destruct upload_run as (cl & ls & u & t & q & Hcl & Hs & Ht & Hc & _ & Hq). exists u, t, q. split; [exact Ht |]. split; [exact Hq |].
  destruct (concurrent_uploads_exact (go "secret") false (λ _, true) (λ _, None) (net_answers epoch_server) (run_reads plain_run) 3 (λ _, false)
    [] (CSpawn cl :: ls) u t q (go "b0") (go "room") demo_reply_file [] 0 0 0 (bytes_reader (go "abcdef")) (go "abcdef")) as (_ & _ & H1 & H2).
  - by left.
  - exact Hs.
  - rewrite Ht. left.
  - rewrite Hc. exact Hcl.
  - reflexivity.
  - apply bytes_reader_stable.
  - apply no_cr. vm_compute. reflexivity.
  - vm_compute. reflexivity.
  - left. exact Hq.
  - split; [exact H1 | exact H2].
Defined.
