(* ===== verification/Deadlines.v ===== *)
(** * Deadlines: how long a call takes (internal/client/transport: auth_epoch.go, execute.go, retry.go)

    The goroutines of [Concurrent] with a clock.  Each attempt has one context, made by [requestContext] when it
    begins, which bounds its discovery, its request, the replay of that request and the reading of the answer; the
    wait between two attempts is bounded by its delay and by the caller's context.  A blocking operation is only
    assumed to end when the context it was given is over, as the documentation of net/http says of its own; what the
    code computes between two of them takes no time here. *)

From S2P Require Import Prelude GoStrings GoStrconv GoJson GoHttp GoCrypto Canonical Hmac NonceStore Errors Retry Execute AuthEpoch.
From S2P Require Import Path Multipart MultipartFrame Send Calls SendFile Media StrictJson Fetch Session Concurrent.

(** ** Contexts *)

(** A context by its deadline, if it has one; that of a derived context is the earlier one. *)
Definition earliest (deadline : option Z) (at_ : Z) : option Z :=
  Some (match deadline with Some d => Z.min d at_ | None => at_ end).

Definition requestContext (Timeout : Z) (ctx : option Z) (now : Z) : option Z :=
  if Timeout <=? 0 then ctx else earliest ctx (now + Timeout).

Definition successBodyDrainTimeout : Z := 100 * Millisecond.

(** The deadline of the request's context while the rest of a success body is drained. *)
Definition armSuccessBodyDrainDeadline (Timeout : Z) (ctx : option Z) (now : Z) : option Z :=
  earliest ctx (now + (if 0 <? Timeout then Z.min successBodyDrainTimeout Timeout else successBodyDrainTimeout)).

(** An operation that blocks from [t0] until [t1] under a context with this deadline. *)
Definition blocks (ctx : option Z) (t0 t1 : Z) : Prop := t0 ≤ t1 ∧ ∀ d, ctx = Some d → t1 ≤ Z.max t0 d.

Lemma blocks_refl ctx t : blocks ctx t t.
Proof. split; [lia |]. intros d _. lia. Qed.

(** ** A goroutine with a clock *)

Section timed.
Context (secret : option gostring) (http1ProbeOnly : bool) (url_ok : gostring → bool) (ParseTime : gostring → option Z).
Context {T : Type} (answers : wireRequest → result goerror response → Prop) (reads : response → bodyRun T → Prop).
(** The timeouts of the HTTP client and of the options, and the caller's context. *)
Context (clientTimeout optsTimeout : Z) (ctx : option Z).

Record timed := mkTimed {
  tm_thread : @thread T;
  tm_now : Z;
  tm_attempt : option Z;  (** the context of the attempt *)
  tm_backoff : Z;
}.

Definition start_call (cl : call) (now : Z) : timed := mkTimed (new_thread cl) now None (50 * Millisecond).

(** Another attempt follows, after a wait. *)
Definition waits (t : @thread T) (err : goerror) : bool :=
  isRetryableReplyError err (cl_key (th_call t)) && negb (th_left t =? 0)%nat.

(** A draw of the jitter is a fraction of its range. *)
Definition draw_ok (draw : Z → Z) : Prop := ∀ x, 0 ≤ x → 0 ≤ draw x ≤ x.

Abbreviation tstep_ := (tstep secret http1ProbeOnly url_ok ParseTime answers reads).

(** The steps of a goroutine, with the time each takes; the cache is as the other goroutines leave it. *)
Inductive timed_step : timed → timed → Prop :=
| td_build t now a bo callers ol t' :
    th_phase t = PBuild → tstep_ callers t ol t' →
    timed_step (mkTimed t now a bo) (mkTimed t' now (requestContext clientTimeout ctx now) bo)
| td_prompt t now a bo callers ol t' q :
    th_phase t = PResign q ∨ th_phase t = PSend q → tstep_ callers t ol t' → timed_step (mkTimed t now a bo) (mkTimed t' now a bo)
| td_sign t now a bo callers ol t' q sha rp c e now' :
    th_phase t = PSign q sha rp c e → tstep_ callers t ol t' → blocks a now now' →
    timed_step (mkTimed t now a bo) (mkTimed t' now' a bo)
| td_receive t now a bo callers ol t' q decoded now' :
    th_phase t = PFlight q → tstep_ callers t ol t' → blocks a now decoded →
    blocks (armSuccessBodyDrainDeadline optsTimeout a decoded) decoded now' →
    timed_step (mkTimed t now a bo) (mkTimed t' now' a bo)
| td_retry t now a bo err wait draw delay applied now' :
    th_phase t = PFailed err → draw_ok draw → retryDelayAndRetryAfter draw err bo = (delay, applied) →
    (if waits t err then blocks (earliest ctx (now + delay)) now now' else now' = now) →
    timed_step (mkTimed t now a bo) (mkTimed (decide_retry t err wait) now' a (Z.min (bo * 2) Second)).

Inductive timed_steps : timed → timed → Prop :=
| timed_nil x : timed_steps x x
| timed_snoc x y z : timed_steps x y → timed_step y z → timed_steps x z.

(** The steps of a call in its goroutine are those of [Concurrent], whatever the time they take. *)
Lemma timed_step_tstep x y : timed_step x y → ∃ callers ol, tstep_ callers (tm_thread x) ol (tm_thread y).
Proof. intros H. destruct H; try (by eauto). exists [], None. by apply t_retry. Qed.

(** ** Bounds *)

Context (Htimeout : 0 < clientTimeout) (t0 : Z).

(** When the attempts made so far, and the waits after them, are over at the latest. *)
Definition attempts_over (t : @thread T) : Z :=
  t0 + Z.of_nat (cl_retries (th_call t) - th_left t) * (clientTimeout + 5 * Second).

(** When the call is over at the latest. *)
Definition call_over (cl : call) : Z :=
  t0 + Z.of_nat (cl_retries cl) * (clientTimeout + 5 * Second) + clientTimeout.

Definition phase_over (t : @thread T) : Z :=
  match th_phase t with
  | PBuild => attempts_over t
  | PDone _ => call_over (th_call t)
  | _ => attempts_over t + clientTimeout
  end.

Record on_time (x : timed) : Prop := {
  ot_left : (th_left (tm_thread x) ≤ cl_retries (th_call (tm_thread x)))%nat;
  ot_backoff : 50 * Millisecond ≤ tm_backoff x ≤ Second;
  ot_now : t0 ≤ tm_now x ≤ phase_over (tm_thread x);
  ot_attempt : th_phase (tm_thread x) = PBuild ∨
    ∃ d, tm_attempt x = Some d ∧ d ≤ attempts_over (tm_thread x) + clientTimeout ∧ ∀ c, ctx = Some c → d ≤ c;
  ot_ctx c : ctx = Some c → tm_now x ≤ Z.max t0 c;
}.

(** A step inside an attempt. *)
Lemma tstep_attempt callers t ol t' :
  tstep_ callers t ol t' → (∀ e, th_phase t ≠ PFailed e) → th_call t' = th_call t ∧ th_left t' = th_left t ∧ th_phase t' ≠ PBuild.
Proof.
  intros Hs Hp. assert (th_call t' = th_call t) as Hc by (by apply tstep_log in Hs as [? _]).
  destruct Hs as [t err Ht Hn|t q Ht Hn Hs|t q k Ht Hn Hs|t q sha rp i e0 Ht|t q sha rp i e0 x ctxErr Ht Hx|t q sha rp i e0 now a v Ht Ha Hf
    |t q sha rp i e0 now a err Ht Ha Hf|t q sha rp i e0 Ht Hx|t q sha rp i e0 k ep now r Ht Hx Hs|t q k Ht Hs|t q Ht|t q a now b Ht Ha Hb|t err w Ht];
    try (split_and!; [done | done | by rewrite ?Ht]).
  - rewrite signed_left. split_and!; [done | done | by destruct rp].
  - rewrite signed_left. split_and!; [done | done |]. unfold signed. destruct (sign_with _ _ _ _ _ _), rp; try done. by destruct (replay_body _ _).
  - destruct (receive_cases secret ParseTime t q a now b) as (l & p & rf & E & _ & Hcase). rewrite E in *. cbn [snd] in *.
    split_and!; [done | done |]. cbn. destruct Hcase as [[_ Ho]|(_ & _ & -> & _)]; [by destruct p | done].
  - by destruct (Hp err).
Qed.

Lemma attempts_call_over t : (th_left t ≤ cl_retries (th_call t))%nat → attempts_over t + clientTimeout ≤ call_over (th_call t).
Proof using Htimeout. intros H. unfold attempts_over, call_over, Second, Millisecond in *. nia. Qed.

(** The attempt goes on until a time that its context allows. *)
Lemma on_time_attempt x t' a' now' :
  on_time x → is_done (tm_thread x) = false → th_call t' = th_call (tm_thread x) → th_left t' = th_left (tm_thread x) →
  th_phase t' ≠ PBuild →
  (∃ d, a' = Some d ∧ d ≤ attempts_over (tm_thread x) + clientTimeout ∧ ∀ c, ctx = Some c → d ≤ c) →
  blocks a' (tm_now x) now' → on_time (mkTimed t' now' a' (tm_backoff x)).
Proof using Htimeout.
  intros [H1 H2 H3 H4 H5] Hdone Hc Hl Hb (d & Hd & Hle & Hctx) [Hge Hnow]. specialize (Hnow d Hd).
  assert (attempts_over t' = attempts_over (tm_thread x)) as Ha by (unfold attempts_over; by rewrite Hc, Hl).
  pose proof (attempts_call_over _ H1) as Hover.
  assert (tm_now x ≤ attempts_over (tm_thread x) + clientTimeout) as Hin.
  { unfold phase_over, is_done in *. destruct (th_phase (tm_thread x)); (done || lia). }
  split; cbn [tm_thread tm_now tm_attempt tm_backoff].
  - by rewrite Hc, Hl.
  - done.
  - unfold phase_over. rewrite Ha, Hc. destruct (th_phase t'); (done || lia).
  - right. exists d. by rewrite Ha.
  - intros c Hcc. specialize (H5 c Hcc). specialize (Hctx c Hcc). lia.
Qed.

Lemma requestContext_bound now :
  ∃ d, requestContext clientTimeout ctx now = Some d ∧ d ≤ now + clientTimeout ∧ ∀ c, ctx = Some c → d ≤ c.
Proof using Htimeout.
  unfold requestContext, earliest. rewrite (proj2 (Z.leb_gt _ _)) by done. eexists. split; [done |].
  destruct ctx as [c|]; split; try lia; intros c' [= <-]; lia.
Qed.

(** A drain ends within its own limit, and within the attempt. *)
Lemma drain_blocks a t1 t2 t3 : blocks a t1 t2 → blocks (armSuccessBodyDrainDeadline optsTimeout a t2) t2 t3 →
  blocks a t1 t3 ∧ t3 ≤ t2 + successBodyDrainTimeout.
Proof.
  unfold blocks, armSuccessBodyDrainDeadline, earliest. intros [H1 H2] [H3 H4]. specialize (H4 _ eq_refl).
  assert (0 < successBodyDrainTimeout) as Hs by done. set (limit := successBodyDrainTimeout) in *. clearbody limit.
  destruct (0 <? optsTimeout) eqn:E; bool_props; (destruct a as [d|]; [specialize (H2 d eq_refl) | clear H2]);
    (split; [split; [lia |]; intros d' Hd'; try done; injection Hd' as <-; lia | lia]).
Qed.

(** The decision after a failed attempt, and the wait for the next one. *)
Lemma on_time_retry t now a bo err wait draw delay applied now' :
  on_time (mkTimed t now a bo) → th_phase t = PFailed err → draw_ok draw → retryDelayAndRetryAfter draw err bo = (delay, applied) →
  (if waits t err then blocks (earliest ctx (now + delay)) now now' else now' = now) →
  on_time (mkTimed (decide_retry t err wait) now' a (Z.min (bo * 2) Second)).
Proof using Htimeout.
  intros [H1 H2 H3 H4 H5] Ht Hdraw Hdelay Hwait. cbn [tm_thread tm_now tm_attempt tm_backoff] in *.
  pose proof (retryDelay_range _ _ _ _ _ H2 Hdraw Hdelay) as Hd. unfold maxReplyRetryAfterDelay in Hd.
  assert (0 ≤ delay) as Hd0 by (unfold Millisecond in Hd; lia).
  assert (50 * Millisecond ≤ Z.min (bo * 2) Second ≤ Second) as Hbo by (unfold Second, Millisecond in *; lia).
  pose proof (attempts_call_over t H1) as Hover. unfold phase_over in H3. rewrite Ht in H3.
  destruct H4 as [?|(d & -> & Hda & Hdc)]; [congruence |].
  assert (now ≤ now' ∧ ∀ c, ctx = Some c → now' ≤ Z.max t0 c) as [Hge Hctx].
  { destruct (waits t err); [|subst; split; [lia | done]]. destruct Hwait as [Hge Hle]. split; [done |]. intros c Hc.
    specialize (Hle _ eq_refl). specialize (H5 c Hc). rewrite Hc in Hle. lia. }
  assert (now' ≤ now + (if waits t err then 5 * Second else 0)) as Hle.
  { destruct (waits t err); [|subst; lia]. destruct Hwait as [_ Hle]. specialize (Hle _ eq_refl). destruct ctx; lia. }
  unfold waits in Hle, Hwait. unfold decide_retry.
  assert (∀ u r, now' ≤ call_over (th_call t) →
    on_time (mkTimed (mkThread (th_call t) (th_left t) u (th_refreshed t) (PDone r) (th_log t)) now' (Some d) (Z.min (bo * 2) Second))) as Hstop.
  { intros u r Hn. split; cbn [tm_thread tm_now tm_attempt tm_backoff]; [done | done | by unfold phase_over; cbn; lia | | done].
    right. by exists d. }
  destruct (isRetryableReplyError err (cl_key (th_call t))); cbn [negb andb] in *; [|apply Hstop; lia]. cbn [th_left].
  destruct (th_left t) as [|n] eqn:El; cbn [Nat.eqb negb] in *; [apply Hstop; lia |].
  assert (attempts_over t + clientTimeout + 5 * Second ≤ t0 + Z.of_nat (cl_retries (th_call t) - n) * (clientTimeout + 5 * Second)) as Hnext.
  { unfold attempts_over. rewrite El. replace (cl_retries (th_call t) - n)%nat with (S (cl_retries (th_call t) - S n)) by lia.
    rewrite Nat2Z.inj_succ. lia. }
  destruct wait as [c|].
  - apply Hstop. unfold call_over, Second, Millisecond in *. nia.
  - split; cbn [tm_thread tm_now tm_attempt tm_backoff th_left th_call]; [lia | done | | by left | done].
    unfold phase_over, attempts_over. cbn [th_phase th_call th_left]. lia.
Qed.

Lemma timed_step_on_time x y : on_time x → timed_step x y → on_time y.
Proof using Htimeout.
  intros Hx Hs. pose proof Hx as [H1 H2 H3 H4 H5]. destruct Hs as [t now a bo callers ol t' Ht Hs|t now a bo callers ol t' q Ht Hs
    |t now a bo callers ol t' q sha rp c e now' Ht Hs Hb|t now a bo callers ol t' q decoded now' Ht Hs Hb Hd
    |t now a bo err wait draw delay applied now' Ht Hdraw Hdelay Hwait]; cbn [tm_thread tm_now tm_attempt tm_backoff] in *;
    [| | | |by eapply on_time_retry].
  - apply tstep_attempt in Hs as (Hc & Hl & Hp); [|intros e; congruence].
    apply (on_time_attempt (mkTimed t now a bo)); try done; [unfold is_done; cbn; by rewrite Ht | | apply blocks_refl].
    destruct (requestContext_bound now) as (d & Hd & Hle & Hctx). exists d. split_and!; [done | | done].
    unfold phase_over in H3. rewrite Ht in H3. cbn. lia.
  - apply tstep_attempt in Hs as (Hc & Hl & Hp); [|intros e He; by destruct Ht; congruence].
    apply (on_time_attempt (mkTimed t now a bo)); try done; [unfold is_done; cbn; by destruct Ht as [-> | ->] | | apply blocks_refl].
    destruct H4 as [?|?]; [|done]. destruct Ht; congruence.
  - apply tstep_attempt in Hs as (Hc & Hl & Hp); [|intros e'; congruence].
    apply (on_time_attempt (mkTimed t now a bo)); try done; [unfold is_done; cbn; by rewrite Ht |].
    destruct H4 as [?|?]; [congruence | done].
  - apply tstep_attempt in Hs as (Hc & Hl & Hp); [|intros e; congruence].
    apply (on_time_attempt (mkTimed t now a bo)); try done; [unfold is_done; cbn; by rewrite Ht | |].
    + destruct H4 as [?|?]; [congruence | done].
    + by eapply drain_blocks.
Qed.
End timed.

(** C9: a call is over in time.  Whatever the network and the other goroutines do, a call never gets past its retries plus
    one times the client's timeout plus its retries times five seconds after its start: the discovery of the epoch,
    the request, its replay and the reading of the answer share the timeout of their attempt, also when the epoch
    changes.  And it never gets past the deadline of the caller's context. *)
Theorem call_over_in_time {T} (secret : option gostring) (http1ProbeOnly : bool) (url_ok : gostring → bool)
    (ParseTime : gostring → option Z) (answers : wireRequest → result goerror response → Prop) (reads : response → bodyRun T → Prop)
    (clientTimeout optsTimeout : Z) (ctx : option Z) (cl : call) (t0 : Z) (x : timed) :
  0 < clientTimeout →
  timed_steps secret http1ProbeOnly url_ok ParseTime answers reads clientTimeout optsTimeout ctx (start_call cl t0) x →
  tm_now x ≤ t0 + (Z.of_nat (cl_retries cl) + 1) * clientTimeout + Z.of_nat (cl_retries cl) * (5 * Second) ∧
  ∀ c, ctx = Some c → tm_now x ≤ Z.max t0 c.
Proof.
  intros Hpos Hs. assert (on_time clientTimeout ctx t0 x ∧ th_call (tm_thread x) = cl) as [[H1 _ H3 _ H5] Hcl].
  { remember (start_call cl t0) as x0 eqn:E. induction Hs as [x|x y z _ IH Hstep]; subst.
    - split; [|done]. split; cbn; [done | unfold Second, Millisecond; lia | | by left | intros c _; lia].
      unfold phase_over, attempts_over. cbn. rewrite Nat.sub_diag. lia.
    - destruct (IH eq_refl) as [IH1 IH2]. split; [by eapply timed_step_on_time |].
      apply timed_step_tstep in Hstep as (callers & ol & [-> _]%tstep_log). done. }
  split; [|done]. pose proof (attempts_call_over clientTimeout Hpos t0 _ H1) as Hover. rewrite Hcl in Hover.
  unfold phase_over in H3. rewrite Hcl in H3. unfold call_over, Second, Millisecond in *. destruct (th_phase (tm_thread x)); lia.
Qed.

(** An unsigned POST whose answer never comes: the attempt ends with its timeout. *)
Definition silent_call : call := post_call false PathReply (go "{}") (SHA256HexBytes (go "{}")) contentTypeJSON false 1.
Definition silent_answers (_ : wireRequest) (a : result goerror response) : Prop := a = Err (EOther (go "deadline exceeded")).
Abbreviation silent_steps := (timed_steps None false (λ _, true) (λ _, None) silent_answers (λ resp b, b = plain_run 0 resp)
  (30 * Second) (30 * Second) None).

Lemma silent_run : ∃ x, silent_steps (start_call silent_call 0) x ∧ is_done (tm_thread x) = true ∧ tm_now x = 30 * Second.
Proof.
  eexists. split; [|split].
  - eapply timed_snoc; [eapply timed_snoc; [eapply timed_snoc; [eapply timed_snoc; [apply timed_nil |] |] |] |].
    + eapply (td_build _ _ _ _ _ _ _ _ _ _ _ _ _ []); [reflexivity |]. eapply t_build_unsigned; reflexivity.
    + eapply (td_prompt _ _ _ _ _ _ _ _ _ _ _ _ _ []); [right; reflexivity |]. eapply t_send. reflexivity.
    + eapply (td_receive _ _ _ _ _ _ _ _ _ _ _ _ _ [] _ _ _ (30 * Second) (30 * Second)); [reflexivity | | |].
      * eapply (t_receive _ _ _ _ _ _ [] _ _ (Err (EOther (go "deadline exceeded"))) 0 (plain_run 0 mismatch_response)); [reflexivity | reflexivity |].
        intros resp H. discriminate H.
      * split; [by vm_compute |]. intros d [= <-]. by vm_compute.
      * apply blocks_refl.
    + eapply (td_retry _ _ _ _ _ _ _ _ _ _ _ _ _ _ None (λ x, x)); [reflexivity | intros x Hx; lia | reflexivity | reflexivity].
  - reflexivity.
  - reflexivity.
Qed.

Lemma call_over_in_time_witness : ∃ x, silent_steps (start_call silent_call 0) x ∧ tm_now x ≤ 30 * Second.
Proof.
  destruct silent_run as (x & Hs & _). exists x. split; [exact Hs |].
  destruct (call_over_in_time None false (λ _, true) (λ _, None) silent_answers (λ resp b, b = plain_run 0 resp) (30 * Second) (30 * Second)
    None silent_call 0 x) as [H _]; [reflexivity | exact Hs | exact H].
Defined.
